(* ===== verification/_CoqProject ===== *)
-Q . S2P
Prelude.v
Bytes.v
HashRing.v
Hashlib.v
Pool.v
SlotMap.v
Types.v
Rpc.v
JsonCodec.v
RpcServer.v
Directory.v
Discovery.v
Runtime.v
Keys.v
DiskStore.v
Transport.v
DataPlane.v
Config.v
Metrics.v
Tier.v
Coherence.v
StorageServer.v
Lifecycle.v
Exposition.v
Bench.v
World.v
SlotStore.v
SlotSafety.v
SlotSteps.v
SlotVisible.v
SlotRace.v
Store.v
StoreV2.v
Registration.v
P2P.v
P2PSteps.v
P2PVisible.v
Incoherence.v
Central.v
FailedPush.v
Hybrid.v
Api.v
Stats.v
BenchSweep.v
BenchReport.v
BenchDist.v
BenchTools.v
