(* ===== verification/Prelude.v ===== *)
(** * PeerCache: a shallow embedding and its correctness theorems

    PeerCache (src/python/peercache) is a distributed cache of KV pages for
    inference servers.  Every node runs a [PeerCacheStore] (store.py); the
    nodes find each other through an embedded discovery service
    (discovery.py), agree on the owners of a key through a consistent-hash
    ring (hashring.py, server.py), and move page bytes with one-sided reads
    and writes (transport.py).  Where a page lies is either recorded in a
    sharded directory (directory.py; modes p2p, centralized and hybrid, with
    pages in a pool, pool.py, and optionally on disk, diskstore.py, or on
    dedicated storage servers, storage_server.py) or computed from its key
    (mode slotmap, slotmap.py).  Control messages are framed RPCs (rpc.py,
    types.py); config.py and metrics.py hold the settings and the counters;
    bench/ measures all of it, in one process, on two hosts and against
    another system.

    ** How the code is modelled

    Python functions become Rocq functions; methods take and return the
    object's state, a record with the fields of the class.  Exceptions are
    values of [pyres] ([Ret] or [Raise]).  Dictionaries are [gmap]s, or
    association lists where the order counts ([OrderedDict]).  Memory is a
    function from addresses to bytes, integers are [Z], and the widths of the
    [struct] formats are checked where the code packs them.  A lost message,
    a refused connection or a broken link is an [attempt] given to the
    operation, so every theorem quantifies over network behaviour.  Clock
    readings (one for each RPC a handler times, in Discovery) and measured
    times are arguments.  One store call is one step;
    the state machines interleave whole calls of all nodes.  SlotRace goes
    below that: it runs the slot region's calls as sequences of single memory
    accesses of several threads.

    ** The files

    - Prelude: ordered dictionaries, slices, shared tactics and hints.
    - Bytes: [struct] packing, UTF-8, host memory, [memmove].
    - HashRing: [ConsistentHashRing]; Hashlib: the digests (class [Hashlib]).
    - Pool: [PublishedPool]; SlotMap: headers, gates, way selection and
      [SlotRegion]; DiskStore: index, write queue, writer thread, recovery.
    - Types: wire values, [NodeInfo], [DataLocation]; Rpc: frames, dispatch,
      client retries, [RpcClientPool] (the codec is the class [Codec]);
      JsonCodec: the JSON fallback, an instance of it; RpcServer: the server's
      threads from [start] to [stop], the client and its socket.
    - Directory: [DirectoryShard] and [DirectoryClient]; Discovery: registry,
      master choice, registration and heartbeat rounds.
    - Runtime: [NodeRuntime]'s reaction to membership; Config: parsing,
      normalisation and validation; Metrics: counters and latency windows.
    - Transport: the [TcpTransport] server and client, rails, batches;
      DataPlane: the methods every transport has (class [TransportOps]), the
      TCP transport with its socket cache, the RDMA transport in front of an
      engine, the choice between them.
    - Keys: key suffixing, page results, packing of multi-buffer pages.
    - Tier: what a node's pool, disk and directory entries do together
      (the private methods of [PeerCacheStore]); StorageServer: the handlers
      of [StorageServer]; World: all nodes, the fabric and the data RPCs.
    - SlotStore: the slot-map mode of [PeerCacheStore]; Store: the directory
      modes and the public API (v1 and generic calls); StoreV2: the v2 calls
      over several host pools.
    - Coherence, P2P, P2PSteps, P2PVisible: the peer-to-peer mode as a state
      machine, its invariant and its theorems; SlotSafety, SlotSteps,
      SlotVisible: the same for the slot-map mode, SlotRace: overlapping
      calls on one region; Central: pushes to the storage tier; FailedPush: a
      push whose WRITE is lost; Hybrid: writes with two copies; Api: the v1 and v2 calls over location caches;
      Incoherence: a concrete cluster, and runs outside the theorems'
      hypotheses.
    - Lifecycle: construction, start, heartbeats and stop of a node, the
      embedded masters, what a restarted process begins with; Registration:
      the host application's buffers and pools ([register_mem_pool_host] and
      its relatives); Exposition: gauges, Prometheus lines, HTTP routes;
      Stats: [get_stats].
    - Bench: the measuring code of peercache.bench (histogram, get worker,
      aggregation, the stand-in host pool); BenchSweep: sizing, budget, keys
      and workers of the sweeps (hicache.py); BenchReport: result rows, the
      peak note and the modes; BenchDist: [serve] and [drive] (dist.py);
      BenchTools: the microbenchmark, the Mooncake adapter's processes, the
      comparison and the transport table.

    ** What the theorems show

    - End to end: no fetch reports a hit with bytes that were not published
      under its key ([slotmap_no_dirty_hit], [p2p_no_dirty_hit]) and a publish
      that reports success can be fetched ([slotmap_write_visible],
      [p2p_write_visible]), in every reachable state; the same for pages pushed
      to the storage tier ([central_no_dirty_hit], [storage_write_visible]).
      Through the public calls, with location caches on, as long as no pool
      loses a page: [cached_get_no_dirty_hit] for v1, [v2_get_no_dirty_hit] for
      pages of several buffers.  The conditions are stated with each theorem;
      the main ones are listed below.
    - Overlapping calls on a slot region: in every interleaving of the owner's
      own calls a slot whose header passes the gate is whole
      ([gate_never_half_written]; not so while a remote WRITE is served,
      [served_write_dirty_hit]).  [unchanged_header_read_sound] says what a
      second look at the header would give, which the code does not take;
      [solo_thread_sequential] ties the threads to the sequential definitions.
    - Life of a node: start-up joins at the first answering master
      ([register_blocking_joins]), rings and resolver follow the membership, and
      the node stays on its own ring while masters answer within a lease
      ([node_routing_follows_members]), a host has one master
      ([one_master_per_host]), registering memory creates the pool once
      ([registration_creates_pool_once]).
    - Components: the pool's pages are in bounds, disjoint and exactly
      accounted, and [publish] refines an LRU cache; [SlotRegion] refines a
      set-associative cache; the ring is determined by the membership, finds
      the clockwise successor and moves no more keys than it must; the
      registry refines one lease per node; the disk store stays within its
      budget, returns only what was put and survives a flush and reopen; directory put, get and delete have the
      stated effect under any link behaviour; the RPC server answers in order
      for every chunking, the client's retries have the stated outcomes, and
      a pooled client is never shared; the JSON fallback loses nothing of the
      values it is meant for ([json_roundtrip]) and a stopped server answers
      only requests in flight ([stop_bounds_requests]); the data server touches registered
      memory only, batched reads deliver the right bytes, and an idle socket
      whose peer is gone costs at most one operation ([stale_sockets_cost_once]).
    - Probes: [exists_v2_sound] says which pages the v2 probe vouches for.
    - Bounds and termination: [slot_region_bounds], [connections_terminate].
    - Benchmarks: merging histograms loses nothing, percentiles are nearest
      ranks, precision and memory are bounded, the counters balance; an
      accepted sweep fits its buffers and budget ([get_sweep_sound]), its rows
      add up ([get_rows_sound]), a run of several processes does not depend on
      the order of their reports ([drive_order_independent]), no child process
      is left behind ([mooncake_no_orphans]).
    - Errors, in general: [failed_write_stale_page] (a push whose WRITE is lost
      is acknowledged and read back as what the slot held before),
      [hybrid_both_lost_write] and [hybrid_both_single_copy] (what
      [write_policy: both] does instead of two copies).
    - Errors, as concrete runs: [ingest_fallback_dirty_hit],
      [torn_read_dirty_hit] and [served_write_dirty_hit] are hits with wrong
      bytes after a failed WRITE and under overlapping calls;
      [slow_members_drops_self] a node that takes itself off its ring; [halted_master_not_replaced],
      [restart_leaves_disk_unlisted] and [capacity_gauge_needs_pages] show a
      host without its master, disk pages nobody can find after a restart and
      an empty pool reported as absent.  [stale_location_dirty_hit] and
      [promote_pair_dirty_hit] show hits with wrong bytes when the location
      caches are on and pages are evicted, or two pages are promoted into a
      pool with room for one; Incoherence has two more runs of this kind,
      SlotVisible an acknowledged write that stays invisible.
      [json_reserved_key] is a request the fallback codec changes,
      [set_sweep_repeats_keys] a set benchmark that measures skipped copies.

    ** Conditions of the end-to-end theorems

    - Slot map: keys do not collide in the 128 bits of their hash, and the
      memory of a new region, which the code does not clear, holds no slot that
      begins with the header tag ([blank_region]); its other content is
      arbitrary.  Visibility needs that the bucket holds one copy of the key.
    - Directory modes: no node has a disk tier ([fresh_net]), every directory
      request reaches its shard though its reply may be lost ([all_taken]; the
      code sends puts and deletes best-effort), the nodes route alike and a key
      has one length.  The location caches are off, or no pool loses a page.
    - Storage tier: a push is of one new page to a server with room and gets
      through, or reaches no server at all ([central_step]).
    - SlotRace: only the owner's calls overlap ([race_start]).

    ** Fuel

    [recv_loop], [serve_conn] and [serve_data_conn] take fuel;
    [connections_terminate] proves that [n], [bytes/4 + 1] and
    [bytes/17 + 1] turns are enough.  [bisect_go] and [get_nodes_loop] are
    given the number of ring points (their specifications are proved for
    that fuel), [page_blocks] and [chunks] the length of the list they cut,
    [chunk_ranges] the working set, the JSON scanner twice the length of its
    text and two more ([json_roundtrip] shows it is enough for every encoded
    value).  The loops that wait ([register_loop], the workers, [wait_until],
    [serve_loop], [collect]) run over the list of passes they are given;
    [None] says that the list ended before the wait did.  Every other recursion is structural.

    ** Parameters

    The digests of [hashlib] (class [Hashlib], with their lengths), the ring's
    hash (class [RingHash]), the iteration order of a Python set (class
    [SetIter]), the msgpack codec (class [Codec], decoding inverts
    encoding; the JSON fallback is an instance), the decimal logarithm of the benchmark histogram (class
    [Log10], exact below 10^15) and the RDMA engine ([EngineOps]) are not
    under src/; instances in the examples show the assumptions can hold.

    ** Not modelled

    The C++ RDMA engine is a parameter of DataPlane ([EngineOps]); the world
    uses the TCP implementation of the same interface.  Threads, sockets and
    timers appear only as the steps above; overlapping calls are modelled for
    one slot region, everywhere else a batch sees memory between whole
    operations.  Logging, the digits of the floats in the metrics, the
    dashboard page, the construction of benchmark clusters (the sweeps take
    its outcome), the HiCache table and the report files, argument parsing
    and the examples are input and output around the modelled code and are
    not modelled.  The peer-to-peer state machine has no disk tier, and the
    centralized one has no push that breaks half-way; the disk tier, batches
    and broken pushes are modelled in Tier, StorageServer and Store and appear
    in FailedPush and in the runs of Central and Incoherence. *)
From stdpp Require Export base gmap strings list sorting pretty fin_maps list_numbers.
From Stdlib Require Export ZArith Lia.
#[export] Set Warnings "-clear-no-such-hyp".
#[global] Open Scope Z_scope.

(** ** Automation *)

Create HintDb peercache.
Create Rewrite HintDb pylen.

(** Split the boolean tests of the code and turn them into arithmetic facts. *)
Ltac bool_cases :=
  repeat match goal with
  | H : (_ && _) = true |- _ => apply andb_true_iff in H; destruct H
  | H : (_ && _) = false |- _ => apply andb_false_iff in H
  | H : (_ || _) = false |- _ => apply orb_false_iff in H; destruct H
  | H : (_ || _) = true |- _ => apply orb_true_iff in H
  | H : negb _ = true |- _ => apply negb_true_iff in H
  | H : negb _ = false |- _ => apply negb_false_iff in H
  | H : (_ <? _) = true |- _ => apply Z.ltb_lt in H
  | H : (_ <? _) = false |- _ => apply Z.ltb_ge in H
  | H : (_ <=? _) = true |- _ => apply Z.leb_le in H
  | H : (_ <=? _) = false |- _ => apply Z.leb_gt in H
  | H : (_ >? _) = true |- _ => rewrite Z.gtb_ltb in H; apply Z.ltb_lt in H
  | H : (_ >? _) = false |- _ => rewrite Z.gtb_ltb in H; apply Z.ltb_ge in H
  | H : (_ =? _) = true |- _ => apply Z.eqb_eq in H
  | H : (_ =? _) = false |- _ => apply Z.eqb_neq in H
  | H : bool_decide _ = true |- _ => apply bool_decide_eq_true in H
  | H : bool_decide _ = false |- _ => apply bool_decide_eq_false in H
  end.

(** Prove a decidable closed proposition by evaluation. *)
Ltac decide_vm :=
  cbv zeta;
  match goal with
  | |- ?P => refine (bool_decide_unpack P _); vm_compute; exact I
  end.

(** Rewrite lengths to a normal form and leave the arithmetic to [lia]. *)
Ltac len_simpl :=
  autorewrite with pylen in *;
  rewrite ?length_app, ?length_fmap, ?length_take, ?length_drop,
    ?length_replicate, ?length_insert, ?length_seqZ in *; simpl in *.
Ltac len_solve := len_simpl; lia.

(** ** Exceptions

    A call that can raise returns [Ret] with its value or [Raise] with the
    exception's class.  [IllTyped] is not a Python exception: it marks a value
    whose type contradicts the source's annotation in a place where Python does
    not check it, which the typed model does not follow further. *)

Inductive exn :=
  | StructError
  | KeyError
  | TypeError
  | ValueError
  | IndexError
  | ConnectionError
  | OSError
  | RuntimeError
  | OverflowError
  | AttributeError
  | AssertionError
  | ZeroDivisionError
  | IllTyped.

Inductive pyres (A : Type) :=
  | Ret (a : A)
  | Raise (e : exn).
Arguments Ret {A} _.
Arguments Raise {A} _.

#[export] Instance exn_eq_dec : EqDecision exn.
Proof. solve_decision. Defined.

#[export] Instance pyres_ret : MRet pyres := @Ret.
#[export] Instance pyres_bind : MBind pyres := λ A B f r,
  match r with Ret a => f a | Raise e => Raise e end.

(** ** Python lists *)

Section pylist.
Context {A : Type}.
Implicit Types l : list A.

(** [l.pop()]: the last element and the rest; [None] for the empty list. *)
Fixpoint pop_last l : option (A * list A) :=
  match l with
  | [] => None
  | x :: l' =>
      match pop_last l' with
      | None => Some (x, [])
      | Some (y, l'') => Some (y, x :: l'')
      end
  end.

Lemma pop_last_Some l x l' : pop_last l = Some (x, l') ↔ l = l' ++ [x].
Proof.
  revert x l'. induction l as [|y l IH]; intros x l'; simpl.
  - split; [done|]. by destruct l'.
  - destruct (pop_last l) as [[z l'']|] eqn:E.
    + pose proof (proj1 (IH z l'') eq_refl) as ->. split.
      * by intros [= <- <-].
      * rewrite app_comm_cons. intros Heq%app_inj_tail. by destruct Heq as [<- ->].
    + destruct l as [|w l].
      * split; [by intros [= <- <-]|]. destruct l' as [|? [|]]; naive_solver.
      * simpl in E. destruct (pop_last l) as [[]|]; done.
Qed.

Lemma pop_last_None l : pop_last l = None ↔ l = [].
Proof.
  destruct l as [|x l]; simpl; [done|]. destruct (pop_last l) as [[]|]; done.
Qed.

Lemma pop_last_snoc l x : pop_last (l ++ [x]) = Some (x, l).
Proof. by apply pop_last_Some. Qed.
End pylist.

(** Python's slice [l[i:j]] for non-negative bounds. *)
Definition slice {A} (l : list A) (i j : Z) : list A :=
  take (Z.to_nat (j - i)) (drop (Z.to_nat i) l).

Definition zlength {A} (l : list A) : Z := Z.of_nat (length l).

Definition sumZ (l : list Z) : Z := foldr Z.add 0 l.

Lemma sumZ_app l1 l2 : sumZ (l1 ++ l2) = sumZ l1 + sumZ l2.
Proof. induction l1; simpl; lia. Qed.

Lemma sumZ_perm l1 l2 : l1 ≡ₚ l2 → sumZ l1 = sumZ l2.
Proof. induction 1; simpl; lia. Qed.

Lemma sumZ_nonneg l : Forall (λ x, 0 ≤ x) l → 0 ≤ sumZ l.
Proof. induction 1; simpl; lia. Qed.

Lemma sumZ_elem l x : Forall (λ x, 0 ≤ x) l → x ∈ l → x ≤ sumZ l.
Proof.
  intros Hf [l1 [l2 ->]]%list_elem_of_split.
  apply Forall_app in Hf as [H1 [? H2]%Forall_cons].
  rewrite sumZ_app. simpl. apply sumZ_nonneg in H1, H2. lia.
Qed.

(** ** Ordered dictionaries

    Python's [dict] and [OrderedDict] keep their entries in insertion order. *)

Section odict.
Context {K V : Type} `{EqDecision K}.
Implicit Types (d : list (K * V)) (k : K) (v : V).

Fixpoint od_get d k : option V :=
  match d with
  | [] => None
  | (k', v) :: d' => if decide (k = k') then Some v else od_get d' k
  end.

(** [d[k] = v]: in place when the key exists, at the end otherwise. *)
Fixpoint od_set d k v : list (K * V) :=
  match d with
  | [] => [(k, v)]
  | (k', v') :: d' =>
      if decide (k = k') then (k, v) :: d' else (k', v') :: od_set d' k v
  end.

(** [d.pop(k, None)], without the value. *)
Fixpoint od_del d k : list (K * V) :=
  match d with
  | [] => []
  | (k', v') :: d' =>
      if decide (k = k') then d' else (k', v') :: od_del d' k
  end.

(** [d.move_to_end(k)] for a key of [d]. *)
Definition od_move_to_end d k : list (K * V) :=
  match od_get d k with
  | Some v => od_del d k ++ [(k, v)]
  | None => d
  end.

Definition od_mem d k : bool := bool_decide (is_Some (od_get d k)).

Definition od_keys d : list K := d.*1.

Lemma od_get_elem d k v : od_get d k = Some v → (k, v) ∈ d.
Proof.
  induction d as [|[k' v'] d IH]; simpl; [done|].
  case_decide; intros; simplify_eq; set_solver.
Qed.

Lemma od_get_None d k : od_get d k = None ↔ k ∉ od_keys d.
Proof.
  unfold od_keys. induction d as [|[k' v'] d IH]; simpl.
  - split; [intros _; apply not_elem_of_nil|done].
  - rewrite not_elem_of_cons. case_decide; naive_solver.
Qed.

Lemma od_get_is_Some d k : is_Some (od_get d k) ↔ k ∈ od_keys d.
Proof.
  destruct (decide (k ∈ od_keys d)) as [Hin|Hin].
  - split; [done|]. intros _. destruct (od_get d k) eqn:E; [done|].
    by apply od_get_None in E.
  - split; [|done]. apply od_get_None in Hin as ->. by intros [? ?].
Qed.

Lemma od_elem_get d k v : NoDup (od_keys d) → (k, v) ∈ d → od_get d k = Some v.
Proof.
  unfold od_keys. induction d as [|[k' v'] d IH]; simpl; intros Hnd Hin.
  - by apply not_elem_of_nil in Hin.
  - apply NoDup_cons in Hnd as [Hn Hnd].
    apply elem_of_cons in Hin as [[= -> ->]|Hin]; [by case_decide|].
    case_decide as Hk; [subst|by apply IH].
    destruct Hn. apply list_elem_of_fmap. by exists (k', v).
Qed.

Lemma od_get_set_eq d k v : od_get (od_set d k v) k = Some v.
Proof. induction d as [|[k' v'] d IH]; simpl; repeat (case_decide; simpl); done. Qed.

Lemma od_get_set_ne d k k' v : k ≠ k' → od_get (od_set d k v) k' = od_get d k'.
Proof.
  intros. induction d as [|[k'' v''] d IH]; simpl; repeat (case_decide; simpl);
    simplify_eq; done.
Qed.

Lemma od_get_set d k k' v :
  od_get (od_set d k v) k' = if decide (k = k') then Some v else od_get d k'.
Proof. case_decide; [subst; apply od_get_set_eq|by apply od_get_set_ne]. Qed.

Lemma od_get_del_ne d k k' : k ≠ k' → od_get (od_del d k) k' = od_get d k'.
Proof.
  intros. induction d as [|[k'' v''] d IH]; simpl; repeat (case_decide; simpl);
    simplify_eq; done.
Qed.

Lemma od_get_del_eq d k : NoDup (od_keys d) → od_get (od_del d k) k = None.
Proof.
  unfold od_keys. induction d as [|[k' v'] d IH]; simpl; [done|].
  intros [Hn Hnd]%NoDup_cons. case_decide; subst.
  - by apply od_get_None.
  - simpl. case_decide; [done|]. by apply IH.
Qed.

Lemma od_get_app d1 d2 k :
  od_get (d1 ++ d2) k =
    match od_get d1 k with Some v => Some v | None => od_get d2 k end.
Proof. induction d1 as [|[k' v'] d1 IH]; simpl; [done|]. by case_decide. Qed.

Lemma od_get_move_to_end d k k' :
  NoDup (od_keys d) → od_get (od_move_to_end d k) k' = od_get d k'.
Proof.
  intros Hnd. unfold od_move_to_end. destruct (od_get d k) as [v|] eqn:E; [|done].
  rewrite od_get_app. destruct (decide (k = k')) as [<-|Hne]; simpl.
  - rewrite od_get_del_eq by done. case_decide; done.
  - rewrite od_get_del_ne by done. case_decide; [congruence|].
    by destruct (od_get d k').
Qed.

Lemma od_del_perm d k v : od_get d k = Some v → d ≡ₚ (k, v) :: od_del d k.
Proof.
  induction d as [|[k' v'] d IH]; simpl; [done|].
  case_decide; intros Hg; simplify_eq; [done|].
  rewrite (IH Hg) at 1. apply Permutation_swap.
Qed.

Lemma od_del_None d k : od_get d k = None → od_del d k = d.
Proof.
  induction d as [|[k' v'] d IH]; simpl; [done|]. case_decide; [done|].
  intros. by rewrite IH.
Qed.

Lemma od_move_to_end_perm d k : od_move_to_end d k ≡ₚ d.
Proof.
  unfold od_move_to_end. destruct (od_get d k) as [v|] eqn:E; [|done].
  rewrite (od_del_perm _ _ _ E) at 2. by rewrite Permutation_app_comm.
Qed.

Lemma od_set_fresh d k v : od_get d k = None → od_set d k v = d ++ [(k, v)].
Proof.
  induction d as [|[k' v'] d IH]; simpl; [done|]. case_decide; [done|].
  intros. by rewrite IH.
Qed.

Lemma od_del_app_fresh d k v : od_get d k = None → od_del (d ++ [(k, v)]) k = d.
Proof.
  induction d as [|[k' v'] d IH]; simpl; [by case_decide|]. case_decide; [done|].
  intros. by rewrite IH.
Qed.

(** Setting a new key and moving it to the end appends it. *)
Lemma od_move_set_fresh d k v :
  od_get d k = None → od_move_to_end (od_set d k v) k = d ++ [(k, v)].
Proof.
  intros Hf. unfold od_move_to_end. by rewrite od_get_set_eq, od_set_fresh, od_del_app_fresh.
Qed.

Lemma od_keys_perm d1 d2 : d1 ≡ₚ d2 → od_keys d1 ≡ₚ od_keys d2.
Proof. unfold od_keys. by intros ->. Qed.

Lemma od_keys_nodup_perm d1 d2 :
  d1 ≡ₚ d2 → NoDup (od_keys d1) → NoDup (od_keys d2).
Proof. intros Hp. by rewrite (od_keys_perm _ _ Hp). Qed.

Lemma od_get_perm d1 d2 k :
  d1 ≡ₚ d2 → NoDup (od_keys d1) → od_get d1 k = od_get d2 k.
Proof.
  intros Hp Hnd. apply option_eq. intros v. split; intros Hg.
  - apply od_elem_get; [by eapply od_keys_nodup_perm|].
    rewrite <-Hp. by apply od_get_elem.
  - apply od_elem_get; [done|]. rewrite Hp. by apply od_get_elem.
Qed.

Lemma od_keys_set d k v :
  od_keys (od_set d k v) = od_keys d ++ (match od_get d k with Some _ => [] | None => [k] end).
Proof.
  unfold od_keys. induction d as [|[k' v'] d IH]; csimpl; [done|].
  case_decide; csimpl; subst; [by rewrite app_nil_r|]. by rewrite IH.
Qed.

Lemma od_keys_set_nodup d k v : NoDup (od_keys d) → NoDup (od_keys (od_set d k v)).
Proof.
  intros Hnd. rewrite od_keys_set. destruct (od_get d k) eqn:E.
  - by rewrite app_nil_r.
  - apply NoDup_app. split; [done|]. split.
    + intros x Hx ->%list_elem_of_singleton. by apply od_get_None in E.
    + apply NoDup_singleton.
Qed.

Lemma od_keys_del_nodup d k : NoDup (od_keys d) → NoDup (od_keys (od_del d k)).
Proof.
  destruct (od_get d k) as [v|] eqn:E.
  - rewrite (od_keys_perm _ _ (od_del_perm _ _ _ E)). simpl.
    by intros [_ ?]%NoDup_cons.
  - by rewrite od_del_None.
Qed.

Lemma od_keys_move_nodup d k :
  NoDup (od_keys d) → NoDup (od_keys (od_move_to_end d k)).
Proof. by rewrite (od_keys_perm _ _ (od_move_to_end_perm d k)). Qed.

Lemma od_get_del d k k' :
  NoDup (od_keys d) →
  od_get (od_del d k) k' = if decide (k = k') then None else od_get d k'.
Proof.
  intros. case_decide; [subst; by apply od_get_del_eq|by apply od_get_del_ne].
Qed.

Lemma od_set_perm_Some d k v v' :
  od_get d k = Some v' → od_set d k v ≡ₚ (k, v) :: od_del d k.
Proof.
  induction d as [|[k' w] d IH]; simpl; [done|].
  case_decide; intros Hg; simplify_eq; [done|].
  rewrite (IH Hg). apply Permutation_swap.
Qed.
End odict.

(** Mapping a function over the values commutes with the key operations. *)
Section odict_fmap.
Context {K V W : Type} `{EqDecision K} (f : V → W).
Abbreviation vmap := (fmap (M:=list) (λ e : K * V, (e.1, f e.2))).

Lemma od_get_vmap (d : list (K * V)) k : od_get (vmap d) k = f <$> od_get d k.
Proof. induction d as [|[k' v] d IH]; csimpl; [done|]. by case_decide. Qed.

Lemma od_del_vmap (d : list (K * V)) k : od_del (vmap d) k = vmap (od_del d k).
Proof. induction d as [|[k' v] d IH]; csimpl; [done|]. case_decide; csimpl; congruence. Qed.

Lemma od_move_to_end_vmap (d : list (K * V)) k :
  od_move_to_end (vmap d) k = vmap (od_move_to_end d k).
Proof.
  unfold od_move_to_end. rewrite od_get_vmap, od_del_vmap.
  destruct (od_get d k); csimpl; [by rewrite fmap_app|done].
Qed.

Lemma od_keys_vmap (d : list (K * V)) : od_keys (vmap d) = od_keys d.
Proof. unfold od_keys. rewrite <-list_fmap_compose. done. Qed.
End odict_fmap.

#[export] Hint Resolve od_keys_set_nodup od_keys_del_nodup od_keys_move_nodup : peercache.
