(* ===== verification/Bytes.v ===== *)
(** Bytes, the [struct] codecs and host memory.

    A byte is a [Z] between 0 and 255 and a [bytes] object a [list Z].  The
    fixed-width integer formats of Python's [struct] module ([I], [H], [Q],
    little or big endian) are [le_bytes]/[be_bytes] with the range check that
    makes [struct.pack] raise [struct.error].  Host memory, which the sources
    reach through [ctypes.memmove] and [ctypes.string_at], is a function from
    addresses to bytes. *)
From S2P Require Import Prelude.

Definition is_byte (b : Z) : Prop := 0 ≤ b < 256.

(** ** Fixed-width integers *)

Fixpoint le_bytes (n : nat) (z : Z) : list Z :=
  match n with
  | O => []
  | S n' => z mod 256 :: le_bytes n' (z / 256)
  end.

Fixpoint le_val (bs : list Z) : Z :=
  match bs with
  | [] => 0
  | b :: bs' => b + 256 * le_val bs'
  end.

Definition be_bytes (n : nat) (z : Z) : list Z := reverse (le_bytes n z).
Definition be_val (bs : list Z) : Z := le_val (reverse bs).

(** [struct.pack] of one unsigned field of [n] bytes; [None] is [struct.error]. *)
Definition pack_le (n : nat) (z : Z) : option (list Z) :=
  if bool_decide (0 ≤ z < 256 ^ Z.of_nat n) then Some (le_bytes n z) else None.
Definition pack_be (n : nat) (z : Z) : option (list Z) :=
  if bool_decide (0 ≤ z < 256 ^ Z.of_nat n) then Some (be_bytes n z) else None.

Lemma length_le_bytes n z : length (le_bytes n z) = n.
Proof. revert z. induction n; intros; simpl; [done|]. by rewrite IHn. Qed.

Lemma length_be_bytes n z : length (be_bytes n z) = n.
Proof. unfold be_bytes. by rewrite length_reverse, length_le_bytes. Qed.

#[export] Hint Rewrite length_le_bytes length_be_bytes : pylen.

Lemma le_bytes_is_byte n z : Forall is_byte (le_bytes n z).
Proof.
  revert z. induction n; intros; simpl; constructor; [|done].
  apply Z.mod_pos_bound. lia.
Qed.

Lemma le_val_le_bytes n z : 0 ≤ z < 256 ^ Z.of_nat n → le_val (le_bytes n z) = z.
Proof.
  revert z. induction n as [|n IH]; intros z Hz; simpl.
  - simpl in Hz. lia.
  - rewrite IH.
    + pose proof (Z.div_mod z 256). lia.
    + rewrite Nat2Z.inj_succ, Z.pow_succ_r in Hz by lia.
      split; [apply Z.div_pos; lia|]. apply Z.div_lt_upper_bound; lia.
Qed.

Lemma be_val_be_bytes n z : 0 ≤ z < 256 ^ Z.of_nat n → be_val (be_bytes n z) = z.
Proof. unfold be_val, be_bytes. rewrite reverse_involutive. apply le_val_le_bytes. Qed.

Lemma le_val_bound bs :
  Forall is_byte bs → 0 ≤ le_val bs < 256 ^ Z.of_nat (length bs).
Proof.
  unfold is_byte.
  induction 1 as [|b bs Hb _ IH]; cbn [le_val length]; [done|].
  rewrite Nat2Z.inj_succ, Z.pow_succ_r by lia. lia.
Qed.

Lemma le_bytes_le_val bs : Forall is_byte bs → le_bytes (length bs) (le_val bs) = bs.
Proof.
  unfold is_byte. induction 1 as [|b bs Hb _ IH]; simpl; [done|].
  replace ((b + 256 * le_val bs) mod 256) with b.
  - replace ((b + 256 * le_val bs) / 256) with (le_val bs); [by rewrite IH|].
    rewrite Z.mul_comm, Z.div_add, Z.div_small by lia. lia.
  - rewrite Z.mul_comm, Z.mod_add, Z.mod_small by lia. lia.
Qed.

Lemma le_val_inj bs1 bs2 :
  Forall is_byte bs1 → Forall is_byte bs2 → length bs1 = length bs2 →
  le_val bs1 = le_val bs2 → bs1 = bs2.
Proof.
  intros H1 H2 Hl Hv. rewrite <-(le_bytes_le_val _ H1), <-(le_bytes_le_val _ H2).
  by rewrite Hl, Hv.
Qed.

Lemma pack_le_Some n z bs :
  pack_le n z = Some bs ↔ 0 ≤ z < 256 ^ Z.of_nat n ∧ bs = le_bytes n z.
Proof. unfold pack_le. case_bool_decide; naive_solver. Qed.

Lemma pack_be_Some n z bs :
  pack_be n z = Some bs ↔ 0 ≤ z < 256 ^ Z.of_nat n ∧ bs = be_bytes n z.
Proof. unfold pack_be. case_bool_decide; naive_solver. Qed.

(** A [struct.Struct] with several little-endian unsigned fields. *)
Fixpoint pack_fields (fs : list (nat * Z)) : option (list Z) :=
  match fs with
  | [] => Some []
  | (w, z) :: fs' => b ← pack_le w z; bs ← pack_fields fs'; Some (b ++ bs)
  end.

Fixpoint unpack_fields (ws : list nat) (bs : list Z) : list Z :=
  match ws with
  | [] => []
  | w :: ws' => le_val (take w bs) :: unpack_fields ws' (drop w bs)
  end.

Lemma pack_fields_Some fs bs :
  pack_fields fs = Some bs → unpack_fields fs.*1 bs = fs.*2 ∧ length bs = sum_list fs.*1.
Proof.
  revert bs. induction fs as [|[w z] fs IH]; intros bs Hp; csimpl; simplify_eq/=; [done|].
  destruct (pack_le w z) as [b|] eqn:Eb; simplify_eq/=.
  destruct (pack_fields fs) as [bs'|] eqn:Ebs; simplify_eq/=.
  apply pack_le_Some in Eb as [Hz ->]. destruct (IH _ eq_refl) as [Hu Hl].
  rewrite take_app_length', drop_app_length' by by rewrite length_le_bytes.
  rewrite le_val_le_bytes, Hu, length_app, length_le_bytes by done. split; [done|lia].
Qed.

Lemma pack_fields_total fs :
  Forall (λ f, 0 ≤ f.2 < 256 ^ Z.of_nat f.1) fs → is_Some (pack_fields fs).
Proof.
  induction 1 as [|[w z] fs Hz _ IH]; simpl; [by eexists|].
  destruct (pack_le w z) as [b|] eqn:Eb.
  - destruct IH as [bs ->]. simpl. eauto.
  - unfold pack_le in Eb. by case_bool_decide.
Qed.

Lemma pack_fields_range fs bs :
  pack_fields fs = Some bs → Forall (λ f, 0 ≤ f.2 < 256 ^ Z.of_nat f.1) fs.
Proof.
  revert bs. induction fs as [|[w z] fs IH]; intros bs Hp; [done|]. simpl in Hp.
  destruct (pack_le w z) as [b|] eqn:Eb; [|done]. simpl in Hp.
  destruct (pack_fields fs) as [bs'|]; [|done]. constructor; [|by eapply IH].
  by apply pack_le_Some in Eb as [? _].
Qed.

(** The text of a [str] as its UTF-8 bytes: a Rocq [string] already is that
    byte sequence, so [key.encode("utf-8")] is a change of representation. *)
Fixpoint encode_utf8 (s : string) : list Z :=
  match s with
  | EmptyString => []
  | String c s' => Z.of_N (Ascii.N_of_ascii c) :: encode_utf8 s'
  end.

Fixpoint decode_utf8 (bs : list Z) : string :=
  match bs with
  | [] => EmptyString
  | b :: bs' => String (Ascii.ascii_of_N (Z.to_N b)) (decode_utf8 bs')
  end.

Lemma decode_encode_utf8 s : decode_utf8 (encode_utf8 s) = s.
Proof.
  induction s as [|c s IH]; simpl; [done|].
  by rewrite N2Z.id, Ascii.ascii_N_embedding, IH.
Qed.

Lemma length_encode_utf8 s : length (encode_utf8 s) = String.length s.
Proof. induction s; simpl; congruence. Qed.

(** Whether [bytes.decode("utf-8")] accepts the bytes: well-formed UTF-8
    without surrogates or overlong forms. *)
Definition is_cont (b : Z) : bool := (128 <=? b) && (b <=? 191).
Definition within (lo hi b : Z) : bool := (lo <=? b) && (b <=? hi).

Fixpoint utf8_valid (bs : list Z) : bool :=
  match bs with
  | [] => true
  | b :: r1 =>
      if within 0 127 b then utf8_valid r1
      else match r1 with
      | [] => false
      | c :: r2 =>
          if within 194 223 b then is_cont c && utf8_valid r2
          else match r2 with
          | [] => false
          | d :: r3 =>
              if (b =? 224) then within 160 191 c && is_cont d && utf8_valid r3
              else if (b =? 237) then within 128 159 c && is_cont d && utf8_valid r3
              else if within 225 239 b then is_cont c && is_cont d && utf8_valid r3
              else match r3 with
              | [] => false
              | e :: r4 =>
                  if (b =? 240) then within 144 191 c && is_cont d && is_cont e && utf8_valid r4
                  else if (b =? 244) then within 128 143 c && is_cont d && is_cont e && utf8_valid r4
                  else if within 241 243 b then is_cont c && is_cont d && is_cont e && utf8_valid r4
                  else false
              end
          end
      end
  end.

(** [bs.decode("utf-8")]; [None] is [UnicodeDecodeError]. *)
Definition decode_utf8_strict (bs : list Z) : option string :=
  if utf8_valid bs then Some (decode_utf8 bs) else None.

(** ** Host memory *)

Definition mem := Z → Z.

(** [ctypes.string_at(a, n)]. *)
Definition mem_read (m : mem) (a n : Z) : list Z := (λ i, m (a + i)) <$> seqZ 0 n.

(** [ctypes.memmove(a, bs, len(bs))]. *)
Definition mem_write (m : mem) (a : Z) (bs : list Z) : mem := λ x,
  if (a <=? x) && (x <? a + zlength bs)
  then default 0 (bs !! Z.to_nat (x - a)) else m x.

(** [ctypes.memmove(dst, src, n)]: all source bytes are read first. *)
Definition memmove (m : mem) (dst src n : Z) : mem :=
  mem_write m dst (mem_read m src n).

(** Two address ranges [a, a+n) and [b, b+k) have no byte in common. *)
Definition ranges_disjoint (a n b k : Z) : Prop :=
  a + n ≤ b ∨ b + k ≤ a.

Lemma length_mem_read m a n : length (mem_read m a n) = Z.to_nat n.
Proof. unfold mem_read. by rewrite length_fmap, length_seqZ. Qed.

#[export] Hint Rewrite length_mem_read : pylen.

Lemma zlength_mem_read m a n : 0 ≤ n → zlength (mem_read m a n) = n.
Proof. intros. unfold zlength. rewrite length_mem_read. lia. Qed.

Lemma lookup_mem_read m a n (i : nat) :
  Z.of_nat i < n → mem_read m a n !! i = Some (m (a + Z.of_nat i)).
Proof.
  intros. unfold mem_read. rewrite list_lookup_fmap, lookup_seqZ_lt by done. done.
Qed.

Lemma mem_read_ext m1 m2 a n :
  (∀ x, a ≤ x < a + n → m1 x = m2 x) → mem_read m1 a n = mem_read m2 a n.
Proof.
  intros Hext. unfold mem_read. apply list_fmap_ext. intros i x Hx.
  apply lookup_seqZ in Hx as [-> ?]. apply Hext. lia.
Qed.

Lemma mem_read_agree m1 m2 a n x :
  mem_read m1 a n = mem_read m2 a n → a ≤ x < a + n → m1 x = m2 x.
Proof.
  intros He Hx.
  assert (mem_read m1 a n !! Z.to_nat (x - a) = mem_read m2 a n !! Z.to_nat (x - a))
    as Hl by by rewrite He.
  rewrite !lookup_mem_read in Hl by lia. simplify_eq.
  by replace (a + Z.of_nat (Z.to_nat (x - a))) with x in * by lia.
Qed.

Lemma mem_write_out m a bs x :
  ¬ (a ≤ x < a + zlength bs) → mem_write m a bs x = m x.
Proof.
  intros Hx. unfold mem_write.
  destruct ((a <=? x) && (x <? a + zlength bs)) eqn:E; [|done].
  bool_cases. lia.
Qed.

Lemma mem_read_write_same m a bs :
  mem_read (mem_write m a bs) a (zlength bs) = bs.
Proof.
  apply list_eq. intros i. destruct (decide (i < length bs)%nat) as [Hi|Hi].
  - rewrite lookup_mem_read by (unfold zlength; lia). unfold mem_write.
    assert ((a <=? a + Z.of_nat i) && (a + Z.of_nat i <? a + zlength bs) = true) as ->.
    { apply andb_true_iff. rewrite Z.leb_le, Z.ltb_lt. unfold zlength. lia. }
    replace (Z.to_nat (a + Z.of_nat i - a)) with i by lia.
    destruct (lookup_lt_is_Some_2 _ _ Hi) as [b ->]. done.
  - rewrite !lookup_ge_None_2; [done|lia|].
    rewrite length_mem_read. unfold zlength. lia.
Qed.

Lemma mem_read_write_disjoint m a bs b n :
  ranges_disjoint a (zlength bs) b n →
  mem_read (mem_write m a bs) b n = mem_read m b n.
Proof.
  intros Hd. apply mem_read_ext. intros x Hx. apply mem_write_out.
  unfold ranges_disjoint in Hd. lia.
Qed.

Lemma mem_read_memmove_same m dst src n :
  0 ≤ n → mem_read (memmove m dst src n) dst n = mem_read m src n.
Proof.
  intros Hn. unfold memmove.
  pose proof (mem_read_write_same m dst (mem_read m src n)) as H.
  by rewrite zlength_mem_read in H.
Qed.

Lemma mem_read_memmove_disjoint m dst src n b k :
  0 ≤ n → ranges_disjoint dst n b k →
  mem_read (memmove m dst src n) b k = mem_read m b k.
Proof.
  intros Hn Hd. apply mem_read_write_disjoint. by rewrite zlength_mem_read.
Qed.

Lemma mem_read_app m a n k :
  0 ≤ n → 0 ≤ k → mem_read m a (n + k) = mem_read m a n ++ mem_read m (a + n) k.
Proof.
  intros. unfold mem_read. rewrite seqZ_app, fmap_app by lia. f_equal.
  replace (0 + n) with (n + 0) by lia. rewrite <-(fmap_add_seqZ n 0), <-list_fmap_compose.
  apply list_fmap_ext. intros i x _. simpl. f_equal. lia.
Qed.

(** A sub-range of a read is the read of the sub-range. *)
Lemma slice_mem_read m a n i j :
  0 ≤ i ≤ j → j ≤ n → slice (mem_read m a n) i j = mem_read m (a + i) (j - i).
Proof.
  intros Hij Hj. unfold slice.
  replace n with (i + ((j - i) + (n - j))) by lia.
  rewrite !mem_read_app by lia.
  rewrite drop_app_length' by (rewrite length_mem_read; lia).
  rewrite take_app_length' by (rewrite length_mem_read; lia). done.
Qed.

Arguments mem_read : simpl never.
Arguments mem_write : simpl never.
Arguments memmove : simpl never.
Arguments pack_fields : simpl never.
Arguments unpack_fields : simpl never.
