(* ===== verification/HashRing.v ===== *)
(** The consistent-hash ring of [hashring.py].

    [ConsistentHashRing] maps a key to the node that owns its directory entry
    (or its slot, in slotmap mode).  The 64-bit hash of a string is the
    interface [RingHash], and the order in which Python iterates over a [set]
    of strings, which the interpreter does not fix, is the interface
    [SetIter].  The ring record, its membership operations and its lookups are
    followed by their specification: [canonical] says that the ring is a
    function of the membership alone, [is_succ] is the clockwise successor. *)
From S2P Require Import Prelude.

(** [_hash]: a string's 64-bit digest. *)
Class RingHash := ring_hash : string → Z.

(** Iteration order of a Python [set]: some enumeration of its elements. *)
Class SetIter := {
  set_iter : gset string → list string;
  set_iter_perm s : set_iter s ≡ₚ elements s
}.

Record ConsistentHashRing := mk_ring {
  r_vnodes : Z;
  r_ring : gmap Z string;
  r_sorted_keys : list Z;
  r_nodes : gset string
}.

(** [ConsistentHashRing.__init__] *)
Definition new_ring (vnodes : Z) : ConsistentHashRing := mk_ring vnodes ∅ [] ∅.

(** [bisect.bisect]: the binary search of the standard library. *)
Fixpoint bisect_go (fuel : nat) (l : list Z) (x : Z) (lo hi : nat) : nat :=
  match fuel with
  | O => lo
  | S fuel' =>
      if decide (lo < hi)%nat then
        let mid := ((lo + hi) / 2)%nat in
        if x <? l !!! mid then bisect_go fuel' l x lo mid
        else bisect_go fuel' l x (S mid) hi
      else lo
  end.

Definition bisect (l : list Z) (x : Z) : nat := bisect_go (length l) l x 0 (length l).

Section ring.
Context {RH : RingHash} {SI : SetIter}.

(** [f"{node_id}#{i}"] *)
Definition vnode (node_id : string) (i : Z) : string :=
  node_id +:+ "#" +:+ pretty i.

Definition vhash (node_id : string) (i : Z) : Z := ring_hash (vnode node_id i).

(** [nodes]: the membership in sorted order. *)
Definition nodes (r : ConsistentHashRing) : list string :=
  merge_sort String.le (elements (r_nodes r)).

Definition contains (r : ConsistentHashRing) (node_id : string) : bool :=
  bool_decide (node_id ∈ r_nodes r).

Definition len (r : ConsistentHashRing) : nat := size (r_nodes r).

Definition _rebuild (r : ConsistentHashRing) : ConsistentHashRing :=
  mk_ring (r_vnodes r) (r_ring r) (merge_sort Z.le (elements (dom (r_ring r)))) (r_nodes r).

(** The loop that enters a node's virtual points into the ring dictionary. *)
Definition put_vnodes (vn : Z) (m : gmap Z string) (node_id : string) : gmap Z string :=
  foldl (λ m i, <[vhash node_id i := node_id]> m) m (seqZ 0 vn).

Definition add_node (r : ConsistentHashRing) (node_id : string) : ConsistentHashRing :=
  if bool_decide (node_id ∈ r_nodes r) then r
  else _rebuild (mk_ring (r_vnodes r) (put_vnodes (r_vnodes r) (r_ring r) node_id)
                   (r_sorted_keys r) ({[node_id]} ∪ r_nodes r)).

Definition remove_node (r : ConsistentHashRing) (node_id : string) : ConsistentHashRing :=
  if bool_decide (node_id ∉ r_nodes r) then r
  else _rebuild (mk_ring (r_vnodes r)
                   (foldl (λ m i, delete (vhash node_id i) m) (r_ring r) (seqZ 0 (r_vnodes r)))
                   (r_sorted_keys r) (r_nodes r ∖ {[node_id]})).

Definition set_nodes (r : ConsistentHashRing) (node_ids : list string) : ConsistentHashRing :=
  let target : gset string := list_to_set node_ids in
  if bool_decide (target = r_nodes r) then r
  else _rebuild (mk_ring (r_vnodes r)
                   (foldl (put_vnodes (r_vnodes r)) ∅ (set_iter target))
                   (r_sorted_keys r) target).

Definition get_node (r : ConsistentHashRing) (key : string) : option string :=
  match r_sorted_keys r with
  | [] => None
  | _ =>
      let h := ring_hash key in
      let idx := bisect (r_sorted_keys r) h in
      let idx := if (idx =? length (r_sorted_keys r))%nat then 0%nat else idx in
      k ← r_sorted_keys r !! idx; r_ring r !! k
  end.

(** The [while len(result) < n] loop of [get_nodes]; [i] counts from [idx].
    One unit of fuel per iteration: the body breaks once [i - idx > count].
    A [KeyError] of [_ring[...]] ends the loop; [ring_lookup_total] shows that
    no reachable ring raises it. *)
Fixpoint get_nodes_loop (fuel : nat) (r : ConsistentHashRing) (n : Z)
    (idx i : nat) (result : list string) : list string :=
  match fuel with
  | O => result
  | S fuel' =>
      if decide (zlength result < n) then
        let count := length (r_sorted_keys r) in
        match k ← r_sorted_keys r !! (i `mod` count)%nat; r_ring r !! k with
        | None => result
        | Some node =>
            let result := if bool_decide (node ∈ result) then result else result ++ [node] in
            if (count <? S i - idx)%nat then result
            else get_nodes_loop fuel' r n idx (S i) result
        end
      else result
  end.

Definition get_nodes (r : ConsistentHashRing) (key : string) (n : Z) : list string :=
  if bool_decide (r_sorted_keys r = []) || (n <=? 0) then []
  else
    let n := Z.min n (Z.of_nat (size (r_nodes r))) in
    let h := ring_hash key in
    let idx := bisect (r_sorted_keys r) h in
    get_nodes_loop (S (length (r_sorted_keys r))) r n idx idx [].
End ring.

(** ** The binary search finds the insertion point *)

Definition bisect_spec (l : list Z) (x : Z) (i : nat) : Prop :=
  (i ≤ length l)%nat ∧
  (∀ j k, (j < i)%nat → l !! j = Some k → k ≤ x) ∧
  (∀ j k, (i ≤ j)%nat → l !! j = Some k → x < k).

Lemma sorted_lookup_le (l : list Z) i j a b :
  StronglySorted Z.le l → (i ≤ j)%nat → l !! i = Some a → l !! j = Some b → a ≤ b.
Proof.
  intros Hs. revert i j. induction Hs as [|x l Hs IH Hx]; intros i j Hij Ha Hb; [done|].
  destruct i as [|i], j as [|j]; simplify_eq/=; [lia| |lia|].
  - rewrite Forall_forall in Hx. apply Hx. by eapply list_elem_of_lookup_2.
  - eapply (IH i j); [lia|done|done].
Qed.

Lemma bisect_go_spec fuel l x lo hi :
  StronglySorted Z.le l →
  (hi - lo ≤ fuel)%nat → (lo ≤ hi ≤ length l)%nat →
  (∀ j k, (j < lo)%nat → l !! j = Some k → k ≤ x) →
  (∀ j k, (hi ≤ j)%nat → l !! j = Some k → x < k) →
  bisect_spec l x (bisect_go fuel l x lo hi).
Proof.
  intros Hs. revert lo hi. induction fuel as [|fuel IH]; intros lo hi Hf Hb Hlo Hhi;
    cbn [bisect_go].
  { assert (lo = hi) as -> by lia. split_and!; naive_solver lia. }
  case_decide as Hlt; [|assert (lo = hi) as -> by lia; split_and!; naive_solver lia].
  assert (lo ≤ (lo + hi) / 2 < hi)%nat as Hmid.
  { pose proof (Nat.div_mod_eq (lo + hi) 2). pose proof (Nat.mod_upper_bound (lo + hi) 2). lia. }
  remember ((lo + hi) / 2)%nat as mid eqn:Emid. clear Emid.
  destruct (lookup_lt_is_Some_2 l mid ltac:(lia)) as [km Hkm].
  rewrite (list_lookup_total_correct _ _ _ Hkm).
  destruct (x <? km) eqn:E; bool_cases; (apply IH; [lia|lia| |]); try done.
  - intros j k Hj Hk. pose proof (sorted_lookup_le l mid j km k Hs Hj Hkm Hk). lia.
  - intros j k Hj Hk. pose proof (sorted_lookup_le l j mid k km Hs ltac:(lia) Hk Hkm). lia.
Qed.

Lemma bisect_correct l x : StronglySorted Z.le l → bisect_spec l x (bisect l x).
Proof.
  intros. apply bisect_go_spec; [done|lia|lia|intros; lia|].
  intros j k Hj Hk. apply lookup_lt_Some in Hk. lia.
Qed.

(** ** Well-formed rings *)

Section ring_spec.
Context {RH : RingHash} {SI : SetIter}.
Implicit Types (r : ConsistentHashRing) (m : gmap Z string) (U : gset string).

(** The sorted key list lists the ring's points. *)
Definition ring_wf r : Prop :=
  StronglySorted Z.le (r_sorted_keys r) ∧
  r_sorted_keys r ≡ₚ elements (dom (r_ring r)).

(** The point [h] is a virtual point of the node [n]. *)
Definition is_point (vn : Z) (n : string) (h : Z) : Prop :=
  h ∈ vhash n <$> seqZ 0 vn.

(** The ring dictionary is the union of the members' virtual points. *)
Definition canonical r : Prop :=
  ∀ h n, r_ring r !! h = Some n ↔ n ∈ r_nodes r ∧ is_point (r_vnodes r) n h.

Definition ring_ok r : Prop := ring_wf r ∧ canonical r.

(** No two nodes of [U] share a virtual point. *)
Definition collision_free (vn : Z) (U : gset string) : Prop :=
  ∀ n1 n2 h, n1 ∈ U → n2 ∈ U → is_point vn n1 h → is_point vn n2 h → n1 = n2.

#[export] Instance is_point_dec vn n h : Decision (is_point vn n h) :=
  list_elem_of_dec h (vhash n <$> seqZ 0 vn).

Lemma collision_free_mono vn U1 U2 :
  U1 ⊆ U2 → collision_free vn U2 → collision_free vn U1.
Proof. unfold collision_free. intros. eauto. Qed.

Lemma _rebuild_wf r : ring_wf (_rebuild r).
Proof.
  split; simpl.
  - apply (StronglySorted_merge_sort Z.le).
  - apply merge_sort_Permutation.
Qed.

Lemma lookup_put_vnodes vn m n h :
  put_vnodes vn m n !! h = if decide (is_point vn n h) then Some n else m !! h.
Proof.
  unfold put_vnodes, is_point, is_point_dec. generalize (seqZ 0 vn) as l.
  induction l as [|i l IH] using rev_ind; [done|].
  rewrite foldl_app, fmap_app. simpl. rewrite lookup_insert, IH.
  repeat case_decide; set_solver.
Qed.

Lemma lookup_del_vnodes vn m n h :
  foldl (λ m i, delete (vhash n i) m) m (seqZ 0 vn) !! h =
    if decide (is_point vn n h) then None else m !! h.
Proof.
  unfold is_point, is_point_dec. generalize (seqZ 0 vn) as l.
  induction l as [|i l IH] using rev_ind; [done|].
  rewrite foldl_app, fmap_app. simpl. rewrite lookup_delete, IH.
  repeat case_decide; set_solver.
Qed.

Lemma lookup_put_all vn ns h n :
  collision_free vn (list_to_set ns) →
  foldl (put_vnodes vn) ∅ ns !! h = Some n ↔ n ∈ ns ∧ is_point vn n h.
Proof.
  induction ns as [|n0 ns IH] using rev_ind; intros Hc.
  { simpl. rewrite lookup_empty. split; [done|]. by intros [?%not_elem_of_nil ?]. }
  rewrite foldl_app. simpl. rewrite lookup_put_vnodes.
  rewrite elem_of_app, list_elem_of_singleton.
  case_decide as Hd; cycle 1.
  { rewrite IH by (eapply collision_free_mono; [|done]; set_solver). naive_solver. }
  split.
  - intros [= <-]. auto.
  - intros [Hin Hp]. f_equal. apply (Hc _ _ h); set_solver.
Qed.

(** *** The membership operations keep the ring canonical *)

Lemma new_ring_ok vn : ring_ok (new_ring vn).
Proof.
  split; [split; simpl; [constructor|by rewrite dom_empty_L, elements_empty]|].
  intros h n. simpl. rewrite lookup_empty. split; [done|].
  by intros [?%not_elem_of_empty ?].
Qed.

Lemma add_node_ok r n :
  collision_free (r_vnodes r) ({[n]} ∪ r_nodes r) →
  ring_ok r → ring_ok (add_node r n).
Proof.
  intros Hc [Hwf Hcan]. unfold add_node. case_bool_decide as Hin; [done|].
  split; [apply _rebuild_wf|]. intros h n'. simpl. rewrite lookup_put_vnodes.
  rewrite elem_of_union, elem_of_singleton.
  case_decide as Hp; [|rewrite (Hcan h n'); naive_solver]. split.
  - intros [= <-]. auto.
  - intros [Hn' Hp']. f_equal. apply (Hc _ _ h); set_solver.
Qed.

Lemma remove_node_ok r n :
  collision_free (r_vnodes r) (r_nodes r) →
  ring_ok r → ring_ok (remove_node r n).
Proof.
  intros Hc [Hwf Hcan]. unfold remove_node. case_bool_decide as Hin; [done|].
  split; [apply _rebuild_wf|]. intros h n'. simpl. rewrite lookup_del_vnodes.
  rewrite elem_of_difference, elem_of_singleton.
  case_decide as Hp; [|rewrite (Hcan h n'); naive_solver]. split; [done|].
  intros [[Hn' Hne] Hp']. assert (n = n') by by apply (Hc _ _ h). congruence.
Qed.

Lemma set_nodes_ok r ids :
  collision_free (r_vnodes r) (list_to_set ids) →
  ring_ok r → ring_ok (set_nodes r ids).
Proof.
  intros Hc [Hwf Hcan]. unfold set_nodes. case_bool_decide as Hin; [done|].
  split; [apply _rebuild_wf|]. intros h n'. simpl.
  rewrite lookup_put_all, set_iter_perm, elem_of_elements; [done|].
  eapply collision_free_mono; [|exact Hc].
  intros x. by rewrite elem_of_list_to_set, set_iter_perm, elem_of_elements.
Qed.

Lemma nodes_add_node r n : r_nodes (add_node r n) = {[n]} ∪ r_nodes r.
Proof. unfold add_node. case_bool_decide; simpl; set_solver. Qed.

Lemma nodes_remove_node r n : r_nodes (remove_node r n) = r_nodes r ∖ {[n]}.
Proof. unfold remove_node. case_bool_decide; simpl; set_solver. Qed.

Lemma nodes_set_nodes r ids : r_nodes (set_nodes r ids) = list_to_set ids.
Proof. unfold set_nodes. by case_bool_decide. Qed.

Lemma vnodes_add_node r n : r_vnodes (add_node r n) = r_vnodes r.
Proof. unfold add_node. by case_bool_decide. Qed.
Lemma vnodes_remove_node r n : r_vnodes (remove_node r n) = r_vnodes r.
Proof. unfold remove_node. by case_bool_decide. Qed.
Lemma vnodes_set_nodes r ids : r_vnodes (set_nodes r ids) = r_vnodes r.
Proof. unfold set_nodes. by case_bool_decide. Qed.

(** Two canonical rings with the same membership are equal. *)
Lemma canonical_unique r1 r2 :
  ring_ok r1 → ring_ok r2 → r_vnodes r1 = r_vnodes r2 → r_nodes r1 = r_nodes r2 →
  r1 = r2.
Proof.
  intros [[Hs1 Hp1] Hc1] [[Hs2 Hp2] Hc2] Hv Hn.
  destruct r1 as [v1 m1 k1 n1], r2 as [v2 m2 k2 n2]; simpl in *; subst.
  assert (m1 = m2) as ->.
  { apply map_eq. intros h. apply option_eq. intros n.
    etrans; [apply (Hc1 h n)|symmetry; apply (Hc2 h n)]. }
  f_equal. apply (StronglySorted_unique Z.le); [done|done|]. by rewrite Hp1, Hp2.
Qed.

(** *** Lookup is the clockwise successor *)

(** [k] is the first point of [S] strictly after [h], wrapping around. *)
Definition is_succ (S : gset Z) (h k : Z) : Prop :=
  k ∈ S ∧
  ((h < k ∧ ∀ k', k' ∈ S → h < k' → k ≤ k') ∨
   ((∀ k', k' ∈ S → k' ≤ h) ∧ ∀ k', k' ∈ S → k ≤ k')).

Lemma is_succ_unique S h k1 k2 : is_succ S h k1 → is_succ S h k2 → k1 = k2.
Proof.
  intros [Hin1 H1] [Hin2 H2].
  destruct H1 as [[Hl1 H1]|[Ha1 H1]], H2 as [[Hl2 H2]|[Ha2 H2]].
  - pose proof (H1 _ Hin2 Hl2). pose proof (H2 _ Hin1 Hl1). lia.
  - pose proof (Ha2 _ Hin1). lia.
  - pose proof (Ha1 _ Hin2). lia.
  - pose proof (H1 _ Hin2). pose proof (H2 _ Hin1). lia.
Qed.

(** Removing points other than the successor leaves it the successor. *)
Lemma is_succ_subset (S S' : gset Z) h k :
  S' ⊆ S → k ∈ S' → is_succ S h k → is_succ S' h k.
Proof. unfold is_succ. set_solver. Qed.

Lemma elem_of_sorted_keys r k : ring_wf r → k ∈ r_sorted_keys r ↔ is_Some (r_ring r !! k).
Proof. intros [_ Hp]. by rewrite Hp, elem_of_elements, elem_of_dom. Qed.

Lemma ring_lookup_total r k :
  ring_wf r → k ∈ r_sorted_keys r → ∃ n, r_ring r !! k = Some n.
Proof. intros Hwf Hk. by apply elem_of_sorted_keys in Hk. Qed.

Lemma bisect_succ r h k i :
  ring_wf r → bisect_spec (r_sorted_keys r) h i →
  r_sorted_keys r !! (if (i =? length (r_sorted_keys r))%nat then 0 else i)%nat = Some k →
  is_succ (dom (r_ring r)) h k.
Proof.
  intros Hwf (Hi & Hlow & Hhigh) Hk.
  assert (∀ k', k' ∈ dom (r_ring r) ↔ k' ∈ r_sorted_keys r) as Hdom.
  { intros k'. by rewrite elem_of_sorted_keys, elem_of_dom. }
  split; [apply Hdom; by eapply list_elem_of_lookup_2|].
  destruct (i =? length (r_sorted_keys r))%nat eqn:E.
  - apply Nat.eqb_eq in E. right.
    split; intros k' [j Hj]%Hdom%list_elem_of_lookup.
    + eapply (Hlow j); [|done]. apply lookup_lt_Some in Hj. lia.
    + eapply (sorted_lookup_le _ 0 j); [apply Hwf|lia|done..].
  - left. split; [by eapply (Hhigh i)|].
    intros k' [j Hj]%Hdom%list_elem_of_lookup Hlt.
    destruct (decide (j < i)%nat) as [Hji|Hji].
    + pose proof (Hlow _ _ Hji Hj). lia.
    + eapply (sorted_lookup_le _ i j); [apply Hwf|lia|done..].
Qed.

Lemma get_node_is_succ r key n :
  ring_wf r →
  get_node r key = Some n ↔
    ∃ k, is_succ (dom (r_ring r)) (ring_hash key) k ∧ r_ring r !! k = Some n.
Proof.
  intros Hwf. pose proof Hwf as [Hs _].
  pose proof (bisect_correct _ (ring_hash key) Hs) as Hb.
  assert (∀ k, r_sorted_keys r = [] → is_succ (dom (r_ring r)) (ring_hash key) k → False) as Hnil.
  { intros k Hk [Hin _]. apply elem_of_dom in Hin.
    apply elem_of_sorted_keys in Hin; [|done]. rewrite Hk in Hin.
    by apply not_elem_of_nil in Hin. }
  pose proof (λ k, bisect_succ r (ring_hash key) k _ Hwf Hb) as Hsucc.
  unfold get_node. destruct (r_sorted_keys r) as [|k0 l] eqn:E; rewrite <-E in *.
  { split; [done|]. intros (k & Hk & _). naive_solver. }
  destruct (r_sorted_keys r !! _) as [k|] eqn:Ek; simpl.
  - split; [intros; exists k; eauto|]. intros (k' & Hk' & Hn).
    by rewrite (is_succ_unique _ _ _ _ (Hsucc k eq_refl) Hk').
  - exfalso. apply lookup_ge_None in Ek. destruct Hb as [Hb _].
    destruct (bisect _ _ =? _)%nat eqn:E2; rewrite E in Ek; simpl in Ek; [lia|].
    apply Nat.eqb_neq in E2. rewrite E in Hb, E2. simpl in *. lia.
Qed.

Lemma get_node_exists r key :
  ring_wf r → r_sorted_keys r ≠ [] → ∃ n, get_node r key = Some n ∧
    ∃ k, r_ring r !! k = Some n.
Proof.
  intros Hwf Hne.
  pose proof (bisect_correct _ (ring_hash key) (proj1 Hwf)) as [Hb _].
  unfold get_node. destruct (r_sorted_keys r) as [|k0 l] eqn:E; [done|]. rewrite <-E in *.
  set (idx := if (_ =? _)%nat then 0%nat else _).
  destruct (lookup_lt_is_Some_2 (r_sorted_keys r) idx) as [k Hk].
  { subst idx. destruct (_ =? _)%nat eqn:E2; [rewrite E; simpl; lia|].
    apply Nat.eqb_neq in E2. lia. }
  rewrite Hk. simpl. apply list_elem_of_lookup_2 in Hk.
  destruct (ring_lookup_total _ _ Hwf Hk) as [n Hn]. eauto.
Qed.

(** *** Replica sets *)

(** Keep the first occurrence of every element. *)
Definition uniq_step (acc : list string) (x : string) : list string :=
  if bool_decide (x ∈ acc) then acc else acc ++ [x].
Definition uniq (l : list string) : list string := foldl uniq_step [] l.

Lemma uniq_step_elem acc x y : y ∈ uniq_step acc x ↔ y = x ∨ y ∈ acc.
Proof. unfold uniq_step. case_bool_decide; set_solver. Qed.

Lemma foldl_uniq_elem acc l y : y ∈ foldl uniq_step acc l ↔ y ∈ acc ∨ y ∈ l.
Proof.
  revert acc. induction l as [|x l IH]; intros acc; simpl.
  - split; [by left|]. intros [?|[]%not_elem_of_nil]; done.
  - rewrite IH, uniq_step_elem, elem_of_cons. tauto.
Qed.

Lemma foldl_uniq_nodup acc l : NoDup acc → NoDup (foldl uniq_step acc l).
Proof.
  revert acc. induction l as [|x l IH]; intros acc Hnd; simpl; [done|]. apply IH.
  unfold uniq_step. case_bool_decide; [done|]. apply NoDup_app.
  split; [done|]. split; [set_solver|apply NoDup_singleton].
Qed.

Lemma foldl_uniq_prefix acc l : acc `prefix_of` foldl uniq_step acc l.
Proof.
  revert acc. induction l as [|x l IH]; intros acc; simpl; [done|].
  etrans; [|apply IH]. unfold uniq_step. case_bool_decide; [done|]. by exists [x].
Qed.

(** The nodes met when walking the ring clockwise once from [h]. *)
Definition walk r (h : Z) : list string :=
  let idx := bisect (r_sorted_keys r) h in
  omap (λ k, r_ring r !! k) (drop idx (r_sorted_keys r) ++ take idx (r_sorted_keys r)).

Lemma rotate_lookup {A} (l : list A) idx j :
  (idx ≤ length l)%nat → (j < length l)%nat →
  (drop idx l ++ take idx l) !! j = l !! ((idx + j) `mod` length l)%nat.
Proof.
  intros Hi Hj. destruct (decide (idx + j < length l)%nat) as [Hlt|Hge].
  - rewrite lookup_app_l by (rewrite length_drop; lia).
    by rewrite lookup_drop, Nat.mod_small.
  - rewrite lookup_app_r by (rewrite length_drop; lia). rewrite length_drop.
    rewrite lookup_take_lt by lia. f_equal.
    replace (idx + j)%nat with (j - (length l - idx) + 1 * length l)%nat by lia.
    rewrite Nat.Div0.mod_add, Nat.mod_small; lia.
Qed.

Lemma get_nodes_loop_walk fuel r n idx j ks result :
  ring_wf r → (idx ≤ length (r_sorted_keys r))%nat →
  (0 < length (r_sorted_keys r))%nat →
  ks = drop idx (r_sorted_keys r) ++ take idx (r_sorted_keys r) →
  (j ≤ length ks)%nat → (length ks - j < fuel)%nat →
  (∀ x, x ∈ omap (λ k, r_ring r !! k) (take j ks) → x ∈ result) →
  0 ≤ n → zlength result ≤ n →
  get_nodes_loop fuel r n idx (idx + j) result =
    take (Z.to_nat n) (foldl uniq_step result (omap (λ k, r_ring r !! k) (drop j ks))).
Proof.
  intros Hwf Hidx Hpos Hks. unfold zlength.
  assert (length ks = length (r_sorted_keys r)) as Hlen.
  { subst ks. rewrite length_app, length_drop, length_take. lia. }
  revert j result. induction fuel as [|fuel IH]; intros j result Hj Hf Hseen Hn Hr; [lia|].
  cbn [get_nodes_loop]. unfold zlength. case_decide as Hlt; cycle 1.
  { destruct (foldl_uniq_prefix result (omap (λ k, r_ring r !! k) (drop j ks))) as [l' ->].
    rewrite take_app_length'; [done|lia]. }
  assert (∃ k, r_sorted_keys r !! ((idx + j) `mod` length (r_sorted_keys r))%nat = Some k
    ∧ k ∈ ks) as (k & Hk & Hkin).
  { destruct (lookup_lt_is_Some_2 (r_sorted_keys r)
      ((idx + j) `mod` length (r_sorted_keys r))%nat) as [k Hk].
    { apply Nat.mod_upper_bound. lia. }
    exists k. split; [done|]. subst ks. apply list_elem_of_lookup_2 in Hk.
    rewrite <-(take_drop idx (r_sorted_keys r)) in Hk. set_solver. }
  assert (k ∈ r_sorted_keys r) as Hkr.
  { by eapply list_elem_of_lookup_2. }
  destruct (ring_lookup_total _ _ Hwf Hkr) as [node Hnode].
  rewrite Hk. simpl. rewrite Hnode. fold (uniq_step result node).
  destruct (decide (j = length ks)) as [->|Hjn].
  - (* the wrap-around iteration meets the first node again *)
    rewrite drop_all. simpl.
    assert (node ∈ result) as Hin.
    { apply Hseen. rewrite take_ge by done. apply list_elem_of_omap. eauto. }
    unfold uniq_step. rewrite bool_decide_eq_true_2 by done.
    rewrite take_ge by lia.
    assert ((length (r_sorted_keys r) <? S (idx + length ks) - idx)%nat = true) as ->; [|done].
    apply Nat.ltb_lt. lia.
  - assert (ks !! j = Some k) as Hkj.
    { subst ks. rewrite rotate_lookup by lia. done. }
    assert ((length (r_sorted_keys r) <? S (idx + j) - idx)%nat = false) as ->.
    { apply Nat.ltb_ge. lia. }
    replace (S (idx + j)) with (idx + S j)%nat by lia. rewrite IH; try lia.
    + rewrite (drop_S ks k j) by done. simpl. by rewrite Hnode.
    + intros x. rewrite (take_S_r ks j k) by done.
      rewrite omap_app, elem_of_app. simpl. rewrite Hnode.
      rewrite uniq_step_elem. set_solver.
    + unfold uniq_step. case_bool_decide; [lia|]. rewrite length_app. simpl. lia.
Qed.

Lemma get_nodes_eq r key n :
  ring_wf r → r_sorted_keys r ≠ [] → 0 < n →
  get_nodes r key n =
    take (Z.to_nat (Z.min n (Z.of_nat (size (r_nodes r))))) (uniq (walk r (ring_hash key))).
Proof.
  intros Hwf Hne Hn. unfold get_nodes.
  rewrite bool_decide_eq_false_2 by done.
  assert ((n <=? 0) = false) as -> by (apply Z.leb_gt; lia). cbn [orb].
  pose proof (bisect_correct _ (ring_hash key) (proj1 Hwf)) as [Hb _].
  assert (0 < length (r_sorted_keys r))%nat by (destruct (r_sorted_keys r); simpl; [done|lia]).
  set (idx := bisect _ _) in *. unfold walk. fold idx.
  set (n' := Z.min n (Z.of_nat (size (r_nodes r)))).
  pose proof (get_nodes_loop_walk (S (length (r_sorted_keys r))) r n' idx 0 _ []
    Hwf Hb ltac:(lia) eq_refl) as Hw.
  rewrite Nat.add_0_r in Hw. rewrite Hw; try lia; [done|..].
  - rewrite length_app, length_drop, length_take. lia.
  - simpl. set_solver.
  - unfold zlength. simpl. lia.
Qed.

Lemma elem_of_walk r h n :
  ring_wf r → n ∈ walk r h ↔ ∃ k, r_ring r !! k = Some n.
Proof.
  intros Hwf. unfold walk. rewrite list_elem_of_omap. split.
  - intros (k & _ & Hk). eauto.
  - intros (k & Hk). exists k. split; [|done].
    assert (k ∈ r_sorted_keys r) as Hin by (apply elem_of_sorted_keys; eauto).
    rewrite <-(take_drop (bisect (r_sorted_keys r) h) (r_sorted_keys r)) in Hin.
    set_solver.
Qed.

(** Every member owns a point when there is at least one virtual node. *)
Lemma member_has_point r n :
  canonical r → 0 < r_vnodes r → n ∈ r_nodes r ↔ ∃ k, r_ring r !! k = Some n.
Proof.
  intros Hcan Hv. split.
  - intros Hn. exists (vhash n 0). apply (Hcan (vhash n 0) n). split; [done|].
    apply list_elem_of_fmap. exists 0. split; [done|]. apply elem_of_seqZ. lia.
  - intros [k Hk]. by apply (Hcan k n) in Hk as [? _].
Qed.

Lemma uniq_walk_size r h :
  ring_ok r → 0 < r_vnodes r → length (uniq (walk r h)) = size (r_nodes r).
Proof.
  intros [Hwf Hcan] Hv. rewrite <-(size_list_to_set (C:=gset string)).
  - f_equal. apply set_eq. intros n. rewrite elem_of_list_to_set. unfold uniq.
    rewrite foldl_uniq_elem, elem_of_walk by done. rewrite (member_has_point r n) by done.
    split; [|by right]. intros [[]%not_elem_of_nil|?]; done.
  - apply foldl_uniq_nodup, NoDup_nil_2.
Qed.

Lemma uniq_head_eq x l : ∃ l', uniq (x :: l) = x :: l'.
Proof.
  unfold uniq. simpl. destruct (foldl_uniq_prefix (uniq_step [] x) l) as [l' ->].
  unfold uniq_step. rewrite bool_decide_eq_false_2 by set_solver. simpl. eauto.
Qed.

(** The first node of the walk is the owner that [get_node] returns. *)
Lemma walk_head r key n :
  ring_wf r → get_node r key = Some n → ∃ l, walk r (ring_hash key) = n :: l.
Proof.
  intros Hwf Hg. pose proof (bisect_correct _ (ring_hash key) (proj1 Hwf)) as [Hb _].
  unfold get_node in Hg. destruct (r_sorted_keys r) as [|k0 l0] eqn:E; [done|].
  rewrite <-E in *. unfold walk. set (idx := bisect _ _) in *.
  assert (0 < length (r_sorted_keys r))%nat by (rewrite E; simpl; lia).
  destruct (r_sorted_keys r !! _) as [k|] eqn:Ek; simpl in Hg; [|done].
  assert ((drop idx (r_sorted_keys r) ++ take idx (r_sorted_keys r)) !! 0%nat = Some k) as H0.
  { rewrite rotate_lookup by lia. rewrite <-Ek. f_equal. rewrite Nat.add_0_r.
    destruct (idx =? length (r_sorted_keys r))%nat eqn:E2.
    - apply Nat.eqb_eq in E2. rewrite E2. apply Nat.Div0.mod_same.
    - apply Nat.eqb_neq in E2. apply Nat.mod_small. lia. }
  destruct (drop _ _ ++ take _ _) as [|k1 ks]; [done|]. simplify_eq/=.
  rewrite Hg. eauto.
Qed.
End ring_spec.

(** ** Properties *)

Section ring_properties.
Context {RH : RingHash} {SI : SetIter}.
Implicit Types (r : ConsistentHashRing).

(** A membership command of the ring. *)
Inductive ring_op :=
  | Add (n : string)
  | Remove (n : string)
  | SetNodes (ids : list string).

Definition ring_step r (op : ring_op) : ConsistentHashRing :=
  match op with
  | Add n => add_node r n
  | Remove n => remove_node r n
  | SetNodes ids => set_nodes r ids
  end.

Definition op_nodes (op : ring_op) : gset string :=
  match op with Add n | Remove n => {[n]} | SetNodes ids => list_to_set ids end.

Lemma ring_step_ok U r op :
  collision_free (r_vnodes r) U → r_nodes r ⊆ U → op_nodes op ⊆ U →
  ring_ok r →
  ring_ok (ring_step r op) ∧ r_nodes (ring_step r op) ⊆ U ∧
  r_vnodes (ring_step r op) = r_vnodes r.
Proof.
  intros Hc Hr Hop Hok. destruct op as [n|n|ids]; simpl in *.
  - rewrite nodes_add_node, vnodes_add_node. split_and!; [|set_solver|done].
    apply add_node_ok; [|done]. eapply collision_free_mono; [|done]. set_solver.
  - rewrite nodes_remove_node, vnodes_remove_node. split_and!; [|set_solver|done].
    apply remove_node_ok; [|done]. by eapply collision_free_mono.
  - rewrite nodes_set_nodes, vnodes_set_nodes. split_and!; [|done|done].
    apply set_nodes_ok; [|done]. by eapply collision_free_mono.
Qed.

Lemma ring_run_ok U r ops :
  collision_free (r_vnodes r) U → r_nodes r ⊆ U → Forall (λ op, op_nodes op ⊆ U) ops →
  ring_ok r →
  ring_ok (foldl ring_step r ops) ∧ r_vnodes (foldl ring_step r ops) = r_vnodes r.
Proof.
  intros Hc Hr Hops. revert r Hc Hr. induction Hops as [|op ops Hop _ IH];
    intros r Hc Hr Hok; simpl; [done|].
  destruct (ring_step_ok U r op) as (Hok' & Hr' & Hv); try done.
  rewrite <-Hv. apply IH; rewrite ?Hv; done.
Qed.

(** C31: the ring is a function of the membership alone.  Two nodes that
    reached the same membership through any two sequences of [add_node],
    [remove_node] and [set_nodes] hold equal rings, hence route every key and
    every replica set alike (no two nodes share a virtual point). *)
Theorem ring_history_independent (U : gset string) (vn : Z) (ops1 ops2 : list ring_op) :
  collision_free vn U →
  Forall (λ op, op_nodes op ⊆ U) ops1 → Forall (λ op, op_nodes op ⊆ U) ops2 →
  let r1 := foldl ring_step (new_ring vn) ops1 in
  let r2 := foldl ring_step (new_ring vn) ops2 in
  r_nodes r1 = r_nodes r2 →
  r1 = r2 ∧ ∀ key n, get_node r1 key = get_node r2 key ∧ get_nodes r1 key n = get_nodes r2 key n.
Proof.
  intros Hc H1 H2 r1 r2 Hn.
  assert (r1 = r2) as ->; [|by split].
  destruct (ring_run_ok U (new_ring vn) ops1) as [Hok1 Hv1]; try done;
    [apply new_ring_ok|].
  destruct (ring_run_ok U (new_ring vn) ops2) as [Hok2 Hv2]; try done;
    [apply new_ring_ok|].
  apply canonical_unique; try done. unfold r1, r2. by rewrite Hv1, Hv2.
Qed.

(** C32: [get_node] is the clockwise successor.  On a ring with at least one
    member and one virtual node it always returns a member, the owner of the
    first virtual point strictly after the key's hash, or of the smallest
    point when no point follows; on an empty ring it returns [None]. *)
Theorem get_node_clockwise r key :
  ring_ok r → 0 < r_vnodes r →
  (r_nodes r = ∅ ∧ get_node r key = None) ∨
  (∃ n k, get_node r key = Some n ∧ n ∈ r_nodes r ∧ is_point (r_vnodes r) n k ∧
     is_succ (dom (r_ring r)) (ring_hash key) k).
Proof.
  intros [Hwf Hcan] Hv. destruct (decide (r_sorted_keys r = [])) as [Hnil|Hne].
  - left. split; [|unfold get_node; by rewrite Hnil].
    apply set_eq. intros n. rewrite (member_has_point r n) by done.
    split; [|by intros ?%not_elem_of_empty]. intros [k Hk].
    assert (k ∈ r_sorted_keys r) as Hin by (apply elem_of_sorted_keys; eauto).
    rewrite Hnil in Hin. by apply not_elem_of_nil in Hin.
  - right. destruct (get_node_exists r key Hwf Hne) as (n & Hg & _).
    pose proof (proj1 (get_node_is_succ r key n Hwf) Hg) as (k & Hk & Hkn).
    apply (Hcan k n) in Hkn as [Hn Hp]. eauto 10.
Qed.

(** C33: [get_nodes] returns exactly [min n |members|] distinct members, the
    first of which is the owner [get_node] returns; its [while] loop always
    reaches that many (the safety break never shortens the result). *)
Theorem get_nodes_replicas r key n :
  ring_ok r → 0 < r_vnodes r → 0 < n → r_nodes r ≠ ∅ →
  NoDup (get_nodes r key n) ∧
  length (get_nodes r key n) = Z.to_nat (Z.min n (Z.of_nat (size (r_nodes r)))) ∧
  (∀ x, x ∈ get_nodes r key n → x ∈ r_nodes r) ∧
  head (get_nodes r key n) = get_node r key.
Proof.
  intros Hok Hv Hn Hne. pose proof Hok as [Hwf Hcan].
  assert (r_sorted_keys r ≠ []) as Hks.
  { apply set_choose_L in Hne as [x Hx]. apply (member_has_point r x) in Hx as [k Hk]; try done.
    intros Hnil. assert (k ∈ r_sorted_keys r) as Hin by (apply elem_of_sorted_keys; eauto).
    rewrite Hnil in Hin. by apply not_elem_of_nil in Hin. }
  rewrite get_nodes_eq by done.
  set (h := ring_hash key). set (c := Z.to_nat _).
  assert (0 < c)%nat as Hc.
  { assert (size (r_nodes r) ≠ 0%nat); [|lia].
    intros Hz%size_empty_inv. by apply Hne, leibniz_equiv. }
  split_and!.
  - eapply sublist_NoDup; [|apply sublist_take].
    apply foldl_uniq_nodup, NoDup_nil_2.
  - rewrite length_take, uniq_walk_size by done. lia.
  - intros x Hx. eapply elem_of_sublist in Hx; [|apply sublist_take].
    unfold uniq in Hx. rewrite foldl_uniq_elem, elem_of_walk in Hx by done.
    apply (member_has_point r x); try done. set_solver.
  - destruct (get_node_exists r key Hwf Hks) as (o & Ho & _). rewrite Ho.
    destruct (walk_head r key o Hwf Ho) as [l Hl]. subst h. rewrite Hl.
    destruct (uniq_head_eq o l) as [l' ->]. destruct c; [lia|done].
Qed.

(** Removing a node moves only the keys it owned.  A key owned by another
    node keeps its owner when [remove_node] drops [x] from the ring. *)
Theorem remove_node_minimal_disruption r x key n :
  ring_ok r → collision_free (r_vnodes r) (r_nodes r) →
  get_node r key = Some n → n ≠ x → get_node (remove_node r x) key = Some n.
Proof.
  intros Hok Hc Hg Hne. pose proof Hok as [Hwf Hcan].
  destruct (remove_node_ok r x Hc Hok) as [Hwf' Hcan'].
  apply (get_node_is_succ _ _ _ Hwf) in Hg as (k & Hk & Hkn).
  apply (get_node_is_succ _ _ _ Hwf'). exists k.
  assert (r_ring (remove_node r x) !! k = Some n) as Hkn'.
  { apply (Hcan' k n). apply (Hcan k n) in Hkn as [? ?].
    rewrite nodes_remove_node, vnodes_remove_node. set_solver. }
  split; [|done]. eapply is_succ_subset; [|by eapply elem_of_dom_2|exact Hk].
  intros k' [n' Hn']%elem_of_dom. apply (Hcan' k' n') in Hn' as [Hin Hp].
  rewrite nodes_remove_node, vnodes_remove_node in *.
  apply elem_of_dom. exists n'. apply (Hcan k' n'). set_solver.
Qed.

(** C34: Adding a node takes keys only for itself.  After [add_node] every key
    either keeps its owner or is owned by the new node. *)
Theorem add_node_minimal_disruption r x key n :
  ring_ok r → collision_free (r_vnodes r) ({[x]} ∪ r_nodes r) →
  get_node r key = Some n →
  get_node (add_node r x) key = Some n ∨ get_node (add_node r x) key = Some x.
Proof.
  intros Hok Hc Hg. pose proof Hok as [Hwf Hcan].
  destruct (add_node_ok r x Hc Hok) as [Hwf' Hcan'].
  apply (get_node_is_succ _ _ _ Hwf) in Hg as (k & Hk & Hkn).
  assert (dom (r_ring r) ⊆ dom (r_ring (add_node r x))) as Hsub.
  { intros k' [n' Hn']%elem_of_dom. apply (Hcan k' n') in Hn' as [Hin Hp].
    apply elem_of_dom. exists n'. apply (Hcan' k' n').
    rewrite nodes_add_node, vnodes_add_node. set_solver. }
  assert (r_sorted_keys (add_node r x) ≠ []) as Hks.
  { intros Hnil. assert (k ∈ r_sorted_keys (add_node r x)) as Hin.
    { apply elem_of_sorted_keys; [done|]. apply elem_of_dom, Hsub. by eapply elem_of_dom_2. }
    rewrite Hnil in Hin. by apply not_elem_of_nil in Hin. }
  destruct (get_node_exists (add_node r x) key Hwf' Hks) as (n' & Hg' & _).
  rewrite Hg'. apply (get_node_is_succ _ _ _ Hwf') in Hg' as (k' & Hk' & Hkn').
  pose proof (proj1 (Hcan' k' n') Hkn') as [Hin' Hp'].
  rewrite nodes_add_node, vnodes_add_node in *.
  destruct (decide (n' = x)) as [->|Hne]; [by right|left].
  assert (r_ring r !! k' = Some n') as Hold by (apply (Hcan k' n'); set_solver).
  assert (is_succ (dom (r_ring r)) (ring_hash key) k') as Hk2.
  { eapply is_succ_subset; [exact Hsub|by eapply elem_of_dom_2|done]. }
  rewrite (is_succ_unique _ _ _ _ Hk2 Hk) in Hold. congruence.
Qed.
End ring_properties.

(** ** Executable instances and witnesses *)

Module RingExamples.
(** A small stand-in hash with the 64-bit range of the digest. *)
Fixpoint sample_digest (s : string) (acc : Z) : Z :=
  match s with
  | EmptyString => acc
  | String c s' => sample_digest s' ((acc * 6364136223846793005 + Z.of_N (Ascii.N_of_ascii c)
                                        + 1442695040888963407) mod 2 ^ 64)
  end.
#[export] Instance sample_hash : RingHash := λ s, sample_digest s 7.
#[export] Program Instance sample_iter : SetIter := {| set_iter := elements |}.
Next Obligation. done. Qed.

(** Distinct points for distinct nodes, checked by evaluation. *)
Definition collision_free_check (vn : Z) (ns : list string) : bool :=
  forallb (λ n1, forallb (λ n2, bool_decide (n1 = n2) ||
    negb (existsb (λ h, bool_decide (h ∈ vhash n2 <$> seqZ 0 vn)) (vhash n1 <$> seqZ 0 vn))) ns) ns.

Lemma collision_free_check_sound vn ns :
  collision_free_check vn ns = true → collision_free vn (list_to_set ns).
Proof.
  intros H n1 n2 h Hn1%elem_of_list_to_set Hn2%elem_of_list_to_set Hp1 Hp2.
  unfold collision_free_check in H. rewrite forallb_forall in H.
  apply list_elem_of_In in Hn1, Hn2.
  specialize (H n1 Hn1). rewrite forallb_forall in H. specialize (H n2 Hn2).
  apply orb_true_iff in H as [H|H]; [by bool_cases|].
  apply negb_true_iff in H. exfalso.
  assert (existsb (λ h, bool_decide (h ∈ vhash n2 <$> seqZ 0 vn)) (vhash n1 <$> seqZ 0 vn) = true)
    as Ht; [|congruence].
  apply existsb_exists. exists h. split; [by apply list_elem_of_In|].
  by apply bool_decide_eq_true.
Qed.

Definition ring_abc : ConsistentHashRing := set_nodes (new_ring 3) ["a"; "b"; "c"].

Lemma cf_abc : collision_free 3 (list_to_set ["a"; "b"; "c"; "d"]).
Proof. apply collision_free_check_sound. vm_compute. reflexivity. Qed.

Lemma ring_abc_ok : ring_ok ring_abc.
Proof.
  apply set_nodes_ok; [|apply new_ring_ok].
  eapply collision_free_mono; [|exact cf_abc]. set_solver.
Qed.

Lemma ring_abc_nodes : r_nodes ring_abc = list_to_set ["a"; "b"; "c"].
Proof. apply nodes_set_nodes. Qed.

Lemma ring_abc_nonempty : r_nodes ring_abc ≠ ∅.
Proof. decide_vm. Qed.

Lemma ring_history_independent_witness :
  foldl ring_step (new_ring 3) [Add "a"; Add "d"; Add "b"; Remove "d"]
    = foldl ring_step (new_ring 3) [SetNodes ["b"; "a"]].
Proof.
  apply (ring_history_independent (list_to_set ["a"; "b"; "c"; "d"]) 3).
  - exact cf_abc.
  - repeat constructor; simpl; set_solver.
  - repeat constructor; simpl; set_solver.
  - decide_vm.
Defined.

Lemma get_node_clockwise_witness :
  ∃ n, get_node ring_abc "key1" = Some n ∧ n ∈ r_nodes ring_abc.
Proof.
  destruct (get_node_clockwise ring_abc "key1" ring_abc_ok eq_refl)
    as [[H _]|(n & k & H1 & H2 & _)].
  - destruct (ring_abc_nonempty H).
  - exact (ex_intro _ n (conj H1 H2)).
Defined.

Lemma get_nodes_replicas_witness :
  length (get_nodes ring_abc "key1" 2) = 2%nat ∧ NoDup (get_nodes ring_abc "key1" 2).
Proof.
  destruct (get_nodes_replicas ring_abc "key1" 2 ring_abc_ok eq_refl eq_refl)
    as (H1 & H2 & _).
  - exact ring_abc_nonempty.
  - split; [|exact H1]. rewrite H2. vm_compute. reflexivity.
Defined.

Lemma remove_node_minimal_disruption_witness :
  get_node (remove_node ring_abc "c") "key1" = get_node ring_abc "key1".
Proof.
  transitivity (Some "b"); [|vm_compute; reflexivity].
  apply (remove_node_minimal_disruption ring_abc "c" "key1" "b").
  - exact ring_abc_ok.
  - rewrite ring_abc_nodes. eapply collision_free_mono; [|exact cf_abc]. set_solver.
  - vm_compute. reflexivity.
  - discriminate.
Defined.

Lemma add_node_minimal_disruption_witness :
  get_node (add_node ring_abc "d") "key1" = Some "b" ∨
  get_node (add_node ring_abc "d") "key1" = Some "d".
Proof.
  apply (add_node_minimal_disruption ring_abc "d" "key1" "b").
  - exact ring_abc_ok.
  - rewrite ring_abc_nodes. eapply collision_free_mono; [|exact cf_abc]. set_solver.
  - vm_compute. reflexivity.
Defined.
End RingExamples.
