(* ===== verification/Hashlib.v ===== *)
(** The [hashlib] digests the sources use, and the hash functions built on them.

    [hashlib.blake2b] and [hashlib.sha1] are an interface: a digest function
    with its output length and byte range.  The program's own hash functions
    ([hashring._hash], [slotmap.key_hash128], [slotmap.bucket_hash],
    [diskstore._safe_name]) are defined from it, and their ranges proved. *)
From S2P Require Import Prelude Bytes HashRing.

Class Hashlib := {
  (** [hashlib.blake2b(data, digest_size=n, salt=salt).digest()] *)
  blake2b : nat → list Z → list Z → list Z;
  (** [hashlib.sha1(data).digest()] *)
  sha1 : list Z → list Z;
  blake2b_length n salt data : length (blake2b n salt data) = n;
  blake2b_bytes n salt data : Forall is_byte (blake2b n salt data);
  sha1_length data : length (sha1 data) = 20%nat;
  sha1_bytes data : Forall is_byte (sha1 data)
}.

Section hashes.
Context {HL : Hashlib}.

(** [hashring._hash] *)
Definition _hash (data : string) : Z := be_val (blake2b 8 [] (encode_utf8 data)).
#[export] Instance hashlib_ring_hash : RingHash := _hash.

Definition key_hash128 (key : string) : Z * Z :=
  let d := blake2b 16 [] (encode_utf8 key) in
  (le_val (take 8 d), le_val (drop 8 d)).

(** [b"bucket"] *)
Definition bucket_salt : list Z := encode_utf8 "bucket".

Definition bucket_hash (key : string) : Z :=
  le_val (blake2b 8 bucket_salt (encode_utf8 key)).

(** [bytes.hex()] of one digest byte. *)
Definition hex_char (n : Z) : Ascii.ascii :=
  Ascii.ascii_of_N (Z.to_N (if n <? 10 then 48 + n else 87 + n)).

Fixpoint hexdigest (bs : list Z) : string :=
  match bs with
  | [] => EmptyString
  | b :: bs' => String (hex_char (b / 16)) (String (hex_char (b mod 16)) (hexdigest bs'))
  end.

(** [diskstore._safe_name] *)
Definition _safe_name (key : string) : string :=
  hexdigest (sha1 (encode_utf8 key)) +:+ ".bin".

Lemma _hash_range s : 0 ≤ _hash s < 2 ^ 64.
Proof.
  unfold _hash, be_val. pose proof (le_val_bound (reverse (blake2b 8 [] (encode_utf8 s)))) as H.
  rewrite length_reverse, blake2b_length in H. apply H. apply Forall_reverse, blake2b_bytes.
Qed.

Lemma key_hash128_range s :
  0 ≤ (key_hash128 s).1 < 2 ^ 64 ∧ 0 ≤ (key_hash128 s).2 < 2 ^ 64.
Proof.
  unfold key_hash128. simpl. pose proof (blake2b_bytes 16 [] (encode_utf8 s)) as Hb.
  pose proof (le_val_bound (take 8 (blake2b 16 [] (encode_utf8 s)))) as H1.
  pose proof (le_val_bound (drop 8 (blake2b 16 [] (encode_utf8 s)))) as H2.
  rewrite length_take, blake2b_length in H1. rewrite length_drop, blake2b_length in H2.
  split; [apply H1, Forall_take, Hb|apply H2, Forall_drop, Hb].
Qed.

Lemma bucket_hash_range s : 0 ≤ bucket_hash s < 2 ^ 64.
Proof.
  unfold bucket_hash.
  pose proof (le_val_bound (blake2b 8 bucket_salt (encode_utf8 s)) (blake2b_bytes _ _ _)) as H.
  by rewrite blake2b_length in H.
Qed.

Lemma _safe_name_suffix key : ∃ stem, _safe_name key = stem +:+ ".bin".
Proof. by eexists. Qed.

(** The key's 128-bit identity loses nothing of the digest. *)
Lemma key_hash128_digest k1 k2 :
  key_hash128 k1 = key_hash128 k2 ↔
  blake2b 16 [] (encode_utf8 k1) = blake2b 16 [] (encode_utf8 k2).
Proof.
  unfold key_hash128. split; [|by intros ->].
  set (d1 := blake2b 16 [] (encode_utf8 k1)). set (d2 := blake2b 16 [] (encode_utf8 k2)).
  pose proof (blake2b_bytes 16 [] (encode_utf8 k1)) as H1. fold d1 in H1.
  pose proof (blake2b_bytes 16 [] (encode_utf8 k2)) as H2. fold d2 in H2.
  assert (length d1 = 16%nat) as L1 by apply blake2b_length.
  assert (length d2 = 16%nat) as L2 by apply blake2b_length.
  intros [= Hhi Hlo]. rewrite <-(take_drop 8 d1), <-(take_drop 8 d2). f_equal.
  - apply le_val_inj; [by apply Forall_take..| |done]. rewrite !length_take. lia.
  - apply le_val_inj; [by apply Forall_drop..| |done]. rewrite !length_drop. lia.
Qed.
End hashes.

#[global] Opaque _hash key_hash128 bucket_hash _safe_name.

(** A concrete instance of the interface for the examples: a 61-bit polynomial
    digest stretched to the requested length. *)
Module ExampleHash.
Definition poly (data : list Z) : Z :=
  foldl (λ acc b, (acc * 1000003 + b + 1) mod (2 ^ 61 - 1)) 7 data.

Definition ex_blake2b (n : nat) (salt data : list Z) : list Z :=
  le_bytes n (poly (salt ++ data) + 2 ^ 64 * poly (data ++ salt)).

#[export, refine] Instance example_hashlib : Hashlib := {
  blake2b := ex_blake2b;
  sha1 data := ex_blake2b 20 [] data
}.
Proof.
  - intros. apply length_le_bytes.
  - intros. apply le_bytes_is_byte.
  - intros. apply length_le_bytes.
  - intros. apply le_bytes_is_byte.
Defined.
End ExampleHash.
