(* ===== verification/Pool.v ===== *)
(** The published pool of [pool.py].

    [PublishedPool] carves one registered memory region into pages: a bump
    pointer, a free list per exact length, and an LRU-ordered dictionary of
    the live pages.  The state is the record below; [publish] also updates the
    host memory, and every operation that can displace pages returns the
    displaced keys, which the owner passes to its [on_evict] callback.

    [pool_inv] is the layout invariant (the live pages and the free slots tile
    the used part of the region exactly), and [contents] abstracts a pool and
    a memory to the LRU list of keys with their bytes. *)
From S2P Require Import Prelude Bytes.

Record PublishedPool := mk_pool {
  p_base : Z;
  p_capacity : Z;
  p_rkey : Z;
  p_rkeys : list Z;
  p_next_offset : Z;
  p_free : gmap Z (list Z);
  p_entries : list (string * (Z * Z));
  p_used : Z
}.

(** [__init__]: [rkeys] defaults to [[rkey]] when absent or empty. *)
Definition new_pool (base capacity rkey : Z) (rkeys : option (list Z)) : PublishedPool :=
  mk_pool base capacity rkey
    (match rkeys with Some (k :: ks) => k :: ks | _ => [rkey] end) 0 ∅ [] 0.

Definition with_entries (p : PublishedPool) (es : list (string * (Z * Z))) : PublishedPool :=
  mk_pool (p_base p) (p_capacity p) (p_rkey p) (p_rkeys p) (p_next_offset p) (p_free p) es (p_used p).

Definition bytes_used (p : PublishedPool) : Z := p_used p.
Definition contains (p : PublishedPool) (key : string) : bool := od_mem (p_entries p) key.
Definition len (p : PublishedPool) : nat := length (p_entries p).

(** [address_of]: the page's address and length; the page becomes the most
    recently used one. *)
Definition address_of (p : PublishedPool) (key : string) : option (Z * Z) * PublishedPool :=
  match od_get (p_entries p) key with
  | None => (None, p)
  | Some (offset, length) =>
      (Some (p_base p + offset, length), with_entries p (od_move_to_end (p_entries p) key))
  end.

(** [self._free.setdefault(length, []).append(off)] *)
Definition free_push (free : gmap Z (list Z)) (length off : Z) : gmap Z (list Z) :=
  <[length := default [] (free !! length) ++ [off]]> free.

(** The eviction loop of [_allocate]: pop the oldest page until one of the
    requested length frees its slot. *)
Fixpoint evict_loop (length : Z) (entries : list (string * (Z * Z))) (free : gmap Z (list Z))
    (used : Z) (evicted : list string)
    : option Z * list (string * (Z * Z)) * gmap Z (list Z) * Z * list string :=
  match entries with
  | [] => (None, [], free, used, evicted)
  | (old_key, (old_off, old_len)) :: entries' =>
      let used := used - old_len in
      let evicted := evicted ++ [old_key] in
      let free := free_push free old_len old_off in
      if old_len =? length then
        match pop_last (default [] (free !! length)) with
        | Some (off, rest) => (Some off, entries', <[length := rest]> free, used, evicted)
        | None => (None, entries', free, used, evicted)
        end
      else evict_loop length entries' free used evicted
  end.

(** [_allocate]: an offset for [length] bytes and the keys evicted for it. *)
Definition _allocate (p : PublishedPool) (length : Z) : option Z * PublishedPool * list string :=
  if length >? p_capacity p then (None, p, [])
  else
    match pop_last (default [] (p_free p !! length)) with
    | Some (off, rest) =>
        (Some off,
         mk_pool (p_base p) (p_capacity p) (p_rkey p) (p_rkeys p) (p_next_offset p)
           (<[length := rest]> (p_free p)) (p_entries p) (p_used p), [])
    | None =>
        if p_next_offset p + length <=? p_capacity p then
          (Some (p_next_offset p),
           mk_pool (p_base p) (p_capacity p) (p_rkey p) (p_rkeys p) (p_next_offset p + length)
             (p_free p) (p_entries p) (p_used p), [])
        else
          let '(off, es, free, used, evicted) :=
            evict_loop length (p_entries p) (p_free p) (p_used p) [] in
          (off,
           mk_pool (p_base p) (p_capacity p) (p_rkey p) (p_rkeys p) (p_next_offset p) free es used,
           evicted)
    end.

(** [self._entries[key] = (off, length)], [move_to_end], [self._used += length]. *)
Definition add_entry (p : PublishedPool) (key : string) (off length : Z) : PublishedPool :=
  mk_pool (p_base p) (p_capacity p) (p_rkey p) (p_rkeys p) (p_next_offset p) (p_free p)
    (od_move_to_end (od_set (p_entries p) key (off, length)) key) (p_used p + length).

(** [publish]: the address, the new pool and memory, and the evicted keys. *)
Definition publish (p : PublishedPool) (m : mem) (key : string) (src_ptr length : Z)
    : option Z * PublishedPool * mem * list string :=
  match od_get (p_entries p) key with
  | Some existing =>
      (Some (p_base p + existing.1), with_entries p (od_move_to_end (p_entries p) key), m, [])
  | None =>
      let '(off, p, evicted) := _allocate p length in
      match off with
      | None => (None, p, m, evicted)
      | Some off =>
          (Some (p_base p + off), add_entry p key off length,
           memmove m (p_base p + off) src_ptr length, evicted)
      end
  end.

(** [reserve]: as [publish], without copying the source bytes. *)
Definition reserve (p : PublishedPool) (key : string) (length : Z)
    : option Z * PublishedPool * list string :=
  match od_get (p_entries p) key with
  | Some existing =>
      (Some (p_base p + existing.1), with_entries p (od_move_to_end (p_entries p) key), [])
  | None =>
      let '(off, p, evicted) := _allocate p length in
      match off with
      | None => (None, p, evicted)
      | Some off => (Some (p_base p + off), add_entry p key off length, evicted)
      end
  end.

(** [snapshot]: [(key, remote_addr, length)] of every resident page. *)
Definition snapshot (p : PublishedPool) : list (string * Z * Z) :=
  (λ e, (e.1, p_base p + e.2.1, e.2.2)) <$> p_entries p.

Definition remove (p : PublishedPool) (key : string) : PublishedPool :=
  match od_get (p_entries p) key with
  | None => p
  | Some (off, length) =>
      mk_pool (p_base p) (p_capacity p) (p_rkey p) (p_rkeys p) (p_next_offset p)
        (free_push (p_free p) length off) (od_del (p_entries p) key) (p_used p - length)
  end.

(** ** The layout invariant *)

(** Consecutive blocks [(offset, length)] of the given lengths. *)
Fixpoint tiles (o : Z) (ls : list Z) : list (Z * Z) :=
  match ls with
  | [] => []
  | l :: ls' => (o, l) :: tiles (o + l) ls'
  end.

(** The blocks of the free lists. *)
Definition free_blocks (free : gmap Z (list Z)) : list (Z * Z) :=
  map_to_list free ≫= λ e, (λ o, (o, e.1)) <$> e.2.

Definition entry_blocks (es : list (string * (Z * Z))) : list (Z * Z) := es.*2.

(** The blocks tile [0, next) exactly, and [next] is within the capacity. *)
Definition tiled (next cap : Z) (blocks : list (Z * Z)) : Prop :=
  ∃ ls, Forall (λ l, 0 ≤ l) ls ∧ blocks ≡ₚ tiles 0 ls ∧ sumZ ls = next ∧ next ≤ cap.

Definition entries_bytes (es : list (string * (Z * Z))) : Z := sumZ ((λ e, e.2.2) <$> es).

Record pool_inv (p : PublishedPool) : Prop := {
  pi_keys : NoDup (od_keys (p_entries p));
  pi_used : p_used p = entries_bytes (p_entries p);
  pi_tiled : tiled (p_next_offset p) (p_capacity p)
    (entry_blocks (p_entries p) ++ free_blocks (p_free p))
}.

(** *** Free lists *)

Lemma free_blocks_insert free l offs :
  free_blocks (<[l := offs]> free) ≡ₚ ((λ o, (o, l)) <$> offs) ++ free_blocks (delete l free).
Proof.
  unfold free_blocks. rewrite <-insert_delete_eq.
  rewrite map_to_list_insert by apply lookup_delete_eq. done.
Qed.

Lemma free_blocks_lookup free l :
  free_blocks free ≡ₚ
    ((λ o, (o, l)) <$> default [] (free !! l)) ++ free_blocks (delete l free).
Proof.
  destruct (free !! l) as [offs|] eqn:E; simpl.
  - rewrite <-free_blocks_insert. by rewrite insert_id.
  - by rewrite delete_id.
Qed.

Lemma free_blocks_push free l o :
  free_blocks (free_push free l o) ≡ₚ (o, l) :: free_blocks free.
Proof.
  unfold free_push. rewrite free_blocks_insert, fmap_app.
  rewrite (free_blocks_lookup free l). simpl.
  rewrite <-app_assoc. simpl. by rewrite <-Permutation_middle.
Qed.

Lemma free_blocks_pop free l o rest :
  pop_last (default [] (free !! l)) = Some (o, rest) →
  free_blocks free ≡ₚ (o, l) :: free_blocks (<[l := rest]> free).
Proof.
  intros Hp%pop_last_Some. rewrite free_blocks_insert, (free_blocks_lookup free l), Hp.
  rewrite fmap_app, <-app_assoc. simpl. by rewrite <-Permutation_middle.
Qed.

(** *** Tilings *)

Lemma tiles_app o ls1 ls2 : tiles o (ls1 ++ ls2) = tiles o ls1 ++ tiles (o + sumZ ls1) ls2.
Proof.
  revert o. induction ls1 as [|l ls1 IH]; intros o; simpl.
  - f_equal. lia.
  - rewrite IH. do 3 f_equal. lia.
Qed.

Lemma tiles_bounds o ls b :
  Forall (λ l, 0 ≤ l) ls → b ∈ tiles o ls → o ≤ b.1 ∧ 0 ≤ b.2 ∧ b.1 + b.2 ≤ o + sumZ ls.
Proof.
  intros Hls. revert o. induction Hls as [|l ls Hl Hls IH]; intros o Hb; simpl in *.
  { by apply not_elem_of_nil in Hb. }
  apply sumZ_nonneg in Hls.
  apply elem_of_cons in Hb as [->|Hb]; simpl; [lia|]. apply IH in Hb. lia.
Qed.

Definition blocks_disjoint (a b : Z * Z) : Prop := ranges_disjoint a.1 a.2 b.1 b.2.

Definition pairwise_disjoint (l : list (Z * Z)) : Prop :=
  ∀ i j a b, i ≠ j → l !! i = Some a → l !! j = Some b → blocks_disjoint a b.

Lemma pairwise_disjoint_perm l1 l2 :
  l1 ≡ₚ l2 → pairwise_disjoint l2 → pairwise_disjoint l1.
Proof.
  intros [_ (f & Hinj & Hf)]%Permutation_inj Hpw i j a b Hij Ha Hb.
  rewrite Hf in Ha, Hb. eapply (Hpw (f i) (f j)); [|done..]. by intros ?%(inj f).
Qed.

Lemma tiles_pairwise o ls : Forall (λ l, 0 ≤ l) ls → pairwise_disjoint (tiles o ls).
Proof.
  intros Hls. revert o. induction Hls as [|l ls Hl Hls IH]; intros o i j a b Hij Ha Hb; [done|].
  simpl in *. unfold blocks_disjoint, ranges_disjoint.
  destruct i as [|i], j as [|j]; simplify_eq/=.
  - apply list_elem_of_lookup_2, tiles_bounds in Hb; [lia|done].
  - apply list_elem_of_lookup_2, tiles_bounds in Ha; [lia|done].
  - eapply (IH (o + l) i j); [lia|done..].
Qed.

Lemma tiled_bounds next cap bs b :
  tiled next cap bs → b ∈ bs → 0 ≤ b.1 ∧ 0 ≤ b.2 ∧ b.1 + b.2 ≤ next ∧ next ≤ cap.
Proof.
  intros (ls & Hls & Hp & Hs & Hc) Hb. rewrite Hp in Hb.
  apply tiles_bounds in Hb; [|done]. lia.
Qed.

Lemma tiled_pairwise next cap bs : tiled next cap bs → pairwise_disjoint bs.
Proof.
  intros (ls & Hls & Hp & _). eapply pairwise_disjoint_perm; [done|]. by apply tiles_pairwise.
Qed.

Lemma tiled_perm next cap bs1 bs2 : bs1 ≡ₚ bs2 → tiled next cap bs1 → tiled next cap bs2.
Proof. intros Hp (ls & ? & Hl & ?). exists ls. by rewrite <-Hp. Qed.

Lemma tiled_bump next cap bs l :
  0 ≤ l → next + l ≤ cap → tiled next cap bs → tiled (next + l) cap ((next, l) :: bs).
Proof.
  intros Hl Hc (ls & Hls & Hp & Hs & _). exists (ls ++ [l]). split_and!.
  - apply Forall_app. split; [done|]. by repeat constructor.
  - rewrite tiles_app, Hp. simpl. rewrite Hs. by rewrite <-Permutation_cons_append.
  - rewrite sumZ_app. simpl. lia.
  - done.
Qed.

Lemma tiled_bytes next cap bs : tiled next cap bs → sumZ bs.*2 = next.
Proof.
  intros (ls & Hls & Hp & Hs & _). rewrite (sumZ_perm _ (tiles 0 ls).*2) by by rewrite Hp.
  rewrite <-Hs. generalize 0 as o. clear. induction ls as [|l ls IH]; intros o; csimpl; [done|].
  by rewrite (IH (o + l)).
Qed.

#[export] Hint Resolve tiled_perm : peercache.

(** *** Allocation *)

Lemma evict_loop_spec length es free used ev r es' free' used' ev' :
  evict_loop length es free used ev = (r, es', free', used', ev') →
  ∃ gone, es = gone ++ es' ∧ ev' = ev ++ gone.*1 ∧
    used' = used - entries_bytes gone ∧
    match r with
    | Some off =>
        entry_blocks es ++ free_blocks free ≡ₚ
          (off, length) :: entry_blocks es' ++ free_blocks free' ∧
        (∃ k o, last gone = Some (k, (o, length)))
    | None =>
        es' = [] ∧ entry_blocks es ++ free_blocks free ≡ₚ free_blocks free' ∧
        Forall (λ e, e.2.2 ≠ length) es
    end.
Proof.
  revert free used ev. induction es as [|[k [o l]] es IH]; intros free used ev Hev; simpl in Hev.
  { simplify_eq. exists []. unfold entries_bytes. simpl. rewrite app_nil_r.
    split_and!; try done. lia. }
  assert (entry_blocks ((k, (o, l)) :: es) ++ free_blocks free ≡ₚ
    entry_blocks es ++ free_blocks (free_push free l o)) as Hperm.
  { rewrite free_blocks_push. simpl. by rewrite <-Permutation_middle. }
  destruct (l =? length) eqn:El; bool_cases.
  - subst l. destruct (pop_last _) as [[off rest]|] eqn:Ep; simplify_eq.
    + exists [(k, (o, length))]. unfold entries_bytes. simpl.
      split_and!; [done|done|lia| |eauto].
      change ((o, length) :: entry_blocks es' ++ free_blocks free)
        with (entry_blocks ((k, (o, length)) :: es') ++ free_blocks free).
      rewrite Hperm, (free_blocks_pop _ _ _ _ Ep). by rewrite <-Permutation_middle.
    + exfalso. apply pop_last_None in Ep. unfold free_push in Ep.
      rewrite lookup_insert_eq in Ep. simpl in Ep. by destruct (default [] (free !! length)).
  - apply IH in Hev as (gone & -> & -> & -> & Hr).
    exists ((k, (o, l)) :: gone). unfold entries_bytes. csimpl.
    split_and!; [done|by rewrite <-app_assoc|unfold entries_bytes; lia|].
    destruct r as [off|].
    + destruct Hr as [Hb (k' & o' & Hlast)]. split.
      * change ((o, l) :: entry_blocks (gone ++ es') ++ free_blocks free)
          with (entry_blocks ((k, (o, l)) :: (gone ++ es')) ++ free_blocks free).
        by rewrite Hperm.
      * destruct gone as [|g gone]; [done|]. exists k', o'. by rewrite <-Hlast.
    + destruct Hr as (Hes & Hb & Hf). split_and!; [done| |constructor; [done|done]].
      change ((o, l) :: entry_blocks (gone ++ es') ++ free_blocks free)
        with (entry_blocks ((k, (o, l)) :: (gone ++ es')) ++ free_blocks free).
      by rewrite Hperm.
Qed.

(** What [_allocate] guarantees: the pages it keeps are a suffix of the LRU
    order, the evicted keys are the rest in order, and the returned block is
    part of the tiling together with the remaining pages and free slots. *)
Lemma _allocate_spec p length r p' ev :
  pool_inv p → 0 ≤ length →
  _allocate p length = (r, p', ev) →
  p_base p' = p_base p ∧ p_capacity p' = p_capacity p ∧
  p_rkey p' = p_rkey p ∧ p_rkeys p' = p_rkeys p ∧
  ∃ gone, p_entries p = gone ++ p_entries p' ∧ ev = gone.*1 ∧
    p_used p' = entries_bytes (p_entries p') ∧
    match r with
    | Some off =>
        tiled (p_next_offset p') (p_capacity p')
          ((off, length) :: entry_blocks (p_entries p') ++ free_blocks (p_free p'))
    | None =>
        tiled (p_next_offset p') (p_capacity p')
          (entry_blocks (p_entries p') ++ free_blocks (p_free p'))
    end.
Proof.
  intros [Hk Hu Ht] Hl Ha. unfold _allocate in Ha.
  destruct (length >? p_capacity p) eqn:Ecap; bool_cases.
  { simplify_eq. split_and!; try done. exists []. split_and!; done. }
  destruct (pop_last _) as [[off rest]|] eqn:Ep; simplify_eq/=.
  { split_and!; try done. exists []. split_and!; [done..|].
    eapply tiled_perm; [|exact Ht]. rewrite (free_blocks_pop _ _ _ _ Ep).
    by rewrite <-Permutation_middle. }
  destruct (_ <=? _) eqn:Eb; bool_cases; simplify_eq/=.
  { split_and!; try done. exists []. split_and!; [done..|]. by apply tiled_bump. }
  destruct (evict_loop _ _ _ _ _) as [[[[r' es] free] used] ev'] eqn:Ev; simplify_eq/=.
  apply evict_loop_spec in Ev as (gone & Hes & -> & -> & Hr).
  split_and!; try done. exists gone. split_and!; [done|done| |].
  - rewrite Hu, Hes. unfold entries_bytes. rewrite fmap_app, sumZ_app. lia.
  - destruct r as [off|].
    + destruct Hr as [Hb _]. by eapply tiled_perm; [exact Hb|].
    + destruct Hr as (-> & Hb & _). simpl. by eapply tiled_perm; [exact Hb|].
Qed.

Lemma pool_inv_perm p es :
  p_entries p ≡ₚ es → pool_inv p → pool_inv (with_entries p es).
Proof.
  intros Hp [Hk Hu Ht]. split; simpl.
  - by eapply od_keys_nodup_perm.
  - rewrite Hu. unfold entries_bytes. apply sumZ_perm. by rewrite Hp.
  - eapply tiled_perm; [|done]. unfold entry_blocks. by rewrite Hp.
Qed.

Lemma suffix_keys_nodup {V} (gone es : list (string * V)) :
  NoDup (od_keys (gone ++ es)) → NoDup (od_keys es) ∧
  (∀ k, k ∈ od_keys gone → k ∉ od_keys es).
Proof.
  unfold od_keys. rewrite fmap_app. intros (H1 & H2 & H3)%NoDup_app. split; [done|].
  intros k. apply H2.
Qed.

Lemma add_entry_inv p key off length :
  od_get (p_entries p) key = None →
  NoDup (od_keys (p_entries p)) → p_used p = entries_bytes (p_entries p) →
  tiled (p_next_offset p) (p_capacity p)
    ((off, length) :: entry_blocks (p_entries p) ++ free_blocks (p_free p)) →
  pool_inv (add_entry p key off length) ∧
  p_entries (add_entry p key off length) = p_entries p ++ [(key, (off, length))].
Proof.
  intros Hg Hk Hu Ht. unfold add_entry.
  assert (od_move_to_end (od_set (p_entries p) key (off, length)) key
    = p_entries p ++ [(key, (off, length))]) as He.
  { unfold od_move_to_end. rewrite od_get_set_eq, od_set_fresh by done.
    f_equal. clear -Hg. induction (p_entries p) as [|[k v] es IH]; simpl in *; case_decide; try done.
    by rewrite IH. }
  rewrite He. split; [split; simpl|done].
  - unfold od_keys. rewrite fmap_app. simpl. rewrite <-Permutation_cons_append.
    apply NoDup_cons. split; [by apply od_get_None|done].
  - rewrite Hu. unfold entries_bytes. rewrite fmap_app, sumZ_app. simpl. lia.
  - eapply tiled_perm; [|exact Ht]. unfold entry_blocks. rewrite fmap_app. simpl.
    rewrite <-app_assoc. simpl. by rewrite <-Permutation_middle.
Qed.

(** What an owner of the pool sees of a fresh [reserve] (and so of [publish]). *)
Lemma reserve_spec p key length r p' ev :
  pool_inv p → 0 ≤ length →
  od_get (p_entries p) key = None →
  reserve p key length = (r, p', ev) →
  pool_inv p' ∧ p_base p' = p_base p ∧ p_capacity p' = p_capacity p ∧
  p_rkey p' = p_rkey p ∧ p_rkeys p' = p_rkeys p ∧
  ∃ gone kept, p_entries p = gone ++ kept ∧ ev = gone.*1 ∧
    match r with
    | Some addr => ∃ off, addr = p_base p + off ∧ p_entries p' = kept ++ [(key, (off, length))]
    | None => p_entries p' = kept
    end.
Proof.
  intros Hinv Hl Hg Hr. unfold reserve in Hr. rewrite Hg in Hr.
  destruct (_allocate p length) as [[off p1] ev1] eqn:Ea.
  apply _allocate_spec in Ea as (Hb & Hc & Hrk & Hrks & gone & Hes & -> & Hu & Ht); try done.
  pose proof (pi_keys _ Hinv) as Hk. rewrite Hes in Hk.
  apply suffix_keys_nodup in Hk as [Hk Hdisj].
  assert (od_get (p_entries p1) key = None) as Hg1.
  { rewrite Hes, od_get_app in Hg. by destruct (od_get gone key). }
  destruct off as [off|]; simplify_eq/=.
  - destruct (add_entry_inv p1 key off length Hg1 Hk Hu Ht) as [Hinv' He'].
    split_and!; try done. exists gone, (p_entries p1). split_and!; [done|done|].
    exists off. split; [by rewrite Hb|done].
  - split_and!; try done. exists gone, (p_entries p'). done.
Qed.

(** [publish] is [reserve] followed by the copy of the source bytes. *)
Lemma publish_reserve p m key src length :
  publish p m key src length =
    let '(r, p', ev) := reserve p key length in
    (r, p',
     match r, od_get (p_entries p) key with
     | Some addr, None => memmove m addr src length
     | _, _ => m
     end, ev).
Proof.
  unfold publish, reserve. destruct (od_get (p_entries p) key) as [[o l]|]; [done|].
  destruct (_allocate p length) as [[[off|] p1] ev1]; done.
Qed.

(** ** Abstraction: the LRU list of keys with their bytes *)

Definition page_bytes (p : PublishedPool) (m : mem) (b : Z * Z) : list Z :=
  mem_read m (p_base p + b.1) b.2.

Definition contents (p : PublishedPool) (m : mem) : list (string * list Z) :=
  (λ e, (e.1, page_bytes p m e.2)) <$> p_entries p.

Lemma contents_keys p m : od_keys (contents p m) = od_keys (p_entries p).
Proof. apply od_keys_vmap. Qed.

(** The blocks of two different entries, or of an entry and a free slot, are
    disjoint. *)
Lemma pool_inv_disjoint p k1 k2 b1 b2 :
  pool_inv p → k1 ≠ k2 →
  od_get (p_entries p) k1 = Some b1 → od_get (p_entries p) k2 = Some b2 →
  blocks_disjoint b1 b2.
Proof.
  intros [Hk _ Ht] Hne H1 H2. apply tiled_pairwise in Ht.
  pose proof (od_del_perm _ _ _ H1) as Hp1.
  rewrite <-(od_get_del_ne _ k1 k2) in H2 by done.
  pose proof (od_del_perm _ _ _ H2) as Hp2.
  revert Hp2. generalize (od_del (od_del (p_entries p) k1) k2) as rest. intros rest Hp2.
  assert (p_entries p ≡ₚ (k1, b1) :: (k2, b2) :: rest) as Hp.
  { etrans; [exact Hp1|]. by apply perm_skip. }
  apply (pairwise_disjoint_perm (b1 :: b2 :: rest.*2 ++ free_blocks (p_free p))) in Ht.
  - apply (Ht 0%nat 1%nat); done.
  - unfold entry_blocks. by rewrite Hp.
Qed.

Lemma pool_inv_bounds p k b :
  pool_inv p → od_get (p_entries p) k = Some b →
  0 ≤ b.1 ∧ 0 ≤ b.2 ∧ b.1 + b.2 ≤ p_capacity p.
Proof.
  intros [_ _ Ht] Hg%od_get_elem. apply (tiled_bounds _ _ _ b) in Ht; [lia|].
  apply elem_of_app. left. unfold entry_blocks. apply list_elem_of_fmap. by exists (k, b).
Qed.

(** Writing to one page leaves the bytes of the other pages alone. *)
Lemma contents_write_page p m key off length bs kept :
  pool_inv p → p_entries p = kept ++ [(key, (off, length))] → zlength bs = length →
  contents p (mem_write m (p_base p + off) bs) =
    ((λ e, (e.1, page_bytes p m e.2)) <$> kept) ++ [(key, bs)].
Proof.
  intros Hinv He Hbs. unfold contents. rewrite He, fmap_app. simpl. f_equal.
  - apply list_fmap_ext. intros i [k b] Hi. unfold page_bytes. simpl. f_equal.
    apply mem_read_write_disjoint. rewrite Hbs.
    pose proof (pi_keys _ Hinv) as Hk.
    apply list_elem_of_lookup_2 in Hi.
    assert (od_get (p_entries p) k = Some b) as H1.
    { apply od_elem_get; [done|]. rewrite He. set_solver. }
    assert (od_get (p_entries p) key = Some (off, length)) as H2.
    { apply od_elem_get; [done|]. rewrite He. set_solver. }
    assert (k ≠ key) as Hne.
    { intros ->. unfold od_keys in Hk. rewrite He, fmap_app in Hk.
      apply NoDup_app in Hk as (_ & Hd & _). apply (Hd key); [|set_solver].
      apply list_elem_of_fmap. by exists (key, b). }
    pose proof (pool_inv_disjoint p key k _ _ Hinv ltac:(congruence) H2 H1) as Hd.
    unfold blocks_disjoint, ranges_disjoint in *. simpl in *. lia.
  - unfold page_bytes. simpl. rewrite <-Hbs. by rewrite mem_read_write_same.
Qed.

Lemma contents_with_entries p m es :
  contents (with_entries p es) m = (λ e, (e.1, page_bytes p m e.2)) <$> es.
Proof. done. Qed.

Lemma contents_base_eq p p' m :
  p_base p' = p_base p → contents p' m = (λ e, (e.1, page_bytes p m e.2)) <$> p_entries p'.
Proof. intros Hb. unfold contents, page_bytes. by rewrite Hb. Qed.

(** *** What becomes of each page *)

Lemma reserve_base p key length r p' ev :
  reserve p key length = (r, p', ev) →
  p_base p' = p_base p ∧ p_capacity p' = p_capacity p ∧ p_rkey p' = p_rkey p ∧ p_rkeys p' = p_rkeys p.
Proof. unfold reserve, _allocate. intros Hr. repeat (case_match; simplify_eq/=); done. Qed.

(** After [publish], a page is one that was there, with the same bytes, or the
    new one; a page that was there is still there or reported evicted. *)
Lemma publish_page_cases p m key src length r p' m' ev :
  pool_inv p → 0 ≤ length → publish p m key src length = (r, p', m', ev) →
  (∀ k b, od_get (p_entries p') k = Some b →
     (od_get (p_entries p) k = Some b ∧ page_bytes p' m' b = page_bytes p m b) ∨
     (k = key ∧ page_bytes p' m' b = mem_read m src length)) ∧
  (∀ k b, od_get (p_entries p) k = Some b → k ∈ ev ∨ od_get (p_entries p') k = Some b) ∧
  (∀ k, k ∈ ev → k ≠ key) ∧
  (∀ addr, r = Some addr → ∃ b, od_get (p_entries p') key = Some b ∧ addr = p_base p' + b.1) ∧
  (∀ x, ¬ (p_base p ≤ x < p_base p + p_capacity p) → m' x = m x).
Proof.
  intros Hinv Hl Hp. rewrite publish_reserve in Hp.
  destruct (reserve p key length) as [[r1 p1] ev1] eqn:Er. simplify_eq.
  destruct (od_get (p_entries p) key) as [b0|] eqn:Eg.
  { unfold reserve in Er. rewrite Eg in Er. simplify_eq/=. pose proof (pi_keys _ Hinv) as Hk.
    assert (∀ k, od_get (od_move_to_end (p_entries p) key) k = od_get (p_entries p) k) as Hsame.
    { intros k. by apply od_get_move_to_end. }
    split; [intros k b; rewrite Hsame; by left|]. split; [intros k b; rewrite Hsame; by right|].
    split; [by intros k ?%not_elem_of_nil|]. split; [|done]. intros addr [= <-]. exists b0. by rewrite Hsame. }
  pose proof (pi_keys _ Hinv) as Hk.
  destruct (reserve_spec _ _ _ _ _ _ Hinv Hl Eg Er) as (Hinv' & Hb & Hc & _ & _ & gone & kept & Hes & -> & Hr).
  pose proof Hk as Hk2. rewrite Hes in Hk2. apply suffix_keys_nodup in Hk2 as [Hkk Hdisj].
  assert (∀ k b, od_get kept k = Some b → od_get (p_entries p) k = Some b) as Hkept.
  { intros k b Hkb. rewrite Hes, od_get_app. destruct (od_get gone k) eqn:Eq; [|done].
    exfalso. apply (Hdisj k); apply od_get_is_Some; eauto. }
  assert (∀ k b, od_get (p_entries p) k = Some b → k ∈ gone.*1 ∨ od_get kept k = Some b) as Hold.
  { intros k b. rewrite Hes, od_get_app. destruct (od_get gone k) eqn:Eq; [|by right]. intros _. left.
    change (k ∈ od_keys gone). apply od_get_is_Some. eauto. }
  assert (∀ k, k ∈ gone.*1 → k ≠ key) as Hne.
  { intros k Hin ->. change (key ∈ od_keys gone) in Hin. apply od_get_is_Some in Hin as [b Hbk].
    rewrite Hes, od_get_app, Hbk in Eg. done. }
  destruct r as [addr|].
  - destruct Hr as (off & -> & He').
    assert (od_get (p_entries p') key = Some (off, length)) as Hnew.
    { apply od_elem_get; [apply Hinv'|]. rewrite He'. set_solver. }
    assert (∀ k b, k ≠ key → od_get (p_entries p') k = Some b ↔ od_get kept k = Some b) as Hk'.
    { intros k b Hkn. rewrite He', od_get_app. simpl. destruct (od_get kept k); [done|].
      by rewrite decide_False by congruence. }
    pose proof (pool_inv_bounds _ _ _ Hinv' Hnew) as (Hb1 & _ & Hb2). simpl in Hb1, Hb2.
    split; [|split; [|split; [done|split]]].
    + intros k b Hkb. destruct (decide (k = key)) as [->|Hkn].
      * right. split; [done|]. rewrite Hnew in Hkb. injection Hkb as <-. unfold page_bytes. simpl. rewrite Hb.
        by rewrite mem_read_memmove_same.
      * left. split; [by apply Hkept, Hk'|]. unfold page_bytes. rewrite Hb. unfold memmove.
        apply mem_read_write_disjoint. rewrite zlength_mem_read by done.
        pose proof (pool_inv_disjoint p' key k _ _ Hinv' ltac:(done) Hnew Hkb) as Hd.
        unfold blocks_disjoint, ranges_disjoint in *. simpl in Hd. lia.
    + intros k b [Hin|Hkb]%Hold; [by left|]. right. apply Hk'; [|done]. intros ->.
      rewrite (Hkept _ _ Hkb) in Eg. done.
    + intros addr [= <-]. exists (off, length). by rewrite Hb.
    + intros x Hx. unfold memmove. apply mem_write_out. rewrite zlength_mem_read by done. lia.
  - split; [|split; [|split; [done|split; done]]].
    + intros k b Hkb. left. rewrite Hr in Hkb. split; [by apply Hkept|]. unfold page_bytes. by rewrite Hb.
    + intros k b [Hin|Hkb]%Hold; [by left|]. right. by rewrite Hr.
Qed.

(** ** Operation sequences *)

Inductive pool_op :=
  | Publish (key : string) (src_ptr length : Z)
  | Reserve (key : string) (length : Z)
  | AddressOf (key : string)
  | Remove (key : string).

Definition pool_step (s : PublishedPool * mem) (op : pool_op) : PublishedPool * mem :=
  let '(p, m) := s in
  match op with
  | Publish k src l => let '(_, p', m', _) := publish p m k src l in (p', m')
  | Reserve k l => let '(_, p', _) := reserve p k l in (p', m)
  | AddressOf k => ((address_of p k).2, m)
  | Remove k => (remove p k, m)
  end.

(** The lengths the callers pass are byte counts. *)
Definition op_ok (op : pool_op) : Prop :=
  match op with Publish _ _ l | Reserve _ l => 0 ≤ l | _ => True end.

Lemma new_pool_inv base cap rkey rkeys : 0 ≤ cap → pool_inv (new_pool base cap rkey rkeys).
Proof.
  intros. split; simpl; [apply NoDup_nil_2|done|].
  exists []. unfold free_blocks. rewrite map_to_list_empty. simpl. split_and!; done.
Qed.

Lemma reserve_inv p k l : pool_inv p → 0 ≤ l → pool_inv (reserve p k l).1.2.
Proof.
  intros Hinv Hl. destruct (od_get (p_entries p) k) as [b|] eqn:Eg.
  - unfold reserve. rewrite Eg. simpl. apply pool_inv_perm; [|done].
    symmetry. apply od_move_to_end_perm.
  - destruct (reserve p k l) as [[r p'] ev] eqn:Er. by apply reserve_spec in Er as [? _].
Qed.

Lemma publish_inv p m k src l : pool_inv p → 0 ≤ l → pool_inv (publish p m k src l).1.1.2.
Proof.
  intros Hinv Hl. rewrite publish_reserve. pose proof (reserve_inv p k l Hinv Hl).
  by destruct (reserve p k l) as [[r p'] ev].
Qed.

Lemma address_of_inv p k : pool_inv p → pool_inv (address_of p k).2.
Proof.
  intros. unfold address_of. destruct (od_get _ k) as [[o l]|]; [|done].
  apply pool_inv_perm; [|done]. symmetry. apply od_move_to_end_perm.
Qed.

Lemma remove_inv p k : pool_inv p → pool_inv (remove p k).
Proof.
  intros [Hk Hu Ht]. unfold remove. destruct (od_get (p_entries p) k) as [[o l]|] eqn:Eg; [|by split].
  pose proof (od_del_perm _ _ _ Eg) as Hp. split; simpl.
  - by apply od_keys_del_nodup.
  - rewrite Hu. unfold entries_bytes.
    rewrite (sumZ_perm _ ((λ e, e.2.2) <$> (k, (o, l)) :: od_del (p_entries p) k))
      by by rewrite <-Hp.
    csimpl. lia.
  - eapply tiled_perm; [|exact Ht]. unfold entry_blocks. rewrite Hp at 1. simpl.
    rewrite free_blocks_push. by rewrite <-Permutation_middle.
Qed.

Lemma pool_step_inv s op : op_ok op → pool_inv s.1 → pool_inv (pool_step s op).1.
Proof.
  destruct s as [p m]. intros Hop Hinv. destruct op as [k src l|k l|k|k]; simpl in *.
  - pose proof (publish_inv p m k src l Hinv Hop).
    by destruct (publish p m k src l) as [[[r p'] m'] ev].
  - pose proof (reserve_inv p k l Hinv Hop). by destruct (reserve p k l) as [[r p'] ev].
  - by apply address_of_inv.
  - by apply remove_inv.
Qed.

Lemma pool_step_base s op :
  p_base (pool_step s op).1 = p_base s.1 ∧ p_capacity (pool_step s op).1 = p_capacity s.1.
Proof.
  destruct s as [p m]. destruct op as [k src l|k l|k|k]; simpl;
    unfold publish, reserve, address_of, remove, _allocate;
    repeat (case_match; simplify_eq/=; try done).
Qed.

Lemma pool_run_inv s ops :
  Forall op_ok ops → pool_inv s.1 →
  pool_inv (foldl pool_step s ops).1 ∧
  p_base (foldl pool_step s ops).1 = p_base s.1 ∧
  p_capacity (foldl pool_step s ops).1 = p_capacity s.1.
Proof.
  intros Hops. revert s. induction Hops as [|op ops Hop _ IH]; intros s Hinv; simpl; [done|].
  destruct (pool_step_base s op) as [<- <-]. apply IH. by apply pool_step_inv.
Qed.

(** ** Properties *)

(** C11: pages never overlap and never leave the region.  After any sequence of
    [publish], [reserve], [address_of] and [remove] on a fresh pool, every live
    page lies inside [base, base + capacity), two live pages share no byte, the
    byte counter is the sum of the live lengths and stays within the capacity,
    and live bytes plus free bytes account for the whole bump-allocated part. *)
Theorem pool_pages_safe base cap rkey rkeys m ops :
  0 ≤ cap → Forall op_ok ops →
  let p := (foldl pool_step (new_pool base cap rkey rkeys, m) ops).1 in
  (∀ k off l, od_get (p_entries p) k = Some (off, l) →
     base ≤ base + off ∧ 0 ≤ l ∧ base + off + l ≤ base + cap) ∧
  (∀ k1 k2 b1 b2, k1 ≠ k2 →
     od_get (p_entries p) k1 = Some b1 → od_get (p_entries p) k2 = Some b2 →
     ranges_disjoint b1.1 b1.2 b2.1 b2.2) ∧
  bytes_used p = entries_bytes (p_entries p) ∧
  bytes_used p + sumZ (free_blocks (p_free p)).*2 = p_next_offset p ∧
  0 ≤ bytes_used p ≤ cap.
Proof.
  intros Hc Hops p.
  destruct (pool_run_inv (new_pool base cap rkey rkeys, m) ops) as (Hinv & Hb & Hcap);
    [done|by apply new_pool_inv|].
  fold p in Hinv, Hb, Hcap. clearbody p. simpl in Hb, Hcap.
  assert (0 ≤ p_used p ∧ p_used p + sumZ (free_blocks (p_free p)).*2 = p_next_offset p
    ∧ p_next_offset p ≤ cap ∧ p_used p ≤ p_next_offset p) as (Hu & Hsum & Hnext & Hle).
  { destruct Hinv as [_ Hused Ht]. pose proof (tiled_bytes _ _ _ Ht) as Hbytes.
    rewrite fmap_app, sumZ_app in Hbytes.
    assert (sumZ (entry_blocks (p_entries p)).*2 = p_used p) as He.
    { rewrite Hused. unfold entries_bytes, entry_blocks. rewrite <-list_fmap_compose. done. }
    assert (∀ l, l ⊆ entry_blocks (p_entries p) ++ free_blocks (p_free p) →
      0 ≤ sumZ l.*2) as Hpos.
    { intros l Hl. apply sumZ_nonneg. apply Forall_fmap, Forall_forall. intros b Hb'. simpl.
      apply (tiled_bounds _ _ _ b) in Ht; [lia|]. by apply Hl. }
    pose proof (Hpos (entry_blocks (p_entries p)) ltac:(set_solver)).
    pose proof (Hpos (free_blocks (p_free p)) ltac:(set_solver)).
    destruct Ht as (ls & _ & _ & _ & ?). lia. }
  split_and!; try done; [| |apply Hinv|unfold bytes_used; lia].
  - intros k off l Hg. apply pool_inv_bounds in Hg; [|done]. simpl in Hg. lia.
  - intros k1 k2 b1 b2 Hne H1 H2. by apply (pool_inv_disjoint p k1 k2).
Qed.

(** C12: [publish] refines the bounded LRU cache.  For a resident key it returns
    the page's address and only makes it the most recent one.  For a new key
    the pages displaced are the least recently used ones, reported in order;
    every page that stays keeps its bytes and its address, and on success the
    new page holds exactly the source bytes at the returned address; no other
    byte of the memory changes. *)
Theorem publish_refines_lru p m key src length r p' m' ev :
  pool_inv p → 0 ≤ length →
  publish p m key src length = (r, p', m', ev) →
  pool_inv p' ∧
  match od_get (p_entries p) key with
  | Some (off, _) =>
      r = Some (p_base p + off) ∧ m' = m ∧ ev = [] ∧
      contents p' m' = od_move_to_end (contents p m) key
  | None =>
      ∃ gone kept, contents p m = gone ++ kept ∧ ev = gone.*1 ∧
        match r with
        | None => m' = m ∧ contents p' m' = kept
        | Some addr =>
            contents p' m' = kept ++ [(key, mem_read m src length)] ∧
            (∃ off, addr = p_base p + off ∧ od_get (p_entries p') key = Some (off, length)) ∧
            (∀ k, k ∈ od_keys kept → od_get (p_entries p') k = od_get (p_entries p) k) ∧
            (∀ x, ¬ (addr ≤ x < addr + length) → m' x = m x)
        end
  end.
Proof.
  intros Hinv Hl Hp.
  split; [pose proof (publish_inv p m key src length Hinv Hl) as Hi; by rewrite Hp in Hi|].
  rewrite publish_reserve in Hp.
  destruct (reserve p key length) as [[r1 p1] ev1] eqn:Er. simplify_eq.
  destruct (od_get (p_entries p) key) as [[off l]|] eqn:Eg.
  { unfold reserve in Er. rewrite Eg in Er. simplify_eq/=. split_and!; try done.
    unfold contents at 2. by rewrite od_move_to_end_vmap. }
  pose proof (pi_keys _ Hinv) as Hk.
  apply reserve_spec in Er as (Hinv' & Hb & _ & _ & _ & gone & kept & Hes & -> & Hr); try done.
  pose proof Hk as Hk2. rewrite Hes in Hk2. apply suffix_keys_nodup in Hk2 as [Hkk Hdisj].
  exists ((λ e, (e.1, page_bytes p m e.2)) <$> gone), ((λ e, (e.1, page_bytes p m e.2)) <$> kept).
  split_and!.
  - unfold contents. by rewrite Hes, fmap_app.
  - by rewrite <-list_fmap_compose.
  - destruct r as [addr|]; simpl.
    + destruct Hr as (off & -> & He'). unfold memmove. split_and!.
      * rewrite <-Hb. rewrite (contents_write_page p' m key off length _ kept); try done.
        -- unfold page_bytes. by rewrite Hb.
        -- by apply zlength_mem_read.
      * exists off. split; [done|]. apply od_elem_get; [apply Hinv'|]. rewrite He'. set_solver.
      * intros k Hin. rewrite od_keys_vmap in Hin. rewrite He', Hes, !od_get_app.
        destruct (od_get gone k) eqn:Egone.
        { exfalso. apply (Hdisj k); [|done]. apply od_get_is_Some. eauto. }
        destruct (od_get kept k) eqn:Ek; [done|]. by apply od_get_None in Ek.
      * intros x Hx. apply mem_write_out. by rewrite zlength_mem_read.
    + split; [done|]. rewrite <-Hr. by apply contents_base_eq.
Qed.

(** A new page displaces others only when it must.  If [publish] reports
    evicted keys, then no free slot of that length existed and the bump pointer
    had no room; if it succeeds all the same, the last page evicted had exactly
    the requested length. *)
Theorem publish_evicts_only_when_full p m key src length r p' m' ev :
  publish p m key src length = (r, p', m', ev) → ev ≠ [] →
  od_get (p_entries p) key = None ∧ length ≤ p_capacity p ∧
  default [] (p_free p !! length) = [] ∧ p_capacity p < p_next_offset p + length ∧
  (r ≠ None → ∃ gone kept k off, p_entries p = gone ++ [(k, (off, length))] ++ kept ∧
     ev = gone.*1 ++ [k]).
Proof.
  intros Hp Hev. unfold publish in Hp.
  destruct (od_get (p_entries p) key) as [e|] eqn:Eg; [by simplify_eq|].
  destruct (_allocate p length) as [[off p1] ev1] eqn:Ea.
  assert (ev = ev1 ∧ (r ≠ None → off ≠ None)) as [-> Hoff].
  { destruct off; simplify_eq; done. }
  clear Hp. unfold _allocate in Ea.
  destruct (length >? p_capacity p) eqn:Ec; bool_cases; [by simplify_eq|].
  destruct (pop_last _) as [[o rest]|] eqn:Epop; [by simplify_eq|].
  destruct (_ <=? _) eqn:Eb; bool_cases; [by simplify_eq|].
  destruct (evict_loop _ _ _ _ _) as [[[[r' es] free] used] ev'] eqn:El. simplify_eq.
  apply evict_loop_spec in El as (gone & Hes & -> & _ & Hr).
  split_and!; [done|done|by apply pop_last_None|done|].
  intros Hr'. destruct off as [off|]; [|by apply Hoff in Hr'].
  destruct Hr as [_ (k & o & Hlast)].
  apply last_Some in Hlast as [gone' ->].
  exists gone', es, k, o. rewrite Hes, fmap_app, <-app_assoc. done.
Qed.

(** Pages of one size always find a slot.  When every live page and every
    free slot has the length [l] the pool is asked for, and [l] fits the
    region, [publish] succeeds and displaces at most one page. *)
Theorem publish_uniform_succeeds p m key src l :
  pool_inv p → 0 < l ≤ p_capacity p →
  (∀ b, b ∈ entry_blocks (p_entries p) ++ free_blocks (p_free p) → b.2 = l) →
  ∃ addr p' m' ev, publish p m key src l = (Some addr, p', m', ev) ∧ (List.length ev ≤ 1)%nat.
Proof.
  intros Hinv Hl Huni. unfold publish.
  destruct (od_get (p_entries p) key) as [e|]; [do 4 eexists; split; [done|simpl; lia]|].
  unfold _allocate.
  assert ((l >? p_capacity p) = false) as -> by (rewrite Z.gtb_ltb; apply Z.ltb_ge; lia).
  destruct (pop_last _) as [[o rest]|] eqn:Epop; [do 4 eexists; split; [done|simpl; lia]|].
  destruct (_ <=? _) eqn:Eb; [do 4 eexists; split; [done|simpl; lia]|]. bool_cases.
  destruct (p_entries p) as [|[k [o l']] es] eqn:Ees.
  - exfalso. destruct Hinv as [_ _ Ht]. rewrite Ees in Ht. apply pop_last_None in Epop.
    assert (free_blocks (p_free p) = []) as Hf.
    { destruct (free_blocks (p_free p)) as [|b bs] eqn:Efb; [done|exfalso].
      assert (b ∈ free_blocks (p_free p)) as Hb by (rewrite Efb; set_solver).
      assert (b.2 = l) as Hbl by (apply Huni; simpl; set_solver).
      rewrite (free_blocks_lookup _ l), Epop in Hb. simpl in Hb.
      unfold free_blocks in Hb. apply list_elem_of_bind in Hb as ([l2 offs] & Hin & Hm).
      apply list_elem_of_fmap in Hin as (o & -> & _). simpl in Hbl. subst l2.
      apply elem_of_map_to_list in Hm. by rewrite lookup_delete_eq in Hm. }
    pose proof (tiled_bytes _ _ _ Ht) as Hb. rewrite Hf in Hb. simpl in Hb. lia.
  - assert (l' = l) as ->.
    { apply (Huni (o, l')). simpl. set_solver. }
    simpl. rewrite Z.eqb_refl. unfold free_push. rewrite lookup_insert_eq. simpl.
    rewrite pop_last_snoc. do 4 eexists. split; [done|simpl; lia].
Qed.

(** Mixed page sizes can empty the pool.  When no free slot has the
    requested length, the bump pointer is exhausted and every live page has
    another length, [publish] evicts all live pages and still fails. *)
Theorem publish_mixed_sizes_wipes p m key src length :
  pool_inv p → 0 ≤ length ≤ p_capacity p →
  od_get (p_entries p) key = None →
  default [] (p_free p !! length) = [] → p_capacity p < p_next_offset p + length →
  (∀ k b, (k, b) ∈ p_entries p → b.2 ≠ length) →
  ∃ p', publish p m key src length = (None, p', m, od_keys (p_entries p)) ∧ p_entries p' = [].
Proof.
  intros Hinv Hl Hg Hf Hfull Hdiff. unfold publish. rewrite Hg. unfold _allocate.
  assert ((length >? p_capacity p) = false) as -> by (rewrite Z.gtb_ltb; apply Z.ltb_ge; lia).
  rewrite Hf. simpl.
  assert ((p_next_offset p + length <=? p_capacity p) = false) as -> by (apply Z.leb_gt; lia).
  destruct (evict_loop _ _ _ _ _) as [[[[r es] free] used] ev'] eqn:El.
  apply evict_loop_spec in El as (gone & Hes & -> & _ & Hr).
  destruct r as [off|].
  - exfalso. destruct Hr as [_ (k & o & Hlast)]. apply (Hdiff k (o, length)); [|done].
    rewrite Hes. apply elem_of_app. left. by apply last_Some_elem_of.
  - destruct Hr as (-> & _ & _). rewrite app_nil_r in Hes.
    eexists. split; [by rewrite Hes|done].
Qed.

(** [remove] and [address_of] act on exactly one key.  [remove] deletes the
    key's page and frees its slot for the next page of that length; [address_of]
    returns the live page's range and only refreshes its LRU position. *)
Theorem pool_remove_address_of p m key :
  pool_inv p →
  contents (remove p key) m = od_del (contents p m) key ∧ pool_inv (remove p key) ∧
  contents (address_of p key).2 m = od_move_to_end (contents p m) key ∧
  (address_of p key).1 = (λ b, (p_base p + b.1, b.2)) <$> od_get (p_entries p) key ∧
  (∀ off l, od_get (p_entries p) key = Some (off, l) → l ≤ p_capacity p →
     ∃ p', _allocate (remove p key) l = (Some off, p', [])).
Proof.
  intros Hinv. split_and!.
  - unfold contents at 2. rewrite od_del_vmap. unfold remove.
    destruct (od_get (p_entries p) key) as [[o l]|] eqn:E; [done|]. by rewrite od_del_None.
  - by apply remove_inv.
  - unfold contents at 2. rewrite od_move_to_end_vmap. unfold address_of.
    destruct (od_get (p_entries p) key) as [[o l]|] eqn:E; [done|].
    simpl. unfold od_move_to_end. by rewrite E.
  - unfold address_of. by destruct (od_get (p_entries p) key) as [[o l]|].
  - intros off l Hg Hl. unfold remove, _allocate. rewrite Hg. simpl.
    assert ((l >? p_capacity p) = false) as -> by (rewrite Z.gtb_ltb; apply Z.ltb_ge; lia).
    unfold free_push. rewrite lookup_insert_eq. simpl. rewrite pop_last_snoc. eauto.
Qed.

(** ** Witnesses *)

Module PoolExamples.
(** Memory whose byte at [x] is [x mod 251]. *)
Definition sample_mem : mem := λ x, x mod 251.

(** A 100-byte region at address 1000 after two 40-byte pages. *)
Definition sample_ops : list pool_op :=
  [Publish "a" 5000 40; Publish "b" 6000 40; AddressOf "a"].
Definition sample : PublishedPool * mem :=
  foldl pool_step (new_pool 1000 100 7 None, sample_mem) sample_ops.

Lemma sample_ops_ok : Forall op_ok sample_ops.
Proof. repeat constructor; simpl; lia. Qed.

Lemma sample_inv : pool_inv sample.1.
Proof.
  apply (pool_run_inv (new_pool 1000 100 7 None, sample_mem) sample_ops);
    [exact sample_ops_ok|]. apply new_pool_inv. lia.
Qed.

Lemma pool_pages_safe_witness :
  od_keys (p_entries sample.1) = ["b"; "a"] ∧ bytes_used sample.1 ≤ 100.
Proof.
  split; [vm_compute; reflexivity|].
  destruct (pool_pages_safe 1000 100 7 None sample_mem sample_ops) as (_ & _ & _ & _ & H);
    [lia|exact sample_ops_ok|exact (proj2 H)].
Defined.

(** Publishing a third page evicts "b", the least recently used one. *)
Lemma publish_refines_lru_witness :
  ∃ r p' m', publish sample.1 sample.2 "c" 7000 40 = (r, p', m', ["b"]) ∧ pool_inv p' ∧
    od_keys (contents p' m') = ["a"; "c"].
Proof.
  destruct (publish sample.1 sample.2 "c" 7000 40) as [[[r p'] m'] ev] eqn:E.
  destruct (publish_refines_lru sample.1 sample.2 "c" 7000 40 r p' m' ev
    sample_inv ltac:(lia) E) as [Hinv _].
  apply (f_equal (λ x, (x.2, od_keys (p_entries x.1.1.2)))) in E.
  vm_compute in E. simpl in E. injection E as <- Hp.
  exists r, p', m'. rewrite contents_keys. split; [reflexivity|]. split; [exact Hinv|].
  symmetry. exact Hp.
Defined.

Lemma publish_evicts_only_when_full_witness :
  p_capacity sample.1 < p_next_offset sample.1 + 40.
Proof.
  destruct (publish sample.1 sample.2 "c" 7000 40) as [[[r p'] m'] ev] eqn:E.
  assert (ev = ["b"]) as Hev.
  { apply (f_equal snd) in E. vm_compute in E. symmetry. exact E. }
  apply (publish_evicts_only_when_full _ _ _ _ _ _ _ _ _ E). by rewrite Hev.
Defined.

Lemma publish_uniform_succeeds_witness :
  ∃ addr p' m' ev, publish sample.1 sample.2 "c" 7000 40 = (Some addr, p', m', ev) ∧
    (List.length ev ≤ 1)%nat.
Proof.
  apply publish_uniform_succeeds; [exact sample_inv|vm_compute; split; congruence|].
  intros b Hb. apply list_elem_of_In in Hb. vm_compute in Hb.
  destruct Hb as [<-|[<-|[]]]; reflexivity.
Defined.

Lemma publish_mixed_sizes_wipes_witness :
  ∃ p', publish sample.1 sample.2 "c" 7000 60 = (None, p', sample.2, ["b"; "a"]) ∧
    p_entries p' = [].
Proof.
  apply (publish_mixed_sizes_wipes sample.1 sample.2 "c" 7000 60).
  - exact sample_inv.
  - vm_compute. split; congruence.
  - vm_compute. reflexivity.
  - vm_compute. reflexivity.
  - vm_compute. reflexivity.
  - intros k b Hb. apply list_elem_of_In in Hb. vm_compute in Hb.
    destruct Hb as [[= _ <-]|[[= _ <-]|[]]]; vm_compute; congruence.
Defined.

Lemma pool_remove_address_of_witness :
  od_keys (contents (remove sample.1 "b") sample.2) = ["a"].
Proof.
  destruct (pool_remove_address_of sample.1 sample.2 "b" sample_inv) as [-> _].
  unfold contents. rewrite od_del_vmap, od_keys_vmap. vm_compute. reflexivity.
Defined.
End PoolExamples.
