(* ===== verification/SlotMap.v ===== *)
(** The slot-addressed store of [slotmap.py] (mode=slotmap).

    A key maps to a bucket of [ways] fixed-size slots by hashing.  A slot is a
    64-byte header (magic, version, 128-bit key hash, payload length, sequence
    number) followed by the payload.  The header codec, the reader's gate
    ([slot_matches], [slot_present]), the two way-selection policies and the
    owner-side [SlotRegion] are translated below; [region_rep] relates a region
    in memory to an abstract set-associative cache, and the operations refine
    the cache's. *)
From S2P Require Import Prelude Bytes HashRing Hashlib.

(** ** Slot header *)

Definition _MAGIC : Z := 0x50434B31.
Definition _HDR_VER : Z := 1.
Definition HEADER_SIZE : Z := 64.

(** [struct.Struct("<IHHQQIIQ")]: field widths. *)
Definition _HDR_STRUCT : list nat := [4; 2; 2; 8; 8; 4; 4; 8]%nat.
Definition hdr_size : nat := sum_list _HDR_STRUCT.

Record SlotGeometry := mk_geom {
  max_payload : Z;
  num_buckets : Z;
  ways : Z;
  slot_stride : Z;
  bucket_stride : Z
}.

Definition _align (n a : Z) : Z := (n + a - 1) / a * a.

(** [SlotGeometry.__init__] *)
Definition new_geometry (payload buckets w : Z) : SlotGeometry :=
  let stride := _align (HEADER_SIZE + payload) 64 in
  mk_geom payload buckets w stride (stride * w).

Definition capacity (g : SlotGeometry) : Z := bucket_stride g * num_buckets g.

Definition slot_offset (g : SlotGeometry) (bucket_idx way : Z) : Z :=
  bucket_idx * bucket_stride g + way * slot_stride g.

(** A decoded header: [(valid_magic, key_hi, key_lo, payload_len, seq)]. *)
Record header := mk_header {
  h_valid : bool;
  h_hi : Z;
  h_lo : Z;
  h_plen : Z;
  h_seq : Z
}.

Record SlotRegion := mk_region {
  sr_base : Z;
  sr_geom : SlotGeometry;
  sr_seq : gmap (Z * Z) Z
}.

Section slotmap.
Context {HL : Hashlib}.

(** [encode_header]; [None] when [struct.pack] raises [struct.error]. *)
Definition encode_header (key : string) (payload_len seq : Z) : option (list Z) :=
  let '(hi, lo) := key_hash128 key in
  body ← pack_fields (zip _HDR_STRUCT [_MAGIC; _HDR_VER; 0; hi; lo; payload_len; 0; seq]);
  Some (body ++ replicate (Z.to_nat HEADER_SIZE - length body) 0).

Definition decode_header (buf : list Z) : option header :=
  if decide (length buf < hdr_size)%nat then None
  else
    match unpack_fields _HDR_STRUCT (take hdr_size buf) with
    | [magic; ver; _; hi; lo; plen; _; seq] =>
        if negb (magic =? _MAGIC) || negb (ver =? _HDR_VER)
        then Some (mk_header false 0 0 0 0)
        else Some (mk_header true hi lo plen seq)
    | _ => None
    end.

Definition slot_matches (header_bytes : list Z) (key : string) (expected_len : Z) : bool :=
  match decode_header header_bytes with
  | None => false
  | Some h =>
      if negb (h_valid h) then false
      else if negb (Z.land (h_seq h) 1 =? 0) then false
      else if negb (h_plen h =? expected_len) then false
      else let '(khi, klo) := key_hash128 key in (h_hi h =? khi) && (h_lo h =? klo)
  end.

Definition slot_present (header_bytes : list Z) (key : string) : option Z :=
  match decode_header header_bytes with
  | None => None
  | Some h =>
      if negb (h_valid h) then None
      else if negb (Z.land (h_seq h) 1 =? 0) then None
      else let '(khi, klo) := key_hash128 key in
           if (h_hi h =? khi) && (h_lo h =? klo) then Some (h_plen h) else None
  end.

(** Loop state of the way selection: first empty way, oldest way and its
    seq, way holding the key. *)
Record way_scan := mk_scan {
  ws_empty : option Z;
  ws_oldest_way : Z;
  ws_oldest_seq : option Z;
  ws_chosen : option Z
}.

Definition scan_oldest (s : way_scan) (way seq : Z) : Z * option Z :=
  match ws_oldest_seq s with
  | None => (way, Some seq)
  | Some os => if seq <? os then (way, Some seq) else (ws_oldest_way s, Some os)
  end.

(** One iteration of the [for way in range(geom.ways)] loop. *)
Definition pick_scan_step (bucket_bytes : list Z) (g : SlotGeometry) (kh : Z * Z)
    (s : way_scan) (way : Z) : way_scan :=
  let off := way * slot_stride g in
  let dec := decode_header (slice bucket_bytes off (off + HEADER_SIZE)) in
  let '(empty, seq, chosen) :=
    match dec with
    | Some (mk_header true hi lo _ seq) =>
        (ws_empty s, seq,
         if bool_decide ((hi, lo) = kh) then Some way else ws_chosen s)
    | _ =>
        (match ws_empty s with None => Some way | e => e end, 0, ws_chosen s)
    end in
  let '(ow, os) := scan_oldest s way seq in
  mk_scan empty ow os chosen.

Definition pick_way_from_bucket (bucket_bytes : list Z) (g : SlotGeometry) (key : string) : Z * Z :=
  let s := foldl (pick_scan_step bucket_bytes g (key_hash128 key))
             (mk_scan None 0 None None) (seqZ 0 (ways g)) in
  let chosen :=
    match ws_chosen s with
    | Some w => w
    | None => default (ws_oldest_way s) (ws_empty s)
    end in
  let base := default 0 (ws_oldest_seq s) in
  let new_seq := Z.land (base + 2) (Z.lnot 1) in
  let new_seq := if new_seq =? 0 then 2 else new_seq in
  (chosen, new_seq).

(** ** Slot geometry *)

Definition bucket_index (g : SlotGeometry) (key : string) : Z := bucket_hash key mod num_buckets g.

Definition bucket_offset (g : SlotGeometry) (key : string) : Z :=
  bucket_index g key * bucket_stride g.

(** ** The owner-side region *)

(** [SlotRegion.__init__] *)
Definition new_region (base : Z) (g : SlotGeometry) : SlotRegion := mk_region base g ∅.

Definition _slot_key_hash (r : SlotRegion) (m : mem) (bucket way : Z) : option (Z * Z) :=
  let off := slot_offset (sr_geom r) bucket way in
  match decode_header (mem_read m (sr_base r + off) HEADER_SIZE) with
  | Some h => if h_valid h then Some (h_hi h, h_lo h) else None
  | None => None
  end.

(** The loop of [pick_way]: it returns from inside on the first way that
    holds the key. *)
Fixpoint pick_way_loop (r : SlotRegion) (m : mem) (kh : Z * Z) (bucket : Z)
    (ws : list Z) (s : way_scan) : Z :=
  match ws with
  | [] => default (ws_oldest_way s) (ws_empty s)
  | way :: ws' =>
      let k := _slot_key_hash r m bucket way in
      if bool_decide (k = Some kh) then way
      else
        let empty := match k, ws_empty s with None, None => Some way | _, e => e end in
        let '(ow, os) := scan_oldest s way (default 0 (sr_seq r !! (bucket, way))) in
        pick_way_loop r m kh bucket ws' (mk_scan empty ow os None)
  end.

Definition pick_way (r : SlotRegion) (m : mem) (key : string) : Z * Z :=
  let bucket := bucket_index (sr_geom r) key in
  (bucket, pick_way_loop r m (key_hash128 key) bucket (seqZ 0 (ways (sr_geom r)))
             (mk_scan None 0 None None)).

(** [_mark_seq]: store a header; [None] is the [struct.error] of its encoding. *)
Definition _mark_seq (r : SlotRegion) (m : mem) (off seq : Z) (key : string) (length : Z) : option mem :=
  hdr ← encode_header key length seq; Some (mem_write m (sr_base r + off) hdr).

Definition _write_header (r : SlotRegion) (m : mem) (off : Z) (key : string) (length seq : Z) : option mem :=
  _mark_seq r m off seq key length.

(** [write_local]: the slot offset, [Ret None] for a page too big for the
    size class, [Raise StructError] when a header field is out of range. *)
Definition write_local (r : SlotRegion) (m : mem) (key : string) (src_ptr length : Z)
    : pyres (option Z) * SlotRegion * mem :=
  if length >? max_payload (sr_geom r) then (Ret None, r, m)
  else
    let '(bucket, way) := pick_way r m key in
    let off := slot_offset (sr_geom r) bucket way in
    let seq := default 0 (sr_seq r !! (bucket, way)) in
    let new_seq := if Z.land seq 1 =? 0 then seq + 2 else seq + 1 in
    match _mark_seq r m off (Z.lor new_seq 1) key length with
    | None => (Raise StructError, r, m)
    | Some m1 =>
        let m2 := memmove m1 (sr_base r + off + HEADER_SIZE) src_ptr length in
        match _write_header r m2 off key length new_seq with
        | None => (Raise StructError, r, m2)
        | Some m3 =>
            (Ret (Some off),
             mk_region (sr_base r) (sr_geom r) (<[(bucket, way) := new_seq]> (sr_seq r)), m3)
        end
    end.

Fixpoint read_local_loop (r : SlotRegion) (m : mem) (key : string) (bucket dst_ptr length : Z)
    (ws : list Z) : bool * mem :=
  match ws with
  | [] => (false, m)
  | way :: ws' =>
      let off := slot_offset (sr_geom r) bucket way in
      let hdr := mem_read m (sr_base r + off) HEADER_SIZE in
      if slot_matches hdr key length
      then (true, memmove m dst_ptr (sr_base r + off + HEADER_SIZE) length)
      else read_local_loop r m key bucket dst_ptr length ws'
  end.

Definition read_local (r : SlotRegion) (m : mem) (key : string) (dst_ptr length : Z) : bool * mem :=
  read_local_loop r m key (bucket_index (sr_geom r) key) dst_ptr length (seqZ 0 (ways (sr_geom r))).

Fixpoint exists_local_loop (r : SlotRegion) (m : mem) (key : string) (bucket : Z) (ws : list Z) : option Z :=
  match ws with
  | [] => None
  | way :: ws' =>
      let off := slot_offset (sr_geom r) bucket way in
      match slot_present (mem_read m (sr_base r + off) HEADER_SIZE) key with
      | Some plen => Some plen
      | None => exists_local_loop r m key bucket ws'
      end
  end.

Definition exists_local (r : SlotRegion) (m : mem) (key : string) : option Z :=
  exists_local_loop r m key (bucket_index (sr_geom r) key) (seqZ 0 (ways (sr_geom r))).
End slotmap.

(** ** The header codec *)

Section codec.
Context {HL : Hashlib}.

Lemma encode_header_spec key plen seq hdr :
  encode_header key plen seq = Some hdr →
  length hdr = Z.to_nat HEADER_SIZE ∧
  decode_header hdr =
    Some (mk_header true (key_hash128 key).1 (key_hash128 key).2 plen seq).
Proof.
  unfold encode_header. destruct (key_hash128 key) as [hi lo]. intros He.
  destruct (pack_fields _) as [body|] eqn:Ep; simplify_eq/=.
  apply pack_fields_Some in Ep as [Hu Hl]. simpl in Hu, Hl.
  split; [rewrite length_app, length_replicate, Hl; done|].
  unfold decode_header.
  rewrite decide_False by (rewrite length_app, Hl; unfold hdr_size; simpl; lia).
  rewrite take_app_length' by (rewrite Hl; done).
  unfold _HDR_STRUCT in *. rewrite Hu. done.
Qed.

Lemma encode_header_total key plen seq :
  0 ≤ plen < 2 ^ 32 → 0 ≤ seq < 2 ^ 64 → is_Some (encode_header key plen seq).
Proof.
  intros Hp Hs. unfold encode_header. pose proof (key_hash128_range key) as Hk.
  destruct (key_hash128 key) as [hi lo]. simpl in Hk.
  destruct (pack_fields_total (zip _HDR_STRUCT [_MAGIC; _HDR_VER; 0; hi; lo; plen; 0; seq]))
    as [bs ->]; [|simpl; eauto].
  unfold _HDR_STRUCT. simpl. repeat constructor; simpl; unfold _MAGIC, _HDR_VER; lia.
Qed.

Lemma slot_matches_true hb key n :
  slot_matches hb key n = true ↔
  ∃ seq, decode_header hb =
      Some (mk_header true (key_hash128 key).1 (key_hash128 key).2 n seq) ∧
    Z.land seq 1 = 0.
Proof.
  unfold slot_matches. destruct (decode_header hb) as [[v hi lo pl sq]|]; simpl; [|naive_solver].
  destruct v; simpl; [|naive_solver].
  destruct (Z.land sq 1 =? 0) eqn:E1; bool_cases; simpl; [|naive_solver].
  destruct (pl =? n) eqn:E2; bool_cases; simpl; [|naive_solver].
  destruct (key_hash128 key) as [khi klo]. simpl.
  rewrite andb_true_iff, !Z.eqb_eq. naive_solver.
Qed.

Lemma slot_present_Some hb key n :
  slot_present hb key = Some n ↔
  ∃ seq, decode_header hb =
      Some (mk_header true (key_hash128 key).1 (key_hash128 key).2 n seq) ∧
    Z.land seq 1 = 0.
Proof.
  unfold slot_present. destruct (decode_header hb) as [[v hi lo pl sq]|]; simpl; [|naive_solver].
  destruct v; simpl; [|naive_solver].
  destruct (Z.land sq 1 =? 0) eqn:E1; bool_cases; simpl; [|naive_solver].
  destruct (key_hash128 key) as [khi klo]. simpl.
  destruct (_ && _) eqn:E2; bool_cases; [naive_solver|].
  destruct E2; bool_cases; naive_solver.
Qed.

(** Memory without the magic number decodes to no page. *)
Lemma decode_zeroes n :
  (hdr_size ≤ n)%nat → decode_header (replicate n 0) = Some (mk_header false 0 0 0 0).
Proof.
  intros Hn. unfold decode_header. rewrite decide_False by (rewrite length_replicate; lia).
  rewrite take_replicate, Nat.min_l by done. vm_compute. done.
Qed.
End codec.

Arguments decode_header : simpl never.
Arguments encode_header : simpl never.

(** ** Geometry *)

Definition geom_ok (g : SlotGeometry) : Prop :=
  0 ≤ max_payload g ∧ 0 < num_buckets g ∧ 0 < ways g ∧
  HEADER_SIZE + max_payload g ≤ slot_stride g ∧ bucket_stride g = slot_stride g * ways g.

Lemma _align_spec n a : 0 < a → n ≤ _align n a < n + a ∧ _align n a mod a = 0.
Proof.
  intros Ha. unfold _align. split; [|by rewrite Z.mod_mul by lia].
  pose proof (Z.div_mod (n + a - 1) a ltac:(lia)).
  pose proof (Z.mod_pos_bound (n + a - 1) a ltac:(lia)).
  generalize dependent ((n + a - 1) mod a). generalize ((n + a - 1) / a). intros. nia.
Qed.

Lemma new_geometry_ok payload buckets w :
  0 ≤ payload → 0 < buckets → 0 < w → geom_ok (new_geometry payload buckets w).
Proof.
  intros. unfold geom_ok, new_geometry. simpl.
  pose proof (_align_spec (HEADER_SIZE + payload) 64). lia.
Qed.

Definition slot_in_range (g : SlotGeometry) (b w : Z) : Prop :=
  0 ≤ b < num_buckets g ∧ 0 ≤ w < ways g.

Lemma slot_offset_index g b w :
  geom_ok g → slot_offset g b w = (b * ways g + w) * slot_stride g.
Proof. intros (_ & _ & _ & _ & Hb). unfold slot_offset. rewrite Hb. lia. Qed.

Lemma slot_offset_bounds g b w :
  geom_ok g → slot_in_range g b w →
  0 ≤ slot_offset g b w ∧ slot_offset g b w + slot_stride g ≤ capacity g.
Proof.
  intros Hg [Hb Hw]. rewrite slot_offset_index by done. unfold capacity.
  destruct Hg as (H1 & H2 & H3 & H4 & ->). unfold HEADER_SIZE in *.
  assert (0 ≤ b * ways g + w) as Hlo by nia.
  assert (b * ways g + w + 1 ≤ num_buckets g * ways g) as Hhi by nia.
  pose proof (Z.mul_le_mono_nonneg_r _ _ (slot_stride g) ltac:(lia) Hhi). nia.
Qed.

Lemma slot_offset_disjoint g b w b' w' :
  geom_ok g → slot_in_range g b w → slot_in_range g b' w' → (b, w) ≠ (b', w') →
  ranges_disjoint (slot_offset g b w) (slot_stride g) (slot_offset g b' w') (slot_stride g).
Proof.
  intros Hg [Hb Hw] [Hb' Hw'] Hne. rewrite !slot_offset_index by done.
  assert (b * ways g + w ≠ b' * ways g + w') as Hi.
  { intros He. apply Hne.
    assert (b = b') as ->; [|f_equal; lia].
    destruct (Z.lt_trichotomy b b') as [?|[?|?]]; [nia|done|nia]. }
  destruct Hg as (H1 & H2 & H3 & H4 & _). unfold ranges_disjoint, HEADER_SIZE in *.
  destruct (Z.lt_total (b * ways g + w) (b' * ways g + w')) as [?|[?|?]]; [left|done|right]; nia.
Qed.

Lemma bucket_index_range {HL : Hashlib} g key :
  geom_ok g → 0 ≤ bucket_index g key < num_buckets g.
Proof. intros (_ & ? & _). apply Z.mod_pos_bound. lia. Qed.

(** ** The abstract set-associative cache *)

(** A stable page: key hash, sequence number, payload. *)
Record page := mk_page { pg_hash : Z * Z; pg_seq : Z; pg_data : list Z }.

Section refinement.
Context {HL : Hashlib}.
Implicit Types (r : SlotRegion) (m : mem) (c : gmap (Z * Z) page) (g : SlotGeometry).

(** The slot at address [a] holds the page [o] (or no page). *)
Definition slot_rep g m (a : Z) (o : option page) : Prop :=
  match o with
  | None => ∃ h, decode_header (mem_read m a HEADER_SIZE) = Some h ∧ h_valid h = false
  | Some pg =>
      decode_header (mem_read m a HEADER_SIZE) =
        Some (mk_header true (pg_hash pg).1 (pg_hash pg).2 (zlength (pg_data pg)) (pg_seq pg)) ∧
      (0 ≤ pg_seq pg ∧ Z.land (pg_seq pg) 1 = 0) ∧
      zlength (pg_data pg) ≤ max_payload g ∧
      mem_read m (a + HEADER_SIZE) (zlength (pg_data pg)) = pg_data pg
  end.

Record region_rep r m c : Prop := {
  rr_geom : geom_ok (sr_geom r);
  rr_slots b w : slot_in_range (sr_geom r) b w →
    slot_rep (sr_geom r) m (sr_base r + slot_offset (sr_geom r) b w) (c !! (b, w));
  rr_dom b w : is_Some (c !! (b, w)) → slot_in_range (sr_geom r) b w;
  rr_even b w s : sr_seq r !! (b, w) = Some s → 0 ≤ s ∧ Z.land s 1 = 0
}.

(** No bucket holds two pages of one key. *)
Definition cache_uniq c : Prop := ∀ b w w' p p',
  c !! (b, w) = Some p → c !! (b, w') = Some p' → pg_hash p = pg_hash p' → w = w'.

Lemma slot_rep_frame g m m' a o :
  0 ≤ max_payload g →
  (∀ x, a ≤ x < a + (HEADER_SIZE + max_payload g) → m' x = m x) →
  slot_rep g m a o → slot_rep g m' a o.
Proof.
  intros Hmp Hx Hr. unfold HEADER_SIZE in *.
  assert (mem_read m' a 64 = mem_read m a 64) as Hh.
  { apply mem_read_ext. intros x ?. apply Hx. lia. }
  unfold slot_rep, HEADER_SIZE in *. rewrite Hh.
  destruct o as [pg|]; [|done]. destruct Hr as (Hd & He & Hl & Hb). split; [done|]. split; [done|]. split; [done|].
  rewrite <-Hb at 2. apply mem_read_ext. intros x ?. apply Hx. unfold zlength in *. lia.
Qed.

(** Memory outside the region is irrelevant to it. *)
Lemma region_rep_frame r m m' c :
  (∀ x, sr_base r ≤ x < sr_base r + capacity (sr_geom r) → m' x = m x) →
  region_rep r m c → region_rep r m' c.
Proof.
  intros Hx [Hg Hs Hd He]. split; [done| |done|done].
  intros b w Hr. eapply slot_rep_frame; [apply Hg| |by apply Hs].
  intros x Hin. apply Hx. pose proof (slot_offset_bounds _ b w Hg Hr).
  destruct Hg as (_ & _ & _ & Hstride & _). lia.
Qed.

Lemma slot_key_hash_rep r m c b w :
  region_rep r m c → slot_in_range (sr_geom r) b w →
  _slot_key_hash r m b w = pg_hash <$> c !! (b, w).
Proof.
  intros Hr Hin. pose proof (rr_slots _ _ _ Hr b w Hin) as Hs.
  unfold _slot_key_hash. destruct (c !! (b, w)) as [pg|]; simpl in *.
  - destruct Hs as (-> & _). simpl. by destruct (pg_hash pg).
  - destruct Hs as (h & -> & Hv). by rewrite Hv.
Qed.

Lemma slot_matches_rep r m c b w key n :
  region_rep r m c → slot_in_range (sr_geom r) b w →
  slot_matches (mem_read m (sr_base r + slot_offset (sr_geom r) b w) HEADER_SIZE) key n = true ↔
  ∃ pg, c !! (b, w) = Some pg ∧ pg_hash pg = key_hash128 key ∧ zlength (pg_data pg) = n.
Proof.
  intros Hr Hin. pose proof (rr_slots _ _ _ Hr b w Hin) as Hs. rewrite slot_matches_true.
  destruct (c !! (b, w)) as [pg|]; simpl in *.
  - destruct Hs as (-> & [_ He] & _). destruct (pg_hash pg) as [hi lo] eqn:Eh.
    destruct (key_hash128 key) as [khi klo]. simpl. split.
    + intros (seq & Heq & _). simplify_eq. by exists pg.
    + intros (pg' & [= <-] & Hh & Hl). exists (pg_seq pg). rewrite Eh in Hh.
      simplify_eq. done.
  - destruct Hs as (h & -> & Hv). split; [|naive_solver].
    intros (seq & Heq & _). simplify_eq/=.
Qed.

Lemma slot_present_rep r m c b w key n :
  region_rep r m c → slot_in_range (sr_geom r) b w →
  slot_present (mem_read m (sr_base r + slot_offset (sr_geom r) b w) HEADER_SIZE) key = Some n ↔
  ∃ pg, c !! (b, w) = Some pg ∧ pg_hash pg = key_hash128 key ∧ zlength (pg_data pg) = n.
Proof.
  intros Hr Hin. rewrite <-slot_matches_rep by done.
  by rewrite slot_present_Some, slot_matches_true.
Qed.

(** *** Reads *)

(** The abstract lookup: the first way of the bucket with a page for the key
    of the expected length. *)
Definition cache_find c (b : Z) (kh : Z * Z) (n : Z) (ws : list Z) : option page :=
  head (omap (λ w, match c !! (b, w) with
                   | Some pg => if bool_decide (pg_hash pg = kh ∧ zlength (pg_data pg) = n)
                                then Some pg else None
                   | None => None end) ws).

Lemma read_local_loop_rep r m c key b dst n ws :
  region_rep r m c → Forall (λ w, slot_in_range (sr_geom r) b w) ws →
  match cache_find c b (key_hash128 key) n ws with
  | Some pg =>
      ∃ m', read_local_loop r m key b dst n ws = (true, m') ∧
        zlength (pg_data pg) = n ∧ mem_read m' dst n = pg_data pg ∧
        (∀ x, ¬ (dst ≤ x < dst + n) → m' x = m x)
  | None => read_local_loop r m key b dst n ws = (false, m)
  end.
Proof.
  intros Hr. induction 1 as [|w ws Hw _ IH]; simpl; [done|]. unfold cache_find in *. simpl.
  destruct (slot_matches _ key n) eqn:Em.
  - apply (slot_matches_rep _ _ _ _ _ _ _ Hr Hw) in Em as (pg & Hc & Hh & Hn).
    rewrite Hc. rewrite bool_decide_eq_true_2 by done. simpl.
    pose proof (rr_slots _ _ _ Hr b w Hw) as Hs. rewrite Hc in Hs.
    destruct Hs as (_ & _ & _ & Hb).
    assert (0 ≤ n) by (rewrite <-Hn; unfold zlength; lia).
    eexists. split_and!; [done|done| |].
    + rewrite mem_read_memmove_same by done. by rewrite <-Hn.
    + intros x Hx. apply mem_write_out. by rewrite zlength_mem_read.
  - assert (match c !! (b, w) with
      | Some pg => if bool_decide (pg_hash pg = key_hash128 key ∧ zlength (pg_data pg) = n)
          then Some pg else None
      | None => None end = None) as ->; [|done].
    destruct (c !! (b, w)) as [pg|] eqn:Ec; [|done]. case_bool_decide as Hd; [|done].
    destruct Hd as [Hh Hn].
    assert (slot_matches (mem_read m (sr_base r + slot_offset (sr_geom r) b w) HEADER_SIZE) key n
      = true); [|congruence].
    apply (slot_matches_rep _ _ _ _ _ _ _ Hr Hw). eauto.
Qed.

Lemma seqZ_in_range r b :
  0 ≤ b < num_buckets (sr_geom r) →
  Forall (λ w, slot_in_range (sr_geom r) b w) (seqZ 0 (ways (sr_geom r))).
Proof. intros. apply Forall_seqZ. intros w ?. split; lia. Qed.

Lemma cache_find_Some c b kh n ws pg :
  cache_find c b kh n ws = Some pg →
  ∃ w, w ∈ ws ∧ c !! (b, w) = Some pg ∧ pg_hash pg = kh ∧ zlength (pg_data pg) = n.
Proof.
  unfold cache_find. intros Hh.
  assert (pg ∈ omap (λ w, match c !! (b, w) with
    | Some pg => if bool_decide (pg_hash pg = kh ∧ zlength (pg_data pg) = n)
        then Some pg else None
    | None => None end) ws) as Hin.
  { destruct (omap _ ws); simplify_eq/=. set_solver. }
  apply list_elem_of_omap in Hin as (w & Hw & Hm). exists w. split; [done|].
  destruct (c !! (b, w)); [|done]. case_bool_decide as Hd; naive_solver.
Qed.

Lemma cache_find_complete c b kh n ws w pg :
  w ∈ ws → c !! (b, w) = Some pg → pg_hash pg = kh → zlength (pg_data pg) = n →
  is_Some (cache_find c b kh n ws).
Proof.
  intros Hw Hc Hh Hn. unfold cache_find.
  assert (pg ∈ omap (λ w, match c !! (b, w) with
    | Some pg => if bool_decide (pg_hash pg = kh ∧ zlength (pg_data pg) = n)
        then Some pg else None
    | None => None end) ws) as Hin.
  { apply list_elem_of_omap. exists w. split; [done|]. rewrite Hc.
    by rewrite bool_decide_eq_true_2. }
  destruct (omap _ ws); simpl; [by apply not_elem_of_nil in Hin|by eexists].
Qed.

Lemma exists_local_loop_rep r m c key b ws n :
  region_rep r m c → Forall (λ w, slot_in_range (sr_geom r) b w) ws →
  exists_local_loop r m key b ws = Some n →
  ∃ w pg, w ∈ ws ∧ c !! (b, w) = Some pg ∧ pg_hash pg = key_hash128 key ∧
    zlength (pg_data pg) = n.
Proof.
  intros Hr. induction 1 as [|w ws Hw _ IH]; simpl; [done|].
  destruct (slot_present _ key) as [n'|] eqn:Ep.
  - intros [= <-]. apply (slot_present_rep _ _ _ _ _ _ _ Hr Hw) in Ep as (pg & ? & ? & ?).
    exists w, pg. set_solver.
  - intros (w' & pg & ? & ?)%IH. exists w', pg. set_solver.
Qed.

Lemma exists_local_loop_None r m c key b ws :
  region_rep r m c → Forall (λ w, slot_in_range (sr_geom r) b w) ws →
  exists_local_loop r m key b ws = None →
  ∀ w pg, w ∈ ws → c !! (b, w) = Some pg → pg_hash pg ≠ key_hash128 key.
Proof.
  intros Hr. induction 1 as [|w ws Hw _ IH]; simpl; [set_solver|].
  destruct (slot_present _ key) as [n'|] eqn:Ep; [done|].
  intros Hn w' pg [->|Hw']%elem_of_cons Hc; [|by eapply IH].
  intros Hh. assert (slot_present (mem_read m (sr_base r + slot_offset (sr_geom r) b w) HEADER_SIZE)
    key = Some (zlength (pg_data pg))); [|congruence].
  apply (slot_present_rep _ _ _ _ _ _ _ Hr Hw). eauto.
Qed.

(** *** Way selection *)

Definition holds c (b : Z) (kh : Z * Z) (w : Z) : Prop := pg_hash <$> c !! (b, w) = Some kh.
#[export] Instance holds_dec c b kh w : Decision (holds c b kh w).
Proof. unfold holds. apply _. Defined.

(** The replacement policy both writers implement: the way that holds the
    key, else an empty way, else one with the smallest sequence number. *)
Definition way_choice c (b : Z) (kh : Z * Z) (seq_of : Z → Z) (ws : list Z) (w : Z) : Prop :=
  w ∈ ws ∧
  (holds c b kh w ∨
   (∀ w', w' ∈ ws → ¬ holds c b kh w') ∧
   (c !! (b, w) = None ∨
    (∀ w', w' ∈ ws → is_Some (c !! (b, w'))) ∧
    (∀ w', w' ∈ ws → seq_of w ≤ seq_of w'))).

(** What the loop variables know of the ways already visited. *)
Definition scan_inv c (b : Z) (seq_of : Z → Z) (ws : list Z) (s : way_scan) : Prop :=
  match ws_empty s with
  | Some w => w ∈ ws ∧ c !! (b, w) = None
  | None => ∀ w, w ∈ ws → is_Some (c !! (b, w))
  end ∧
  match ws_oldest_seq s with
  | Some os => ws_oldest_way s ∈ ws ∧ seq_of (ws_oldest_way s) = os ∧
      (∀ w, w ∈ ws → os ≤ seq_of w)
  | None => ws = []
  end.

Lemma scan_inv_step c b seq_of ws s w :
  scan_inv c b seq_of ws s →
  scan_inv c b seq_of (ws ++ [w])
    (mk_scan (match c !! (b, w), ws_empty s with None, None => Some w | _, e => e end)
       (scan_oldest s w (seq_of w)).1 (scan_oldest s w (seq_of w)).2 None).
Proof.
  intros [He Ho]. split; simpl.
  - destruct (c !! (b, w)) eqn:Ec, (ws_empty s) as [e|]; simpl.
    + destruct He. split; [|done]. apply elem_of_app. by left.
    + intros w' [Hw| ->%list_elem_of_singleton]%elem_of_app; [by apply He|by rewrite Ec].
    + destruct He. split; [|done]. apply elem_of_app. by left.
    + split; [|done]. apply elem_of_app. right. by apply list_elem_of_singleton.
  - unfold scan_oldest. destruct (ws_oldest_seq s) as [os|]; simpl.
    + destruct Ho as (Hin & Hs & Hmin). destruct (seq_of w <? os) eqn:El; bool_cases; simpl.
      * split_and!; [apply elem_of_app; right; by apply list_elem_of_singleton|done|].
        intros w' [Hw| ->%list_elem_of_singleton]%elem_of_app; [|done].
        specialize (Hmin _ Hw). lia.
      * split_and!; [apply elem_of_app; by left|done|].
        intros w' [Hw| ->%list_elem_of_singleton]%elem_of_app; [by apply Hmin|done].
    + subst ws. simpl. split_and!; [by apply list_elem_of_singleton|done|].
      intros w' ->%list_elem_of_singleton. done.
Qed.

Lemma scan_inv_choice c b kh seq_of ws s :
  scan_inv c b seq_of ws s → ws ≠ [] → (∀ w, w ∈ ws → ¬ holds c b kh w) →
  way_choice c b kh seq_of ws (default (ws_oldest_way s) (ws_empty s)).
Proof.
  intros [He Ho] Hne Hh. unfold way_choice. destruct (ws_empty s) as [w|]; simpl.
  - destruct He. split; [done|]. right. split; [done|]. by left.
  - destruct (ws_oldest_seq s) as [os|]; [|done]. destruct Ho as (? & Hs & Hmin).
    split; [done|]. right. split; [done|]. right. split; [done|].
    intros w' ?. rewrite Hs. by apply Hmin.
Qed.

Lemma pick_way_loop_spec r m c kh b ws : ∀ dn s,
  region_rep r m c → Forall (λ w, slot_in_range (sr_geom r) b w) ws →
  scan_inv c b (λ w, default 0 (sr_seq r !! (b, w))) dn s →
  (∀ w, w ∈ dn → ¬ holds c b kh w) → dn ++ ws ≠ [] →
  way_choice c b kh (λ w, default 0 (sr_seq r !! (b, w))) (dn ++ ws)
    (pick_way_loop r m kh b ws s).
Proof.
  induction ws as [|w ws IH]; intros dn s Hr Hf Hs Hn Hne; simpl.
  - rewrite app_nil_r in *. by apply scan_inv_choice.
  - apply Forall_cons in Hf as [Hw Hf]. rewrite (slot_key_hash_rep _ _ _ _ _ Hr Hw).
    case_bool_decide as Hh; [split; [|by left]|].
    { apply elem_of_app. right. apply elem_of_cons. by left. }
    pose proof (scan_inv_step _ _ _ _ _ w Hs) as Hs'. simpl in Hs'.
    destruct (scan_oldest _ _ _) as [ow os]. simpl in Hs'.
    replace (dn ++ w :: ws) with ((dn ++ [w]) ++ ws) by (by rewrite <-app_assoc).
    apply IH; [done..| | |by destruct dn].
    + by destruct (c !! (b, w)).
    + intros w' [?| ->%list_elem_of_singleton]%elem_of_app; [by apply Hn|done].
Qed.

Lemma seqZ_ways_ne r : geom_ok (sr_geom r) → seqZ 0 (ways (sr_geom r)) ≠ [].
Proof.
  intros (_ & _ & Hw & _) He. apply (f_equal length) in He.
  rewrite length_seqZ in He. simpl in He. lia.
Qed.

Lemma pick_way_spec r m c key :
  region_rep r m c →
  let b := bucket_index (sr_geom r) key in
  ∃ w, pick_way r m key = (b, w) ∧ slot_in_range (sr_geom r) b w ∧
    way_choice c b (key_hash128 key) (λ w, default 0 (sr_seq r !! (b, w)))
      (seqZ 0 (ways (sr_geom r))) w.
Proof.
  intros Hr b. pose proof (rr_geom _ _ _ Hr) as Hg.
  pose proof (bucket_index_range _ key Hg) as Hb. fold b in Hb.
  eexists. split; [done|].
  assert (way_choice c b (key_hash128 key) (λ w, default 0 (sr_seq r !! (b, w)))
    ([] ++ seqZ 0 (ways (sr_geom r)))
    (pick_way_loop r m (key_hash128 key) b (seqZ 0 (ways (sr_geom r))) (mk_scan None 0 None None)))
    as Hc.
  { apply pick_way_loop_spec; [done|by apply seqZ_in_range| |by intros ? ?%not_elem_of_nil|
      by apply seqZ_ways_ne].
    split; simpl; [by intros ? ?%not_elem_of_nil|done]. }
  split; [|done]. destruct Hc as [Hin _]. simpl app in Hin.
  apply elem_of_seqZ in Hin. rewrite Z.add_0_l in Hin. done.
Qed.

(** *** Writes *)

(** Replacing the content of one slot. *)
Lemma region_rep_store r m m' c b w pg :
  region_rep r m c → slot_in_range (sr_geom r) b w →
  slot_rep (sr_geom r) m' (sr_base r + slot_offset (sr_geom r) b w) (Some pg) →
  (∀ x, ¬ (sr_base r + slot_offset (sr_geom r) b w ≤ x <
           sr_base r + slot_offset (sr_geom r) b w + slot_stride (sr_geom r)) → m' x = m x) →
  region_rep r m' (<[(b, w) := pg]> c).
Proof.
  intros Hr Hin Hs Hx. pose proof (rr_geom _ _ _ Hr) as Hg.
  split; [done| | |apply Hr].
  - intros b' w' Hin'. destruct (decide ((b', w') = (b, w))) as [[= -> ->]|Hne].
    + by rewrite lookup_insert_eq.
    + rewrite lookup_insert_ne by done.
      eapply slot_rep_frame; [apply Hg| |by apply (rr_slots _ _ _ Hr)].
      intros x Hxr. apply Hx.
      destruct (slot_offset_disjoint _ b' w' b w Hg Hin' Hin Hne);
        destruct Hg as (_ & _ & _ & Hst & _); lia.
  - intros b' w'. destruct (decide ((b', w') = (b, w))) as [[= -> ->]|Hne]; [done|].
    rewrite lookup_insert_ne by done. apply (rr_dom _ _ _ Hr).
Qed.

Lemma cache_uniq_store c b kh seq_of ws w pg :
  cache_uniq c → (∀ w', is_Some (c !! (b, w')) → w' ∈ ws) →
  way_choice c b kh seq_of ws w → pg_hash pg = kh →
  cache_uniq (<[(b, w) := pg]> c).
Proof.
  intros Hu Hd [_ Hw] <-.
  assert (∀ w' p', c !! (b, w') = Some p' → pg_hash pg = pg_hash p' → w = w') as Hkey.
  { intros w' p' Hc Hp. destruct Hw as [Hh|[Hn _]].
    - unfold holds in Hh. destruct (c !! (b, w)) as [p|] eqn:Ec; simplify_eq/=.
      apply (Hu b w w' p p'); congruence.
    - destruct (Hn w'); [apply Hd; eauto|]. unfold holds. rewrite Hc. simpl. congruence. }
  intros b' w1 w2 p1 p2 H1 H2 Hp.
  apply lookup_insert_Some in H1 as [[[= <- <-] <-]|[Hn1 H1]];
    apply lookup_insert_Some in H2 as [[[= <-] <-]|[Hn2 H2]]; [done| | |by eapply Hu].
  - by eapply Hkey.
  - subst. symmetry. by eapply Hkey.
Qed.

Lemma land_even_1 n : Z.land n 1 = 0 ↔ n mod 2 = 0.
Proof. change 1 with (Z.ones 1). rewrite Z.land_ones by lia. done. Qed.

Lemma lor_1_bound n : 0 ≤ n → 0 ≤ Z.lor n 1 ≤ n + 1.
Proof.
  intros Hn. split; [apply Z.lor_nonneg; lia|].
  assert (Z.lor n 1 = n + 1 - Z.land n 1) as -> by (pose proof (Z.add_lor_land n 1); lia).
  pose proof (Z.land_nonneg n 1). lia.
Qed.

(** Every sequence number the owner has stamped is at most [k]. *)
Definition seq_bound r (k : Z) : Prop := 0 ≤ k ∧ ∀ i s, sr_seq r !! i = Some s → s ≤ k.

(** The range [a, a+n) lies outside the region's buffer. *)
Definition outside r (a n : Z) : Prop :=
  ranges_disjoint (sr_base r) (capacity (sr_geom r)) a n.

(** The two header stores around the payload copy leave a whole page in the
    slot, and nothing else changes. *)
Lemma store_page_rep r m b w key src n seq h1 h2 :
  geom_ok (sr_geom r) → slot_in_range (sr_geom r) b w →
  0 ≤ n ≤ max_payload (sr_geom r) → outside r src n → 0 ≤ seq → Z.land seq 1 = 0 →
  length h1 = Z.to_nat HEADER_SIZE → encode_header key n seq = Some h2 →
  let a := sr_base r + slot_offset (sr_geom r) b w in
  let m' := mem_write (memmove (mem_write m a h1) (a + HEADER_SIZE) src n) a h2 in
  slot_rep (sr_geom r) m' a (Some (mk_page (key_hash128 key) seq (mem_read m src n))) ∧
  (∀ x, ¬ (a ≤ x < a + slot_stride (sr_geom r)) → m' x = m x).
Proof.
  intros Hg Hin Hn Hout Hs0 He Hl1 H2 a m'.
  pose proof (slot_offset_bounds _ b w Hg Hin) as Hb.
  apply encode_header_spec in H2 as [Hl2 Hd2].
  assert (zlength h1 = 64) as Hz1 by (unfold zlength; rewrite Hl1; done).
  assert (zlength h2 = 64) as Hz2 by (unfold zlength; rewrite Hl2; done).
  destruct Hg as (_ & _ & _ & Hst & _). unfold outside, ranges_disjoint, HEADER_SIZE in *.
  split.
  - simpl. unfold HEADER_SIZE. rewrite (zlength_mem_read m src n) by lia.
    split; [|split; [done|split; [lia|]]].
    + rewrite <-Hz2 at 1. subst m'. rewrite mem_read_write_same. done.
    + subst m'. rewrite mem_read_write_disjoint by (unfold ranges_disjoint; lia).
      rewrite mem_read_memmove_same by lia. apply mem_read_write_disjoint.
      unfold ranges_disjoint. subst a. lia.
  - intros x Hx. subst m'. rewrite mem_write_out by lia. unfold memmove.
    rewrite mem_write_out by (rewrite zlength_mem_read; lia). apply mem_write_out. lia.
Qed.

(** [write_local] stores the page in the way the policy selects. *)
Lemma write_local_rep r m c key src n k :
  region_rep r m c → 0 ≤ n ≤ max_payload (sr_geom r) → max_payload (sr_geom r) < 2 ^ 32 →
  seq_bound r k → k + 3 < 2 ^ 64 → outside r src n →
  let b := bucket_index (sr_geom r) key in
  ∃ w m', let seq := default 0 (sr_seq r !! (b, w)) + 2 in
    let r' := mk_region (sr_base r) (sr_geom r) (<[(b, w) := seq]> (sr_seq r)) in
    write_local r m key src n = (Ret (Some (slot_offset (sr_geom r) b w)), r', m') ∧
    slot_in_range (sr_geom r) b w ∧
    way_choice c b (key_hash128 key) (λ w, default 0 (sr_seq r !! (b, w)))
      (seqZ 0 (ways (sr_geom r))) w ∧
    region_rep r' m' (<[(b, w) := mk_page (key_hash128 key) seq (mem_read m src n)]> c) ∧
    seq_bound r' (k + 2) ∧ (∀ x, ¬ (sr_base r ≤ x < sr_base r + capacity (sr_geom r)) → m' x = m x).
Proof.
  intros Hr Hn Hmp [Hk0 Hk] Hkb Hout b.
  destruct (pick_way_spec r m c key Hr) as (w & Hp & Hin & Hc). fold b in Hp, Hin, Hc.
  pose proof (rr_geom _ _ _ Hr) as Hg.
  set (s := default 0 (sr_seq r !! (b, w))).
  assert (0 ≤ s ≤ k ∧ Z.land s 1 = 0) as (Hs & He).
  { subst s. destruct (sr_seq r !! (b, w)) as [s'|] eqn:Es; simpl; [|done].
    specialize (Hk _ _ Es). destruct (rr_even _ _ _ Hr _ _ _ Es). done || (split; [lia|done]). }
  assert (Z.land (s + 2) 1 = 0) as He2.
  { rewrite land_even_1 in *. rewrite <-(Z.mod_add s 1) in He by lia. done. }
  pose proof (lor_1_bound (s + 2) ltac:(lia)) as Hlb.
  destruct (encode_header_total key n (Z.lor (s + 2) 1)) as [h1 Hh1]; [lia..|].
  destruct (encode_header_total key n (s + 2)) as [h2 Hh2]; [lia..|].
  pose proof (encode_header_spec _ _ _ _ Hh1) as [Hl1 _].
  pose proof (store_page_rep r m b w key src n (s + 2) h1 h2 Hg Hin Hn Hout ltac:(lia) He2 Hl1 Hh2) as [Hsr Hfr].
  eexists w, _. cbv zeta. unfold write_local.
  replace (n >? max_payload (sr_geom r)) with false by (symmetry; rewrite Z.gtb_ltb; apply Z.ltb_ge; lia).
  rewrite Hp. fold s. rewrite He. simpl. unfold _write_header, _mark_seq. rewrite Hh1, Hh2. simpl.
  split; [reflexivity|]. split; [exact Hin|]. split; [exact Hc|]. split; [|split].
  - destruct (region_rep_store r m _ c b w _ Hr Hin Hsr Hfr) as [H1 H2 H3 H4].
    split; [done|done|done|]. simpl. intros b' w' s'.
    rewrite lookup_insert_Some. intros [[_ <-]|[_ Hs']]; [lia|by eapply H4].
  - split; [lia|]. simpl. intros i s'. rewrite lookup_insert_Some. intros [[_ <-]|[_ Hs']]; [lia|].
    specialize (Hk _ _ Hs'). lia.
  - intros x Hx. apply Hfr. pose proof (slot_offset_bounds _ b w Hg Hin). lia.
Qed.

(** *** The remote writer's view of a bucket *)

(** The bytes of bucket [b]. *)
Definition bucket_view r m (b : Z) : list Z :=
  mem_read m (sr_base r + b * bucket_stride (sr_geom r)) (bucket_stride (sr_geom r)).

Lemma bucket_view_slice r m b w i n :
  geom_ok (sr_geom r) → slot_in_range (sr_geom r) b w →
  0 ≤ i → 0 ≤ n → i + n ≤ slot_stride (sr_geom r) →
  slice (bucket_view r m b) (w * slot_stride (sr_geom r) + i) (w * slot_stride (sr_geom r) + i + n) =
    mem_read m (sr_base r + slot_offset (sr_geom r) b w + i) n.
Proof.
  intros (H1 & H2 & H3 & H4 & H5) [Hb Hw] Hi Hn Hs. unfold bucket_view, HEADER_SIZE in *.
  rewrite slice_mem_read; [|nia|nia]. f_equal; [|lia]. unfold slot_offset. lia.
Qed.

Definition page_seq c (b w : Z) : Z := default 0 (pg_seq <$> c !! (b, w)).

(** One iteration of the remote way selection, in terms of the cache. *)
Lemma pick_scan_step_rep r m c kh b s w :
  region_rep r m c → slot_in_range (sr_geom r) b w →
  pick_scan_step (bucket_view r m b) (sr_geom r) kh s w =
    mk_scan (match c !! (b, w), ws_empty s with None, None => Some w | _, e => e end)
      (scan_oldest s w (page_seq c b w)).1 (scan_oldest s w (page_seq c b w)).2
      (if bool_decide (holds c b kh w) then Some w else ws_chosen s).
Proof.
  intros Hr Hin. pose proof (rr_geom _ _ _ Hr) as Hg.
  pose proof (rr_slots _ _ _ Hr b w Hin) as Hs. unfold pick_scan_step.
  pose proof (bucket_view_slice r m b w 0 HEADER_SIZE Hg Hin) as Hsl.
  rewrite !Z.add_0_r in Hsl. rewrite Hsl; [|destruct Hg as (? & _ & _ & ? & _); unfold HEADER_SIZE in *; lia..].
  unfold page_seq. case_bool_decide as Hh; unfold holds in Hh;
    destruct (c !! (b, w)) as [pg|]; simpl in Hs, Hh |- *; simplify_eq/=.
  - destruct Hs as (-> & _). simpl. destruct (pg_hash pg). simpl.
    rewrite bool_decide_eq_true_2 by done. by destruct (scan_oldest _ _ _).
  - destruct Hs as (-> & _). simpl. destruct (pg_hash pg). simpl.
    rewrite bool_decide_eq_false_2 by congruence. by destruct (scan_oldest _ _ _).
  - destruct Hs as (h & -> & Hv). destruct h as [[]]; [done|]. simpl.
    by destruct (scan_oldest _ _ _), (ws_empty s).
Qed.

Lemma page_seq_even r m c b w :
  region_rep r m c → slot_in_range (sr_geom r) b w →
  0 ≤ page_seq c b w ∧ Z.land (page_seq c b w) 1 = 0.
Proof.
  intros Hr Hin. pose proof (rr_slots _ _ _ Hr b w Hin) as Hs. unfold page_seq.
  destruct (c !! (b, w)) as [pg|]; simpl; [|done]. by destruct Hs as (_ & ? & _).
Qed.

Definition chosen_inv c (b : Z) (kh : Z * Z) (ws : list Z) (o : option Z) : Prop :=
  match o with
  | Some w => w ∈ ws ∧ holds c b kh w
  | None => ∀ w, w ∈ ws → ¬ holds c b kh w
  end.

Lemma pick_scan_fold r m c kh b ws : ∀ dn s,
  region_rep r m c → Forall (λ w, slot_in_range (sr_geom r) b w) ws →
  scan_inv c b (page_seq c b) dn s → chosen_inv c b kh dn (ws_chosen s) →
  let s' := foldl (pick_scan_step (bucket_view r m b) (sr_geom r) kh) s ws in
  scan_inv c b (page_seq c b) (dn ++ ws) s' ∧ chosen_inv c b kh (dn ++ ws) (ws_chosen s').
Proof.
  induction ws as [|w ws IH]; intros dn s Hr Hf Hs Hc; simpl; [by rewrite app_nil_r|].
  apply Forall_cons in Hf as [Hw Hf].
  replace (dn ++ w :: ws) with ((dn ++ [w]) ++ ws) by (by rewrite <-app_assoc).
  rewrite (pick_scan_step_rep r m c) by done. apply IH; [done..| |]; clear IH.
  - exact (scan_inv_step _ _ _ _ _ w Hs).
  - simpl. unfold chosen_inv in *. case_bool_decide as Hh.
    + split; [|done]. apply elem_of_app. right. by apply list_elem_of_singleton.
    + destruct (ws_chosen s) as [w'|].
      * destruct Hc. split; [|done]. apply elem_of_app. by left.
      * intros w' [?| ->%list_elem_of_singleton]%elem_of_app; [by apply Hc|done].
Qed.

Lemma land_lnot_1 n : Z.land n (Z.lnot 1) = n - n mod 2.
Proof.
  change (Z.lnot 1) with (Z.lnot (Z.ones 1)). rewrite <-Z.ldiff_land.
  rewrite Z.ldiff_ones_r by lia. rewrite Z.shiftr_div_pow2, Z.shiftl_mul_pow2 by lia.
  change (2 ^ 1) with 2. pose proof (Z.div_mod n 2). lia.
Qed.

(** The remote writer follows the same policy on the stored sequence
    numbers, and stamps an even number two above the bucket's smallest. *)
Lemma pick_way_from_bucket_rep r m c key :
  region_rep r m c →
  let b := bucket_index (sr_geom r) key in
  ∃ w seq, pick_way_from_bucket (bucket_view r m b) (sr_geom r) key = (w, seq) ∧
    slot_in_range (sr_geom r) b w ∧
    way_choice c b (key_hash128 key) (page_seq c b) (seqZ 0 (ways (sr_geom r))) w ∧
    ∃ wo, slot_in_range (sr_geom r) b wo ∧ seq = page_seq c b wo + 2 ∧
      ∀ w', slot_in_range (sr_geom r) b w' → page_seq c b wo ≤ page_seq c b w'.
Proof.
  intros Hr b. pose proof (rr_geom _ _ _ Hr) as Hg.
  pose proof (bucket_index_range _ key Hg) as Hb. fold b in Hb.
  set (ws := seqZ 0 (ways (sr_geom r))).
  destruct (pick_scan_fold r m c (key_hash128 key) b ws [] (mk_scan None 0 None None))
    as [Hs Hc]; [done|by apply seqZ_in_range|split; simpl; [by intros ? ?%not_elem_of_nil|done]|
      by intros ? ?%not_elem_of_nil|].
  unfold pick_way_from_bucket. fold ws. simpl app in *.
  set (s := foldl _ _ ws) in *. clearbody s.
  assert (∀ w, w ∈ ws ↔ 0 ≤ w < ways (sr_geom r)) as Hws.
  { intros w. subst ws. rewrite elem_of_seqZ. by rewrite Z.add_0_l. }
  assert (way_choice c b (key_hash128 key) (page_seq c b) ws
    (match ws_chosen s with Some w => w | None => default (ws_oldest_way s) (ws_empty s) end)) as Hch.
  { destruct (ws_chosen s) as [w|]; [destruct Hc; split; [done|by left]|].
    apply scan_inv_choice; [done|by apply seqZ_ways_ne|done]. }
  destruct Hs as [_ Ho]. destruct (ws_oldest_seq s) as [os|].
  2:{ by apply seqZ_ways_ne in Hg. }
  destruct Ho as (Hoin & Hos & Hmin). change (default 0 (Some os)) with os.
  assert (0 ≤ os ∧ Z.land os 1 = 0) as [Hos0 Hev].
  { rewrite <-Hos. eapply page_seq_even; [done|]. split; [done|by apply Hws]. }
  assert (Z.land (os + 2) (Z.lnot 1) = os + 2) as ->.
  { rewrite land_lnot_1. rewrite land_even_1 in Hev.
    rewrite <-(Z.mod_add os 1) in Hev by lia. change (os + 1 * 2) with (os + 2) in Hev. lia. }
  replace (os + 2 =? 0) with false by (symmetry; apply Z.eqb_neq; lia).
  eexists _, _. split; [reflexivity|]. destruct Hch as [Hin Hch].
  split; [split; [done|by apply Hws]|]. split; [by split|].
  exists (ws_oldest_way s). rewrite Hos.
  split; [split; [done|by apply Hws]|]. split; [done|].
  intros w' [_ Hw']. apply Hmin. by apply Hws.
Qed.

(** *** Writes in any state *)

Lemma encode_header_range key n seq hdr :
  encode_header key n seq = Some hdr → 0 ≤ n < 2 ^ 32 ∧ 0 ≤ seq < 2 ^ 64.
Proof.
  unfold encode_header. destruct (key_hash128 key) as [hi lo].
  destruct (pack_fields _) as [body|] eqn:Ep; [|done]. intros _. apply pack_fields_range in Ep.
  rewrite Forall_forall in Ep. split.
  - apply (Ep (4%nat, n)). apply (list_elem_of_lookup_2 _ 5). done.
  - apply (Ep (8%nat, seq)). apply (list_elem_of_lookup_2 _ 7). done.
Qed.

(** A header and its payload stored in one piece. *)
Lemma store_slot_rep r m c b w key n seq hdr data :
  region_rep r m c → slot_in_range (sr_geom r) b w → n ≤ max_payload (sr_geom r) →
  Z.land seq 1 = 0 → encode_header key n seq = Some hdr → zlength data = n →
  let m' := mem_write m (sr_base r + slot_offset (sr_geom r) b w) (hdr ++ data) in
  region_rep r m' (<[(b, w) := mk_page (key_hash128 key) seq data]> c) ∧
  (∀ x, ¬ (sr_base r ≤ x < sr_base r + capacity (sr_geom r)) → m' x = m x).
Proof.
  intros Hr Hin Hn He Henc Hd m'. pose proof (rr_geom _ _ _ Hr) as Hg.
  pose proof (encode_header_range _ _ _ _ Henc) as [Hn0 Hs0].
  apply encode_header_spec in Henc as [Hl Hdec].
  set (a := sr_base r + slot_offset (sr_geom r) b w) in *.
  assert (zlength hdr = HEADER_SIZE) as Hzl by (unfold zlength; rewrite Hl; done).
  assert (zlength (hdr ++ data) = HEADER_SIZE + n) as Hza
    by (rewrite <-Hd, <-Hzl; unfold zlength; rewrite length_app; lia).
  pose proof (slot_offset_bounds _ b w Hg Hin) as Hb.
  assert (HEADER_SIZE + n ≤ slot_stride (sr_geom r)) as Hst by (destruct Hg as (_ & _ & _ & ? & _); lia).
  assert (mem_read m' a (HEADER_SIZE + n) = hdr ++ data) as Hrd.
  { subst m'. rewrite <-Hza. apply mem_read_write_same. }
  rewrite mem_read_app in Hrd by (unfold HEADER_SIZE; lia).
  apply app_inj_1 in Hrd as [Hrh Hrp]; [|by rewrite length_mem_read].
  split.
  - eapply region_rep_store; [done|done| |].
    + unfold slot_rep. simpl. fold a. rewrite Hd, Hrh. split; [exact Hdec|]. split; [lia|]. split; [done|exact Hrp].
    + intros x Hx. fold a in Hx. subst m'. fold a. apply mem_write_out. rewrite Hza. lia.
  - intros x Hx. subst m'. apply mem_write_out. fold a. rewrite Hza. subst a. lia.
Qed.

(** Whatever the sequence numbers and the length, [write_local] stores the
    whole page or changes nothing. *)
Lemma write_local_cases r m c key src n res r' m' :
  region_rep r m c → outside r src n → write_local r m key src n = (res, r', m') →
  (r' = r ∧ m' = m ∧ ∀ off, res ≠ Ret (Some off)) ∨
  ∃ w seq, sr_base r' = sr_base r ∧ sr_geom r' = sr_geom r ∧
    (slot_in_range (sr_geom r) (bucket_index (sr_geom r) key) w ∧
     way_choice c (bucket_index (sr_geom r) key) (key_hash128 key)
       (λ w, default 0 (sr_seq r !! (bucket_index (sr_geom r) key, w))) (seqZ 0 (ways (sr_geom r))) w) ∧
    region_rep r' m' (<[(bucket_index (sr_geom r) key, w) := mk_page (key_hash128 key) seq (mem_read m src n)]> c) ∧
    (∀ x, ¬ (sr_base r ≤ x < sr_base r + capacity (sr_geom r)) → m' x = m x).
Proof.
  intros Hr Hout. unfold write_local.
  destruct (n >? max_payload (sr_geom r)) eqn:Hgt; bool_cases; [intros [= <- <- <-]; by left|].
  destruct (pick_way_spec r m c key Hr) as (w & -> & Hin & Hwc). set (b := bucket_index _ key) in *.
  set (s := default 0 (sr_seq r !! (b, w))).
  assert (0 ≤ s ∧ Z.land s 1 = 0) as [Hs0 Hse].
  { subst s. destruct (sr_seq r !! (b, w)) as [s'|] eqn:Es; simpl; [|done]. by apply (rr_even _ _ _ Hr _ _ _ Es). }
  rewrite Hse. simpl. unfold _write_header, _mark_seq.
  assert (Z.land (s + 2) 1 = 0) as He2.
  { rewrite land_even_1 in *. rewrite <-(Z.mod_add s 1) in Hse by lia. done. }
  destruct (encode_header key n (Z.lor (s + 2) 1)) as [h1|] eqn:E1; simpl; [|intros [= <- <- <-]; by left].
  pose proof (encode_header_range _ _ _ _ E1) as [Hn Hso].
  assert (s + 2 ≤ Z.lor (s + 2) 1) as Hlo.
  { pose proof (Z.add_lor_land (s + 2) 1). lia. }
  destruct (encode_header_total key n (s + 2) Hn ltac:(lia)) as [h2 E2]. rewrite E2. simpl.
  intros [= <- <- <-]. right. exists w, (s + 2).
  pose proof (encode_header_spec _ _ _ _ E1) as [Hl1 _].
  pose proof (store_page_rep r m b w key src n (s + 2) h1 h2 (rr_geom _ _ _ Hr) Hin ltac:(lia) Hout
    ltac:(lia) He2 Hl1 E2) as [Hsr Hfr].
  split; [done|]. split; [done|]. split; [done|]. split.
  - destruct (region_rep_store r m _ c b w _ Hr Hin Hsr Hfr) as [H1 H2 H3 H4].
    split; [done|done|done|]. simpl. intros b' w' s'.
    rewrite lookup_insert_Some. intros [[_ <-]|[_ Hs']]; [lia|by eapply H4].
  - intros x Hx. apply Hfr. pose proof (slot_offset_bounds _ b w (rr_geom _ _ _ Hr) Hin). lia.
Qed.

(** Whatever bytes it is given, the remote way selection returns a way of the
    bucket and an even sequence number. *)
Lemma pick_way_from_bucket_any (bytes : list Z) g key :
  0 < ways g → let '(w, seq) := pick_way_from_bucket bytes g key in 0 ≤ w < ways g ∧ Z.land seq 1 = 0.
Proof.
  intros Hw.
  assert (∀ ws s, Forall (λ w, 0 ≤ w < ways g) ws → 0 ≤ ws_oldest_way s < ways g →
    (∀ w, ws_empty s = Some w → 0 ≤ w < ways g) → (∀ w, ws_chosen s = Some w → 0 ≤ w < ways g) →
    let s' := foldl (pick_scan_step bytes g (key_hash128 key)) s ws in
    0 ≤ ws_oldest_way s' < ways g ∧ (∀ w, ws_empty s' = Some w → 0 ≤ w < ways g) ∧
    (∀ w, ws_chosen s' = Some w → 0 ≤ w < ways g)) as Hfold.
  { intros ws. induction ws as [|w ws IH]; intros s Hf Ho He Hc; [done|].
    apply Forall_cons in Hf as [Hww Hf]. simpl. apply IH; [done|..]; clear IH; unfold pick_scan_step, scan_oldest;
      destruct (decode_header _) as [[[] hi lo pl sq]|]; destruct (ws_oldest_seq s) as [os|];
      simpl; repeat case_match; simpl; try done; try naive_solver. }
  unfold pick_way_from_bucket.
  destruct (Hfold (seqZ 0 (ways g)) (mk_scan None 0 None None)) as (Ho & He & Hc);
    [by apply Forall_seqZ; lia|done..|]. cbv zeta in *.
  set (s := foldl _ _ _) in *. clearbody s. split.
  - destruct (ws_chosen s) as [w|]; [by apply Hc|]. destruct (ws_empty s) as [w|]; simpl; [by apply He|done].
  - set (q := Z.land _ (Z.lnot 1)). assert (Z.land q 1 = 0) as Hq.
    { subst q. rewrite <-Z.land_assoc. change (Z.land (Z.lnot 1) 1) with 0. apply Z.land_0_r. }
    destruct (q =? 0); done.
Qed.
End refinement.

(** ** Properties *)

Section properties.
Context {HL : Hashlib}.

(** The reader's gate is exact.  On the header the writer encodes for
    [key], [slot_matches] accepts a reader asking for [key'] and [n'] bytes
    iff the key hashes agree, the length is the stored one and the sequence
    number is even; [slot_present] reports the stored length under the same
    condition on hash and sequence number. *)
Theorem slot_gate_exact (key key' : string) (n n' seq : Z) (hdr : list Z)
  (Henc : encode_header key n seq = Some hdr) :
  zlength hdr = HEADER_SIZE ∧
  (slot_matches hdr key' n' = true ↔
    key_hash128 key = key_hash128 key' ∧ n' = n ∧ Z.even seq = true) ∧
  slot_present hdr key' =
    (if bool_decide (key_hash128 key = key_hash128 key') && Z.even seq then Some n else None).
Proof.
  apply encode_header_spec in Henc as [Hl Hd].
  assert (Z.even seq = true ↔ Z.land seq 1 = 0) as Hev.
  { rewrite land_even_1, Z.even_spec, Zmod_even. destruct (Z.even seq) eqn:E.
    - rewrite Z.even_spec in E. done.
    - split; [|done]. intros He%Z.even_spec. congruence. }
  split; [unfold zlength; rewrite Hl; done|].
  split.
  - rewrite slot_matches_true, Hd, Hev.
    destruct (key_hash128 key), (key_hash128 key'); naive_solver.
  - apply option_eq. intros x. rewrite slot_present_Some, Hd.
    case_bool_decide as Hk; simpl.
    + rewrite Hk. destruct (Z.even seq); simpl; naive_solver.
    + destruct (key_hash128 key), (key_hash128 key'); naive_solver.
Qed.

(** No slot of the memory at [base] begins with the tag of a written header:
    what the region needs of its memory before the first write.  The rest may
    be anything. *)
Definition blank_region g (base : Z) m : Prop := ∀ b w, slot_in_range g b w →
  ∃ h, decode_header (mem_read m (base + slot_offset g b w) HEADER_SIZE) = Some h ∧ h_valid h = false.

(** A region over blank memory is the empty cache. *)
Lemma new_region_blank (base : Z) g (m : mem) :
  geom_ok g → blank_region g base m → region_rep (new_region base g) m ∅ ∧ cache_uniq ∅.
Proof.
  intros Hg Hz. split; [|by intros b w1 w2 p p' []%lookup_empty_Some].
  split; [done| | |]; simpl.
  - intros b w' Hin. rewrite lookup_empty. simpl. by apply Hz.
  - intros b w'. rewrite lookup_empty. by intros [].
  - intros b w' s. by rewrite lookup_empty.
Qed.

Lemma zero_region_blank (base : Z) g (m : mem) :
  geom_ok g → (∀ x, base ≤ x < base + capacity g → m x = 0) → blank_region g base m.
Proof.
  intros Hg Hz b w Hin. eexists.
  assert (mem_read m (base + slot_offset g b w) HEADER_SIZE = replicate (Z.to_nat HEADER_SIZE) 0) as ->.
  { apply list_eq_same_length with (n := Z.to_nat HEADER_SIZE);
      [by rewrite length_replicate|by rewrite length_mem_read|].
    intros i x y Hi. rewrite lookup_mem_read by (unfold HEADER_SIZE in *; lia).
    rewrite lookup_replicate_2 by done. intros [= <-] [= <-]. apply Hz.
    pose proof (slot_offset_bounds _ b w Hg Hin).
    destruct Hg as (? & _ & _ & Hst & _). unfold HEADER_SIZE in *. lia. }
  split; [apply decode_zeroes; unfold hdr_size, HEADER_SIZE; simpl; lia|done].
Qed.

(** A zero-filled region is the empty cache. *)
Lemma new_region_empty (base payload buckets w : Z) (m : mem)
  (Hp : 0 ≤ payload) (Hb : 0 < buckets) (Hw : 0 < w)
  (Hz : ∀ x, base ≤ x < base + capacity (new_geometry payload buckets w) → m x = 0) :
  region_rep (new_region base (new_geometry payload buckets w)) m ∅ ∧
  cache_uniq ∅.
Proof.
  pose proof (new_geometry_ok payload buckets w Hp Hb Hw) as Hg. apply new_region_blank; [done|]. by apply zero_region_blank.
Qed.

(** C13: [write_local] refines the insertion of the abstract cache.  It fails
    without effect exactly on a page above the size class; otherwise it
    replaces one slot of the key's bucket, chosen by the policy (same key,
    else empty, else oldest), by the whole page with an even sequence number;
    memory outside the region is untouched and a key stays in at most one
    way. *)
Theorem slotmap_write_refines (r : SlotRegion) (m : mem) (c : gmap (Z * Z) page)
  (key : string) (src n k : Z)
  (Hr : region_rep r m c) (Hu : cache_uniq c) (Hn : 0 ≤ n)
  (Hmp : max_payload (sr_geom r) < 2 ^ 32)
  (Hk : seq_bound r k) (Hkb : k + 3 < 2 ^ 64) (Hsrc : outside r src n) :
  if max_payload (sr_geom r) <? n then write_local r m key src n = (Ret None, r, m)
  else
    let b := bucket_index (sr_geom r) key in
    ∃ w seq r' m',
      write_local r m key src n = (Ret (Some (slot_offset (sr_geom r) b w)), r', m') ∧
      way_choice c b (key_hash128 key) (λ w, default 0 (sr_seq r !! (b, w)))
        (seqZ 0 (ways (sr_geom r))) w ∧
      let c' := <[(b, w) := mk_page (key_hash128 key) seq (mem_read m src n)]> c in
      region_rep r' m' c' ∧ cache_uniq c' ∧ Z.even seq = true ∧
      seq = default 0 (sr_seq r !! (b, w)) + 2 ∧
      (∀ x, ¬ (sr_base r ≤ x < sr_base r + capacity (sr_geom r)) → m' x = m x).
Proof.
  destruct (max_payload (sr_geom r) <? n) eqn:Hle; bool_cases.
  - unfold write_local. by rewrite (proj2 (Z.gtb_lt _ _) Hle).
  - destruct (write_local_rep r m c key src n k Hr ltac:(lia) Hmp Hk Hkb Hsrc)
      as (w & m' & Hw & Hin & Hc & Hr' & Hk' & Hfr). cbv zeta in *.
    eexists w, _, _, m'. split; [exact Hw|]. split; [exact Hc|]. split; [exact Hr'|].
    split; [|split; [|split; [reflexivity|exact Hfr]]].
    + eapply cache_uniq_store; [done| |exact Hc|done].
      intros w' Hs%(rr_dom _ _ _ Hr). apply elem_of_seqZ. destruct Hs. lia.
    + pose proof (rr_slots _ _ _ Hr' _ w Hin) as Hs. rewrite lookup_insert_eq in Hs.
      destruct Hs as (_ & [_ Hs] & _). simpl in Hs. rewrite land_even_1, Zmod_even in Hs.
      by destruct (Z.even _).
Qed.

Lemma read_local_rep (r : SlotRegion) (m : mem) (c : gmap (Z * Z) page)
  (key : string) (dst n : Z) (Hr : region_rep r m c) :
  let b := bucket_index (sr_geom r) key in
  match read_local r m key dst n with
  | (true, m') => ∃ w pg, c !! (b, w) = Some pg ∧ pg_hash pg = key_hash128 key ∧
      zlength (pg_data pg) = n ∧ mem_read m' dst n = pg_data pg ∧
      (∀ x, ¬ (dst ≤ x < dst + n) → m' x = m x)
  | (false, m') => m' = m ∧ ∀ w pg, c !! (b, w) = Some pg →
      pg_hash pg = key_hash128 key → zlength (pg_data pg) ≠ n
  end.
Proof.
  intros b. pose proof (rr_geom _ _ _ Hr) as Hg. unfold read_local. fold b.
  assert (Forall (λ w, slot_in_range (sr_geom r) b w) (seqZ 0 (ways (sr_geom r)))) as Hf
    by (apply seqZ_in_range; by apply bucket_index_range).
  pose proof (read_local_loop_rep r m c key b dst n _ Hr Hf) as Hrl.
  destruct (cache_find c b (key_hash128 key) n _) as [pg|] eqn:Ef.
  - destruct Hrl as (m' & -> & Hn & Hb & Hx).
    apply cache_find_Some in Ef as (w & _ & Hc & Hh & _). by exists w, pg.
  - rewrite Hrl. split; [done|]. intros w pg Hc Hh Hn.
    destruct (cache_find_complete c b (key_hash128 key) n (seqZ 0 (ways (sr_geom r))) w pg)
      as [pg' Hf']; [|done..|congruence].
    destruct (rr_dom _ _ _ Hr b w (mk_is_Some _ _ Hc)). apply elem_of_seqZ. lia.
Qed.

(** C14: [read_local] refines the abstract lookup.  It is a hit iff some way
    of the key's bucket holds a page of the key's hash with exactly the
    requested length; a hit delivers that page's bytes, touches nothing else,
    and a miss changes no memory. *)
Theorem slotmap_read_refines (r : SlotRegion) (m : mem) (c : gmap (Z * Z) page)
  (key : string) (dst n : Z) (Hr : region_rep r m c) (Hdst : outside r dst n) :
  let b := bucket_index (sr_geom r) key in
  let '(hit, m') := read_local r m key dst n in
  region_rep r m' c ∧
  (hit = true ↔ ∃ w pg, c !! (b, w) = Some pg ∧ pg_hash pg = key_hash128 key ∧
    zlength (pg_data pg) = n) ∧
  (hit = true → ∃ w pg, c !! (b, w) = Some pg ∧ pg_hash pg = key_hash128 key ∧
    mem_read m' dst n = pg_data pg ∧ (∀ x, ¬ (dst ≤ x < dst + n) → m' x = m x)) ∧
  (hit = false → m' = m).
Proof.
  intros b. pose proof (read_local_rep r m c key dst n Hr) as Hread. cbv zeta in Hread.
  fold b in Hread. destruct (read_local r m key dst n) as [[] m'].
  - destruct Hread as (w & pg & Hc & Hh & Hn & Hb & Hx). split; [|naive_solver].
    eapply region_rep_frame; [|done]. intros x ?. apply Hx.
    unfold outside, ranges_disjoint in Hdst. lia.
  - destruct Hread as [-> Hno]. split; [done|]. naive_solver.
Qed.

(** A page written is the page read.  After a successful [write_local],
    and whatever happens to memory outside the region, [read_local] of the
    same key and length hits and delivers the source bytes. *)
Theorem slotmap_write_then_read (r : SlotRegion) (m : mem) (c : gmap (Z * Z) page)
  (key : string) (src n k dst : Z)
  (Hr : region_rep r m c) (Hu : cache_uniq c)
  (Hn : 0 ≤ n ≤ max_payload (sr_geom r)) (Hmp : max_payload (sr_geom r) < 2 ^ 32)
  (Hk : seq_bound r k) (Hkb : k + 3 < 2 ^ 64) (Hsrc : outside r src n) :
  ∃ off r' m', write_local r m key src n = (Ret (Some off), r', m') ∧
    ∀ m1, (∀ x, sr_base r ≤ x < sr_base r + capacity (sr_geom r) → m1 x = m' x) →
    ∃ m2, read_local r' m1 key dst n = (true, m2) ∧ mem_read m2 dst n = mem_read m src n.
Proof.
  destruct (write_local_rep r m c key src n k Hr Hn Hmp Hk Hkb Hsrc)
    as (w & m' & Hw & Hin & Hc & Hr' & _). cbv zeta in *.
  eexists _, _, m'. split; [exact Hw|]. intros m1 Hm1.
  set (r' := mk_region _ _ _) in *. set (c' := <[_ := _]> c) in *.
  assert (cache_uniq c') as Hu'.
  { eapply cache_uniq_store; [done| |exact Hc|done].
    intros w' Hs%(rr_dom _ _ _ Hr). apply elem_of_seqZ. destruct Hs. lia. }
  assert (region_rep r' m1 c') as Hr1 by (eapply region_rep_frame; [exact Hm1|exact Hr']).
  pose proof (read_local_rep r' m1 c' key dst n Hr1) as Hread.
  change (sr_geom r') with (sr_geom r) in Hread.
  assert (c' !! (bucket_index (sr_geom r) key, w) = Some (mk_page (key_hash128 key)
    (default 0 (sr_seq r !! (bucket_index (sr_geom r) key, w)) + 2) (mem_read m src n))) as Hw'
    by apply lookup_insert_eq.
  destruct (read_local r' m1 key dst n) as [[] m2].
  - destruct Hread as (w2 & pg & Hc2 & Hh & _ & Hb & _). exists m2. split; [done|].
    assert (w2 = w) as -> by (eapply (Hu' _ w2 w); [exact Hc2|exact Hw'|done]).
    rewrite Hw' in Hc2. injection Hc2 as <-. done.
  - destruct Hread as [_ Hno]. destruct (Hno _ _ Hw' eq_refl).
    simpl. apply zlength_mem_read. lia.
Qed.

(** The existence probe agrees with reads.  [exists_local] answers with a
    length at which [read_local] hits, and answers [None] only when
    [read_local] misses at every length. *)
Theorem slotmap_exists_agrees (r : SlotRegion) (m : mem) (c : gmap (Z * Z) page)
  (key : string) (dst : Z) (Hr : region_rep r m c) :
  match exists_local r m key with
  | Some n => (read_local r m key dst n).1 = true
  | None => ∀ n, (read_local r m key dst n).1 = false
  end.
Proof.
  pose proof (rr_geom _ _ _ Hr) as Hg. unfold exists_local.
  assert (Forall (λ w, slot_in_range (sr_geom r) (bucket_index (sr_geom r) key) w)
    (seqZ 0 (ways (sr_geom r)))) as Hf by (apply seqZ_in_range; by apply bucket_index_range).
  destruct (exists_local_loop _ _ _ _ _) as [n|] eqn:Ee; [|intros n];
    pose proof (read_local_rep r m c key dst n Hr) as Hread; cbv zeta in Hread;
    destruct (read_local r m key dst n) as [[] m2]; simpl; try done; exfalso.
  - destruct (exists_local_loop_rep _ _ _ _ _ _ _ Hr Hf Ee) as (w & pg & _ & Hc & Hh & Hn).
    destruct Hread as [_ Hno]. by apply (Hno w pg Hc Hh).
  - destruct Hread as (w & pg & Hc & Hh & _).
    eapply (exists_local_loop_None _ _ _ _ _ _ Hr Hf Ee w pg); [|done..].
    destruct (rr_dom _ _ _ Hr _ w (mk_is_Some _ _ Hc)). apply elem_of_seqZ. lia.
Qed.

(** A remote writer applies the owner's policy.  Given the bucket's
    bytes, [pick_way_from_bucket] selects a way that holds the key, else an
    empty one, else one of smallest sequence number, and the sequence number
    it stamps is positive, even and two above the smallest of the bucket. *)
Theorem remote_writer_policy (r : SlotRegion) (m : mem) (c : gmap (Z * Z) page) (key : string)
  (Hr : region_rep r m c) :
  let b := bucket_index (sr_geom r) key in
  let '(w, seq) := pick_way_from_bucket (bucket_view r m b) (sr_geom r) key in
  way_choice c b (key_hash128 key) (page_seq c b) (seqZ 0 (ways (sr_geom r))) w ∧
  2 ≤ seq ∧ Z.even seq = true ∧
  (∀ w', slot_in_range (sr_geom r) b w' → seq ≤ page_seq c b w' + 2) ∧
  (∃ w', slot_in_range (sr_geom r) b w' ∧ seq = page_seq c b w' + 2).
Proof.
  destruct (pick_way_from_bucket_rep r m c key Hr)
    as (w & seq & Hp & Hin & Hc & wo & Hwo & Hseq & Hmin). cbv zeta in *. rewrite Hp.
  split; [done|]. pose proof (page_seq_even _ _ _ _ _ Hr Hwo) as [H0 He].
  split; [lia|]. split; [|split; [|by exists wo]].
  - subst seq. rewrite Z.even_add. rewrite land_even_1, Zmod_even in He.
    by destruct (Z.even (page_seq _ _ _)).
  - intros w' Hw'. specialize (Hmin w' Hw'). lia.
Qed.

(** Overwriting a page remotely can lower its sequence number.  When the
    key is resident and its bucket has an empty way, the remote writer stamps
    2, whatever the resident page's number is: "strictly greater than what's
    there" holds of the bucket's smallest number only. *)
Theorem remote_rewrite_restarts_seq (r : SlotRegion) (m : mem) (c : gmap (Z * Z) page)
  (key : string) (w we : Z) (pg : page)
  (Hr : region_rep r m c) (Hu : cache_uniq c)
  (Hpg : c !! (bucket_index (sr_geom r) key, w) = Some pg) (Hkey : pg_hash pg = key_hash128 key)
  (Hwe : 0 ≤ we < ways (sr_geom r)) (Hempty : c !! (bucket_index (sr_geom r) key, we) = None) :
  pick_way_from_bucket (bucket_view r m (bucket_index (sr_geom r) key)) (sr_geom r) key = (w, 2).
Proof.
  destruct (pick_way_from_bucket_rep r m c key Hr)
    as (w' & seq & Hp & Hin & Hc & wo & Hwo & Hseq & Hmin). cbv zeta in *. rewrite Hp.
  pose proof (page_seq_even _ _ _ _ _ Hr Hwo) as [H0 _].
  assert (slot_in_range (sr_geom r) (bucket_index (sr_geom r) key) we) as Hwe'.
  { split; [|done]. apply bucket_index_range, Hr. }
  specialize (Hmin we Hwe'). unfold page_seq in Hmin at 2. rewrite Hempty in Hmin.
  simpl in Hmin. f_equal; [|lia].
  assert (w ∈ seqZ 0 (ways (sr_geom r))) as Hws.
  { destruct (rr_dom _ _ _ Hr _ w (mk_is_Some _ _ Hpg)). apply elem_of_seqZ. lia. }
  assert (holds c (bucket_index (sr_geom r) key) (key_hash128 key) w) as Hh
    by (unfold holds; rewrite Hpg; simpl; congruence).
  destruct Hc as [_ [Hh'|[Hno _]]]; [|by destruct (Hno w)].
  unfold holds in Hh'. destruct (c !! (_, w')) as [pg'|] eqn:Ew; simplify_eq/=.
  eapply Hu; [exact Ew|exact Hpg|congruence].
Qed.
End properties.

(** ** Concrete instances *)

Module SlotExamples.
Import ExampleHash.

Definition g0 : SlotGeometry := new_geometry 8 4 2.
Definition r0 : SlotRegion := new_region 4096 g0.
(** A page of eight bytes at address 100, zeroes elsewhere. *)
Definition m0 : mem := mem_write (λ _, 0) 100 [1; 2; 3; 4; 5; 6; 7; 8].

Lemma r0_empty : region_rep r0 m0 ∅ ∧ cache_uniq ∅.
Proof.
  apply new_region_empty; [lia..|]. intros x Hx. unfold m0.
  rewrite mem_write_out; [done|]. change (zlength _) with 8. lia.
Qed.

Lemma r0_seq : seq_bound r0 0.
Proof. split; [done|]. unfold r0, new_region. simpl. intros i s. by rewrite lookup_empty. Qed.

Lemma r0_outside : outside r0 100 8 ∧ outside r0 200 8.
Proof. split; right; apply Z.leb_le; vm_compute; reflexivity. Qed.

(** The region after one write, with one way of the bucket still empty. *)
Lemma r1_exists : ∃ r1 m1 c1 w pg,
  region_rep r1 m1 c1 ∧ cache_uniq c1 ∧ sr_geom r1 = g0 ∧ 0 ≤ w < 2 ∧
  c1 !! (bucket_index g0 "page0", w) = Some pg ∧ pg_hash pg = key_hash128 "page0" ∧
  c1 !! (bucket_index g0 "page0", 1 - w) = None.
Proof.
  destruct (write_local_rep r0 m0 ∅ "page0" 100 8 0 (proj1 r0_empty)) as
    (w & m' & _ & Hin & Hc & Hr & _); [done..|apply r0_seq|done|apply r0_outside|].
  cbv zeta in Hr. change (sr_geom r0) with g0 in Hin, Hc, Hr.
  set (b := bucket_index g0 "page0") in *. clearbody b.
  eexists _, m', _, w, _. split; [exact Hr|]. split.
  { eapply cache_uniq_store; [apply r0_empty| |exact Hc|done].
    intros w' Hs. rewrite lookup_empty in Hs. by destruct Hs. }
  split; [reflexivity|]. split; [apply Hin|].
  split; [apply lookup_insert_eq|]. split; [reflexivity|].
  rewrite lookup_insert_ne; [apply lookup_empty|]. intros He. simplify_eq. lia.
Qed.

Lemma slot_gate_exact_witness :
  ∃ hdr, encode_header "page0" 8 2 = Some hdr ∧ slot_matches hdr "page0" 8 = true ∧
    slot_matches hdr "page1" 8 = false.
Proof.
  destruct (encode_header "page0" 8 2) as [hdr|] eqn:E; [|vm_compute in E; discriminate E].
  exists hdr. split; [reflexivity|].
  destruct (slot_gate_exact "page0" "page0" 8 8 2 hdr E) as (_ & Hm & _).
  destruct (slot_gate_exact "page0" "page1" 8 8 2 hdr E) as (_ & Hm' & _).
  split; [apply Hm; split; [reflexivity|split; reflexivity]|].
  destruct (slot_matches hdr "page1" 8); [|reflexivity].
  destruct (proj1 Hm' eq_refl) as [Hk _]. vm_compute in Hk. discriminate Hk.
Defined.

Lemma slotmap_write_refines_witness :
  ∃ off r' m', write_local r0 m0 "page0" 100 8 = (Ret (Some off), r', m').
Proof.
  pose proof (slotmap_write_refines r0 m0 ∅ "page0" 100 8 0 (proj1 r0_empty) (proj2 r0_empty)
    ltac:(lia) ltac:(vm_compute; done) r0_seq ltac:(lia) (proj1 r0_outside)) as H.
  change (max_payload (sr_geom r0) <? 8) with false in H. cbv iota zeta in H.
  destruct H as (w & seq & r' & m' & H & _). eauto.
Defined.

Lemma slotmap_read_refines_witness :
  (read_local r0 m0 "page0" 200 8).1 = false ∧ region_rep r0 (read_local r0 m0 "page0" 200 8).2 ∅.
Proof.
  pose proof (slotmap_read_refines r0 m0 ∅ "page0" 200 8 (proj1 r0_empty) (proj2 r0_outside)) as H.
  cbv zeta in H. destruct (read_local r0 m0 "page0" 200 8) as [hit m'].
  destruct H as (Hr & Hh & _). split; [|exact Hr]. simpl. destruct hit; [|reflexivity].
  destruct (proj1 Hh eq_refl) as (w & pg & Hc & _). by rewrite lookup_empty in Hc.
Defined.

Lemma slotmap_write_then_read_witness :
  ∃ off r' m' m2, write_local r0 m0 "page0" 100 8 = (Ret (Some off), r', m') ∧
    read_local r' m' "page0" 200 8 = (true, m2) ∧
    mem_read m2 200 8 = [1; 2; 3; 4; 5; 6; 7; 8].
Proof.
  destruct (slotmap_write_then_read r0 m0 ∅ "page0" 100 8 0 200 (proj1 r0_empty) (proj2 r0_empty)
    ltac:(vm_compute; split; discriminate) ltac:(vm_compute; done) r0_seq ltac:(lia) (proj1 r0_outside))
    as (off & r' & m' & Hw & Hrd).
  destruct (Hrd m' ltac:(done)) as (m2 & H1 & H2).
  exists off, r', m', m2. split; [exact Hw|]. split; [exact H1|]. rewrite H2. vm_compute. reflexivity.
Defined.

Lemma slotmap_exists_agrees_witness :
  exists_local r0 m0 "page0" = None ∧ (read_local r0 m0 "page0" 200 8).1 = false.
Proof.
  pose proof (slotmap_exists_agrees r0 m0 ∅ "page0" 200 (proj1 r0_empty)) as H.
  assert (exists_local r0 m0 "page0" = None) as E by (vm_compute; reflexivity).
  rewrite E in H. split; [exact E|]. apply H.
Defined.

Lemma remote_writer_policy_witness :
  pick_way_from_bucket (bucket_view r0 m0 (bucket_index g0 "page0")) g0 "page0" = (0, 2) ∧
  way_choice ∅ (bucket_index g0 "page0") (key_hash128 "page0")
    (page_seq ∅ (bucket_index g0 "page0")) [0; 1] 0.
Proof.
  pose proof (remote_writer_policy r0 m0 ∅ "page0" (proj1 r0_empty)) as H. cbv zeta in H.
  assert (pick_way_from_bucket (bucket_view r0 m0 (bucket_index g0 "page0")) g0 "page0" = (0, 2))
    as E by (vm_compute; reflexivity).
  change (sr_geom r0) with g0 in H. rewrite E in *. split; [exact E|]. apply H.
Defined.

Lemma remote_rewrite_restarts_seq_witness :
  ∃ r m w, sr_geom r = g0 ∧
    pick_way_from_bucket (bucket_view r m (bucket_index g0 "page0")) g0 "page0" = (w, 2).
Proof.
  destruct r1_exists as (r & m & c & w & pg & Hr & Hu & Hg & Hw & Hc & Hh & He).
  exists r, m, w. split; [exact Hg|]. rewrite <-Hg in *.
  exact (remote_rewrite_restarts_seq r m c "page0" w (1 - w) pg Hr Hu Hc Hh
    ltac:(rewrite Hg; simpl; lia) He).
Defined.
End SlotExamples.
