(* ===== verification/Types.v ===== *)
(** Wire values and the control-plane data types of [types.py].

    [pyval] is the universe of values the RPC codec carries.  [NodeInfo] and
    [DataLocation] are the records of [types.py]; their [to_dict]/[from_dict]
    translate between the record and the wire dictionary. *)
From S2P Require Import Prelude Bytes.

(** ** Python values on the wire *)

#[warnings="-register-all"]
Inductive pyval :=
  | VNone
  | VBool (b : bool)
  | VInt (z : Z)
  | VStr (s : string)
  | VBytes (bs : list Z)
  | VList (l : list pyval)
  | VDict (d : list (string * pyval)).

(** [bool(v)] *)
Definition py_truthy (v : pyval) : bool :=
  match v with
  | VNone => false
  | VBool b => b
  | VInt z => negb (z =? 0)
  | VStr s => negb (String.eqb s "")
  | VBytes bs => negb (bool_decide (bs = []))
  | VList l => match l with [] => false | _ => true end
  | VDict d => match d with [] => false | _ => true end
  end.

(** [v1 or v2] *)
Definition py_or (v1 v2 : pyval) : pyval := if py_truthy v1 then v1 else v2.

(** [v[k]] of a dictionary. *)
Definition py_getitem (v : pyval) (k : string) : pyres pyval :=
  match v with
  | VDict d => match od_get d k with Some x => Ret x | None => Raise KeyError end
  | _ => Raise TypeError
  end.

(** [v.get(k, dflt)] *)
Definition py_get (v : pyval) (k : string) (dflt : pyval) : pyres pyval :=
  match v with
  | VDict d => Ret (default dflt (od_get d k))
  | _ => Raise TypeError
  end.

(** [int(s)] of an ASCII string: blanks around an optional sign and decimal
    digits, with single underscores between digits. *)
Definition is_space (c : Ascii.ascii) : bool :=
  let n := Ascii.N_of_ascii c in
  bool_decide (n = 32 ∨ (9 ≤ n ∧ n ≤ 13) ∨ (28 ≤ n ∧ n ≤ 31))%N.

Definition digit_val (c : Ascii.ascii) : option Z :=
  let n := Z.of_N (Ascii.N_of_ascii c) in
  if (48 <=? n) && (n <=? 57) then Some (n - 48) else None.

Fixpoint lstrip (s : string) : string :=
  match s with
  | String c s' => if is_space c then lstrip s' else s
  | EmptyString => EmptyString
  end.

(** Digits from the accumulator [acc]; [after_digit] is false where a digit
    must follow. *)
Fixpoint parse_digits (acc : Z) (after_digit : bool) (s : string) : option Z :=
  match s with
  | EmptyString => if after_digit then Some acc else None
  | String c s' =>
      match digit_val c with
      | Some d => parse_digits (acc * 10 + d) true s'
      | None =>
          if after_digit then
            if bool_decide (Ascii.N_of_ascii c = 95%N) then parse_digits acc false s'
            else if bool_decide (lstrip s = "") then Some acc else None
          else None
      end
  end.

Definition parse_int (s : string) : option Z :=
  match lstrip s with
  | String c s' =>
      if bool_decide (Ascii.N_of_ascii c = 45%N) then Z.opp <$> parse_digits 0 false s'
      else if bool_decide (Ascii.N_of_ascii c = 43%N) then parse_digits 0 false s'
      else parse_digits 0 false (String c s')
  | EmptyString => None
  end.

Definition py_int (v : pyval) : pyres Z :=
  match v with
  | VInt z => Ret z
  | VBool b => Ret (if b then 1 else 0)
  | VStr s => match parse_int s with Some z => Ret z | None => Raise ValueError end
  | VBytes bs => match parse_int (decode_utf8 bs) with Some z => Ret z | None => Raise ValueError end
  | _ => Raise TypeError
  end.

(** A field annotated [str] that the source does not convert. *)
Definition as_str (v : pyval) : pyres string :=
  match v with VStr s => Ret s | _ => Raise IllTyped end.

(** [str(v)] of a scalar. *)
Definition py_str (v : pyval) : pyres string :=
  match v with
  | VStr s => Ret s
  | VInt z => Ret (pretty z)
  | VBool b => Ret (if b then "True" else "False")%string
  | VNone => Ret "None"%string
  | _ => Raise IllTyped
  end.

(** [list(v)] *)
Definition py_list (v : pyval) : pyres (list pyval) :=
  match v with
  | VList l => Ret l
  | VStr s => Ret ((λ c, VStr (String c "")) <$> String.list_ascii_of_string s)
  | VBytes bs => Ret (VInt <$> bs)
  | VDict d => Ret (VStr <$> od_keys d)
  | _ => Raise TypeError
  end.

(** [[f(x) for x in l]], left to right. *)
Fixpoint py_mapM {A B} (f : A → pyres B) (l : list A) : pyres (list B) :=
  match l with
  | [] => Ret []
  | x :: l' =>
      match f x with
      | Raise e => Raise e
      | Ret y => match py_mapM f l' with Ret ys => Ret (y :: ys) | Raise e => Raise e end
      end
  end.

(** ** String methods *)

Fixpoint str_rev_app (s acc : string) : string :=
  match s with EmptyString => acc | String c s' => str_rev_app s' (String c acc) end.
Definition str_rev (s : string) : string := str_rev_app s "".

Lemma str_app_assoc (a b c : string) : a +:+ (b +:+ c) = (a +:+ b) +:+ c.
Proof.
  induction a as [|x a IH]; [done|].
  change (String x (a +:+ (b +:+ c)) = String x ((a +:+ b) +:+ c)). by rewrite IH.
Qed.

Lemma str_app_empty_r (a : string) : a +:+ "" = a.
Proof. induction a as [|x a IH]; [done|]. change (String x (a +:+ "") = String x a). by rewrite IH. Qed.

Lemma str_rev_app_spec s acc : str_rev_app s acc = str_rev_app s "" +:+ acc.
Proof.
  revert acc. induction s as [|c s IH]; intros acc; [done|]. cbn [str_rev_app].
  rewrite (IH (String c acc)), (IH (String c "")). by rewrite <-str_app_assoc.
Qed.

Lemma str_rev_concat a b : str_rev (a +:+ b) = str_rev b +:+ str_rev a.
Proof.
  unfold str_rev. induction a as [|c a IH].
  - change (str_rev_app b "" = str_rev_app b "" +:+ ""). by rewrite str_app_empty_r.
  - change (str_rev_app (a +:+ b) (String c "") = str_rev_app b "" +:+ str_rev_app a (String c "")).
    rewrite (str_rev_app_spec (a +:+ b)), (str_rev_app_spec a (String c "")), IH.
    by rewrite str_app_assoc.
Qed.

Lemma prefix_concat p s : String.prefix p (p +:+ s) = true.
Proof.
  induction p as [|c p IH]; [by destruct s|].
  change ((if Ascii.ascii_dec c c then String.prefix p (p +:+ s) else false) = true).
  by destruct (Ascii.ascii_dec c c).
Qed.

(** [s.strip()] *)
Definition py_strip (s : string) : string := str_rev (lstrip (str_rev (lstrip s))).

(** [s.split(c)] for a one-character separator. *)
Fixpoint py_split (c : Ascii.ascii) (s : string) : list string :=
  match s with
  | EmptyString => [""%string]
  | String a s' =>
      if bool_decide (a = c) then ""%string :: py_split c s'
      else match py_split c s' with
           | [] => [String a ""]
           | w :: ws => String a w :: ws
           end
  end.

(** [s.split(c, 1)] when [c] occurs: the text before and after it. *)
Fixpoint split1 (c : Ascii.ascii) (s : string) : option (string * string) :=
  match s with
  | EmptyString => None
  | String a s' =>
      if bool_decide (a = c) then Some (""%string, s')
      else (λ p, (String a p.1, p.2)) <$> split1 c s'
  end.

(** [s.rsplit(c, 1)] when [c] occurs. *)
Definition rsplit1 (c : Ascii.ascii) (s : string) : option (string * string) :=
  (λ p, (str_rev p.2, str_rev p.1)) <$> split1 c (str_rev s).

Definition colon : Ascii.ascii := Ascii.ascii_of_N 58.
Definition comma : Ascii.ascii := Ascii.ascii_of_N 44.

(** ** [NodeInfo] *)

Record NodeInfo := mk_node {
  n_node_id : string;
  n_control_host : string;
  n_control_port : Z;
  n_rdma_host : string;
  n_rdma_port : Z;
  n_role : string
}.

#[export] Instance NodeInfo_eq_dec : EqDecision NodeInfo.
Proof. solve_decision. Defined.

Definition rdma_endpoint (n : NodeInfo) : string :=
  n_rdma_host n +:+ ":" +:+ pretty (n_rdma_port n).

Definition control_endpoint (n : NodeInfo) : string :=
  n_control_host n +:+ ":" +:+ pretty (n_control_port n).

(** [NodeInfo.to_dict] *)
Definition node_to_dict (n : NodeInfo) : pyval :=
  VDict [("node_id", VStr (n_node_id n)); ("control_host", VStr (n_control_host n));
         ("control_port", VInt (n_control_port n)); ("rdma_host", VStr (n_rdma_host n));
         ("rdma_port", VInt (n_rdma_port n)); ("role", VStr (n_role n))].

(** [NodeInfo.from_dict] *)
Definition node_from_dict (d : pyval) : pyres NodeInfo :=
  v ← py_getitem d "node_id"; node_id ← as_str v;
  v ← py_getitem d "control_host"; control_host ← as_str v;
  v ← py_getitem d "control_port"; control_port ← py_int v;
  v ← py_getitem d "rdma_host"; rdma_host ← as_str v;
  v ← py_getitem d "rdma_port"; rdma_port ← py_int v;
  v ← py_get d "role" (VStr "inference"); role ← py_str v;
  mret (mk_node node_id control_host control_port rdma_host rdma_port role).

(** ** [DataLocation] *)

Definition DIRECTORY_SCHEMA_VERSION : Z := 2.

Record DataLocation := mk_loc {
  l_node_id : string;
  l_rdma_endpoint : string;
  l_remote_addr : Z;
  l_rkey : Z;
  l_length : Z;
  l_resident : bool;
  l_rail_endpoints : list string;
  l_rail_rkeys : list Z
}.

#[export] Instance DataLocation_eq_dec : EqDecision DataLocation.
Proof. solve_decision. Defined.

(** [DataLocation.endpoints] and [DataLocation.rkeys] *)
Definition endpoints (l : DataLocation) : list string :=
  match l_rail_endpoints l with [] => [l_rdma_endpoint l] | es => es end.

Definition rkeys (l : DataLocation) : list Z :=
  match l_rail_rkeys l with [] => [l_rkey l] | ks => ks end.

(** [DataLocation.to_dict] *)
Definition loc_to_dict (l : DataLocation) : pyval :=
  VDict [("node_id", VStr (l_node_id l)); ("rdma_endpoint", VStr (l_rdma_endpoint l));
         ("remote_addr", VInt (l_remote_addr l)); ("rkey", VInt (l_rkey l));
         ("length", VInt (l_length l)); ("resident", VBool (l_resident l));
         ("rail_endpoints", VList (VStr <$> l_rail_endpoints l));
         ("rail_rkeys", VList (VInt <$> l_rail_rkeys l));
         ("v", VInt DIRECTORY_SCHEMA_VERSION)].

(** [DataLocation.from_dict] *)
Definition loc_from_dict (d : pyval) : pyres DataLocation :=
  v ← py_getitem d "node_id"; node_id ← as_str v;
  v ← py_getitem d "rdma_endpoint"; rdma_ep ← as_str v;
  v ← py_getitem d "remote_addr"; remote_addr ← py_int v;
  v ← py_getitem d "rkey"; rkey ← py_int v;
  v ← py_getitem d "length"; length ← py_int v;
  v ← py_get d "resident" (VBool true);
  let resident := py_truthy v in
  v ← py_get d "rail_endpoints" (VList []); es ← py_list (py_or v (VList []));
  rail_endpoints ← py_mapM as_str es;
  v ← py_get d "rail_rkeys" (VList []); ks ← py_list (py_or v (VList []));
  rail_rkeys ← py_mapM py_int ks;
  mret (mk_loc node_id rdma_ep remote_addr rkey length resident rail_endpoints rail_rkeys).

(** ** Properties *)

Lemma py_mapM_ret {A B} (f : A → pyres B) (g : B → A) (l : list B) :
  (∀ x, f (g x) = Ret x) → py_mapM f (g <$> l) = Ret l.
Proof. intros Hf. induction l as [|x l IH]; csimpl; [done|]. by rewrite Hf, IH. Qed.

Lemma loc_from_to_dict l : loc_from_dict (loc_to_dict l) = Ret l.
Proof.
  destruct l as [id ep addr rk len res es ks]. unfold loc_from_dict, loc_to_dict. simpl.
  assert (∀ l : list pyval, py_list (py_or (VList l) (VList [])) = Ret l) as Hl by by intros [].
  rewrite !Hl. simpl. rewrite (py_mapM_ret as_str VStr) by done. simpl.
  by rewrite (py_mapM_ret py_int VInt).
Qed.

Lemma node_from_to_dict n : node_from_dict (node_to_dict n) = Ret n.
Proof. by destruct n. Qed.

Lemma node_to_dict_inj n n' : node_to_dict n = node_to_dict n' → n = n'.
Proof. destruct n, n'. unfold node_to_dict. simpl. intros He. by simplify_eq. Qed.

(** A dictionary entry is "truthy" in [DirectoryClient._get_from_owner]. *)
Lemma loc_to_dict_truthy l : py_truthy (loc_to_dict l) = true.
Proof. done. Qed.

(** The keys [DataLocation.from_dict] reads. *)
Definition loc_required : list string := ["node_id"; "rdma_endpoint"; "remote_addr"; "rkey"; "length"].
Definition loc_optional : list string := ["resident"; "rail_endpoints"; "rail_rkeys"].

Lemma loc_from_dict_ext d1 d2 :
  (∀ k, k ∈ loc_required ++ loc_optional → od_get d1 k = od_get d2 k) →
  loc_from_dict (VDict d1) = loc_from_dict (VDict d2).
Proof.
  intros H. unfold loc_from_dict, py_getitem, py_get, loc_required, loc_optional in *.
  rewrite !(H _) by (vm_compute; repeat constructor). done.
Qed.

(** Location records survive the wire and schema changes.  A record comes
    back from its dictionary unchanged; extra keys of a newer schema are
    ignored; an entry without the fields added in schema v2 (and without
    [resident]) reads as a resident single-rail page; an entry that lacks one of
    the v1 fields raises [KeyError]. *)
Theorem location_wire_compat (l : DataLocation) (extra : list (string * pyval)) :
  loc_from_dict (loc_to_dict l) = Ret l ∧
  ((∀ k, k ∈ loc_required ++ loc_optional → od_get extra k = None) →
    ∀ d, loc_to_dict l = VDict d → loc_from_dict (VDict (d ++ extra)) = Ret l) ∧
  (∀ d, loc_to_dict l = VDict d →
    loc_from_dict (VDict (filter (λ e, e.1 ∈ loc_required) d)) =
      Ret (mk_loc (l_node_id l) (l_rdma_endpoint l) (l_remote_addr l) (l_rkey l) (l_length l) true [] [])) ∧
  (∀ k d, k ∈ loc_required → loc_to_dict l = VDict d →
    loc_from_dict (VDict (od_del d k)) = Raise KeyError).
Proof.
  split; [apply loc_from_to_dict|]. split; [|split].
  - intros He d Hd. rewrite <-(loc_from_to_dict l), Hd. apply loc_from_dict_ext.
    intros k Hk. rewrite od_get_app, (He k Hk). by destruct (od_get d k).
  - intros d [= <-]. reflexivity.
  - intros k d Hk [= <-]. unfold loc_required in Hk.
    repeat (apply elem_of_cons in Hk as [->|Hk]; [reflexivity|]). by apply not_elem_of_nil in Hk.
Qed.

(** A node descriptor survives the wire, and a descriptor without a role
    (an older peer) reads as an inference node. *)
Theorem node_wire_compat (n : NodeInfo) :
  node_from_dict (node_to_dict n) = Ret n ∧
  (∀ d, node_to_dict n = VDict d →
    node_from_dict (VDict (od_del d "role")) =
      Ret (mk_node (n_node_id n) (n_control_host n) (n_control_port n) (n_rdma_host n)
             (n_rdma_port n) "inference")).
Proof. split; [apply node_from_to_dict|]. by intros d [= <-]. Qed.
