(* ===== verification/Rpc.v ===== *)
(** The control-plane RPC of [rpc.py]: frames, the server's dispatch loop, the
    reconnecting client and the pool of clients.

    A socket is the list of chunks [recv] will see; how the network splits the
    byte stream is arbitrary.  The codec ([msgpack] or [json], chosen at import
    time) is the interface [Codec].  [Service] is what a server's handlers are:
    a state transformer with a result that may be an exception. *)
From S2P Require Import Prelude Bytes Types.

(** ** Sockets and frames *)

(** What the next [recv] calls find: bytes, or an [OSError] (reset, timeout).
    The empty list is the end of the stream. *)
Inductive chunk :=
  | CData (bs : list Z)
  | CError.

Definition stream := list chunk.

(** [sock.recv(n)]: at most [n] bytes of the first chunk. *)
Definition sock_recv (n : nat) (s : stream) : pyres (list Z) * stream :=
  match s with
  | [] => (Ret [], [])
  | CError :: s' => (Raise OSError, s')
  | CData bs :: s' =>
      if decide (length bs ≤ n)%nat then (Ret bs, s')
      else (Ret (take n bs), CData (drop n bs) :: s')
  end.

(** The [while got < n] loop of [_recv_exact]; each turn receives a byte or
    ends, so [n] turns are enough. *)
Fixpoint recv_loop (fuel : nat) (n : nat) (acc : list Z) (s : stream) : pyres (option (list Z)) * stream :=
  if decide (length acc < n)%nat then
    match fuel with
    | O => (Raise RuntimeError, s)
    | S fuel' =>
        match sock_recv (n - length acc) s with
        | (Raise e, s') => (Raise e, s')
        | (Ret [], s') => (Ret None, s')
        | (Ret b, s') => recv_loop fuel' n (acc ++ b) s'
        end
    end
  else (Ret (Some acc), s).

Definition _recv_exact (n : nat) (s : stream) : pyres (option (list Z)) * stream :=
  recv_loop n n [] s.

(** [_send_frame]: the bytes handed to [sendall]. *)
Definition _send_frame (payload : list Z) : pyres (list Z) :=
  match pack_be 4 (zlength payload) with
  | Some h => Ret (h ++ payload)
  | None => Raise StructError
  end.

Definition _recv_frame (s : stream) : pyres (option (list Z)) * stream :=
  match _recv_exact 4 s with
  | (Ret (Some header), s') => _recv_exact (Z.to_nat (be_val header)) s'
  | r => r
  end.

(** ** Codec and services *)

Class Codec := {
  _dumps : pyval → pyres (list Z);
  _loads : list Z → pyres pyval;
  loads_dumps v bs : _dumps v = Ret bs → _loads bs = Ret v
}.

(** The handlers registered on a server, over the server's state. *)
Definition Service (S : Type) := string → option (S → pyval → pyres pyval * S).

(** [register] *)
Definition register {S} (svc : Service S) (method : string) (fn : S → pyval → pyres pyval * S) : Service S :=
  λ m, if decide (m = method) then Some fn else svc m.

(** The class name stands for the text of [repr(e)]. *)
Definition exn_repr (e : exn) : string :=
  match e with
  | StructError => "error"
  | KeyError => "KeyError"
  | TypeError => "TypeError"
  | ValueError => "ValueError"
  | IndexError => "IndexError"
  | ConnectionError => "ConnectionError"
  | OSError => "OSError"
  | RuntimeError => "RuntimeError"
  | OverflowError => "OverflowError"
  | AttributeError => "AttributeError"
  | AssertionError => "AssertionError"
  | ZeroDivisionError => "ZeroDivisionError"
  | IllTyped => "IllTyped"
  end.

(** [method, args = _loads(frame)]: unpacking a two-element sequence. *)
Definition unpack2 (v : pyval) : pyres (pyval * pyval) :=
  match v with
  | VList [a; b] => Ret (a, b)
  | VList _ => Raise ValueError
  | VStr _ | VBytes _ | VDict _ => Raise IllTyped
  | _ => Raise TypeError
  end.

Section rpc.
Context {C : Codec} {S : Type}.
Implicit Types (svc : Service S) (st : S).

(** The dispatch of one decoded request. *)
Definition dispatch svc st (method args : pyval) : pyval * S :=
  match method with
  | VStr m =>
      match svc m with
      | None => (VList [VBool false; VStr ("unknown method: " +:+ m)], st)
      | Some handler =>
          match handler st (py_or args (VDict [])) with
          | (Ret v, st') => (VList [VBool true; v], st')
          | (Raise e, st') => (VList [VBool false; VStr (exn_repr e)], st')
          end
      end
  | _ => (VList [VBool false; VStr "unknown method: "], st)
  end.

(** One turn of [_serve_conn]: [Ret None] is the end of the stream,
    [Ret (Some reply)] the frame sent back, [Raise] an exception that ends
    the connection's thread. *)
Definition serve_one svc st (s : stream) : pyres (option (list Z)) * S * stream :=
  match _recv_frame s with
  | (Raise e, s') => (Raise e, st, s')
  | (Ret None, s') => (Ret None, st, s')
  | (Ret (Some frame), s') =>
      match v ← _loads frame; unpack2 v with
      | Raise e => (Raise e, st, s')
      | Ret (method, args) =>
          let '(resp, st') := dispatch svc st method args in
          (payload ← _dumps resp; out ← _send_frame payload; mret (Some out), st', s')
      end
  end.

(** [_serve_conn]: the replies, in order, and the final state.  Every turn
    but the last consumes at least the four bytes of a header. *)
Fixpoint serve_conn (fuel : nat) svc st (s : stream) : list (list Z) * S :=
  match fuel with
  | O => ([], st)
  | Datatypes.S fuel' =>
      match serve_one svc st s with
      | (Ret (Some out), st', s') =>
          let '(outs, st'') := serve_conn fuel' svc st' s' in (out :: outs, st'')
      | (_, st', _) => ([], st')
      end
  end.

(** *** The client

    One attempt of [RpcClient.call] meets one of these: [connect] fails, the
    connection breaks before the server has the request, it breaks after the
    server executed it (the reply is lost or cut), or a reply arrives. *)
Inductive attempt :=
  | ANoConnect
  | ABreakBefore
  | ABreakAfter
  | AReply.

#[export] Instance attempt_eq_dec : EqDecision attempt.
Proof. solve_decision. Defined.

Definition run_attempt svc st (payload : list Z) (a : attempt) : pyres (list Z) * S :=
  match a, _send_frame payload with
  | ANoConnect, _ => (Raise OSError, st)
  | _, Raise e => (Raise e, st)
  | ABreakBefore, _ => (Raise ConnectionError, st)
  | ABreakAfter, Ret bytes => (Raise ConnectionError, (serve_one svc st [CData bytes]).1.2)
  | AReply, Ret bytes =>
      match serve_one svc st [CData bytes] with
      | (Ret (Some out), st', _) =>
          match _recv_frame [CData out] with
          | (Ret (Some frame), _) => (Ret frame, st')
          | (Ret None, _) => (Raise ConnectionError, st')
          | (Raise e, _) => (Raise e, st')
          end
      | (_, st', _) => (Raise ConnectionError, st')
      end
  end.

(** [ok, result = _loads(frame)] and the error surfaced to the caller. *)
Definition decode_reply (frame : list Z) : pyres pyval :=
  v ← _loads frame; p ← unpack2 v;
  if py_truthy p.1 then Ret p.2 else Raise RuntimeError.

Definition is_conn_error (e : exn) : bool :=
  match e with OSError | ConnectionError => true | _ => false end.

(** [for attempt in range(2)] of [RpcClient.call]; [conn] is [self._sock is
    not None]: an [OSError] or [ConnectionError] resets the socket and is
    raised on the last attempt. *)
Fixpoint call_loop svc st (payload : list Z) (atts : list attempt) : pyres pyval * bool * S :=
  match atts with
  | [] => (Raise RuntimeError, false, st)
  | a :: atts' =>
      let '(r, st') := run_attempt svc st payload a in
      match frame ← r; decode_reply frame with
      | Ret v => (Ret v, true, st')
      | Raise e =>
          if is_conn_error e then
            match atts' with
            | [] => (Raise e, false, st')
            | _ => call_loop svc st' payload atts'
            end
          else (Raise e, true, st')
      end
  end.

(** [RpcClient.call]: the result, whether the client still has a socket, and
    the server's state. *)
Definition client_call svc st (method : string) (args : pyval) (a1 a2 : attempt) : pyres pyval * bool * S :=
  match _dumps (VList [VStr method; py_or args (VDict [])]) with
  | Raise e => (Raise e, true, st)
  | Ret payload => call_loop svc st payload [a1; a2]
  end.
End rpc.

(** ** Framing *)

(** A stream of non-empty data chunks, and the bytes it carries. *)
Definition data_ok (s : stream) : Prop := Forall (λ c, ∃ bs, c = CData bs ∧ bs ≠ []) s.

Definition chunk_bytes (c : chunk) : list Z := match c with CData bs => bs | CError => [] end.
Definition stream_bytes (s : stream) : list Z := s ≫= chunk_bytes.

Lemma sock_recv_data n s :
  (0 < n)%nat → data_ok s →
  ∃ b s', sock_recv n s = (Ret b, s') ∧ data_ok s' ∧ stream_bytes s = b ++ stream_bytes s' ∧
    (length b ≤ n)%nat ∧ (b = [] ↔ stream_bytes s = []).
Proof.
  intros Hn Hok. destruct Hok as [|c s (bs & -> & Hne) Hok]; simpl.
  - exists [], []. refine (conj _ (conj _ (conj _ (conj _ _)))); [done|constructor|done|simpl; lia|done].
  - case_decide as Hl.
    + exists bs, s. refine (conj _ (conj _ (conj _ (conj _ _)))); [done..|]. destruct bs; naive_solver.
    + exists (take n bs), (CData (drop n bs) :: s).
      refine (conj _ (conj _ (conj _ (conj _ _)))); [done| | | |].
      * constructor; [|done]. eexists. split; [done|]. intros He%(f_equal length).
        rewrite length_drop in He. simpl in He. lia.
      * simpl. by rewrite app_assoc, take_drop.
      * rewrite length_take. lia.
      * destruct bs, n; simpl in *; [lia..|done].
Qed.

Lemma recv_loop_data fuel n acc s :
  data_ok s → (length acc ≤ n)%nat → (n ≤ fuel + length acc)%nat →
  let data := acc ++ stream_bytes s in
  ∃ s', data_ok s' ∧
    if decide (n ≤ length data)%nat
    then recv_loop fuel n acc s = (Ret (Some (take n data)), s') ∧ stream_bytes s' = drop n data
    else recv_loop fuel n acc s = (Ret None, s').
Proof.
  revert acc s.  induction fuel as [|fuel IH]; intros acc s Hok Hl Hf data; simpl.
  - rewrite decide_False by lia. exists s. split; [done|].
    assert (length acc = n) as <- by lia. subst data.
    rewrite decide_True by (rewrite length_app; lia).
    by rewrite take_app_length, drop_app_length.
  - destruct (decide (length acc < n)%nat) as [Hlt|Hlt].
    + destruct (sock_recv_data (n - length acc) s) as (b & s1 & -> & Hok1 & Hb & Hlb & Hnil); [lia|done|].
      destruct b as [|x b].
      * exists s1. split; [done|]. subst data. rewrite (proj1 Hnil eq_refl).
        rewrite app_nil_r, decide_False by lia. done.
      * destruct (IH (acc ++ x :: b) s1 Hok1) as (s' & Hok' & Hr); [rewrite length_app; simpl in *; lia..|].
        exists s'. split; [done|]. subst data. rewrite Hb, app_assoc. exact Hr.
    + exists s. split; [done|]. assert (length acc = n) as <- by lia. subst data.
      rewrite decide_True by (rewrite length_app; lia).
      by rewrite take_app_length, drop_app_length.
Qed.

Lemma recv_exact_data n s :
  data_ok s →
  ∃ s', data_ok s' ∧
    if decide (n ≤ length (stream_bytes s))%nat
    then _recv_exact n s = (Ret (Some (take n (stream_bytes s))), s') ∧
         stream_bytes s' = drop n (stream_bytes s)
    else _recv_exact n s = (Ret None, s').
Proof. intros Hok. apply (recv_loop_data n n [] s Hok); simpl; lia. Qed.

Lemma recv_exact_app n s bs rest :
  data_ok s → stream_bytes s = bs ++ rest → length bs = n →
  ∃ s', data_ok s' ∧ _recv_exact n s = (Ret (Some bs), s') ∧ stream_bytes s' = rest.
Proof.
  intros Hok Hs <-. destruct (recv_exact_data (length bs) s Hok) as (s' & Hok' & Hr).
  exists s'. split; [done|]. rewrite Hs in Hr. rewrite decide_True in Hr by (rewrite length_app; lia).
  by rewrite take_app_length, drop_app_length in Hr.
Qed.

(** A [recv] never returns more than it was asked for. *)
Lemma sock_recv_length n s b s' : sock_recv n s = (Ret b, s') → (length b ≤ n)%nat.
Proof.
  unfold sock_recv. destruct s as [|[bs'|] s]; [intros [= <- <-]; simpl; lia| |done].
  case_decide; intros [= <- <-]; [done|]. rewrite length_take. lia.
Qed.

(** Whatever arrives, a successful [_recv_exact] returns [n] bytes. *)
Lemma recv_loop_length fuel n acc s bs s' :
  (length acc ≤ n)%nat → recv_loop fuel n acc s = (Ret (Some bs), s') → length bs = n.
Proof.
  revert acc s. induction fuel as [|fuel IH]; intros acc s Hl; simpl.
  - case_decide; [done|]. intros [= <- <-]. lia.
  - case_decide as Hlt; [|intros [= <- <-]; lia].
    destruct (sock_recv (n - length acc) s) as [[b|e] s1] eqn:Er; [|done].
    apply sock_recv_length in Er. destruct b as [|x b]; [done|]. apply IH. rewrite length_app. lia.
Qed.

Lemma recv_exact_length n s bs s' : _recv_exact n s = (Ret (Some bs), s') → length bs = n.
Proof. apply recv_loop_length. simpl. lia. Qed.

(** A successful read has consumed its bytes, whatever the chunks. *)
Lemma sock_recv_consumes n s b s' :
  sock_recv n s = (Ret b, s') → (length (stream_bytes s') + length b ≤ length (stream_bytes s))%nat.
Proof.
  unfold sock_recv. destruct s as [|[bs|] s]; [by intros [= <- <-]| |done].
  assert (∀ c s0, stream_bytes (c :: s0) = chunk_bytes c ++ stream_bytes s0) as Hc by done.
  destruct (decide (length bs <= n)%nat); intros [= <- <-]; rewrite !Hc, !length_app; cbn [chunk_bytes];
    rewrite ?length_drop, ?length_take; lia.
Qed.

Lemma recv_loop_consumes fuel n acc s bs s' :
  (length acc ≤ n)%nat → recv_loop fuel n acc s = (Ret (Some bs), s') →
  (length (stream_bytes s') + n ≤ length (stream_bytes s) + length acc)%nat.
Proof.
  revert acc s. induction fuel as [|fuel IH]; intros acc s Hl; simpl.
  - case_decide; [done|]. intros [= <- <-]. lia.
  - case_decide as Hlt; [|intros [= <- <-]; lia].
    destruct (sock_recv (n - length acc) s) as [[b|e] s1] eqn:Er; [|done].
    pose proof (sock_recv_length _ _ _ _ Er) as Hb. apply sock_recv_consumes in Er.
    destruct b as [|x b]; [done|]. intros Hrec. apply IH in Hrec; rewrite length_app in *; simpl in *; lia.
Qed.

Lemma recv_exact_consumes n s bs s' :
  _recv_exact n s = (Ret (Some bs), s') → (length (stream_bytes s') + n ≤ length (stream_bytes s))%nat.
Proof. intros H. apply recv_loop_consumes in H; simpl in *; lia. Qed.

(** The loop needs at most one turn per missing byte. *)
Lemma recv_loop_fuel fuel fuel' n acc s :
  (n ≤ fuel + length acc)%nat → (n ≤ fuel' + length acc)%nat → recv_loop fuel n acc s = recv_loop fuel' n acc s.
Proof.
  revert fuel' acc s. induction fuel as [|fuel IH]; intros [|fuel'] acc s H1 H2; simpl in *; try done;
    (case_decide as Hlt; [|done]); try lia.
  destruct (sock_recv (n - length acc) s) as [[b|e] s1]; [|done]. destruct b as [|x b]; [done|].
  apply IH; rewrite length_app; simpl; lia.
Qed.

Lemma recv_frame_consumes s frame s' :
  _recv_frame s = (Ret (Some frame), s') → (length (stream_bytes s') + 4 ≤ length (stream_bytes s))%nat.
Proof.
  unfold _recv_frame. destruct (_recv_exact 4 s) as [[[h|]|e] s1] eqn:E1; try done.
  intros E2. apply recv_exact_consumes in E1, E2. lia.
Qed.

Lemma send_frame_Ret payload out :
  _send_frame payload = Ret out →
  0 ≤ zlength payload < 2 ^ 32 ∧ out = be_bytes 4 (zlength payload) ++ payload.
Proof.
  unfold _send_frame. destruct (pack_be 4 _) as [h|] eqn:E; [|done].
  apply pack_be_Some in E as [Hr ->]. intros [= <-]. done.
Qed.

Lemma send_frame_total payload :
  zlength payload < 2 ^ 32 → _send_frame payload = Ret (be_bytes 4 (zlength payload) ++ payload).
Proof.
  intros Hl. unfold _send_frame, pack_be. rewrite bool_decide_eq_true_2; [done|].
  unfold zlength in *. simpl. lia.
Qed.

Lemma recv_frame_app s payload out rest :
  data_ok s → _send_frame payload = Ret out → stream_bytes s = out ++ rest →
  ∃ s', data_ok s' ∧ _recv_frame s = (Ret (Some payload), s') ∧ stream_bytes s' = rest.
Proof.
  intros Hok [Hr ->]%send_frame_Ret Hs. rewrite <-app_assoc in Hs.
  destruct (recv_exact_app 4 s _ _ Hok Hs) as (s1 & Hok1 & H1 & Hs1); [apply length_be_bytes|].
  unfold _recv_frame. rewrite H1. rewrite be_val_be_bytes by (simpl; lia).
  destruct (recv_exact_app (length payload) s1 payload rest Hok1 Hs1) as (s2 & Hok2 & H2 & Hs2); [done|].
  exists s2. split; [done|]. split; [|done].
  unfold zlength. rewrite Nat2Z.id. exact H2.
Qed.

Lemma recv_frame_end s : data_ok s → stream_bytes s = [] → ∃ s', _recv_frame s = (Ret None, s').
Proof.
  intros Hok Hs. destruct (recv_exact_data 4 s Hok) as (s' & _ & Hr). rewrite Hs in Hr.
  unfold _recv_frame. exists s'. rewrite decide_False in Hr by (simpl; lia). by rewrite Hr.
Qed.

(** ** Requests and replies *)

Section rpc_facts.
Context {C : Codec} {S : Type}.
Implicit Types (svc : Service S) (st : S).

(** The frame that carries a value. *)
Definition frame_of (v : pyval) : pyres (list Z) := payload ← _dumps v; _send_frame payload.

Lemma recv_frame_value s v out rest :
  data_ok s → frame_of v = Ret out → stream_bytes s = out ++ rest →
  ∃ payload s', data_ok s' ∧ _recv_frame s = (Ret (Some payload), s') ∧
    _loads payload = Ret v ∧ stream_bytes s' = rest.
Proof.
  intros Hok Hf Hs. unfold frame_of in Hf.
  destruct (_dumps v) as [payload|] eqn:Ed; [|done]. simpl in Hf.
  destruct (recv_frame_app s payload out rest Hok Hf Hs) as (s' & ? & ? & ?).
  apply loads_dumps in Ed. eauto 10.
Qed.

(** The reply the server owes to a request, as a value. *)
Definition reply_of svc st (req : string * pyval) : pyval * S := dispatch svc st (VStr req.1) req.2.

Fixpoint replies_of svc st (reqs : list (string * pyval)) : list pyval * S :=
  match reqs with
  | [] => ([], st)
  | r :: rs =>
      let '(v, st') := reply_of svc st r in
      let '(vs, st'') := replies_of svc st' rs in (v :: vs, st'')
  end.

Definition request_val (r : string * pyval) : pyval := VList [VStr r.1; r.2].

Lemma serve_one_request svc st s r req out rest :
  data_ok s → frame_of (request_val r) = Ret req → stream_bytes s = req ++ rest →
  frame_of (reply_of svc st r).1 = Ret out →
  ∃ s', data_ok s' ∧ stream_bytes s' = rest ∧
    serve_one svc st s = (Ret (Some out), (reply_of svc st r).2, s').
Proof.
  intros Hok Hreq Hs Hout.
  destruct (recv_frame_value s _ _ _ Hok Hreq Hs) as (payload & s' & Hok' & Hr & Hl & Hs').
  exists s'. split; [done|]. split; [done|]. unfold serve_one. rewrite Hr.
  rewrite Hl.
  unfold request_val. cbn [mbind pyres_bind unpack2].
  unfold reply_of in *. destruct (dispatch svc st (VStr r.1) r.2) as [resp st']. simpl in *.
  unfold frame_of in Hout. destruct (_dumps resp) as [p|]; [|done]. simpl in *.
  by rewrite Hout.
Qed.

(** A turn that answers has read a header. *)
Lemma serve_one_consumes svc (st : S) s out st' s' :
  serve_one svc st s = (Ret (Some out), st', s') → (length (stream_bytes s') + 4 ≤ length (stream_bytes s))%nat.
Proof.
  unfold serve_one. destruct (_recv_frame s) as [[[frame|]|e] s1] eqn:E; [|naive_solver..].
  apply recv_frame_consumes in E. destruct (v ← _loads frame; unpack2 v) as [[m a]|]; [|naive_solver].
  destruct (dispatch svc st m a) as [resp st1]. by intros [= _ _ <-].
Qed.

(** So a connection is over after one turn per four bytes and one more: more
    fuel changes nothing, and there are no more replies than that. *)
Lemma serve_conn_fuel svc fuel fuel' (st : S) s :
  (length (stream_bytes s) < 4 * fuel)%nat → (length (stream_bytes s) < 4 * fuel')%nat →
  serve_conn fuel svc st s = serve_conn fuel' svc st s ∧
  (4 * length (serve_conn fuel svc st s).1 ≤ length (stream_bytes s))%nat.
Proof.
  revert fuel' st s. induction fuel as [|fuel IH]; intros [|fuel'] st s H1 H2; try lia. simpl.
  destruct (serve_one svc st s) as [[[[out|]|e] st'] s'] eqn:E; [|simpl; split; [done|lia]..].
  apply serve_one_consumes in E. destruct (IH fuel' st' s') as [<- Hl]; [lia..|].
  destruct (serve_conn fuel svc st' s') as [outs st'']. simpl in *. split; [done|lia].
Qed.

(** Requests are answered in order, however the network cuts the stream.
    When the received bytes are the frames of [reqs] one after the other, in
    any split into non-empty chunks, the connection's thread sends exactly
    the frames of the handlers' replies, in order, runs every handler once,
    and ends at the end of the stream. *)
Theorem serve_conn_in_order svc (st : S) (reqs : list (string * pyval)) (s : stream)
  (frames outs : list (list Z)) (fuel : nat)
  (Hs : data_ok s) (Hreqs : Forall2 (λ r f, frame_of (request_val r) = Ret f) reqs frames)
  (Hbytes : stream_bytes s = concat frames)
  (Houts : Forall2 (λ v f, frame_of v = Ret f) (replies_of svc st reqs).1 outs)
  (Hfuel : (length reqs < fuel)%nat) :
  serve_conn fuel svc st s = (outs, (replies_of svc st reqs).2).
Proof.
  revert fuel st s outs Hs Hbytes Houts Hfuel.
  induction Hreqs as [|r f reqs frames Hf _ IH]; intros fuel st s outs Hs Hb Ho Hfu;
    (destruct fuel as [|fuel]; simpl in Hfu; [lia|]); simpl.
  - apply Forall2_nil_inv_l in Ho as ->. destruct (recv_frame_end s Hs Hb) as (s' & He).
    unfold serve_one. by rewrite He.
  - simpl in Ho. destruct (reply_of svc st r) as [v st'] eqn:Er.
    destruct (replies_of svc st' reqs) as [vs st''] eqn:Ers. simpl in Ho |- *.
    apply Forall2_cons_inv_l in Ho as (out & outs' & Hv & Ho & ->).
    destruct (serve_one_request svc st s r f out (concat frames)) as (s' & Hs' & Hb' & Hone);
      [done|done|done|by rewrite Er|].
    rewrite Hone, Er. simpl. rewrite (IH fuel st' s' outs'); [by rewrite Ers|done|done| |lia].
    by rewrite Ers.
Qed.

(** *** The client's view *)

(** What the caller of a handler gets when the reply arrives. *)
Definition invoke svc st (method : string) (args : pyval) : pyres pyval * S :=
  match svc method with
  | None => (Raise RuntimeError, st)
  | Some h =>
      match h st args with
      | (Ret v, st') => (Ret v, st')
      | (Raise _, st') => (Raise RuntimeError, st')
      end
  end.

(** The codec carries the request and every reply of the service. *)
Definition transportable svc (method : string) (args : pyval) : Prop :=
  (∃ f, frame_of (VList [VStr method; args]) = Ret f) ∧
  ∀ st, ∃ f, frame_of (reply_of svc st (method, args)).1 = Ret f.

Definition executed svc st (method : string) (args : pyval) (a : attempt) : S :=
  match a with
  | ANoConnect | ABreakBefore => st
  | ABreakAfter | AReply => (invoke svc st method args).2
  end.

Lemma reply_of_invoke svc st method args :
  py_truthy args = true →
  (reply_of svc st (method, args)).2 = (invoke svc st method args).2 ∧
  ∃ b v, (reply_of svc st (method, args)).1 = VList [VBool b; v] ∧
    (invoke svc st method args).1 = if b then Ret v else Raise RuntimeError.
Proof.
  intros Ht. unfold reply_of, dispatch, invoke, py_or. simpl. rewrite Ht.
  destruct (svc method) as [h|]; [|simpl; eauto].
  destruct (h st args) as [[v|e] st']; simpl; eauto.
Qed.

Lemma data_ok_single bs : bs ≠ [] → data_ok [CData bs].
Proof. intros. constructor; [eauto|constructor]. Qed.

Lemma frame_nonempty v out : frame_of v = Ret out → out ≠ [].
Proof.
  unfold frame_of. destruct (_dumps v); [|done]. intros [_ ->]%send_frame_Ret He%(f_equal length).
  by rewrite length_app, length_be_bytes in He.
Qed.

Lemma run_attempt_spec svc st method args a payload :
  py_truthy args = true → transportable svc method args →
  _dumps (VList [VStr method; args]) = Ret payload →
  ∃ r, run_attempt svc st payload a = (r, executed svc st method args a) ∧
    match a with
    | AReply => (frame ← r; decode_reply frame) = (invoke svc st method args).1
    | _ => ∃ e, r = Raise e ∧ is_conn_error e = true
    end.
Proof.
  intros Ht [[f Hf] Hrep] Hd. unfold run_attempt.
  assert (_send_frame payload = Ret f) as Hsf by (unfold frame_of in Hf; by rewrite Hd in Hf).
  destruct (Hrep st) as [out Hout].
  pose proof (frame_nonempty _ _ Hf) as Hne.
  destruct (serve_one_request svc st [CData f] (method, args) f out [])
    as (s' & _ & _ & Hone); [by apply data_ok_single|done|done|done|].
  pose proof (reply_of_invoke svc st method args Ht) as [Hst (b & v & Hv & Hi)].
  rewrite Hsf. destruct a; [by eauto|by eauto| |].
  - eexists. rewrite Hone. simpl. rewrite Hst. eauto.
  - rewrite Hone.
    destruct (recv_frame_value [CData out] _ out [] (data_ok_single _ (frame_nonempty _ _ Hout)) Hout)
      as (p & s2 & _ & Hr & Hl & _); [simpl; by rewrite app_nil_r|].
    rewrite Hr. eexists. simpl. rewrite Hst. split; [done|]. unfold decode_reply.
    change (_loads p ≫= (λ v0, unpack2 v0 ≫= λ p0, if py_truthy p0.1 then Ret p0.2 else Raise RuntimeError)
      = (invoke svc st method args).1).
    rewrite Hl, Hv, Hi. simpl. by destruct b.
Qed.

(** The effect of one RPC over a link that behaves as [a1], [a2]. *)
Definition link_call svc st (method : string) (args : pyval) (a : attempt * attempt) : pyres pyval * S :=
  match a with
  | (AReply, _) => invoke svc st method args
  | (a1, AReply) => invoke svc (executed svc st method args a1) method args
  | (a1, a2) => (Raise ConnectionError, executed svc (executed svc st method args a1) method args a2)
  end.

(** C36: what one RPC does.  The first attempt whose reply arrives decides the
    result, which is the handler's value or [RuntimeError] for a handler that
    raised; a broken attempt is retried once; when both attempts break the
    caller gets a connection error.  The handler has run once per attempt
    that reached the server, so at most twice, and the client keeps its
    socket exactly when a reply arrived. *)
Theorem client_call_outcome svc (st : S) (method : string) (args : pyval) (a1 a2 : attempt)
  (Hargs : py_truthy args = true) (Hw : transportable svc method args) :
  let '(r, st') := link_call svc st method args (a1, a2) in
  if bool_decide (a1 = AReply ∨ a2 = AReply)
  then client_call svc st method args a1 a2 = (r, true, st')
  else ∃ e, client_call svc st method args a1 a2 = (Raise e, false, st') ∧ is_conn_error e = true.
Proof.
  set (st1 := executed svc st method args a1).
  set (st2 := executed svc st1 method args a2). unfold client_call. unfold py_or. rewrite Hargs.
  destruct (proj1 Hw) as [f Hf]. unfold frame_of in Hf.
  destruct (_dumps (VList [VStr method; args])) as [payload|] eqn:Ed; [|done]. clear Hf.
  destruct (run_attempt_spec svc st method args a1 payload Hargs Hw Ed) as (r1 & H1 & Hr1).
  destruct (run_attempt_spec svc st1 method args a2 payload Hargs Hw Ed) as (r2 & H2 & Hr2).
  assert (∀ st', (invoke svc st' method args).1 = Raise RuntimeError ∨
    ∃ v, (invoke svc st' method args).1 = Ret v) as Hinv.
  { intros st'. unfold invoke. destruct (svc method) as [h|]; [|by left].
    destruct (h st' args) as [[] ?]; simpl; eauto. }
  assert (a1 = AReply → call_loop svc st payload [a1; a2] = ((invoke svc st method args).1, true, st1)) as C1.
  { intros ->. cbn [call_loop]. rewrite H1. rewrite Hr1. by destruct (Hinv st) as [->|[v ->]]. }
  assert (a1 ≠ AReply → call_loop svc st payload [a1; a2] = call_loop svc st1 payload [a2]) as C2.
  { intros Hne. cbn [call_loop]. rewrite H1. destruct a1; try done; destruct Hr1 as (e & -> & He);
      simpl; rewrite He; done. }
  assert (a2 = AReply → call_loop svc st1 payload [a2] = ((invoke svc st1 method args).1, true, st2)) as C3.
  { intros ->. cbn [call_loop]. rewrite H2. rewrite Hr2. by destruct (Hinv st1) as [->|[v ->]]. }
  assert (a2 ≠ AReply → ∃ e, call_loop svc st1 payload [a2] = (Raise e, false, st2) ∧ is_conn_error e = true) as C4.
  { intros Hne. cbn [call_loop]. rewrite H2. destruct a2; try done; destruct Hr2 as (e & -> & He);
      exists e; simpl; rewrite He; done. }
  assert (∀ st', link_call svc st' method args (AReply, a2) =
    ((invoke svc st' method args).1, executed svc st' method args AReply)) as Hi
    by (intros st'; simpl; by destruct (invoke svc st' method args)).
  destruct (decide (a1 = AReply)) as [Ha|Ha].
  { subst a1. rewrite Hi, bool_decide_eq_true_2 by by left. by apply C1. }
  rewrite C2 by done. destruct (decide (a2 = AReply)) as [Ha2|Ha2].
  { subst a2. rewrite bool_decide_eq_true_2 by by right. rewrite C3 by done.
    subst st2. fold st1. destruct a1; [..|done]; simpl; by destruct (invoke _ _ _ _). }
  rewrite bool_decide_eq_false_2 by naive_solver. destruct (C4 Ha2) as (e & He & Hc).
  rewrite He. destruct a1, a2; try done; simpl; eauto.
Qed.
End rpc_facts.

(** ** The servers behind the endpoints *)

(** The state behind every control endpoint, and how the link to it behaves
    during an operation. *)
Record cluster (S : Type) := mk_cluster {
  c_shards : gmap string S;
  c_link : string → attempt * attempt
}.
Arguments mk_cluster {S} _ _.
Arguments c_shards {S} _.
Arguments c_link {S} _.

(** [RpcClientPool.call]: nobody listens on an endpoint without a server. *)
Definition net_call {S} (svc : Service S) (w : cluster S) (endpoint method : string) (args : pyval) :
    pyres pyval * cluster S :=
  match c_shards w !! endpoint with
  | None => (Raise OSError, w)
  | Some st =>
      let '(r, st') := link_call svc st method args (c_link w endpoint) in
      (r, mk_cluster (<[endpoint := st']> (c_shards w)) (c_link w))
  end.

(** The reply of the RPC arrives; the handler has run at least once. *)
Definition replies (a : attempt * attempt) : bool := bool_decide (a.1 = AReply ∨ a.2 = AReply).
Definition runs (a : attempt) : bool := match a with ABreakAfter | AReply => true | _ => false end.
Definition reached (a : attempt * attempt) : bool :=
  runs a.1 || (negb (bool_decide (a.1 = AReply)) && runs a.2).

Lemma replies_reached a : replies a = true → reached a = true.
Proof. destruct a as [[] []]; done. Qed.

Lemma link_call_readonly {S} (svc : Service S) st m args a :
  (∀ st, (invoke svc st m args).2 = st) →
  link_call svc st m args a =
    (if replies a then (invoke svc st m args).1 else Raise ConnectionError, st).
Proof.
  intros Hro. pose proof (Hro st) as H. destruct (invoke svc st m args) as [r st'] eqn:E.
  simpl in *. subst st'. destruct a as [[] []]; simpl; rewrite ?E; simpl; rewrite ?E; done.
Qed.

Lemma link_call_idempotent {S} (svc : Service S) st m args a f v :
  (∀ st, invoke svc st m args = (Ret v, f st)) → (∀ st, f (f st) = f st) →
  link_call svc st m args a =
    (if replies a then Ret v else Raise ConnectionError, if reached a then f st else st).
Proof.
  intros Hi Hf. destruct a as [[] []]; simpl; rewrite ?Hi; simpl; rewrite ?Hi, ?Hf; done.
Qed.

(** A call to [ep] gets the server's answer. *)
Definition live_ep {S} (w : cluster S) (ep : string) : bool :=
  bool_decide (is_Some (c_shards w !! ep)) && replies (c_link w ep).

(** Every server of the cluster satisfies [P]. *)
Definition servers {S} (P : S → Prop) (w : cluster S) : Prop :=
  ∀ ep st, c_shards w !! ep = Some st → P st.

(** A handler that preserves [P] and answers with [Q] does so through the
    network, where it may run twice or go unanswered. *)
Lemma net_call_inv {S} (svc : Service S) (P : S → Prop) (Q : pyres pyval → Prop) w ep m args r w' :
  (∀ st, P st → P (invoke svc st m args).2 ∧ Q (invoke svc st m args).1) →
  servers P w → net_call svc w ep m args = (r, w') →
  servers P w' ∧ (∀ ep', live_ep w' ep' = live_ep w ep') ∧
  if live_ep w ep then Q r else ∃ e, r = Raise e.
Proof.
  intros Hinv HP. unfold net_call. destruct (c_shards w !! ep) as [st|] eqn:Es.
  2:{ intros [= <- <-]. split; [done|]. split; [done|]. unfold live_ep. rewrite Es. simpl. eauto. }
  destruct (link_call svc st m args (c_link w ep)) as [r' st'] eqn:El. intros [= <- <-].
  assert (P st' ∧ if replies (c_link w ep) then Q r' else ∃ e, r' = Raise e) as [HP' HQ].
  { pose proof (Hinv st (HP _ _ Es)) as [H1 H2]. pose proof (Hinv _ H1) as [H3 H4].
    destruct (c_link w ep) as [a1 a2].
    destruct (invoke svc st m args) as [r1 s1] eqn:E1. simpl in *.
    destruct (invoke svc s1 m args) as [r2 s2] eqn:E2.
    destruct a1, a2; simpl in El; rewrite ?E1 in El; simpl in El; rewrite ?E1, ?E2 in El;
      simpl in El; simplify_eq; simpl; eauto. }
  split; [|split].
  - intros ep' st2. simpl. rewrite lookup_insert_Some. intros [[_ <-]|[_ ?]]; [done|]. by eapply HP.
  - intros ep'. unfold live_ep. simpl. destruct (decide (ep = ep')) as [<-|Hne].
    + by rewrite lookup_insert_eq, Es.
    + by rewrite lookup_insert_ne.
  - unfold live_ep. rewrite Es. simpl. done.
Qed.

(** The answer a live endpoint gives is that of the handler's last run. *)
Lemma net_call_live {S} (svc : Service S) (P : S → Prop) w ep m args r w' :
  (∀ st, P st → P (invoke svc st m args).2) → (∀ st, c_shards w !! ep = Some st → P st) →
  live_ep w ep = true →
  net_call svc w ep m args = (r, w') →
  ∃ st, P st ∧ r = (invoke svc st m args).1 ∧ c_shards w' !! ep = Some (invoke svc st m args).2.
Proof.
  intros Hinv HP Hl. unfold net_call, live_ep in *. destruct (c_shards w !! ep) as [st|] eqn:Es; [|done].
  simpl in Hl. pose proof (HP _ eq_refl) as H0. pose proof (Hinv _ H0) as H1.
  destruct (c_link w ep) as [a1 a2] eqn:Ea.
  assert (∃ st0, P st0 ∧ link_call svc st m args (a1, a2) = invoke svc st0 m args) as (st0 & Hst0 & Hlc).
  { destruct a1, a2; simpl; try done; eauto. }
  rewrite Hlc. destruct (invoke svc st0 m args) as [r0 st1] eqn:Ei. intros [= <- <-].
  exists st0. rewrite Ei. simpl. by rewrite lookup_insert_eq.
Qed.

(** ** The client pool *)

(** Clients are numbered as they are constructed.  [cp_closed] are the clients
    on which [close] was called. *)
Record RpcClientPool := mk_cpool {
  cp_max_idle : Z;
  cp_idle : gmap string (list nat);
  cp_next : nat;
  cp_closed : gset nat
}.

(** [RpcClientPool.__init__] *)
Definition new_cpool (max_idle_per_endpoint : Z) : RpcClientPool :=
  mk_cpool (Z.max 1 max_idle_per_endpoint) ∅ 0 ∅.

Definition close_client (p : RpcClientPool) (c : nat) : RpcClientPool :=
  mk_cpool (cp_max_idle p) (cp_idle p) (cp_next p) ({[c]} ∪ cp_closed p).

Definition _acquire (p : RpcClientPool) (ep : string) : nat * RpcClientPool :=
  match cp_idle p !! ep ≫= pop_last with
  | Some (c, idle) => (c, mk_cpool (cp_max_idle p) (<[ep := idle]> (cp_idle p)) (cp_next p) (cp_closed p))
  | None => (cp_next p, mk_cpool (cp_max_idle p) (cp_idle p) (S (cp_next p)) (cp_closed p))
  end.

Definition _release (p : RpcClientPool) (ep : string) (c : nat) : RpcClientPool :=
  let idle := default [] (cp_idle p !! ep) in
  if zlength idle <? cp_max_idle p
  then mk_cpool (cp_max_idle p) (<[ep := idle ++ [c]]> (cp_idle p)) (cp_next p) (cp_closed p)
  else close_client (mk_cpool (cp_max_idle p) (<[ep := idle]> (cp_idle p)) (cp_next p) (cp_closed p)) c.

(** [RpcClientPool.close] *)
Definition cpool_close (p : RpcClientPool) : RpcClientPool :=
  let all := (map_to_list (cp_idle p)) ≫= snd in
  mk_cpool (cp_max_idle p) ∅ (cp_next p) (list_to_set all ∪ cp_closed p).

(** Threads running [RpcClientPool.call] interleave: a call leases a client,
    and returns it after a successful reply or closes it after an error.
    [leased] are the clients in use, with their endpoint. *)
Inductive cpool_step : RpcClientPool * list (string * nat) → RpcClientPool * list (string * nat) → Prop :=
  | step_acquire p L ep c p' :
      _acquire p ep = (c, p') → cpool_step (p, L) (p', (ep, c) :: L)
  | step_release p L1 L2 ep c :
      cpool_step (p, L1 ++ (ep, c) :: L2) (_release p ep c, L1 ++ L2)
  | step_fail p L1 L2 ep c :
      cpool_step (p, L1 ++ (ep, c) :: L2) (close_client p c, L1 ++ L2)
  | step_close p L : cpool_step (p, L) (cpool_close p, L).

Definition idle_all (m : gmap string (list nat)) : list nat := map_to_list m ≫= snd.

(** Where clients are: in an idle list or in a running call. *)
Definition places (p : RpcClientPool) (L : list (string * nat)) : list nat :=
  idle_all (cp_idle p) ++ L.*2.

(** A client is in at most one place, the places hold constructed clients that
    were not closed, and the idle lists are bounded. *)
Record cpool_inv (p : RpcClientPool) (L : list (string * nat)) : Prop := {
  ci_nodup : NoDup (places p L);
  ci_live c : c ∈ places p L → (c < cp_next p)%nat ∧ c ∉ cp_closed p;
  ci_closed c : c ∈ cp_closed p → (c < cp_next p)%nat;
  ci_pos : 1 ≤ cp_max_idle p;
  ci_bound ep l : cp_idle p !! ep = Some l → zlength l ≤ cp_max_idle p
}.

Lemma idle_all_split m ep : idle_all m ≡ₚ default [] (m !! ep) ++ idle_all (delete ep m).
Proof.
  unfold idle_all. destruct (m !! ep) as [l|] eqn:E; simpl.
  - by rewrite <-(map_to_list_delete m ep l E).
  - by rewrite delete_id.
Qed.

Lemma idle_all_insert m ep l : idle_all (<[ep := l]> m) ≡ₚ l ++ idle_all (delete ep m).
Proof. rewrite (idle_all_split _ ep), lookup_insert_eq, delete_insert_eq. done. Qed.

(** The invariant only looks at the places up to order. *)
Lemma cpool_inv_intro p L p' L' extra gone :
  cpool_inv p L → cp_max_idle p' = cp_max_idle p →
  extra ++ places p L ≡ₚ gone ++ places p' L' →
  NoDup extra → (∀ c, c ∈ extra → (cp_next p ≤ c < cp_next p')%nat) → (cp_next p ≤ cp_next p')%nat →
  (∀ c, c ∈ cp_closed p' → c ∈ gone ∨ c ∈ cp_closed p) →
  (∀ ep l, cp_idle p' !! ep = Some l → zlength l ≤ cp_max_idle p') →
  cpool_inv p' L'.
Proof.
  intros [H1 H2 H3 H4 _] Hm Hp Hex Hfr Hle Hcl Hb.
  assert (NoDup (extra ++ places p L)) as Hnd.
  { apply NoDup_app. split; [done|]. split; [|done].
    intros c Hc Hc'. destruct (H2 c Hc'), (Hfr c Hc). lia. }
  rewrite Hp in Hnd. apply NoDup_app in Hnd as (_ & Hdis & Hnd).
  assert (∀ c, c ∈ gone ++ places p' L' → (c < cp_next p')%nat) as Hlt.
  { intros c. rewrite <-Hp. intros [Hc|Hc]%elem_of_app; [by apply Hfr|]. destruct (H2 c Hc). lia. }
  split; [done| | |lia|done].
  - intros c Hc. split; [apply Hlt, elem_of_app; by right|]. intros [Hg|Hc']%Hcl.
    + by apply (Hdis c).
    + assert (c ∈ extra ++ places p L) as Hin by (rewrite Hp; apply elem_of_app; by right).
      apply elem_of_app in Hin as [Hin|Hin]; [|by destruct (H2 c Hin)].
      apply Hfr in Hin. apply H3 in Hc'. lia.
  - intros c [Hg|Hc']%Hcl; [apply Hlt, elem_of_app; by left|]. apply H3 in Hc'. lia.
Qed.

Lemma new_cpool_inv n : cpool_inv (new_cpool n) [].
Proof.
  assert (places (new_cpool n) [] = []) as Hp
    by (unfold places, idle_all, new_cpool; simpl; by rewrite map_to_list_empty).
  split; rewrite ?Hp; simpl.
  - constructor.
  - intros c Hc. by apply not_elem_of_nil in Hc.
  - set_solver.
  - lia.
  - intros ep l. by rewrite lookup_empty.
Qed.

Lemma acquire_inv p L ep c p' :
  cpool_inv p L → _acquire p ep = (c, p') → cpool_inv p' ((ep, c) :: L).
Proof.
  intros Hi Ha. unfold _acquire in Ha.
  destruct (cp_idle p !! ep ≫= pop_last) as [[c' idle]|] eqn:El; injection Ha as <- <-.
  - destruct (cp_idle p !! ep) as [l|] eqn:Em; [|done]. simpl in El. apply pop_last_Some in El as ->.
    apply (cpool_inv_intro p L _ _ [] []); [done|done| |constructor|by intros ? ?%not_elem_of_nil|done|by right|].
    + unfold places. simpl. rewrite idle_all_insert, (idle_all_split (cp_idle p) ep), Em. simpl. solve_Permutation.
    + simpl. intros ep' l'. rewrite lookup_insert_Some. intros [[<- <-]|[_ Hl]]; [|by eapply ci_bound].
      pose proof (ci_bound _ _ Hi _ _ Em) as Hb. unfold zlength in *. rewrite length_app in Hb. lia.
  - apply (cpool_inv_intro p L _ _ [cp_next p] []); [done|done| |apply NoDup_singleton| |simpl; lia|by right|].
    + unfold places. simpl. solve_Permutation.
    + simpl. intros c ->%list_elem_of_singleton. lia.
    + simpl. intros. by eapply ci_bound.
Qed.

Lemma release_inv p L1 L2 ep c :
  cpool_inv p (L1 ++ (ep, c) :: L2) → cpool_inv (_release p ep c) (L1 ++ L2).
Proof.
  intros Hi. unfold _release.
  assert (idle_all (<[ep := default [] (cp_idle p !! ep)]> (cp_idle p)) ≡ₚ idle_all (cp_idle p)) as Hid
    by (rewrite idle_all_insert; symmetry; apply idle_all_split).
  destruct (_ <? _) eqn:El; bool_cases.
  - apply (cpool_inv_intro p (L1 ++ (ep, c) :: L2) _ _ [] []);
      [done|done| |constructor|by intros ? ?%not_elem_of_nil|done|by right|].
    + unfold places. simpl. rewrite !fmap_app. csimpl.
      rewrite idle_all_insert, (idle_all_split (cp_idle p) ep). solve_Permutation.
    + simpl. intros ep' l'. rewrite lookup_insert_Some. intros [[<- <-]|[_ Hl]]; [|by eapply ci_bound].
      unfold zlength in *. rewrite length_app. simpl. lia.
  - apply (cpool_inv_intro p (L1 ++ (ep, c) :: L2) _ _ [] [c]);
      [done|done| |constructor|by intros ? ?%not_elem_of_nil|done| |].
    + unfold places. simpl. rewrite !fmap_app. csimpl. rewrite Hid. solve_Permutation.
    + simpl. intros c'. rewrite elem_of_union, elem_of_singleton, list_elem_of_singleton. done.
    + simpl. intros ep' l'. rewrite lookup_insert_Some. intros [[<- <-]|[_ Hl]]; [|by eapply ci_bound].
      destruct (cp_idle p !! ep) as [l|] eqn:Em; simpl; [by eapply ci_bound|].
      pose proof (ci_pos _ _ Hi). unfold zlength. simpl. lia.
Qed.

Lemma fail_inv p L1 L2 ep c :
  cpool_inv p (L1 ++ (ep, c) :: L2) → cpool_inv (close_client p c) (L1 ++ L2).
Proof.
  intros Hi. apply (cpool_inv_intro p (L1 ++ (ep, c) :: L2) _ _ [] [c]);
    [done|done| |constructor|by intros ? ?%not_elem_of_nil|done| |].
  - unfold places. simpl. rewrite !fmap_app. csimpl. solve_Permutation.
  - simpl. intros c'. rewrite elem_of_union, elem_of_singleton, list_elem_of_singleton. done.
  - simpl. intros. by eapply ci_bound.
Qed.

Lemma close_inv p L : cpool_inv p L → cpool_inv (cpool_close p) L.
Proof.
  intros Hi. apply (cpool_inv_intro p L _ _ [] (idle_all (cp_idle p)));
    [done|done| |constructor|by intros ? ?%not_elem_of_nil|done| |].
  - unfold places, cpool_close, idle_all at 3. simpl. by rewrite map_to_list_empty.
  - unfold cpool_close. simpl. intros c. rewrite elem_of_union, elem_of_list_to_set. done.
  - simpl. intros ep l. by rewrite lookup_empty.
Qed.

Lemma cpool_step_inv x y :
  cpool_step x y → cpool_inv x.1 x.2 → cpool_inv y.1 y.2 ∧ cp_max_idle y.1 = cp_max_idle x.1.
Proof.
  intros Hs Hi. destruct Hs as [q L' ep c q' Ha|q L1 L2 ep c|q L1 L2 ep c|q L']; simpl in *.
  - split; [by eapply acquire_inv|]. unfold _acquire in Ha.
    destruct (cp_idle q !! ep ≫= pop_last) as [[]|]; injection Ha as <- <-; done.
  - split; [by eapply release_inv|]. unfold _release. by destruct (_ <? _).
  - split; [by eapply fail_inv|done].
  - split; [by apply close_inv|done].
Qed.

Lemma cpool_reach_inv x y :
  rtc cpool_step x y → cpool_inv x.1 x.2 → cpool_inv y.1 y.2 ∧ cp_max_idle y.1 = cp_max_idle x.1.
Proof.
  induction 1 as [x|x y z Hs _ IH]; intros Hi; [done|].
  destruct (cpool_step_inv _ _ Hs Hi) as [Hi' <-]. by apply IH.
Qed.

(** C37: the client pool never shares a connection.  In every interleaving of
    calls, returns, failures and [close]: no client is leased to two calls or
    leased while idle, no leased or idle client has been closed, and an
    endpoint keeps at most [max_idle_per_endpoint] (at least one) idle
    clients. *)
Theorem client_pool_exclusive (max_idle : Z) (p : RpcClientPool) (L : list (string * nat))
  (Hreach : rtc cpool_step (new_cpool max_idle, []) (p, L)) :
  NoDup (places p L) ∧ (∀ c, c ∈ places p L → c ∉ cp_closed p) ∧
  (∀ ep l, cp_idle p !! ep = Some l → zlength l ≤ Z.max 1 max_idle).
Proof.
  destruct (cpool_reach_inv _ _ Hreach (new_cpool_inv max_idle)) as [Hi Hm]. simpl in Hi, Hm.
  split; [apply Hi|]. split; [intros c Hc; by destruct (ci_live _ _ Hi c Hc)|].
  rewrite <-Hm. apply Hi.
Qed.

(** ** Concrete instances *)

Module RpcExamples.
(** A codec for the values of the examples: a request or reply is a pair of
    strings or booleans; strings are carried with their length. *)
Definition enc_str (s : string) : list Z := zlength (encode_utf8 s) :: encode_utf8 s.

Definition enc_scalar (v : pyval) : option (list Z) :=
  match v with
  | VStr s => Some (1 :: enc_str s)
  | VBool b => Some [2; if b then 1 else 0]
  | _ => None
  end.

Definition dec_scalar (bs : list Z) : option (pyval * list Z) :=
  match bs with
  | 1 :: n :: r => Some (VStr (decode_utf8 (take (Z.to_nat n) r)), drop (Z.to_nat n) r)
  | 2 :: b :: r => Some (VBool (b =? 1), r)
  | _ => None
  end.

Definition ex_dumps (v : pyval) : pyres (list Z) :=
  match v with
  | VList [a; b] =>
      match enc_scalar a, enc_scalar b with
      | Some x, Some y => Ret (x ++ y)
      | _, _ => Raise TypeError
      end
  | _ => Raise TypeError
  end.

Definition ex_loads (bs : list Z) : pyres pyval :=
  match dec_scalar bs with
  | Some (a, r) =>
      match dec_scalar r with
      | Some (b, []) => Ret (VList [a; b])
      | _ => Raise ValueError
      end
  | None => Raise ValueError
  end.

Lemma dec_enc_scalar v bs r : enc_scalar v = Some bs → dec_scalar (bs ++ r) = Some (v, r).
Proof.
  destruct v; intros He; simplify_eq/=; [by destruct b|]. unfold zlength.
  by rewrite Nat2Z.id, take_app_length, drop_app_length, decode_encode_utf8.
Qed.

#[export, refine] Instance ex_codec : Codec := { _dumps := ex_dumps; _loads := ex_loads }.
Proof.
  intros v bs. unfold ex_dumps, ex_loads.
  destruct v as [| | | | |[|a [|b [|]]]|]; try done.
  destruct (enc_scalar a) as [x|] eqn:Ea, (enc_scalar b) as [y|] eqn:Eb; try done. intros [= <-].
  rewrite (dec_enc_scalar _ _ _ Ea). rewrite <-(app_nil_r y), (dec_enc_scalar _ _ _ Eb). done.
Defined.

(** A server that remembers the last argument and answers the previous one. *)
Definition swap_svc : Service pyval := register (λ _, None) "swap" (λ st v, (Ret st, v)).

Definition frame_or_nil (v : pyval) : list Z := match frame_of v with Ret f => f | Raise _ => [] end.

Lemma serve_conn_in_order_witness :
  serve_conn 3 swap_svc (VStr "a")
    ((λ b, CData [b]) <$> concat [frame_or_nil (request_val ("swap", VStr "x"));
                                  frame_or_nil (request_val ("swap", VStr "y"))]) =
    ([frame_or_nil (VList [VBool true; VStr "a"]); frame_or_nil (VList [VBool true; VStr "x"])], VStr "y").
Proof.
  refine (serve_conn_in_order swap_svc (VStr "a") [("swap", VStr "x"); ("swap", VStr "y")] _
    [frame_or_nil (request_val ("swap", VStr "x")); frame_or_nil (request_val ("swap", VStr "y"))]
    [frame_or_nil (VList [VBool true; VStr "a"]); frame_or_nil (VList [VBool true; VStr "x"])]
    3 _ _ _ _ _).
  - apply Forall_fmap, Forall_true. intros b. exists [b]. split; [reflexivity|discriminate].
  - repeat (constructor; [vm_compute; reflexivity|]). constructor.
  - vm_compute. reflexivity.
  - repeat (constructor; [vm_compute; reflexivity|]). constructor.
  - simpl. lia.
Defined.

(** An echo service, every reply of which the codec carries. *)
Definition echo_svc : Service nat := register (λ _, None) "echo" (λ st v, (Ret v, S st)).

Lemma client_call_outcome_witness :
  client_call echo_svc 0%nat "echo" (VStr "x") ABreakAfter AReply = (Ret (VStr "x"), true, 2%nat).
Proof.
  assert (transportable echo_svc "echo" (VStr "x")) as Hw.
  { split; [eexists; vm_compute; reflexivity|]. intros st. eexists. vm_compute. reflexivity. }
  exact (client_call_outcome echo_svc 0%nat "echo" (VStr "x") ABreakAfter AReply eq_refl Hw).
Defined.

Lemma client_pool_exclusive_witness :
  ∃ p L, rtc cpool_step (new_cpool 8, []) (p, L) ∧ L ≠ [] ∧ NoDup (places p L).
Proof.
  assert (rtc cpool_step (new_cpool 8, []) ((_acquire (new_cpool 8) "a").2, [("a", 0%nat)])) as Hr.
  { apply rtc_once. eapply (step_acquire _ [] "a" 0%nat). vm_compute. reflexivity. }
  eexists _, _. split; [exact Hr|]. split; [discriminate|].
  exact (proj1 (client_pool_exclusive 8 _ _ Hr)).
Defined.
End RpcExamples.
