(* ===== verification/JsonCodec.v ===== *)
(** The codec [rpc.py] falls back to when [msgpack] is not installed: [json]
    text, with byte strings carried as [{"__b64__": <base64>}] objects.

    The standard library's [base64] and [json] are modelled as far as the
    fallback uses them: the base64 alphabet and the lenient decoder of
    [binascii], the default layout of [json.dumps] and the scanner of
    [json.loads] with its object hook.  Texts are lists of byte values.
    [IllTyped] marks what is outside the model: floats and characters above
    127 in escapes. *)
From S2P Require Import Prelude Bytes Types Rpc.

(** ** Base 64 *)

Module Base64.
(** The character of a six-bit value, and back. *)
Definition char_of (v : Z) : Z :=
  if v <? 26 then 65 + v
  else if v <? 52 then 97 + (v - 26)
  else if v <? 62 then 48 + (v - 52)
  else if v =? 62 then 43 else 47.

Definition value_of (c : Z) : option Z :=
  if within 65 90 c then Some (c - 65)
  else if within 97 122 c then Some (c - 97 + 26)
  else if within 48 57 c then Some (c - 48 + 52)
  else if c =? 43 then Some 62
  else if c =? 47 then Some 63
  else None.

(** [base64.b64encode] *)
Fixpoint b64encode (bs : list Z) : list Z :=
  match bs with
  | a :: b :: c :: bs' =>
      char_of (Z.shiftr a 2) :: char_of (Z.lor (Z.shiftl (Z.land a 3) 4) (Z.shiftr b 4)) ::
      char_of (Z.lor (Z.shiftl (Z.land b 15) 2) (Z.shiftr c 6)) :: char_of (Z.land c 63) :: b64encode bs'
  | [a; b] =>
      [char_of (Z.shiftr a 2); char_of (Z.lor (Z.shiftl (Z.land a 3) 4) (Z.shiftr b 4));
       char_of (Z.shiftl (Z.land b 15) 2); 61]
  | [a] => [char_of (Z.shiftr a 2); char_of (Z.shiftl (Z.land a 3) 4); 61; 61]
  | [] => []
  end.

(** [binascii.a2b_base64] in its lenient mode: [quad] characters of the
    current group were seen, [left] holds the bits not yet written, [pads]
    padding characters were seen in a row; characters outside the alphabet are
    skipped, and padding that completes a group ends the input. *)
Fixpoint a2b (quad pads left : Z) (cs : list Z) : pyres (list Z) :=
  match cs with
  | [] => if quad =? 0 then Ret [] else Raise ValueError
  | c :: cs' =>
      if c =? 61 then
        if (2 <=? quad) && (4 <=? quad + (pads + 1)) then Ret []
        else a2b quad (if 2 <=? quad then pads + 1 else pads) left cs'
      else
        match value_of c with
        | None => a2b quad pads left cs'
        | Some v =>
            if quad =? 0 then a2b 1 0 v cs'
            else if quad =? 1 then
              out ← a2b 2 0 (Z.land v 15) cs'; Ret (Z.lor (Z.shiftl left 2) (Z.shiftr v 4) :: out)
            else if quad =? 2 then
              out ← a2b 3 0 (Z.land v 3) cs'; Ret (Z.lor (Z.shiftl left 4) (Z.shiftr v 2) :: out)
            else
              out ← a2b 0 0 0 cs'; Ret (Z.lor (Z.shiftl left 6) v :: out)
        end
  end.

(** [base64.b64decode] of a JSON value: a string, or a [TypeError]. *)
Definition b64decode (v : pyval) : pyres (list Z) :=
  match v with
  | VStr s => if forallb (λ c, c <? 128) (encode_utf8 s) then a2b 0 0 0 (encode_utf8 s) else Raise ValueError
  | VBytes bs => a2b 0 0 0 bs
  | _ => Raise TypeError
  end.

Lemma value_of_char v : 0 ≤ v < 64 → value_of (char_of v) = Some v ∧ 43 ≤ char_of v ≤ 122 ∧ char_of v ≠ 61.
Proof.
  assert (forallb (λ v, bool_decide (value_of (char_of v) = Some v ∧ 43 ≤ char_of v ≤ 122 ∧ char_of v ≠ 61)) (seqZ 0 64) = true)
    as H by (vm_compute; reflexivity).
  intros Hv. rewrite forallb_forall in H. specialize (H v). rewrite bool_decide_eq_true in H.
  apply H, list_elem_of_In, elem_of_seqZ. lia.
Qed.

(** One character of the alphabet. *)
Lemma a2b_char quad pads left v cs :
  0 ≤ v < 64 →
  a2b quad pads left (char_of v :: cs) =
    if quad =? 0 then a2b 1 0 v cs
    else if quad =? 1 then out ← a2b 2 0 (Z.land v 15) cs; Ret (Z.lor (Z.shiftl left 2) (Z.shiftr v 4) :: out)
    else if quad =? 2 then out ← a2b 3 0 (Z.land v 3) cs; Ret (Z.lor (Z.shiftl left 4) (Z.shiftr v 2) :: out)
    else out ← a2b 0 0 0 cs; Ret (Z.lor (Z.shiftl left 6) v :: out).
Proof.
  intros Hv. destruct (value_of_char v Hv) as (H1 & _ & H2). cbn [a2b].
  destruct (Z.eqb_spec (char_of v) 61); [done|]. by rewrite H1.
Qed.

(** The groups of six bits of three bytes, and their recombination, checked on
    the byte values. *)
Definition bytes_list : list Z := seqZ 0 256.

Lemma all_bytes (P : Z → bool) : forallb P bytes_list = true → ∀ a, is_byte a → P a = true.
Proof. rewrite forallb_forall. intros H a Ha. apply H, list_elem_of_In, elem_of_seqZ. unfold is_byte in Ha. lia. Qed.

Definition split_ok (a : Z) : bool :=
  (0 <=? Z.shiftr a 2) && (Z.shiftr a 2 <? 64) && (0 <=? Z.land a 3) && (Z.land a 3 <? 4) &&
  (0 <=? Z.shiftr a 4) && (Z.shiftr a 4 <? 16) && (0 <=? Z.land a 15) && (Z.land a 15 <? 16) &&
  (0 <=? Z.shiftr a 6) && (Z.shiftr a 6 <? 4) && (0 <=? Z.land a 63) && (Z.land a 63 <? 64) &&
  (Z.lor (Z.shiftl (Z.shiftr a 2) 2) (Z.land a 3) =? a) &&
  (Z.lor (Z.shiftl (Z.shiftr a 4) 4) (Z.land a 15) =? a) && (Z.lor (Z.shiftl (Z.shiftr a 6) 6) (Z.land a 63) =? a).

Lemma bytes_split a :
  is_byte a →
  (0 ≤ Z.shiftr a 2 < 64 ∧ 0 ≤ Z.land a 3 < 4 ∧ 0 ≤ Z.shiftr a 4 < 16 ∧ 0 ≤ Z.land a 15 < 16 ∧
   0 ≤ Z.shiftr a 6 < 4 ∧ 0 ≤ Z.land a 63 < 64) ∧
  Z.lor (Z.shiftl (Z.shiftr a 2) 2) (Z.land a 3) = a ∧ Z.lor (Z.shiftl (Z.shiftr a 4) 4) (Z.land a 15) = a ∧
  Z.lor (Z.shiftl (Z.shiftr a 6) 6) (Z.land a 63) = a.
Proof.
  intros Ha. assert (split_ok a = true) as H; [|unfold split_ok in H; lia].
  revert a Ha. apply all_bytes. vm_compute. reflexivity.
Qed.

(** A high part and a low part glued together and taken apart again. *)
Definition glue_ok (k n m : Z) : bool :=
  forallb (λ hi, forallb (λ lo,
    let v := Z.lor (Z.shiftl hi k) lo in
    (0 <=? v) && (v <? 64) && (Z.shiftr v k =? hi) && (Z.land v (2 ^ k - 1) =? lo)) (seqZ 0 m)) (seqZ 0 n).

Lemma glue k n m : glue_ok k n m = true → ∀ hi lo, 0 ≤ hi < n → 0 ≤ lo < m →
  let v := Z.lor (Z.shiftl hi k) lo in 0 ≤ v < 64 ∧ Z.shiftr v k = hi ∧ Z.land v (2 ^ k - 1) = lo.
Proof.
  intros H hi lo Hhi Hlo v. unfold glue_ok in H.
  assert (In hi (seqZ 0 n) ∧ In lo (seqZ 0 m)) as [Ih Il] by (split; apply list_elem_of_In, elem_of_seqZ; lia).
  pose proof (proj1 (forallb_forall _ _) (proj1 (forallb_forall _ _) H hi Ih) lo Il) as Hv.
  cbv beta zeta in Hv. fold v in Hv. lia.
Qed.

(** The two joints of a group: four bits of the second byte under two of the
    first, two bits of the third under four of the second. *)
Lemma joint4 hi lo : 0 ≤ hi < 4 → 0 ≤ lo < 16 →
  let v := Z.lor (Z.shiftl hi 4) lo in 0 ≤ v < 64 ∧ Z.shiftr v 4 = hi ∧ Z.land v 15 = lo.
Proof. apply (glue 4 4 16). vm_compute. reflexivity. Qed.

Lemma joint2 hi lo : 0 ≤ hi < 16 → 0 ≤ lo < 4 →
  let v := Z.lor (Z.shiftl hi 2) lo in 0 ≤ v < 64 ∧ Z.shiftr v 2 = hi ∧ Z.land v 3 = lo.
Proof. apply (glue 2 16 4). vm_compute. reflexivity. Qed.

(** The last joint of a short group has nothing under it. *)
Lemma tail4 hi : 0 ≤ hi < 4 → let v := Z.shiftl hi 4 in 0 ≤ v < 64 ∧ Z.shiftr v 4 = hi ∧ Z.land v 15 = 0.
Proof. intros H. pose proof (joint4 hi 0 H ltac:(lia)) as Hj. by rewrite Z.lor_0_r in Hj. Qed.

Lemma tail2 hi : 0 ≤ hi < 16 → let v := Z.shiftl hi 2 in 0 ≤ v < 64 ∧ Z.shiftr v 2 = hi ∧ Z.land v 3 = 0.
Proof. intros H. pose proof (joint2 hi 0 H ltac:(lia)) as Hj. by rewrite Z.lor_0_r in Hj. Qed.

(** Decoding undoes encoding. *)
Lemma a2b_b64encode bs : Forall is_byte bs → a2b 0 0 0 (b64encode bs) = Ret bs.
Proof.
  induction bs as [bs IH] using (induction_ltof1 _ length). unfold ltof in IH.
  destruct bs as [|a [|b [|c bs']]]; intros Hb; [done|..]; apply Forall_cons in Hb as [Ha Hb];
    destruct (bytes_split a Ha) as (Ra & A2 & A4 & A6).
  - cbn [b64encode]. pose proof (tail4 (Z.land a 3) ltac:(lia)) as (V1 & V2 & V3). cbv zeta in V1, V2, V3.
    rewrite a2b_char by lia. cbn [Z.eqb]. rewrite a2b_char by lia. cbn [Z.eqb Pos.eqb].
    rewrite V2, V3, A2. reflexivity.
  - apply Forall_cons in Hb as [Hb _]. destruct (bytes_split b Hb) as (Rb & B2 & B4 & B6). cbn [b64encode].
    pose proof (joint4 (Z.land a 3) (Z.shiftr b 4) ltac:(lia) ltac:(lia)) as (V1 & V2 & V3).
    pose proof (tail2 (Z.land b 15) ltac:(lia)) as (U1 & U2 & U3). cbv zeta in *.
    rewrite a2b_char by lia. cbn [Z.eqb]. rewrite a2b_char by lia. cbn [Z.eqb Pos.eqb]. rewrite a2b_char by lia. cbn [Z.eqb Pos.eqb].
    rewrite V2, V3, U2, U3, A2, B4. reflexivity.
  - apply Forall_cons in Hb as [Hb Hc]. apply Forall_cons in Hc as [Hc Hr].
    destruct (bytes_split b Hb) as (Rb & B2 & B4 & B6). destruct (bytes_split c Hc) as (Rc & C2 & C4 & C6). cbn [b64encode].
    pose proof (joint4 (Z.land a 3) (Z.shiftr b 4) ltac:(lia) ltac:(lia)) as (V1 & V2 & V3).
    pose proof (joint2 (Z.land b 15) (Z.shiftr c 6) ltac:(lia) ltac:(lia)) as (U1 & U2 & U3). cbv zeta in *.
    rewrite a2b_char by lia. cbn [Z.eqb]. rewrite a2b_char by lia. cbn [Z.eqb Pos.eqb]. rewrite a2b_char by lia. cbn [Z.eqb Pos.eqb].
    rewrite a2b_char by lia. cbn [Z.eqb Pos.eqb]. rewrite V2, V3, U2, U3.
    rewrite A2, B4, C6, IH by (simpl; lia || done). reflexivity.
Qed.

Lemma b64encode_ascii bs : Forall is_byte bs → Forall (λ c, 43 ≤ c ≤ 122) (b64encode bs).
Proof.
  assert (∀ v, 0 ≤ v < 64 → 43 ≤ char_of v ≤ 122) as Hv by (intros v H; by apply value_of_char).
  induction bs as [bs IH] using (induction_ltof1 _ length). unfold ltof in IH.
  destruct bs as [|a [|b [|c bs']]]; intros Hb; [constructor|..]; apply Forall_cons in Hb as [Ha Hb];
    destruct (bytes_split a Ha) as (Ra & _); cbn [b64encode].
  - rewrite !Forall_cons. refine (conj _ (conj _ (conj _ (conj _ _)))); [apply Hv; lia|apply Hv, tail4; lia|lia|lia|constructor].
  - apply Forall_cons in Hb as [Hb _]. destruct (bytes_split b Hb) as (Rb & _).
    rewrite !Forall_cons.
    refine (conj _ (conj _ (conj _ (conj _ _)))); [apply Hv; lia|apply Hv, joint4; lia|apply Hv, tail2; lia|lia|constructor].
  - apply Forall_cons in Hb as [Hb Hc]. apply Forall_cons in Hc as [Hc Hr].
    destruct (bytes_split b Hb) as (Rb & _). destruct (bytes_split c Hc) as (Rc & _).
    rewrite !Forall_cons.
    refine (conj _ (conj _ (conj _ (conj _ _))));
      [apply Hv; lia|apply Hv, joint4; lia|apply Hv, joint2; lia|apply Hv; lia|apply IH; [simpl; lia|done]].
Qed.
End Base64.

(** ** JSON text *)

Module Json.
(** *** [json.dumps] *)

Definition lit (s : string) : list Z := encode_utf8 s.

Definition hex_char (v : Z) : Z := if v <? 10 then 48 + v else 97 + (v - 10).
Definition hex_value (c : Z) : option Z :=
  if within 48 57 c then Some (c - 48)
  else if within 97 102 c then Some (c - 97 + 10)
  else if within 65 70 c then Some (c - 65 + 10)
  else None.

(** One character of a string, escaped the way [ensure_ascii] does it. *)
Definition escape (c : Z) : list Z :=
  if c =? 34 then [92; 34]
  else if c =? 92 then [92; 92]
  else if c =? 10 then [92; 110]
  else if c =? 13 then [92; 114]
  else if c =? 9 then [92; 116]
  else if c =? 12 then [92; 102]
  else if c =? 8 then [92; 98]
  else if within 32 126 c then [c]
  else [92; 117; 48; 48; hex_char (Z.shiftr c 4); hex_char (Z.land c 15)].

Definition json_string (s : string) : pyres (list Z) :=
  let cs := encode_utf8 s in
  if forallb (λ c, c <? 128) cs then Ret ([34] ++ (cs ≫= escape) ++ [34]) else Raise IllTyped.

(** [", ".join(ts)] *)
Fixpoint join_items (ts : list (list Z)) : list Z :=
  match ts with
  | [] => []
  | [t] => t
  | t :: ts' => t ++ lit ", " ++ join_items ts'
  end.

(** The text of a value; a byte string has none ([TypeError], raised by the
    encoder's [default]). *)
Fixpoint text (v : pyval) : pyres (list Z) :=
  match v with
  | VNone => Ret (lit "null")
  | VBool b => Ret (lit (if b then "true" else "false"))
  | VInt z => Ret (lit (pretty z))
  | VStr s => json_string s
  | VBytes _ => Raise TypeError
  | VList l =>
      ts ← (fix items l := match l with
                           | [] => Ret []
                           | x :: l' => t ← text x; ts ← items l'; Ret (t :: ts)
                           end) l;
      Ret (lit "[" ++ join_items ts ++ lit "]")
  | VDict d =>
      ts ← (fix members d := match d with
                             | [] => Ret []
                             | (k, x) :: d' =>
                                 q ← json_string k; t ← text x; ts ← members d'; Ret ((q ++ lit ": " ++ t) :: ts)
                             end) d;
      Ret (lit "{" ++ join_items ts ++ lit "}")
  end.

(** *** [json.loads] *)

Definition is_ws (c : Z) : bool := (c =? 32) || (c =? 9) || (c =? 10) || (c =? 13).

Fixpoint skip_ws (s : list Z) : list Z :=
  match s with
  | c :: s' => if is_ws c then skip_ws s' else s
  | [] => []
  end.

(** [\uXXXX]: only the characters the model's strings hold. *)
Definition unicode_escape (a b c d : Z) : pyres Z :=
  match hex_value a, hex_value b, hex_value c, hex_value d with
  | Some a, Some b, Some c, Some d =>
      let u := ((a * 16 + b) * 16 + c) * 16 + d in
      if u <? 128 then Ret u else Raise IllTyped
  | _, _, _, _ => Raise ValueError
  end.

Definition simple_escape (c : Z) : option Z :=
  if (c =? 34) || (c =? 92) || (c =? 47) then Some c
  else if c =? 98 then Some 8
  else if c =? 102 then Some 12
  else if c =? 110 then Some 10
  else if c =? 114 then Some 13
  else if c =? 116 then Some 9
  else None.

(** A string after its opening quote: its characters and what follows. *)
Fixpoint scan_string (s : list Z) : pyres (list Z * list Z) :=
  match s with
  | [] => Raise ValueError
  | c :: s' =>
      if c =? 34 then Ret ([], s')
      else if c =? 92 then
        match s' with
        | [] => Raise ValueError
        | e :: s1 =>
            if e =? 117 then
              match s1 with
              | a :: b :: c :: d :: s2 =>
                  u ← unicode_escape a b c d; '(cs, r) ← scan_string s2; Ret (u :: cs, r)
              | _ => Raise ValueError
              end
            else match simple_escape e with
                 | None => Raise ValueError
                 | Some x => '(cs, r) ← scan_string s1; Ret (x :: cs, r)
                 end
        end
      else if c <? 32 then Raise ValueError
      else '(cs, r) ← scan_string s'; Ret (c :: cs, r)
  end.

Fixpoint scan_int (acc : Z) (s : list Z) : Z * list Z :=
  match s with
  | c :: s' => if within 48 57 c then scan_int (acc * 10 + (c - 48)) s' else (acc, s)
  | [] => (acc, [])
  end.

Definition starts_digit (s : list Z) : bool := match s with c :: _ => within 48 57 c | [] => false end.

(** A fraction or an exponent follows: the number is a float. *)
Definition float_tail (s : list Z) : bool :=
  match s with
  | c :: s' =>
      if c =? 46 then starts_digit s'
      else if (c =? 101) || (c =? 69) then
        match s' with
        | x :: s1 => if (x =? 43) || (x =? 45) then starts_digit s1 else starts_digit s'
        | [] => false
        end
      else false
  | [] => false
  end.

(** An optional minus sign and decimal digits without a leading zero, then
    the float check. *)
Definition scan_number (s : list Z) : pyres (pyval * list Z) :=
  let '(neg, s1) := match s with c :: s' => if c =? 45 then (true, s') else (false, s) | [] => (false, []) end in
  match s1 with
  | c :: s2 =>
      if within 48 57 c then
        let '(n, r) := if c =? 48 then (0, s2) else scan_int 0 s1 in
        if float_tail r then Raise IllTyped else Ret (VInt (if neg then - n else n), r)
      else Raise ValueError
  | [] => Raise ValueError
  end.

Fixpoint strip_prefix (p s : list Z) : option (list Z) :=
  match p, s with
  | [], _ => Some s
  | x :: p', y :: s' => if x =? y then strip_prefix p' s' else None
  | _ :: _, [] => None
  end.

(** The scalars that start with a letter; the float constants are outside. *)
Definition scan_constant (s : list Z) : option (pyres (pyval * list Z)) :=
  match strip_prefix (lit "null") s, strip_prefix (lit "true") s, strip_prefix (lit "false") s with
  | Some r, _, _ => Some (Ret (VNone, r))
  | _, Some r, _ => Some (Ret (VBool true, r))
  | _, _, Some r => Some (Ret (VBool false, r))
  | _, _, _ =>
      match strip_prefix (lit "NaN") s, strip_prefix (lit "Infinity") s, strip_prefix (lit "-Infinity") s with
      | None, None, None => None
      | _, _, _ => Some (Raise IllTyped)
      end
  end.

Section loads.
Context (object_hook : pyval → pyres pyval).

(** The scanner, on text without leading white space.  A nested call has at
    least one character less, or is the first of its array or object. *)
Fixpoint scan (fuel : nat) (s : list Z) : pyres (pyval * list Z) :=
  match fuel with
  | O => Raise IllTyped
  | S fuel' =>
      match s with
      | [] => Raise ValueError
      | c :: s' =>
          if c =? 34 then '(cs, r) ← scan_string s'; Ret (VStr (decode_utf8 cs), r)
          else if c =? 123 then
            match skip_ws s' with
            | x :: r =>
                if x =? 125 then v ← object_hook (VDict []); Ret (v, r)
                else '(d, r) ← scan_members fuel' [] (x :: r); v ← object_hook (VDict d); Ret (v, r)
            | [] => Raise ValueError
            end
          else if c =? 91 then
            match skip_ws s' with
            | x :: r =>
                if x =? 93 then Ret (VList [], r)
                else '(l, r) ← scan_items fuel' (x :: r); Ret (VList l, r)
            | [] => Raise ValueError
            end
          else match scan_constant s with
               | Some r => r
               | None => scan_number s
               end
      end
  end
with scan_items (fuel : nat) (s : list Z) : pyres (list pyval * list Z) :=
  match fuel with
  | O => Raise IllTyped
  | S fuel' =>
      '(v, r) ← scan fuel' s;
      match skip_ws r with
      | c :: r =>
          if c =? 93 then Ret ([v], r)
          else if c =? 44 then '(l, r) ← scan_items fuel' (skip_ws r); Ret (v :: l, r)
          else Raise ValueError
      | [] => Raise ValueError
      end
  end
with scan_members (fuel : nat) (d : list (string * pyval)) (s : list Z) : pyres (list (string * pyval) * list Z) :=
  match fuel with
  | O => Raise IllTyped
  | S fuel' =>
      match s with
      | q :: s' =>
          if q =? 34 then
            '(cs, r) ← scan_string s';
            match skip_ws r with
            | c :: r =>
                if c =? 58 then
                  '(v, r) ← scan fuel' (skip_ws r);
                  let d := od_set d (decode_utf8 cs) v in
                  match skip_ws r with
                  | c :: r =>
                      if c =? 125 then Ret (d, r)
                      else if c =? 44 then scan_members fuel' d (skip_ws r)
                      else Raise ValueError
                  | [] => Raise ValueError
                  end
                else Raise ValueError
            | [] => Raise ValueError
            end
          else Raise ValueError
      | [] => Raise ValueError
      end
  end.

(** [json.loads(buf.decode("utf-8"), object_hook=object_hook)] *)
Definition loads (buf : list Z) : pyres pyval :=
  if utf8_valid buf then
    '(v, r) ← scan (2 * length buf + 2) (skip_ws buf);
    match skip_ws r with [] => Ret v | _ => Raise ValueError end
  else Raise ValueError.
End loads.

(** *** Reading back strings and numbers *)

Definition ascii_codes (cs : list Z) : Prop := Forall (λ c, 0 ≤ c < 128) cs.

Lemma ascii_elem c : 0 ≤ c < 128 → c ∈ seqZ 0 128.
Proof. intros. apply elem_of_seqZ. lia. Qed.

(** One escaped character. *)
Lemma scan_escape c t :
  0 ≤ c < 128 → scan_string (escape c ++ t) = ('(cs, r) ← scan_string t; Ret (c :: cs, r)) ∧ ascii_codes (escape c).
Proof.
  intros Hin%ascii_elem.
  let l := eval vm_compute in (seqZ 0 128) in change (c ∈ l) in Hin.
  repeat (apply elem_of_cons in Hin as [->|Hin]; [split; [reflexivity|vm_compute; repeat constructor; discriminate]|]).
  by apply elem_of_nil in Hin.
Qed.

Lemma scan_escaped cs rest :
  ascii_codes cs → scan_string ((cs ≫= escape) ++ 34 :: rest) = Ret (cs, rest).
Proof.
  induction 1 as [|c cs Hc _ IH]; [done|]. rewrite bind_cons, <-app_assoc.
  destruct (scan_escape c ((cs ≫= escape) ++ 34 :: rest) Hc) as [-> _]. by rewrite IH.
Qed.

Lemma escaped_ascii cs : ascii_codes cs → ascii_codes (cs ≫= escape).
Proof.
  induction 1 as [|c cs Hc _ IH]; [constructor|]. rewrite bind_cons. apply Forall_app. split; [|done].
  by apply (scan_escape c []).
Qed.

Lemma encode_codes s : Forall is_byte (encode_utf8 s).
Proof.
  induction s as [|c s IH]; simpl; constructor; [|done]. unfold is_byte.
  pose proof (Ascii.N_ascii_bounded c). lia.
Qed.

Definition ascii_str (s : string) : bool := forallb (λ c, c <? 128) (encode_utf8 s).

Lemma ascii_str_codes s : ascii_str s = true → ascii_codes (encode_utf8 s).
Proof.
  unfold ascii_str. rewrite forallb_forall. intros H. apply Forall_forall. intros c Hc.
  pose proof (proj1 (Forall_forall _ _) (encode_codes s) c Hc) as Hb. unfold is_byte in Hb.
  specialize (H c (proj1 (list_elem_of_In _ _) Hc)). lia.
Qed.

(** A quoted string. *)
Lemma json_string_spec s :
  ascii_str s = true → ∃ q, json_string s = Ret (34 :: q) ∧ ascii_codes (34 :: q) ∧
    ∀ rest, scan_string (q ++ rest) = Ret (encode_utf8 s, rest).
Proof.
  intros Hs. pose proof (ascii_str_codes s Hs) as Hc. unfold json_string. fold (ascii_str s). rewrite Hs.
  eexists. split; [reflexivity|]. split.
  - constructor; [lia|]. apply Forall_app. split; [by apply escaped_ascii|by apply Forall_singleton].
  - intros rest. rewrite <-app_assoc. by apply scan_escaped.
Qed.

(** A text that a number can be followed by. *)
Definition ends_number (s : list Z) : Prop := float_tail s = false ∧ starts_digit s = false.

Lemma pretty_char_code n : (n < 10)%N → Z.of_N (Ascii.N_of_ascii (pretty_N_char n)) = 48 + Z.of_N n.
Proof.
  intros Hn. assert (n ∈ [0;1;2;3;4;5;6;7;8;9]%N) as Hin by (rewrite !elem_of_cons; lia).
  repeat (apply elem_of_cons in Hin as [->|Hin]; [reflexivity|]). by apply elem_of_nil in Hin.
Qed.

Lemma digit_within c : 48 ≤ c ≤ 57 → within 48 57 c = true.
Proof. unfold within. lia. Qed.

Lemma scan_int_pretty n s rest :
  scan_int 0 (encode_utf8 (pretty_N_go n s) ++ rest) = scan_int (Z.of_N n) (encode_utf8 s ++ rest) ∧
  (ascii_codes (encode_utf8 s) → ascii_codes (encode_utf8 (pretty_N_go n s))) ∧
  ((0 < n)%N → ∃ c t, encode_utf8 (pretty_N_go n s) = c :: t ∧ 49 ≤ c ≤ 57).
Proof.
  revert s. induction (N.lt_wf_0 n) as [n _ IH]. intros s.
  destruct (decide (n = 0%N)) as [->|Hn]; [by rewrite pretty_N_go_0; split; [|split; [|lia]]|].
  pose proof (N.mod_lt n 10 ltac:(lia)) as Hm. pose proof (N.div_mod n 10 ltac:(lia)) as Hd.
  rewrite pretty_N_go_step by lia.
  destruct (IH (n / 10)%N ltac:(apply N.div_lt; lia) (String (pretty_N_char (n mod 10)) s)) as (IH1 & IH2 & IH3).
  cbn [encode_utf8] in *. rewrite pretty_char_code in * by done. clear IH.
  set (m := (n mod 10)%N) in *. set (q := (n / 10)%N) in *. clearbody m q. split; [|split].
  - rewrite IH1. cbn [app scan_int].
    rewrite digit_within by lia. f_equal. lia.
  - intros Hs. apply IH2. constructor; [lia|done].
  - intros _. destruct (decide (q = 0)%N) as [Hz|Hz]; [|apply IH3; lia].
    rewrite Hz, pretty_N_go_0. cbn [encode_utf8]. rewrite pretty_char_code by done. eexists _, _. split; [done|lia].
Qed.

Lemma scan_int_stop acc s : starts_digit s = false → scan_int acc s = (acc, s).
Proof. destruct s as [|c s]; [done|]. simpl. by intros ->. Qed.

Lemma strip_differs p1 x p y s : x ≠ y → strip_prefix (p1 ++ x :: p) (p1 ++ y :: s) = None.
Proof.
  intros Hne. induction p1 as [|z p1 IH]; simpl; [by rewrite (proj2 (Z.eqb_neq x y))|]. by rewrite Z.eqb_refl.
Qed.

Lemma constant_digit c s : 48 ≤ c ≤ 57 → scan_constant (c :: s) = None.
Proof.
  intros Hc. unfold scan_constant.
  assert (∀ w x p, lit w = x :: p → x ≠ c → strip_prefix (lit w) (c :: s) = None) as H.
  { intros w x p -> Hx. by apply (strip_differs []). }
  by rewrite (H "null" 110 _ eq_refl), (H "true" 116 _ eq_refl), (H "false" 102 _ eq_refl), (H "NaN" 78 _ eq_refl),
    (H "Infinity" 73 _ eq_refl), (H "-Infinity" 45 _ eq_refl) by lia.
Qed.

Lemma constant_minus c s : 48 ≤ c ≤ 57 → scan_constant (45 :: c :: s) = None.
Proof.
  intros Hc. unfold scan_constant.
  assert (∀ w x p, lit w = x :: p → x ≠ 45 → strip_prefix (lit w) (45 :: c :: s) = None) as H.
  { intros w x p -> Hx. by apply (strip_differs []). }
  rewrite (H "null" 110 _ eq_refl), (H "true" 116 _ eq_refl), (H "false" 102 _ eq_refl), (H "NaN" 78 _ eq_refl),
    (H "Infinity" 73 _ eq_refl) by lia.
  change (lit "-Infinity") with ([45] ++ 73 :: lit "nfinity"). change (45 :: c :: s) with ([45] ++ c :: s).
  by rewrite strip_differs by lia.
Qed.

(** A number: its first character, and what the scanner makes of it. *)
Lemma pretty_spec z :
  ∃ c t, lit (pretty z) = c :: t ∧ (c = 45 ∨ 48 ≤ c ≤ 57) ∧ ascii_codes (c :: t) ∧
    ∀ rest, ends_number rest →
      scan_constant (lit (pretty z) ++ rest) = None ∧ scan_number (lit (pretty z) ++ rest) = Ret (VInt z, rest).
Proof.
  assert (∀ p rest, ends_number rest → ∃ c t, lit (pretty_N_go (N.pos p) "") = c :: t ∧ 49 ≤ c ≤ 57 ∧ ascii_codes (c :: t) ∧
    scan_int 0 (c :: t ++ rest) = (Z.pos p, rest)) as Hpos.
  { intros p rest [_ Hr]. destruct (scan_int_pretty (N.pos p) "" rest) as (H1 & H2 & H3).
    destruct (H3 ltac:(lia)) as (c & t & Ht & Hc). exists c, t. unfold lit in *. rewrite Ht in *.
    split; [done|]. split; [done|]. split; [apply H2; constructor|]. rewrite app_comm_cons, H1. by apply scan_int_stop. }
  destruct z as [|p|p].
  - exists 48, []. split; [done|]. split; [by right|]. split; [by apply Forall_singleton|].
    intros rest [Hf _]. split; [done|]. change (lit (pretty 0) ++ rest) with (48 :: rest).
    unfold scan_number. cbn [Z.eqb Pos.eqb]. rewrite digit_within by lia. by rewrite Hf.
  - destruct (Hpos p []) as (c & t & Ht & Hc & Ha & _); [done|]. exists c, t. change (pretty (Z.pos p)) with (pretty_N_go (N.pos p) "").
    rewrite Ht. split; [done|]. split; [lia|]. split; [done|]. intros rest Hr.
    destruct (Hpos p rest Hr) as (c' & t' & Ht' & _ & _ & Hs). rewrite Ht in Ht'. injection Ht' as <- <-. split.
    + apply constant_digit. lia.
    + unfold scan_number. cbn [app]. rewrite (proj2 (Z.eqb_neq c 45)) by lia. rewrite digit_within by lia. rewrite (proj2 (Z.eqb_neq c 48)) by lia. rewrite Hs.
      by rewrite (proj1 Hr).
  - destruct (Hpos p []) as (c & t & Ht & Hc & Ha & _); [done|]. exists 45, (c :: t).
    assert (lit (pretty (Z.neg p)) = 45 :: c :: t) as -> by (rewrite <-Ht; reflexivity).
    split; [done|]. split; [by left|]. split; [constructor; [lia|done]|]. intros rest Hr.
    destruct (Hpos p rest Hr) as (c' & t' & Ht' & _ & _ & Hs). rewrite Ht in Ht'. injection Ht' as <- <-. split.
    + apply constant_minus. lia.
    + unfold scan_number. cbn [app]. cbn [Z.eqb Pos.eqb]. rewrite digit_within by lia. rewrite (proj2 (Z.eqb_neq c 48)) by lia. rewrite Hs.
      by rewrite (proj1 Hr).
Qed.
End Json.

(** ** The codec *)

Module JsonRpc.
(** [_BytesEncoder.default] *)
Definition default_ (v : pyval) : pyres pyval :=
  match v with
  | VBytes bs => Ret (VDict [("__b64__", VStr (decode_utf8 (Base64.b64encode bs)))])
  | _ => Raise TypeError
  end.

(** What the encoder walks over: byte strings replaced by what [default]
    makes of them. *)
Fixpoint encoded (v : pyval) : pyval :=
  match v with
  | VBytes bs => match default_ (VBytes bs) with Ret w => w | Raise _ => v end
  | VList l => VList (map encoded l)
  | VDict d => VDict (map (λ e, (e.1, encoded e.2)) d)
  | _ => v
  end.

(** [_json_hook] *)
Definition _json_hook (obj : pyval) : pyres pyval :=
  match obj with
  | VDict d =>
      if bool_decide (od_keys d = ["__b64__"]) then
        x ← py_getitem obj "__b64__"; bs ← Base64.b64decode x; Ret (VBytes bs)
      else Ret obj
  | _ => Ret obj
  end.

Definition _dumps (obj : pyval) : pyres (list Z) := Json.text (encoded obj).
Definition _loads (buf : list Z) : pyres pyval := Json.loads _json_hook buf.

(** *** Values that come back *)

(** ASCII strings, byte strings of bytes, dictionaries with distinct keys, and
    none of them with the single key the hook looks for. *)
Fixpoint wire_ok (v : pyval) : bool :=
  match v with
  | VStr s => Json.ascii_str s
  | VBytes bs => forallb (within 0 255) bs
  | VList l => forallb wire_ok l
  | VDict d =>
      bool_decide (NoDup (od_keys d)) && negb (bool_decide (od_keys d = ["__b64__"])) &&
      forallb (λ e, Json.ascii_str e.1 && wire_ok e.2) d
  | _ => true
  end.

(** Induction through lists and dictionaries. *)
Lemma pyval_nested (P : pyval → Prop) :
  P VNone → (∀ b, P (VBool b)) → (∀ z, P (VInt z)) → (∀ s, P (VStr s)) → (∀ bs, P (VBytes bs)) →
  (∀ l, Forall P l → P (VList l)) → (∀ d, Forall (λ e, P e.2) d → P (VDict d)) → ∀ v, P v.
Proof.
  intros H1 H2 H3 H4 H5 H6 H7.
  fix IH 1. intros [|b|z|s|bs|l|d]; [done|done|done|done|done|apply H6|apply H7].
  - induction l as [|v l IHl]; constructor; [apply IH|apply IHl].
  - induction d as [|[k v] d IHd]; constructor; [apply IH|apply IHd].
Qed.

Import Json.

(** [bs] is a text of [v]: the scanner gives [v] back and stops at its end. *)
Record text_of (v : pyval) (bs : list Z) : Prop := {
  to_head : ∃ c t, bs = c :: t ∧ is_ws c = false ∧ c ≠ 93 ∧ c ≠ 125;
  to_ascii : ascii_codes bs;
  to_scan fuel rest : (2 * length bs ≤ fuel)%nat → ends_number rest → scan _json_hook fuel (bs ++ rest) = Ret (v, rest)
}.

Lemma skip_ws_head c s : is_ws c = false → skip_ws (c :: s) = c :: s.
Proof. intros H. simpl. by rewrite H. Qed.

Lemma skip_ws_text v bs rest : text_of v bs → skip_ws (bs ++ rest) = bs ++ rest.
Proof. intros Ht. destruct (to_head _ _ Ht) as (c & t & -> & Hc & _). by apply skip_ws_head. Qed.

(** The items of an array. *)
Lemma scan_items_spec l ts fuel rest :
  Forall2 text_of l ts → l ≠ [] → (2 * length (join_items ts) + 1 ≤ fuel)%nat →
  scan_items _json_hook fuel (join_items ts ++ 93 :: rest) = Ret (l, rest).
Proof.
  intros Hall. revert fuel. induction Hall as [|v t l ts Ht Hall IH]; intros fuel Hne Hf; [done|].
  destruct fuel as [|fuel]; [lia|]. cbn [scan_items]. destruct ts as [|t' ts].
  - inversion Hall; subst. cbn [join_items] in *. rewrite (to_scan _ _ Ht) by (lia || by split). done.
  - change (join_items (t :: t' :: ts)) with (t ++ 44 :: 32 :: join_items (t' :: ts)) in *.
    rewrite length_app in Hf. cbn [length] in Hf. rewrite <-app_assoc, (to_scan _ _ Ht) by (lia || by split).
    cbn [mbind pyres_bind app]. rewrite skip_ws_head by done. cbn [Z.eqb Pos.eqb].
    destruct l as [|v' l]; [by inversion Hall|]. inversion Hall as [|? ? ? ? Ht' Hall']; subst.
    assert (skip_ws (32 :: join_items (t' :: ts) ++ 93 :: rest) = join_items (t' :: ts) ++ 93 :: rest) as ->.
    { change (skip_ws (32 :: ?s)) with (skip_ws s). destruct ts as [|t'' ts]; cbn [join_items]; rewrite <-?app_assoc; by eapply skip_ws_text. }
    rewrite IH by (done || lia). done.
Qed.
(** A member of an object. *)
Definition member_of (e : string * pyval) (m : list Z) : Prop :=
  ∃ q t, m = 34 :: q ++ 58 :: 32 :: t ∧ ascii_codes (34 :: q) ∧
    (∀ rest, scan_string (q ++ rest) = Ret (encode_utf8 e.1, rest)) ∧ text_of e.2 t.

Lemma od_set_app {V} (d : list (string * V)) k v : k ∉ od_keys d → od_set d k v = d ++ [(k, v)].
Proof. intros H. apply od_set_fresh. by apply od_get_None. Qed.

Lemma scan_member_step q t k v fuel acc tail :
  (∀ rest, scan_string (q ++ rest) = Ret (encode_utf8 k, rest)) → text_of v t → k ∉ od_keys acc →
  (2 * length t ≤ fuel)%nat → ends_number tail →
  scan_members _json_hook (S fuel) acc (34 :: q ++ 58 :: 32 :: t ++ tail) =
    match skip_ws tail with
    | c :: r => if c =? 125 then Ret (acc ++ [(k, v)], r)
                else if c =? 44 then scan_members _json_hook fuel (acc ++ [(k, v)]) (skip_ws r) else Raise ValueError
    | [] => Raise ValueError
    end.
Proof.
  intros Hq Ht Hk Hf Hend. cbn [scan_members Z.eqb Pos.eqb]. rewrite Hq. cbn [mbind pyres_bind].
  rewrite skip_ws_head by done. cbn [Z.eqb Pos.eqb]. change (skip_ws (32 :: ?s)) with (skip_ws s).
  rewrite (skip_ws_text _ _ _ Ht), (to_scan _ _ Ht) by done.
  cbn [mbind pyres_bind]. cbv zeta. by rewrite decode_encode_utf8, od_set_app.
Qed.

Lemma scan_members_spec d ms fuel acc rest :
  Forall2 member_of d ms → d ≠ [] → NoDup (od_keys acc ++ od_keys d) → (2 * length (join_items ms) + 1 ≤ fuel)%nat →
  scan_members _json_hook fuel acc (join_items ms ++ 125 :: rest) = Ret (acc ++ d, rest).
Proof.
  intros Hall. revert fuel acc.
  induction Hall as [|[k v] m d ms (q & t & -> & _ & Hq & Ht) Hall IH]; intros fuel acc Hne Hnd Hf; [done|].
  destruct fuel as [|fuel]; [lia|].
  assert (k ∉ od_keys acc) as Hk.
  { intros Hin. apply NoDup_app in Hnd as (_ & Hd & _). apply (Hd k Hin). simpl. left. }
  destruct ms as [|m' ms].
  - inversion Hall; subst. cbn [join_items app length] in *. rewrite length_app in Hf. cbn [length] in Hf.
    rewrite <-app_assoc. cbn [app].
    rewrite (scan_member_step q t k v) by (done || lia). done.
  - change (join_items (?m :: m' :: ms)) with (m ++ 44 :: 32 :: join_items (m' :: ms)) in *.
    rewrite length_app in Hf. cbn [length] in Hf. rewrite length_app in Hf. cbn [length] in Hf.
    cbn [app]. rewrite <-!app_assoc. cbn [app].
    rewrite (scan_member_step q t k v) by (done || lia). rewrite skip_ws_head by done. cbn [Z.eqb Pos.eqb].
    destruct d as [|e' d]; [by inversion Hall|].
    assert (skip_ws (32 :: join_items (m' :: ms) ++ 125 :: rest) = join_items (m' :: ms) ++ 125 :: rest) as ->.
    { change (skip_ws (32 :: ?s)) with (skip_ws s). inversion Hall as [|? ? ? ? (q' & t' & -> & _) _]; subst.
      by destruct ms. }
    rewrite IH; [by rewrite <-app_assoc|done| |lia].
    unfold od_keys in *. rewrite fmap_app. by rewrite <-app_assoc.
Qed.
(** Strings, numbers and byte strings. *)
Lemma text_of_string s bs : json_string s = Ret bs → ascii_str s = true → text_of (VStr s) bs.
Proof.
  intros Hj Hs. destruct (json_string_spec s Hs) as (q & Hq & Ha & Hsc). rewrite Hq in Hj. injection Hj as <-. split.
  - by exists 34, q.
  - done.
  - intros [|fuel] rest Hf _; [simpl in Hf; lia|]. cbn [scan app Z.eqb Pos.eqb]. rewrite Hsc.
    cbn [mbind pyres_bind]. by rewrite decode_encode_utf8.
Qed.

Lemma text_of_int z : text_of (VInt z) (lit (pretty z)).
Proof.
  destruct (pretty_spec z) as (c & t & Hl & Hc & Ha & Hs). split.
  - exists c, t. split; [done|]. unfold is_ws. lia.
  - by rewrite Hl.
  - intros [|fuel] rest Hf Hend; [rewrite Hl in Hf; simpl in Hf; lia|]. destruct (Hs rest Hend) as [H1 H2].
    rewrite Hl in *. cbn [app scan] in *. rewrite (proj2 (Z.eqb_neq c 34)), (proj2 (Z.eqb_neq c 123)), (proj2 (Z.eqb_neq c 91)) by lia.
    by rewrite H1.
Qed.

Lemma encode_decode bs : Forall is_byte bs → encode_utf8 (decode_utf8 bs) = bs.
Proof.
  induction 1 as [|b bs Hb _ IH]; [done|]. simpl. rewrite IH, Ascii.N_ascii_embedding by (unfold is_byte in Hb; lia).
  f_equal. unfold is_byte in Hb. lia.
Qed.

Lemma ascii_codes_str s : ascii_codes (encode_utf8 s) → ascii_str s = true.
Proof.
  intros H. unfold ascii_str. apply forallb_forall. intros c Hc%list_elem_of_In.
  pose proof (proj1 (Forall_forall _ _) H c Hc) as Hr. simpl in Hr. lia.
Qed.

(** A non-empty object. *)
Lemma text_of_object d ms w :
  Forall2 member_of d ms → d ≠ [] → NoDup (od_keys d) → _json_hook (VDict d) = Ret w →
  text_of w (123 :: join_items ms ++ [125]).
Proof.
  intros Hall Hne Hnd Hhook. split.
  - exists 123, (join_items ms ++ [125]). done.
  - constructor; [lia|]. apply Forall_app. split; [|by apply Forall_singleton]. clear Hne Hnd Hhook w.
    induction Hall as [|e m d ms (q & t & -> & Ha & _ & Ht) Hall IH]; [constructor|].
    assert (ascii_codes (34 :: q ++ 58 :: 32 :: t)) as Hm.
    { rewrite app_comm_cons. apply Forall_app. split; [done|]. do 2 (constructor; [lia|]). by apply to_ascii in Ht. }
    destruct ms as [|m' ms]; [exact Hm|]. cbn [join_items]. apply Forall_app. split; [exact Hm|].
    apply Forall_app. split; [by repeat constructor|exact IH].
  - intros [|fuel] rest Hf Hend; [simpl in Hf; lia|]. cbn [app scan Z.eqb Pos.eqb length] in *. rewrite <-app_assoc. cbn [app].
    rewrite length_app in Hf. simpl in Hf.
    pose proof (scan_members_spec d ms fuel [] rest Hall Hne Hnd ltac:(lia)) as Hm.
    destruct Hall as [|e m d ms (q & t & -> & _) Hall]; [done|].
    assert (∃ y, join_items ((34 :: q ++ 58 :: 32 :: t) :: ms) ++ 125 :: rest = 34 :: y) as [y Hy].
    { destruct ms; cbn [join_items app]; by eexists. }
    rewrite Hy in *. rewrite skip_ws_head by done. cbn [Z.eqb Pos.eqb]. rewrite Hm. cbn [mbind pyres_bind app].
    by rewrite Hhook.
Qed.

Lemma text_of_array l ts : Forall2 text_of l ts → l ≠ [] → text_of (VList l) (91 :: join_items ts ++ [93]).
Proof.
  intros Hall Hne. split.
  - exists 91, (join_items ts ++ [93]). done.
  - constructor; [lia|]. apply Forall_app. split; [|by apply Forall_singleton]. clear Hne.
    induction Hall as [|v t l ts Ht Hall IH]; [constructor|].
    destruct ts as [|t' ts]; [by apply to_ascii in Ht|]. cbn [join_items]. apply Forall_app. split; [by apply to_ascii in Ht|].
    apply Forall_app. split; [by repeat constructor|exact IH].
  - intros [|fuel] rest Hf Hend; [simpl in Hf; lia|]. cbn [app scan Z.eqb Pos.eqb length] in *. rewrite <-app_assoc. cbn [app].
    rewrite length_app in Hf. simpl in Hf.
    pose proof (scan_items_spec l ts fuel rest Hall Hne ltac:(lia)) as Hm.
    destruct Hall as [|v t l ts Ht Hall]; [done|]. destruct (to_head _ _ Ht) as (c & y & -> & Hws & Hc & _).
    assert (∃ z, join_items ((c :: y) :: ts) ++ 93 :: rest = c :: z) as [z Hz].
    { destruct ts; cbn [join_items app]; by eexists. }
    rewrite Hz in *. rewrite skip_ws_head by done. rewrite (proj2 (Z.eqb_neq c 93)) by done. by rewrite Hm.
Qed.
(** A text without variables: its characters, and one turn of the scanner. *)
Ltac closed_text :=
  split; [do 2 eexists; split; [vm_compute; reflexivity|vm_compute; split; [reflexivity|split; discriminate]]
         |vm_compute; repeat (constructor; [split; [discriminate|reflexivity]|]); constructor
         |intros [|fuel] rest Hf _; [vm_compute in Hf; lia|reflexivity]].

(** A byte string, as the object the hook recognises. *)
Lemma hook_b64 s : _json_hook (VDict [("__b64__", VStr s)]) = (bs ← Base64.b64decode (VStr s); Ret (VBytes bs)).
Proof. reflexivity. Qed.

Lemma text_of_bytes bs : Forall is_byte bs → ∃ t, text (encoded (VBytes bs)) = Ret t ∧ text_of (VBytes bs) t.
Proof.
  intros Hb. pose proof (Base64.b64encode_ascii bs Hb) as Ha. cbn [encoded default_].
  set (s := decode_utf8 (Base64.b64encode bs)).
  assert (encode_utf8 s = Base64.b64encode bs) as He.
  { apply encode_decode. eapply Forall_impl; [exact Ha|]. unfold is_byte. intros. simpl in *. lia. }
  assert (ascii_str s = true) as Hs.
  { apply ascii_codes_str. rewrite He. eapply Forall_impl; [exact Ha|]. intros. simpl in *. lia. }
  destruct (json_string_spec "__b64__" eq_refl) as (qk & Hqk & Hak & Hsk).
  destruct (json_string_spec _ Hs) as (q & Hq & _). cbn [text]. rewrite Hqk, Hq. eexists. split; [reflexivity|].
  apply (text_of_object [("__b64__", VStr s)] [_]).
  - constructor; [|constructor]. exists qk, (34 :: q). split; [done|]. split; [done|]. split; [done|]. by apply text_of_string.
  - done.
  - apply NoDup_singleton.
  - rewrite hook_b64. unfold Base64.b64decode. fold (ascii_str s). by rewrite Hs, He, Base64.a2b_b64encode.
Qed.

(** Arrays and objects whose parts have texts. *)
Lemma array_texts l :
  Forall (λ v, wire_ok v = true → ∃ t, text (encoded v) = Ret t ∧ text_of v t) l → forallb wire_ok l = true →
  ∃ t, text (encoded (VList l)) = Ret t ∧ text_of (VList l) t.
Proof.
  intros IH Hok. cbn [encoded text].
  assert (∃ ts, (fix items l := match l with [] => Ret [] | x :: l' => t ← text x; ts ← items l'; Ret (t :: ts) end)
    (map encoded l) = Ret ts ∧ Forall2 text_of l ts) as (ts & Hts & Hall).
  { induction IH as [|v l Hv _ IHl]; [by exists []|]. simpl in Hok. apply andb_true_iff in Hok as [Hv' Hl'].
    destruct (Hv Hv') as (t & Ht & Hto). destruct (IHl Hl') as (ts & Hts & Hall). exists (t :: ts). simpl.
    rewrite Ht. cbn [mbind pyres_bind]. rewrite Hts. split; [done|]. by constructor. }
  rewrite Hts. eexists. split; [reflexivity|]. destruct l as [|v l]; [|by apply text_of_array].
  inversion Hall; subst. closed_text.
Qed.

Lemma object_texts d :
  Forall (λ e, wire_ok e.2 = true → ∃ t, text (encoded e.2) = Ret t ∧ text_of e.2 t) d → wire_ok (VDict d) = true →
  ∃ t, text (encoded (VDict d)) = Ret t ∧ text_of (VDict d) t.
Proof.
  intros IH [[Hnd Hkey]%andb_true_iff Hok]%andb_true_iff. cbn [encoded text]. apply bool_decide_eq_true in Hnd.
  apply negb_true_iff, bool_decide_eq_false in Hkey.
  assert (∃ ms, (fix members d := match d with [] => Ret [] | (k, x) :: d' =>
      q ← json_string k; t ← text x; ts ← members d'; Ret ((q ++ lit ": " ++ t) :: ts) end)
    (map (λ e, (e.1, encoded e.2)) d) = Ret ms ∧ Forall2 member_of d ms) as (ms & Hms & Hall).
  { clear Hnd Hkey. induction IH as [|[k v] d Hv _ IHd]; [by exists []|]. simpl in Hok.
    apply andb_true_iff in Hok as [[Hk Hv']%andb_true_iff Hd'].
    destruct (Hv Hv') as (t & Ht & Hto). destruct (IHd Hd') as (ms & Hms & Hall).
    destruct (json_string_spec k Hk) as (q & Hq & Ha & Hsc). exists ((34 :: q ++ lit ": " ++ t) :: ms). simpl in *.
    rewrite Hq, Ht. cbn [mbind pyres_bind]. rewrite Hms. split; [done|]. constructor; [|done]. by exists q, t. }
  rewrite Hms. eexists. split; [reflexivity|]. destruct d as [|e d]; [inversion Hall; subst; closed_text|].
  apply (text_of_object (e :: d)); [done|done|done|]. unfold _json_hook. by rewrite bool_decide_eq_false_2.
Qed.

(** Every value on the wire has a text. *)
Lemma dumps_text v : wire_ok v = true → ∃ bs, _dumps v = Ret bs ∧ text_of v bs.
Proof.
  unfold _dumps. induction v as [|b|z|s|bs|l IH|d IH] using pyval_nested; intros Hok.
  - exists (lit "null"). split; [done|]. closed_text.
  - exists (lit (if b then "true" else "false")). split; [done|]. destruct b; closed_text.
  - eexists. split; [done|]. apply text_of_int.
  - destruct (json_string_spec s Hok) as (q & Hq & _). exists (34 :: q). split; [done|]. by apply text_of_string.
  - apply text_of_bytes. apply Forall_forall. intros b Hin%list_elem_of_In.
    pose proof (proj1 (forallb_forall _ _) Hok b Hin) as Hr. unfold within in Hr. unfold is_byte. lia.
  - by apply array_texts.
  - by apply object_texts.
Qed.

Lemma utf8_valid_ascii bs : ascii_codes bs → utf8_valid bs = true.
Proof. induction 1 as [|b bs Hb _ IH]; [done|]. cbn [utf8_valid]. unfold within. rewrite (proj2 (Z.leb_le 0 b)), (proj2 (Z.leb_le b 127)) by lia. done. Qed.

Lemma loads_text v bs : text_of v bs → _loads bs = Ret v.
Proof.
  intros Ht. unfold _loads, loads. rewrite utf8_valid_ascii by by apply to_ascii in Ht.
  pose proof (skip_ws_text v bs [] Ht) as Hw. rewrite app_nil_r in Hw. rewrite Hw.
  pose proof (to_scan _ _ Ht (2 * length bs + 2) [] ltac:(lia) ltac:(by split)) as Hs. rewrite app_nil_r in Hs. by rewrite Hs.
Qed.

(** C22: the fallback codec loses nothing.  Every value whose strings are
    ASCII, whose byte strings hold bytes and whose dictionaries have distinct
    keys, none of them with [__b64__] as its only key, is encoded, and
    decoding the text gives the value back, byte strings included. *)
Theorem json_roundtrip (v : pyval) (Hok : wire_ok v = true) : ∃ bs, _dumps v = Ret bs ∧ _loads bs = Ret v.
Proof. destruct (dumps_text v Hok) as (bs & Hd & Ht). exists bs. split; [done|]. by apply loads_text. Qed.

(** The codec as an implementation of the interface the RPC layer is proved
    against, on the values it loses nothing of. *)
Lemma json_law v bs : (if wire_ok v then _dumps v else Raise IllTyped) = Ret bs → _loads bs = Ret v.
Proof.
  destruct (wire_ok v) eqn:Hv; [|done]. intros Hd.
  destruct (dumps_text v Hv) as (bs' & Hd' & Ht). rewrite Hd in Hd'. injection Hd' as <-. by apply loads_text.
Qed.

Definition json_codec : Codec :=
  {| Rpc._dumps v := if wire_ok v then _dumps v else Raise IllTyped; Rpc._loads := _loads; loads_dumps := json_law |}.

(** A value the fallback codec changes.  A dictionary with [__b64__] as
    its only key is encoded like a byte string: a string under it comes back
    as bytes, and any other value makes the decoder raise.  A directory put of
    one page with that key is such a request: the shard's connection ends on a
    [TypeError] instead of an answer. *)
Theorem json_reserved_key :
  (bs ← _dumps (VDict [("__b64__", VStr "AAAA")]); _loads bs) = Ret (VBytes [0; 0; 0]) ∧
  (bs ← _dumps (VList [VStr "dir_put"; VDict [("entries", VDict [("__b64__", VDict [("node_id", VStr "a")])])]]);
   _loads bs) = Raise TypeError ∧
  (bs ← _dumps (VList [VStr "dir_put"; VDict [("entries", VDict [("k1", VDict [("node_id", VStr "a")])])]]); _loads bs) =
    Ret (VList [VStr "dir_put"; VDict [("entries", VDict [("k1", VDict [("node_id", VStr "a")])])]]).
Proof. split; [vm_compute; reflexivity|]. split; vm_compute; reflexivity. Qed.

Definition sample : pyval :=
  VList [VStr "data_ingest";
         VDict [("n", VInt (-120)); ("b", VBytes [0; 255; 7; 9]); ("e", VDict []); ("t", VList [VNone; VBool true])]].

Lemma json_roundtrip_witness : ∃ bs, _dumps sample = Ret bs ∧ _loads bs = Ret sample.
Proof. apply (json_roundtrip sample). vm_compute. reflexivity. Defined.
End JsonRpc.
