(* ===== verification/RpcServer.v ===== *)
(** The threads of [RpcServer] ([rpc.py]) and the socket of an [RpcClient].

    [Rpc.v] has what one connection does with the bytes it receives; here are
    the accept loop, one thread per connection, and [start] and [stop], as a
    step relation: every read of [self._running] is a step of its own, so
    [stop] may come between any two of them. *)
From S2P Require Import Prelude Bytes Types Rpc.

(** ** The server *)

(** A connection's thread: at the [while self._running] test, inside
    [_recv_frame], or gone (the [with conn] block has closed the socket). *)
Inductive conn_state := CTest | CRecv | CClosed.

#[export] Instance conn_state_eq_dec : EqDecision conn_state.
Proof. solve_decision. Defined.

(** The accept thread. *)
Inductive accept_state := AIdle | ATest | AAccept | AExit.

Section server.
Context {S : Type}.

Record RpcServer := mk_server {
  sv_handlers : Service S;
  sv_open : bool;
  sv_running : bool;
  sv_accept : accept_state;
  sv_conns : list conn_state;
  sv_state : S
}.

(** [__init__]: bound and listening, not running. *)
Definition new_server (st : S) : RpcServer := mk_server (λ _, None) true false AIdle [] st.

Definition sv_register (v : RpcServer) (method : string) (fn : S → pyval → pyres pyval * S) : RpcServer :=
  mk_server (register (sv_handlers v) method fn) (sv_open v) (sv_running v) (sv_accept v) (sv_conns v) (sv_state v).

Definition start (v : RpcServer) : RpcServer :=
  mk_server (sv_handlers v) (sv_open v) true ATest (sv_conns v) (sv_state v).

Definition stop (v : RpcServer) : RpcServer :=
  mk_server (sv_handlers v) false false (sv_accept v) (sv_conns v) (sv_state v).

Definition set_accept (v : RpcServer) (a : accept_state) : RpcServer :=
  mk_server (sv_handlers v) (sv_open v) (sv_running v) a (sv_conns v) (sv_state v).

Definition set_conn (v : RpcServer) (i : nat) (c : conn_state) : RpcServer :=
  mk_server (sv_handlers v) (sv_open v) (sv_running v) (sv_accept v) (<[i := c]> (sv_conns v)) (sv_state v).

(** [_accept_loop]: the test, and one [accept]; a connection gets a thread of
    its own.  Closing the socket does not take back an [accept] that is
    already waiting, so a connection may still arrive after [stop]. *)
Definition accept_test (v : RpcServer) : RpcServer := set_accept v (if sv_running v then AAccept else AExit).
Definition accept_conn (v : RpcServer) : RpcServer :=
  mk_server (sv_handlers v) (sv_open v) (sv_running v) ATest (sv_conns v ++ [CTest]) (sv_state v).
Definition accept_error (v : RpcServer) : RpcServer := set_accept v AExit.

(** [_serve_conn]: the test, the end of the stream (or an error), and one
    request answered. *)
Definition conn_test (v : RpcServer) (i : nat) : RpcServer := set_conn v i (if sv_running v then CRecv else CClosed).
Definition conn_end (v : RpcServer) (i : nat) : RpcServer := set_conn v i CClosed.
Definition conn_request (v : RpcServer) (i : nat) (method args : pyval) : pyval * RpcServer :=
  let '(resp, st) := dispatch (sv_handlers v) (sv_state v) method args in
  (resp, mk_server (sv_handlers v) (sv_open v) (sv_running v) (sv_accept v) (<[i := CTest]> (sv_conns v)) st).

(** The steps of the threads; the label is the connection that answered a
    request. *)
Inductive thread_step : RpcServer → option nat → RpcServer → Prop :=
  | StepAcceptTest v : sv_accept v = ATest → thread_step v None (accept_test v)
  | StepAcceptConn v : sv_accept v = AAccept → thread_step v None (accept_conn v)
  | StepAcceptError v : sv_accept v = AAccept → thread_step v None (accept_error v)
  | StepConnTest v i : sv_conns v !! i = Some CTest → thread_step v None (conn_test v i)
  | StepConnEnd v i : sv_conns v !! i = Some CRecv → thread_step v None (conn_end v i)
  | StepConnRequest v i m a resp v' :
      sv_conns v !! i = Some CRecv → conn_request v i m a = (resp, v') → thread_step v (Some i) v'.

Inductive thread_run : RpcServer → list nat → RpcServer → Prop :=
  | RunNil v : thread_run v [] v
  | RunStep v l v' tr v'' : thread_step v l v' → thread_run v' tr v'' → thread_run v (option_list l ++ tr) v''.

(** The connections inside [_recv_frame]. *)
Definition receiving (v : RpcServer) : list nat := filter (λ i, sv_conns v !! i = Some CRecv) (seq 0 (length (sv_conns v))).

Lemma elem_of_receiving v i : i ∈ receiving v ↔ sv_conns v !! i = Some CRecv.
Proof.
  unfold receiving. rewrite list_elem_of_filter, elem_of_seq. split; [by intros [? _]|].
  intros H. split; [done|]. apply lookup_lt_Some in H. lia.
Qed.

(** Once stopped, a step keeps the server stopped and no connection starts to
    receive; the one that answers is no longer receiving. *)
Lemma stopped_step v l v' :
  thread_step v l v' → sv_running v = false →
  sv_running v' = false ∧ (∀ j, sv_conns v' !! j = Some CRecv → sv_conns v !! j = Some CRecv) ∧
  ∀ i, l = Some i → sv_conns v !! i = Some CRecv ∧ sv_conns v' !! i ≠ Some CRecv.
Proof.
  assert (∀ (cs : list conn_state) i c j, c ≠ CRecv → <[i:=c]> cs !! j = Some CRecv → cs !! j = Some CRecv) as Hins.
  { intros cs i c j Hc. destruct (decide (i = j)) as [->|Hne]; [|by rewrite list_lookup_insert_ne].
    intros [[_ Hx]|[_ Hx]]%list_lookup_insert_Some; naive_solver. }
  intros Hstep Hrun. destruct Hstep as [v Ha|v Ha|v Ha|v i Hi|v i Hi|v i m a resp v' Hi Hreq].
  - done.
  - split; [done|]. split; [|done]. simpl. intros j Hj.
    apply lookup_app_Some in Hj as [Hj|[_ Hj]]; [done|]. by apply list_lookup_singleton_Some in Hj as [_ ?].
  - done.
  - split; [done|]. split; [|done]. unfold conn_test. rewrite Hrun. intros j. simpl. by apply Hins.
  - split; [done|]. split; [|done]. simpl. intros j. by apply Hins.
  - unfold conn_request in Hreq. destruct (dispatch _ _ _ _) as [r st]. injection Hreq as <- <-.
    split; [done|]. simpl. split; [intros j; by apply Hins|]. intros i' [= <-]. split; [done|].
    rewrite list_lookup_insert_eq by by eapply lookup_lt_Some. done.
Qed.

Lemma stopped_run v tr v' :
  thread_run v tr v' → sv_running v = false → NoDup tr ∧ ∀ i, i ∈ tr → sv_conns v !! i = Some CRecv.
Proof.
  induction 1 as [v|v l v1 tr v2 Hs _ IH]; intros Hrun; [split; [constructor|by intros i ?%elem_of_nil]|].
  destruct (stopped_step _ _ _ Hs Hrun) as (Hr1 & Hback & Hl). destruct (IH Hr1) as [Hnd Hin].
  destruct l as [i|]; simpl; [|split; [done|]; intros j Hj; by apply Hback, Hin].
  destruct (Hl i eq_refl) as [Hi Hi']. split.
  - constructor; [|done]. intros Hx. by apply Hi', Hin.
  - intros j [->|Hj]%elem_of_cons; [done|]. by apply Hback, Hin.
Qed.

(** C23: [stop] lets no more than the requests in flight through.  After
    [stop], however the threads interleave and whatever connects, a
    connection answers at most one more request, and only one that was already
    waiting for it in [_recv_frame]; connections at their loop test and new
    ones answer none. *)
Theorem stop_bounds_requests (v v' : RpcServer) (tr : list nat) (Hrun : thread_run (stop v) tr v') :
  NoDup tr ∧ (∀ i, i ∈ tr → sv_conns v !! i = Some CRecv) ∧ (length tr ≤ length (receiving v))%nat.
Proof.
  destruct (stopped_run _ _ _ Hrun eq_refl) as [Hnd Hin]. split; [done|]. split; [done|].
  apply submseteq_length, NoDup_submseteq; [done|]. intros i Hi. apply elem_of_receiving. by apply Hin.
Qed.
End server.

Arguments RpcServer : clear implicits.

(** ** The client's socket *)

(** [RpcClient.__init__]: [endpoint.rsplit(":", 1)] must give two parts and
    the port must be a number. *)
Record RpcClient := mk_rpc_client { rc_host : string; rc_port : Z; rc_sock : bool }.

Definition new_rpc_client (endpoint : string) : pyres RpcClient :=
  match rsplit1 colon endpoint with
  | None => Raise ValueError
  | Some (host, port) => p ← py_int (VStr port); Ret (mk_rpc_client host p false)
  end.

(** [_reset] and [close]: the socket is gone, whatever closing it does. *)
Definition _reset (c : RpcClient) : RpcClient := mk_rpc_client (rc_host c) (rc_port c) false.
Definition rpc_client_close (c : RpcClient) : RpcClient := _reset c.

(** [RpcClient.call] over a connection that meets [a1] and [a2]: the client
    connects when it has no socket and drops the socket after an error of the
    connection. *)
Definition rpc_client_call {C : Codec} {S} (svc : Service S) (st : S) (c : RpcClient) (method : string) (args : pyval)
    (a1 a2 : attempt) : pyres pyval * RpcClient * S :=
  match Rpc._dumps (VList [VStr method; py_or args (VDict [])]) with
  | Raise e => (Raise e, c, st)
  | Ret payload =>
      let '(r, conn, st) := call_loop svc st payload [a1; a2] in
      (r, mk_rpc_client (rc_host c) (rc_port c) conn, st)
  end.

Module ServerExamples.
(** A server of one method with a connection waiting for a request, one at its
    loop test, and the accept loop waiting. *)
Definition echo : Service nat := register (λ _, None) "echo" (λ n v, (Ret v, Datatypes.S n)).
Definition busy : RpcServer nat := mk_server echo true true AAccept [CRecv; CTest] 0%nat.

(** After [stop]: the waiting request is answered, the other connection and
    one that arrives late are closed. *)
Definition answered : RpcServer nat := mk_server echo false false ATest [CTest; CTest; CTest] 1%nat.

Lemma busy_run : thread_run (stop busy) [0%nat] answered.
Proof.
  apply (RunStep _ (Some 0%nat) (mk_server echo false false AAccept [CTest; CTest] 1%nat) []).
  { eapply (StepConnRequest _ 0 (VStr "echo") VNone). - reflexivity. - reflexivity. }
  apply (RunStep _ None answered []); [|constructor]. exact (StepAcceptConn (mk_server echo false false AAccept [CTest; CTest] 1%nat) eq_refl).
Qed.

Lemma stop_bounds_requests_witness :
  NoDup [0%nat] ∧ (∀ i, i ∈ [0%nat] → sv_conns busy !! i = Some CRecv) ∧ (1 ≤ length (receiving busy))%nat.
Proof. exact (stop_bounds_requests busy answered [0%nat] busy_run). Defined.
End ServerExamples.
