(* ===== verification/Directory.v ===== *)
(** The distributed directory of [directory.py].

    [DirectoryServer] is one shard, a map from keys to location dictionaries,
    with its four RPC handlers.  [DirectoryClient] routes batches of keys to
    the shards through the consistent-hash ring.  The shards a client can reach
    are a [cluster]: the state behind every control endpoint and how the link
    to it behaves during the operation. *)
From S2P Require Import Prelude Bytes HashRing Types Rpc.

(** ** The shard *)

(** [DirectoryServer._store] *)
Abbreviation shard := (gmap string pyval).

(** Using a wire value as a dictionary key: lists and dictionaries are
    unhashable, and only strings are keys of the store. *)
Definition as_key (v : pyval) : pyres (option string) :=
  match v with
  | VStr s => Ret (Some s)
  | VList _ | VDict _ => Raise TypeError
  | _ => Ret None
  end.

Definition update_shard (st : shard) (entries : list (string * pyval)) : shard :=
  foldl (λ st e, <[e.1 := e.2]> st) st entries.

Definition _on_put (st : shard) (args : pyval) : pyres pyval * shard :=
  match py_getitem args "entries" with
  | Raise e => (Raise e, st)
  | Ret (VDict entries) => (Ret (VDict [("ok", VBool true)]), update_shard st entries)
  | Ret _ => (Raise IllTyped, st)
  end.

(** [[f(k) for k in keys]] over the keys of a request. *)
Definition map_keys (f : option string → pyval) (args : pyval) : pyres (list pyval) :=
  keys ← py_getitem args "keys"; l ← py_list keys;
  py_mapM (λ k, o ← as_key k; mret (f o)) l.

Definition _on_get (st : shard) (args : pyval) : pyres pyval * shard :=
  (l ← map_keys (λ o, default VNone (o ≫= λ k, st !! k)) args;
   mret (VDict [("locations", VList l)]), st).

Definition _on_exists (st : shard) (args : pyval) : pyres pyval * shard :=
  (l ← map_keys (λ o, VBool (bool_decide (is_Some (o ≫= λ k, st !! k)))) args;
   mret (VDict [("exists", VList l)]), st).

(** The [pop] loop of [_on_delete]; a key that raises ends it half-way. *)
Fixpoint delete_keys (st : shard) (keys : list pyval) : pyres unit * shard :=
  match keys with
  | [] => (Ret tt, st)
  | k :: keys' =>
      match as_key k with
      | Raise e => (Raise e, st)
      | Ret None => delete_keys st keys'
      | Ret (Some s) => delete_keys (delete s st) keys'
      end
  end.

Definition _on_delete (st : shard) (args : pyval) : pyres pyval * shard :=
  match keys ← py_getitem args "keys"; py_list keys with
  | Raise e => (Raise e, st)
  | Ret keys =>
      match delete_keys st keys with
      | (Ret _, st') => (Ret (VDict [("ok", VBool true)]), st')
      | (Raise e, st') => (Raise e, st')
      end
  end.

(** [DirectoryServer.attach] on a server with the handlers [svc]. *)
Definition attach (svc : Service shard) : Service shard :=
  register (register (register (register svc "dir_put" _on_put) "dir_get" _on_get)
    "dir_exists" _on_exists) "dir_delete" _on_delete.

(** [DirectoryServer.__len__] *)
Definition shard_len (st : shard) : nat := size st.

Definition dir_service : Service shard := attach (λ _, None).

(** [RpcClientPool.call] to a shard. *)
Definition pool_call (w : cluster shard) (endpoint method : string) (args : pyval) :
    pyres pyval * cluster shard := net_call dir_service w endpoint method args.

(** ** The client *)

Record DirectoryClient := mk_dclient {
  dc_ring : ConsistentHashRing;
  dc_resolve : string → option string;
  dc_replicas : Z
}.

(** [DirectoryClient.__init__] *)
Definition new_dclient (ring : ConsistentHashRing) (resolve : string → option string) (replicas : Z) :
    DirectoryClient := mk_dclient ring resolve (Z.max 1 replicas).

Definition set_ring (dc : DirectoryClient) (ring : ConsistentHashRing) : DirectoryClient :=
  mk_dclient ring (dc_resolve dc) (dc_replicas dc).

(** [d.setdefault(o, []).append(k)] *)
Definition group_add {A} (d : list (string * list A)) (o : string) (k : A) : list (string * list A) :=
  od_set d o (default [] (od_get d o) ++ [k]).

Section client.
Context {RH : RingHash}.
Implicit Types (dc : DirectoryClient) (w : cluster shard).

Definition _owners dc (key : string) : list string :=
  if dc_replicas dc =? 1
  then match get_node (dc_ring dc) key with
       | Some node => if String.eqb node "" then [] else [node]
       | None => []
       end
  else get_nodes (dc_ring dc) key (dc_replicas dc).

Definition _group_by_owner dc (keys : list string) : list (string * list string) :=
  foldl (λ groups k, match _owners dc k with
                     | [] => groups
                     | o :: _ => group_add groups o k end) [] keys.

(** *** put *)

(** [per_node.setdefault(owner, {})[key] = loc.to_dict()] *)
Definition add_entry (per_node : list (string * list (string * pyval))) (owner key : string)
    (loc : DataLocation) : list (string * list (string * pyval)) :=
  od_set per_node owner (od_set (default [] (od_get per_node owner)) key (loc_to_dict loc)).

Definition put_groups dc (entries : list (string * DataLocation)) : list (string * list (string * pyval)) :=
  foldl (λ pn e, foldl (λ pn o, add_entry pn o e.1 e.2) pn (_owners dc e.1)) [] entries.

(** One turn of a best-effort loop over nodes: an unresolved node is skipped
    and an exception of the call is swallowed. *)
Definition best_effort dc w (node_id method : string) (args : pyval) : cluster shard :=
  match dc_resolve dc node_id with
  | None => w
  | Some ep => (pool_call w ep method args).2
  end.

Definition put dc w (entries : list (string * DataLocation)) : cluster shard :=
  foldl (λ w g, best_effort dc w g.1 "dir_put" (VDict [("entries", VDict g.2)])) w
    (put_groups dc entries).

(** *** get *)

Definition keys_arg (keys : list string) : pyval := VDict [("keys", VList (VStr <$> keys))].

(** [DataLocation.from_dict(r) if r else None] *)
Definition read_loc (r : pyval) : pyres (option DataLocation) :=
  if py_truthy r then l ← loc_from_dict r; mret (Some l) else Ret None.

Definition parse_locations (resp : pyval) : pyres (list (option DataLocation)) :=
  raw ← py_get resp "locations" (VList []); l ← py_list raw; py_mapM read_loc l.

Fixpoint try_candidates dc w (group candidates : list string) : list (option DataLocation) * cluster shard :=
  match candidates with
  | [] => (replicate (length group) None, w)
  | node_id :: rest =>
      match dc_resolve dc node_id with
      | None => try_candidates dc w group rest
      | Some ep =>
          let '(r, w') := pool_call w ep "dir_get" (keys_arg group) in
          match resp ← r; parse_locations resp with
          | Ret locs => (locs, w')
          | Raise _ => try_candidates dc w' group rest
          end
      end
  end.

Definition _get_from_owner dc w (group : list string) (primary : string) :
    list (option DataLocation) * cluster shard :=
  let candidates :=
    if dc_replicas dc >? 1
    then match group with k :: _ => _owners dc k | [] => [primary] end
    else [primary] in
  try_candidates dc w group candidates.

(** [for k, x in zip(group, xs): result[k] = x] *)
Definition assign {A} (result : list (string * A)) (group : list string) (xs : list A) : list (string * A) :=
  foldl (λ res p, od_set res p.1 p.2) result (zip group xs).

Definition get_loop dc (st : list (string * option DataLocation) * cluster shard) (g : string * list string) :
    list (string * option DataLocation) * cluster shard :=
  let '(result, w) := st in
  let '(locs, w') := _get_from_owner dc w g.2 g.1 in
  (assign result g.2 locs, w').

(** [{k: v for k in keys}] *)
Definition init_result {A} (keys : list string) (v : A) : list (string * A) :=
  foldl (λ res k, od_set res k v) [] keys.

(** [get]: the locations in the order of the keys. *)
Definition get dc w (keys : list string) : list (option DataLocation) * cluster shard :=
  let '(result, w') := foldl (get_loop dc) (init_result keys None, w) (_group_by_owner dc keys) in
  ((λ k, default None (od_get result k)) <$> keys, w').

(** *** exists *)

Definition parse_exists (resp : pyval) : pyres (list bool) :=
  raw ← py_get resp "exists" (VList []); l ← py_list raw; Ret (py_truthy <$> (l : list pyval)).

Definition exists_loop dc (st : list (string * bool) * cluster shard) (g : string * list string) :
    list (string * bool) * cluster shard :=
  let '(result, w) := st in
  match dc_resolve dc g.1 with
  | None => (result, w)
  | Some ep =>
      let '(r, w') := pool_call w ep "dir_exists" (keys_arg g.2) in
      match resp ← r; parse_exists resp with
      | Ret bs => (assign result g.2 bs, w')
      | Raise _ => (result, w')
      end
  end.

(** [DirectoryClient.exists] *)
Definition dir_exists dc w (keys : list string) : list bool * cluster shard :=
  let '(result, w') := foldl (exists_loop dc) (init_result keys false, w) (_group_by_owner dc keys) in
  ((λ k, default false (od_get result k)) <$> keys, w').

(** *** delete *)

Definition delete_groups dc (keys : list string) : list (string * list string) :=
  foldl (λ pn k, foldl (λ pn o, group_add pn o k) pn (_owners dc k)) [] keys.

(** [DirectoryClient.delete] *)
Definition dir_delete dc w (keys : list string) : cluster shard :=
  foldl (λ w g, best_effort dc w g.1 "dir_delete" (keys_arg g.2)) w (delete_groups dc keys).
End client.

(** ** What a call does to a shard *)

Lemma py_mapM_keys (f : option string → pyval) ks :
  py_mapM (λ k, o ← as_key k; mret (f o)) (VStr <$> ks) = Ret ((λ k, f (Some k)) <$> ks).
Proof. induction ks as [|k ks IH]; csimpl; [done|]. by rewrite IH. Qed.

Lemma map_keys_arg f ks : map_keys f (keys_arg ks) = Ret ((λ k, f (Some k)) <$> ks).
Proof. unfold map_keys, keys_arg. simpl. apply py_mapM_keys. Qed.

Lemma invoke_get st ks :
  invoke dir_service st "dir_get" (keys_arg ks) =
    (Ret (VDict [("locations", VList ((λ k, default VNone (st !! k)) <$> ks))]), st).
Proof.
  unfold invoke. change (dir_service "dir_get") with (Some _on_get). unfold _on_get. by rewrite map_keys_arg.
Qed.

Lemma invoke_exists st ks :
  invoke dir_service st "dir_exists" (keys_arg ks) =
    (Ret (VDict [("exists", VList ((λ k, VBool (bool_decide (is_Some (st !! k)))) <$> ks))]), st).
Proof.
  unfold invoke. change (dir_service "dir_exists") with (Some _on_exists).
  unfold _on_exists. by rewrite map_keys_arg.
Qed.

Lemma invoke_put st es :
  invoke dir_service st "dir_put" (VDict [("entries", VDict es)]) =
    (Ret (VDict [("ok", VBool true)]), update_shard st es).
Proof. done. Qed.

Definition drop_keys (st : shard) (ks : list string) : shard := foldl (λ st k, delete k st) st ks.

Lemma delete_keys_str st ks : delete_keys st (VStr <$> ks) = (Ret tt, drop_keys st ks).
Proof. revert st. induction ks as [|k ks IH]; intros st; csimpl; [done|]. by rewrite IH. Qed.

Lemma invoke_delete st ks :
  invoke dir_service st "dir_delete" (keys_arg ks) = (Ret (VDict [("ok", VBool true)]), drop_keys st ks).
Proof.
  unfold invoke. change (dir_service "dir_delete") with (Some _on_delete).
  unfold _on_delete. simpl. by rewrite delete_keys_str.
Qed.

Lemma lookup_drop_keys st ks k :
  drop_keys st ks !! k = if bool_decide (k ∈ ks) then None else st !! k.
Proof.
  revert st. induction ks as [|k' ks IH]; intros st; simpl; [done|].
  unfold drop_keys in *. rewrite IH. destruct (decide (k' = k)) as [<-|Hne].
  - rewrite lookup_delete_eq. rewrite (bool_decide_eq_true_2 (k' ∈ k' :: ks)) by set_solver.
    by destruct (bool_decide _).
  - rewrite lookup_delete_ne by done. do 2 case_bool_decide; try done; set_solver.
Qed.

Lemma drop_keys_idemp st ks : drop_keys (drop_keys st ks) ks = drop_keys st ks.
Proof. apply map_eq. intros k. rewrite !lookup_drop_keys. by case_bool_decide. Qed.

Lemma lookup_update_shard st es k :
  NoDup (od_keys es) →
  update_shard st es !! k = match od_get es k with Some v => Some v | None => st !! k end.
Proof.
  unfold update_shard, od_keys. revert st. induction es as [|[k' v] es IH]; intros st Hnd; csimpl in *; [done|].
  apply NoDup_cons in Hnd as [Hn Hnd]. rewrite IH by done. case_decide as Hk.
  - subst k'. apply od_get_None in Hn. rewrite Hn. by rewrite lookup_insert_eq.
  - by rewrite lookup_insert_ne by done.
Qed.

Lemma update_shard_idemp st es :
  NoDup (od_keys es) → update_shard (update_shard st es) es = update_shard st es.
Proof.
  intros. apply map_eq. intros k. rewrite !lookup_update_shard by done. by destruct (od_get es k).
Qed.

(** ** Grouping by owner *)

Lemma od_get_group_add {A} (d : list (string * list A)) o k o' :
  od_get (group_add d o k) o' =
    if decide (o = o') then Some (default [] (od_get d o) ++ [k]) else od_get d o'.
Proof. unfold group_add. by rewrite od_get_set. Qed.

Section client_facts.
Context {RH : RingHash}.
Implicit Types (dc : DirectoryClient) (w : cluster shard).

(** The node whose shard is asked for a key. *)
Definition primary dc (k : string) : option string := head (_owners dc k).

Lemma group_by_owner_get dc keys o :
  od_get (_group_by_owner dc keys) o =
    match filter (λ k, primary dc k = Some o) keys with [] => None | l => Some l end.
Proof.
  unfold _group_by_owner. induction keys as [|k keys IH] using rev_ind; simpl; [done|].
  rewrite foldl_snoc, filter_app. set (g := foldl _ _ _) in *. clearbody g.
  unfold primary in *. rewrite filter_cons, filter_nil.
  destruct (_owners dc k) as [|o' os] eqn:Eo; simpl.
  - by rewrite app_nil_r.
  - rewrite od_get_group_add. destruct (decide (o' = o)) as [->|Ho].
    + rewrite decide_True, IH by done. by destruct (filter _ keys).
    + rewrite decide_False by naive_solver. by rewrite app_nil_r.
Qed.

Lemma group_by_owner_nodup dc keys : NoDup (od_keys (_group_by_owner dc keys)).
Proof.
  unfold _group_by_owner. induction keys as [|k keys IH] using rev_ind; simpl; [constructor|].
  rewrite foldl_snoc. destruct (_owners dc k); [done|]. by apply od_keys_set_nodup.
Qed.

Lemma elem_of_groups dc keys o ks :
  (o, ks) ∈ _group_by_owner dc keys →
  ks = filter (λ k, primary dc k = Some o) keys ∧ ks ≠ [].
Proof.
  intros Hin%od_elem_get; [|apply group_by_owner_nodup].
  rewrite group_by_owner_get in Hin. destruct (filter _ keys); naive_solver.
Qed.

Lemma in_some_group dc keys k :
  Exists (λ g, k ∈ g.2) (_group_by_owner dc keys) ↔ k ∈ keys ∧ is_Some (primary dc k).
Proof.
  rewrite Exists_exists. split.
  - intros ([o ks] & Hin & Hk). apply elem_of_groups in Hin as [-> _].
    simpl in Hk. apply list_elem_of_filter in Hk as [Hp Hk]. eauto.
  - intros [Hk [o Ho]]. pose proof (group_by_owner_get dc keys o) as Hg.
    assert (k ∈ filter (λ k, primary dc k = Some o) keys) as Hf by by apply list_elem_of_filter.
    destruct (filter _ keys) as [|k' l] eqn:El; [by apply not_elem_of_nil in Hf|].
    apply od_get_elem in Hg. exists (o, k' :: l). split; [done|]. simpl. done.
Qed.

(** ** Batched answers *)

Lemma assign_get {A} (res : list (string * A)) ks (f : string → A) k :
  od_get (assign res ks (f <$> ks)) k = if bool_decide (k ∈ ks) then Some (f k) else od_get res k.
Proof.
  unfold assign. revert res. induction ks as [|k' ks IH]; intros res; csimpl; [done|].
  rewrite IH, od_get_set. do 2 case_bool_decide; try case_decide; subst; try done; set_solver.
Qed.

Lemma init_result_get {A} keys (v : A) k :
  od_get (init_result keys v) k = if bool_decide (k ∈ keys) then Some v else None.
Proof.
  unfold init_result. induction keys as [|k' keys IH] using rev_ind; simpl; [done|].
  rewrite foldl_snoc, od_get_set, IH. do 2 case_bool_decide; try case_decide; subst; try done; set_solver.
Qed.

(** A loop that assigns the answers [f] of every group (or leaves a group
    out, when [f] is the initial value there) computes [f]. *)
Lemma batch_answers {A} (dflt : A) (f : string → A)
    (step : list (string * A) * cluster shard → string * list string → list (string * A) * cluster shard) w gs res :
  (∀ res g, g ∈ gs → (step (res, w) g = (assign res g.2 (f <$> g.2), w)) ∨
    (step (res, w) g = (res, w) ∧ ∀ k, k ∈ g.2 → f k = dflt)) →
  ∃ res', foldl step (res, w) gs = (res', w) ∧
    ∀ k, od_get res k = Some dflt ∨ od_get res k = Some (f k) →
      (Exists (λ g, k ∈ g.2) gs → od_get res' k = Some (f k)) ∧
      (¬ Exists (λ g, k ∈ g.2) gs → od_get res' k = od_get res k).
Proof.
  revert res. induction gs as [|g gs IH]; intros res Hstep; simpl.
  { exists res. split; [done|]. intros k _. split; [by intros ?%Exists_nil|done]. }
  destruct (Hstep res g ltac:(set_solver)) as [->|[-> Hd]].
  - destruct (IH (assign res g.2 (f <$> g.2))) as (res' & Hf & Hr); [intros; apply Hstep; set_solver|].
    exists res'. split; [done|]. intros k Hk. specialize (Hr k).
    rewrite assign_get in Hr. rewrite Exists_cons. destruct (decide (k ∈ g.2)) as [Hg|Hg].
    + rewrite bool_decide_eq_true_2 in Hr by done. destruct Hr as [Hr1 Hr2]; [naive_solver|].
      split; [|naive_solver]. intros _.
      destruct (decide (Exists (λ g, k ∈ g.2) gs)); [by apply Hr1|by apply Hr2].
    + rewrite bool_decide_eq_false_2 in Hr by done. destruct (Hr Hk). naive_solver.
  - destruct (IH res) as (res' & Hf & Hr); [intros; apply Hstep; set_solver|].
    exists res'. split; [done|]. intros k Hk. destruct (Hr k Hk) as [Hr1 Hr2]. rewrite Exists_cons.
    split; [|naive_solver]. intros [Hx|Hx]; [|by apply Hr1].
    destruct (decide (Exists (λ g, k ∈ g.2) gs)) as [He|He]; [by apply Hr1|].
    rewrite Hr2 by done. rewrite (Hd k Hx) in *. naive_solver.
Qed.

(** ** What a batch answers *)

(** The first of the nodes that resolves to an endpoint which answers. *)
Definition live_endpoint dc w (n : string) : option string :=
  ep ← dc_resolve dc n;
  if bool_decide (is_Some (c_shards w !! ep)) && replies (c_link w ep) then Some ep else None.

Definition first_live dc w (nodes : list string) : option string :=
  head (omap (live_endpoint dc w) nodes).

(** The nodes tried for [k] in a batch: its owner, or with replication the
    replica set of the first key of the batch that has the same owner. *)
Definition candidates dc (keys : list string) (k : string) : list string :=
  match primary dc k with
  | None => []
  | Some o =>
      if dc_replicas dc >? 1
      then match filter (λ k', primary dc k' = Some o) keys with k0 :: _ => _owners dc k0 | [] => [o] end
      else [o]
  end.

Definition stored w (ep k : string) : option pyval := st ← c_shards w !! ep; st !! k.

(** Every entry of every shard is the dictionary of a location. *)
Definition shards_wf w : Prop :=
  ∀ ep k v, stored w ep k = Some v → ∃ l, v = loc_to_dict l.

Definition stored_loc w (ep k : string) : option DataLocation :=
  v ← stored w ep k; match loc_from_dict v with Ret l => Some l | Raise _ => None end.

Definition dir_answer dc w (keys : list string) (k : string) : option DataLocation :=
  ep ← first_live dc w (candidates dc keys k); stored_loc w ep k.

Lemma pool_call_readonly w ep m args :
  (∀ st, (invoke dir_service st m args).2 = st) →
  pool_call w ep m args =
    (match c_shards w !! ep with
     | None => Raise OSError
     | Some st => if replies (c_link w ep) then (invoke dir_service st m args).1 else Raise ConnectionError
     end, w).
Proof.
  intros Hro. unfold pool_call, net_call. destruct (c_shards w !! ep) as [st|] eqn:E; [|done].
  rewrite link_call_readonly by done. rewrite insert_id by done. by destruct w.
Qed.

Lemma read_loc_dict l : read_loc (loc_to_dict l) = Ret (Some l).
Proof. unfold read_loc. rewrite loc_to_dict_truthy, loc_from_to_dict. done. Qed.

Lemma parse_locations_wf (st : shard) ks :
  (∀ k v, st !! k = Some v → ∃ l, v = loc_to_dict l) →
  parse_locations (VDict [("locations", VList ((λ k, default VNone (st !! k)) <$> ks))]) =
    Ret ((λ k, v ← st !! k; match loc_from_dict v with Ret l => Some l | Raise _ => None end) <$> ks).
Proof.
  intros Hwf. change (py_mapM read_loc ((λ k, default VNone (st !! k)) <$> ks) =
    Ret ((λ k, v ← st !! k; match loc_from_dict v with Ret l => Some l | Raise _ => None end) <$> ks)).
  induction ks as [|k ks IH]; [done|]. rewrite !fmap_cons. cbn [py_mapM]. rewrite IH. clear IH.
  destruct (st !! k) as [v|] eqn:E; [|done].
  destruct (Hwf k v E) as [l ->].
  change (read_loc (default VNone (Some (loc_to_dict l)))) with (read_loc (loc_to_dict l)).
  rewrite read_loc_dict. cbn [mbind option_bind]. by rewrite loc_from_to_dict.
Qed.

Lemma try_candidates_spec dc w group nodes :
  shards_wf w →
  try_candidates dc w group nodes =
    ((λ k, ep ← first_live dc w nodes; stored_loc w ep k) <$> group, w).
Proof.
  intros Hwf. unfold first_live. induction nodes as [|n nodes IH]; csimpl.
  - by rewrite (const_fmap (λ _ : string, None) group None) by done.
  - unfold live_endpoint at 1. destruct (dc_resolve dc n) as [ep|]; simpl; [|done].
    rewrite pool_call_readonly by (intros; by rewrite invoke_get).
    destruct (c_shards w !! ep) as [st|] eqn:Es.
    + rewrite (bool_decide_eq_true_2 (is_Some (Some st))) by done. simpl.
      destruct (replies (c_link w ep)); [|exact IH].
      rewrite invoke_get. cbn [fst mbind pyres_bind]. rewrite parse_locations_wf.
      * f_equal. apply list_fmap_ext. intros i k _. unfold stored_loc, stored. simpl. by rewrite Es.
      * intros k v Hk. apply (Hwf ep k v). unfold stored. by rewrite Es.
    + rewrite bool_decide_eq_false_2 by (intros []; done). exact IH.
Qed.

Lemma get_from_owner_spec dc w keys o group :
  shards_wf w → (o, group) ∈ _group_by_owner dc keys →
  _get_from_owner dc w group o = (dir_answer dc w keys <$> group, w).
Proof.
  intros Hwf [Hg Hne]%elem_of_groups. unfold _get_from_owner. rewrite try_candidates_spec by done.
  f_equal. apply list_fmap_ext. intros i k Hk. unfold dir_answer, candidates.
  assert (primary dc k = Some o) as ->.
  { apply list_elem_of_lookup_2 in Hk. rewrite Hg in Hk. by apply list_elem_of_filter in Hk as [? _]. }
  rewrite <-Hg. destruct (_ >? _); [|done]. by destruct group.
Qed.

Lemma get_spec dc w keys :
  shards_wf w → get dc w keys = (dir_answer dc w keys <$> keys, w).
Proof.
  intros Hwf. unfold get.
  destruct (batch_answers None (dir_answer dc w keys) (get_loop dc) w (_group_by_owner dc keys)
    (init_result keys None)) as (res & -> & Hres).
  { intros r [o group] Hin. left. unfold get_loop. simpl. by rewrite (get_from_owner_spec dc w keys o group). }
  f_equal. apply list_fmap_ext. intros i k Hk%list_elem_of_lookup_2.
  destruct (Hres k) as [H1 H2]; [left; by rewrite init_result_get, bool_decide_eq_true_2|].
  destruct (decide (Exists (λ g, k ∈ g.2) (_group_by_owner dc keys))) as [He|He]; [by rewrite H1|].
  rewrite H2, init_result_get, bool_decide_eq_true_2 by done. simpl.
  rewrite in_some_group in He. unfold dir_answer, candidates.
  destruct (primary dc k) eqn:Ep; [|done]. destruct He. split; [done|by eexists].
Qed.

Definition exists_answer dc w (k : string) : bool :=
  match primary dc k ≫= live_endpoint dc w with
  | Some ep => bool_decide (is_Some (stored w ep k))
  | None => false
  end.

Lemma exists_spec dc w keys : dir_exists dc w keys = (exists_answer dc w <$> keys, w).
Proof.
  unfold dir_exists.
  destruct (batch_answers false (exists_answer dc w) (exists_loop dc) w (_group_by_owner dc keys)
    (init_result keys false)) as (res & -> & Hres).
  - intros r [o group] Hin. apply elem_of_groups in Hin as [Hg _].
    assert (∀ k, k ∈ group → primary dc k = Some o) as Hp
      by (intros k; rewrite Hg; by intros [? _]%list_elem_of_filter).
    unfold exists_loop, exists_answer, live_endpoint. simpl.
    destruct (dc_resolve dc o) as [ep|] eqn:Er.
    2:{ right. split; [done|]. intros k Hk. rewrite (Hp k Hk). simpl. by rewrite Er. }
    rewrite pool_call_readonly by (intros; by rewrite invoke_exists).
    destruct (c_shards w !! ep) as [st|] eqn:Es; [destruct (replies (c_link w ep)) eqn:El|].
    + left. rewrite invoke_exists. simpl. do 2 f_equal. rewrite <-list_fmap_compose.
      apply list_fmap_ext. intros i k Hk%list_elem_of_lookup_2. rewrite (Hp k Hk). simpl.
      rewrite Er. simpl. rewrite Es, El. unfold stored. simpl. by rewrite ?Es.
    + right. split; [done|]. intros k Hk. rewrite (Hp k Hk). simpl. rewrite Er. simpl.
      by rewrite El, andb_false_r.
    + right. split; [done|]. intros k Hk. rewrite (Hp k Hk). simpl. rewrite Er. simpl. by rewrite Es.
  - f_equal. apply list_fmap_ext. intros i k Hk%list_elem_of_lookup_2.
    destruct (Hres k) as [H1 H2]; [left; by rewrite init_result_get, bool_decide_eq_true_2|].
    destruct (decide (Exists (λ g, k ∈ g.2) (_group_by_owner dc keys))) as [He|He]; [by rewrite H1|].
    rewrite H2, init_result_get, bool_decide_eq_true_2 by done. simpl.
    rewrite in_some_group in He. unfold exists_answer.
    destruct (primary dc k) eqn:Ep; [|done]. destruct He. split; [done|by eexists].
Qed.

(** ** Effects on the shards *)

(** The call to [ep] runs its handler. *)
Definition takes w (ep : string) : bool :=
  bool_decide (is_Some (c_shards w !! ep)) && reached (c_link w ep).

(** Same links and same endpoints. *)
Definition same_net w w' : Prop :=
  c_link w' = c_link w ∧ ∀ ep, is_Some (c_shards w' !! ep) ↔ is_Some (c_shards w !! ep).

Lemma same_net_takes w w' ep : same_net w w' → takes w' ep = takes w ep.
Proof. intros [Hl Hs]. unfold takes. rewrite Hl. by rewrite (bool_decide_ext _ _ (Hs ep)). Qed.

Lemma same_net_trans w1 w2 w3 : same_net w1 w2 → same_net w2 w3 → same_net w1 w3.
Proof. intros [H1 H2] [H3 H4]. split; [congruence|]. intros ep. by rewrite H4. Qed.

(** A call that overwrites some keys of the shard ([act k = Some x] sets [k]
    to [x]), whether it runs once or twice. *)
Definition call_effect (m : string) (args : pyval) (act : string → option (option pyval)) : Prop :=
  ∃ v f, (∀ st, invoke dir_service st m args = (Ret v, f st)) ∧
    ∀ st k, f st !! k = match act k with Some x => x | None => st !! k end.

Lemma pool_call_effect m args act w ep :
  call_effect m args act →
  same_net w (pool_call w ep m args).2 ∧
  ∀ ep' k, stored (pool_call w ep m args).2 ep' k =
    match (if bool_decide (ep = ep') && takes w ep then act k else None) with
    | Some x => x
    | None => stored w ep' k
    end.
Proof.
  intros (v & f & Hi & Hf). unfold pool_call, net_call, takes.
  destruct (c_shards w !! ep) as [st|] eqn:Es.
  2:{ split; [done|]. intros ep' k.
      rewrite (bool_decide_eq_false_2 (is_Some None)) by (intros []; done).
      by rewrite andb_false_r. }
  rewrite (link_call_idempotent dir_service st m args _ f v Hi).
  2:{ intros st'. apply map_eq. intros k. rewrite !Hf. by destruct (act k). }
  simpl. split.
  - split; [done|]. intros ep'. simpl. destruct (decide (ep = ep')) as [<-|Hne].
    + rewrite lookup_insert_eq, Es. split; eauto.
    + by rewrite lookup_insert_ne.
  - intros ep' k. unfold stored. simpl.
    destruct (decide (ep = ep')) as [<-|Hne].
    + rewrite lookup_insert_eq, bool_decide_eq_true_2, Es by done. simpl.
      destruct (reached _); [|done]. rewrite Hf. by destruct (act k).
    + rewrite lookup_insert_ne, bool_decide_eq_false_2 by done. done.
Qed.

(** A best-effort loop over per-node batches sets a key at an endpoint as the
    batches that resolve to it say, when they agree. *)
Lemma best_effort_fold {A} dc (m : string) (args : A → pyval) (act : A → string → option (option pyval))
    (gs : list (string * A)) w ep k x :
  (∀ g, g ∈ gs → call_effect m (args g.2) (act g.2)) →
  (∀ g, g ∈ gs → dc_resolve dc g.1 = Some ep → act g.2 k = None ∨ act g.2 k = Some x) →
  let w' := foldl (λ w g, best_effort dc w g.1 m (args g.2)) w gs in
  same_net w w' ∧
  (takes w ep = true → (∃ g, g ∈ gs ∧ dc_resolve dc g.1 = Some ep ∧ act g.2 k = Some x) →
    stored w' ep k = x) ∧
  (takes w ep = false ∨ (∀ g, g ∈ gs → dc_resolve dc g.1 = Some ep → act g.2 k = None) →
    stored w' ep k = stored w ep k).
Proof.
  revert w. induction gs as [|g gs IH] using rev_ind; intros w Hc Hx; simpl.
  { split; [done|]. split; [|done]. intros _ (g & Hg & _). by apply not_elem_of_nil in Hg. }
  rewrite foldl_snoc. destruct (IH w) as (Hn & H1 & H2); [set_solver..|]. clear IH.
  set (w1 := foldl _ w gs) in *. clearbody w1. unfold best_effort.
  destruct (dc_resolve dc g.1) as [ep'|] eqn:Er.
  2:{ split; [done|]. split.
      - intros Ht (g' & [Hg| ->%list_elem_of_singleton]%elem_of_app & ? & ?); [eauto|congruence].
      - intros [Ht|Hno]; apply H2; [by left|right]. intros g' Hg'. apply Hno. set_solver. }
  destruct (pool_call_effect m (args g.2) (act g.2) w1 ep') as [Hn' Hs]; [apply Hc; set_solver|].
  split; [by eapply same_net_trans|]. rewrite (Hs ep k), (same_net_takes w w1) by done.
  destruct (decide (ep' = ep)) as [->|Hne].
  - rewrite bool_decide_eq_true_2 by done. simpl. split.
    + intros Ht Hex. rewrite Ht. destruct (Hx g) as [Ha|Ha]; [set_solver|done|rewrite Ha|by rewrite Ha].
      apply H1; [done|]. destruct Hex as (g' & [Hg| ->%list_elem_of_singleton]%elem_of_app & ? & ?); [eauto|congruence].
    + intros [Ht|Hno].
      * rewrite Ht. by apply H2; left.
      * rewrite (Hno g) by set_solver. replace (if takes w ep then None else None) with (@None (option pyval))
          by by destruct (takes w ep). apply H2. right. intros g' Hg'. apply Hno. set_solver.
  - rewrite bool_decide_eq_false_2 by done. simpl. split.
    + intros Ht (g' & [Hg| ->%list_elem_of_singleton]%elem_of_app & Hr & Ha); [eauto|congruence].
    + intros [Ht|Hno]; apply H2; [by left|right]. intros g' Hg'. apply Hno. set_solver.
Qed.

(** *** Grouping of writes *)

Definition entry_at (pn : list (string * list (string * pyval))) (o k : string) : option pyval :=
  es ← od_get pn o; od_get es k.

Definition inner_nodup (pn : list (string * list (string * pyval))) : Prop :=
  NoDup (od_keys pn) ∧ ∀ o es, od_get pn o = Some es → NoDup (od_keys es).

Lemma add_entry_spec pn owner key loc :
  inner_nodup pn →
  inner_nodup (add_entry pn owner key loc) ∧
  ∀ o k, entry_at (add_entry pn owner key loc) o k =
    if bool_decide (o = owner ∧ k = key) then Some (loc_to_dict loc) else entry_at pn o k.
Proof.
  intros [Hnd Hin]. unfold add_entry, entry_at. split.
  - split; [by apply od_keys_set_nodup|]. intros o es. rewrite od_get_set. case_decide as Ho.
    + intros [= <-]. apply od_keys_set_nodup.
      destruct (od_get pn owner) eqn:E; simpl; [by eapply Hin|constructor].
    + apply Hin.
  - intros o k. rewrite od_get_set. case_decide as Ho; simpl.
    + subst o. rewrite od_get_set. case_decide as Hk.
      * subst k. by rewrite bool_decide_eq_true_2.
      * rewrite bool_decide_eq_false_2 by naive_solver. by destruct (od_get pn owner).
    + rewrite bool_decide_eq_false_2 by naive_solver. done.
Qed.

Lemma add_owners_spec pn owners key loc :
  inner_nodup pn →
  let pn' := foldl (λ pn o, add_entry pn o key loc) pn owners in
  inner_nodup pn' ∧
  ∀ o k, entry_at pn' o k =
    if bool_decide (o ∈ owners ∧ k = key) then Some (loc_to_dict loc) else entry_at pn o k.
Proof.
  revert pn. induction owners as [|o' owners IH]; intros pn Hi; cbn [foldl].
  - split; [done|]. intros o k. done.
  - destruct (add_entry_spec pn o' key loc Hi) as [Hi' He].
    destruct (IH _ Hi') as [Hi'' He']. split; [done|]. intros o k. rewrite He', He.
    destruct (decide (o ∈ owners ∧ k = key)) as [Ho|Ho].
    + rewrite (bool_decide_eq_true_2 _ Ho), bool_decide_eq_true_2; [done|].
      destruct Ho. split; [apply elem_of_cons; by right|done].
    + rewrite (bool_decide_eq_false_2 _ Ho).
      rewrite (bool_decide_ext (o ∈ o' :: owners ∧ k = key) (o = o' ∧ k = key)); [done|].
      rewrite elem_of_cons. tauto.
Qed.

Lemma put_groups_spec dc entries :
  NoDup (od_keys entries) →
  inner_nodup (put_groups dc entries) ∧
  ∀ o k, entry_at (put_groups dc entries) o k =
    if bool_decide (o ∈ _owners dc k) then loc_to_dict <$> od_get entries k else None.
Proof.
  unfold put_groups. induction entries as [|[key loc] entries IH] using rev_ind; intros Hnd; simpl.
  - split; [split; [constructor|done]|]. intros o k. by destruct (bool_decide _).
  - rewrite foldl_snoc. unfold od_keys in Hnd. rewrite fmap_app in Hnd.
    apply NoDup_app in Hnd as (Hnd & Hnew & _). destruct (IH Hnd) as [Hi He].
    destruct (add_owners_spec _ (_owners dc key) key loc Hi) as [Hi' He'].
    split; [done|]. intros o k. simpl. rewrite He', He, od_get_app. simpl.
    assert (k = key → od_get entries k = None) as Hfresh.
    { intros ->. apply od_get_None. intros Hk. apply (Hnew _ Hk). simpl. by apply list_elem_of_singleton. }
    destruct (decide (k = key)) as [->|Hk].
    + rewrite (Hfresh eq_refl). do 2 case_bool_decide; try done; naive_solver.
    + rewrite (bool_decide_eq_false_2 (_ ∧ _)) by naive_solver.
      by destruct (od_get entries k).
Qed.

Lemma delete_groups_spec dc keys :
  NoDup (od_keys (delete_groups dc keys)) ∧
  ∀ o k, (∃ ks, od_get (delete_groups dc keys) o = Some ks ∧ k ∈ ks) ↔ k ∈ keys ∧ o ∈ _owners dc k.
Proof.
  unfold delete_groups. induction keys as [|key keys IH] using rev_ind; simpl.
  - split; [constructor|]. intros o k. split; [by intros (? & ? & _)|]. by intros [?%not_elem_of_nil ?].
  - rewrite foldl_snoc. destruct IH as [Hnd Hk]. set (pn := foldl _ [] keys) in *. clearbody pn.
    assert (∀ os pn, NoDup (od_keys pn) →
      NoDup (od_keys (foldl (λ pn o, group_add pn o key) pn os)) ∧
      ∀ o k, (∃ ks, od_get (foldl (λ pn o, group_add pn o key) pn os) o = Some ks ∧ k ∈ ks) ↔
        (∃ ks, od_get pn o = Some ks ∧ k ∈ ks) ∨ (k = key ∧ o ∈ os)) as Hos.
    { clear. induction os as [|o' os IH]; intros pn Hnd; simpl; [set_solver|].
      destruct (IH (group_add pn o' key)) as [H1 H2]; [by apply od_keys_set_nodup|].
      split; [done|]. intros o k. rewrite H2, od_get_group_add, elem_of_cons.
      case_decide as Ho; [subst o'|naive_solver].
      destruct (od_get pn o) as [ks|] eqn:E; simpl; split.
      - intros [(? & [= <-] & [?| ->%list_elem_of_singleton]%elem_of_app)|?]; naive_solver.
      - intros [(? & [= <-] & ?)|[-> [?|?]]]; [left|left|naive_solver]; eexists; (split; [done|set_solver]).
      - intros [(? & [= <-] & ->%list_elem_of_singleton)|?]; naive_solver.
      - intros [(? & ? & ?)|[-> [?|?]]]; [done|left|naive_solver]. eexists; (split; [done|set_solver]). }
    destruct (Hos (_owners dc key) pn Hnd) as [H1 H2]. split; [done|].
    intros o k. rewrite H2, Hk, elem_of_app, list_elem_of_singleton. naive_solver.
Qed.

(** *** put and delete *)

(** Some owner of [k] has its control endpoint at [ep]. *)
Definition owned_at dc (k ep : string) : bool :=
  bool_decide (Exists (λ o, dc_resolve dc o = Some ep) (_owners dc k)).

Lemma put_effect es : NoDup (od_keys es) →
  call_effect "dir_put" (VDict [("entries", VDict es)]) (λ k, Some <$> od_get es k).
Proof.
  intros Hnd. eexists _, (λ st, update_shard st es). split; [intros; apply invoke_put|].
  intros st k. rewrite lookup_update_shard by done. by destruct (od_get es k).
Qed.

Lemma delete_effect ks :
  call_effect "dir_delete" (keys_arg ks) (λ k, if bool_decide (k ∈ ks) then Some None else None).
Proof.
  eexists _, (λ st, drop_keys st ks). split; [intros; apply invoke_delete|].
  intros st k. rewrite lookup_drop_keys. by case_bool_decide.
Qed.

Lemma put_spec dc w entries ep k :
  NoDup (od_keys entries) →
  same_net w (put dc w entries) ∧
  stored (put dc w entries) ep k =
    match od_get entries k with
    | Some loc => if takes w ep && owned_at dc k ep then Some (loc_to_dict loc) else stored w ep k
    | None => stored w ep k
    end.
Proof.
  intros Hnd. destruct (put_groups_spec dc entries Hnd) as [[Hg1 Hg2] He]. unfold put.
  assert (∀ g, g ∈ put_groups dc entries → ∀ k, od_get g.2 k =
    if bool_decide (g.1 ∈ _owners dc k) then loc_to_dict <$> od_get entries k else None) as Hgrp.
  { intros [o es] Hin k'. rewrite <-He. unfold entry_at. simpl.
    by rewrite (od_elem_get _ _ _ Hg1 Hin). }
  assert (∀ g, g ∈ put_groups dc entries →
    call_effect "dir_put" (VDict [("entries", VDict g.2)]) (λ k, Some <$> od_get g.2 k)) as Hce.
  { intros [o es] Hin. apply put_effect. apply (Hg2 o). by apply od_elem_get. }
  set (x := loc_to_dict <$> od_get entries k).
  destruct (best_effort_fold dc "dir_put" (λ es, VDict [("entries", VDict es)])
    (λ es k, Some <$> od_get es k) (put_groups dc entries) w ep k x Hce) as (Hn & H1 & H2).
  { intros g Hg _. rewrite (Hgrp g Hg). subst x. case_bool_decide; [|by left].
    destruct (od_get entries k); [by right|by left]. }
  split; [exact Hn|]. destruct (od_get entries k) as [loc|] eqn:Ek.
  2:{ apply H2. right. intros g Hg _. rewrite (Hgrp g Hg), Ek. by destruct (bool_decide _). }
  destruct (takes w ep) eqn:Et; [|apply H2; by left]. simpl. unfold owned_at.
  case_bool_decide as Hex.
  - apply H1; [done|]. apply Exists_exists in Hex as (o & Ho & Hr).
    assert (entry_at (put_groups dc entries) o k = Some (loc_to_dict loc)) as Hat
      by by rewrite He, bool_decide_eq_true_2, Ek.
    unfold entry_at in Hat. destruct (od_get (put_groups dc entries) o) as [es|] eqn:Eo; [|done].
    exists (o, es). split; [by apply od_get_elem|]. split; [done|]. simpl in *. by rewrite Hat.
  - apply H2. right. intros g Hg Hr. rewrite (Hgrp g Hg). rewrite bool_decide_eq_false_2; [done|].
    intros Ho. apply Hex, Exists_exists. eauto.
Qed.

Lemma delete_spec dc w keys ep k :
  same_net w (dir_delete dc w keys) ∧
  stored (dir_delete dc w keys) ep k =
    if bool_decide (k ∈ keys) && takes w ep && owned_at dc k ep then None else stored w ep k.
Proof.
  destruct (delete_groups_spec dc keys) as [Hnd Hk]. unfold dir_delete.
  assert (∀ g, g ∈ delete_groups dc keys → ∀ k, k ∈ g.2 ↔ k ∈ keys ∧ g.1 ∈ _owners dc k) as Hgrp.
  { intros [o ks] Hin k'. rewrite <-Hk. simpl. rewrite (od_elem_get _ _ _ Hnd Hin). naive_solver. }
  destruct (best_effort_fold dc "dir_delete" keys_arg
    (λ ks k, if bool_decide (k ∈ ks) then Some None else None) (delete_groups dc keys) w ep k None)
    as (Hn & H1 & H2).
  { intros g _. apply delete_effect. }
  { intros g _ _. case_bool_decide; [by right|by left]. }
  split; [exact Hn|]. destruct (takes w ep) eqn:Et.
  2:{ rewrite andb_false_r. apply H2. by left. }
  rewrite andb_true_r. unfold owned_at. case_bool_decide as Hkeys; case_bool_decide as Hex; simpl.
  - apply H1; [done|]. apply Exists_exists in Hex as (o & Ho & Hr).
    destruct (proj2 (Hk o k)) as (ks & Hg & Hin); [done|].
    exists (o, ks). split; [by apply od_get_elem|]. split; [done|]. simpl. by rewrite bool_decide_eq_true_2.
  - apply H2. right. intros g Hg Hr. rewrite bool_decide_eq_false_2; [done|].
    intros [_ Ho]%(Hgrp g Hg). apply Hex, Exists_exists. eauto.
  - apply H2. right. intros g Hg Hr. rewrite bool_decide_eq_false_2; [done|].
    by intros [? _]%(Hgrp g Hg).
  - apply H2. right. intros g Hg Hr. rewrite bool_decide_eq_false_2; [done|].
    by intros [? _]%(Hgrp g Hg).
Qed.

Lemma put_wf dc w entries :
  NoDup (od_keys entries) → shards_wf w → shards_wf (put dc w entries).
Proof.
  intros Hnd Hwf ep k v. rewrite (proj2 (put_spec dc w entries ep k Hnd)).
  destruct (od_get entries k) as [loc|]; [|apply Hwf].
  destruct (_ && _); [|apply Hwf]. intros [= <-]. eauto.
Qed.

Lemma candidates_single dc k : candidates dc [k] k = _owners dc k ∨ dc_replicas dc ≤ 1.
Proof.
  unfold candidates, primary. destruct (_owners dc k) as [|o os] eqn:Eo; [by left|].
  simpl. rewrite filter_cons, filter_nil. rewrite Eo. simpl. rewrite decide_True by done.
  destruct (dc_replicas dc >? 1) eqn:E; bool_cases; [left|right; lia]. by rewrite Eo.
Qed.

Lemma candidates_one_replica dc keys k :
  dc_replicas dc = 1 → candidates dc keys k = _owners dc k.
Proof.
  intros Hr. unfold candidates, primary, _owners. rewrite Hr. simpl.
  destruct (get_node _ _) as [n|]; [|done]. by destruct (String.eqb n "").
Qed.

Lemma first_live_Some dc w nodes n :
  n ∈ nodes → is_Some (live_endpoint dc w n) →
  ∃ n' ep, n' ∈ nodes ∧ live_endpoint dc w n' = Some ep ∧ first_live dc w nodes = Some ep.
Proof.
  unfold first_live. induction nodes as [|n' nodes IH]; [by intros ?%not_elem_of_nil|].
  intros Hin Hl. simpl. destruct (live_endpoint dc w n') as [ep|] eqn:E.
  - exists n', ep. split; [apply elem_of_cons; by left|done].
  - apply elem_of_cons in Hin as [->|Hin]; [rewrite E in Hl; by destruct Hl|].
    destruct (IH Hin Hl) as (n2 & ep & ? & ? & ?). exists n2, ep.
    split; [apply elem_of_cons; by right|done].
Qed.

Lemma live_endpoint_Some dc w n ep :
  live_endpoint dc w n = Some ep →
  dc_resolve dc n = Some ep ∧ is_Some (c_shards w !! ep) ∧ replies (c_link w ep) = true.
Proof.
  unfold live_endpoint. destruct (dc_resolve dc n) as [ep'|]; [|done]. simpl.
  destruct (_ && _) eqn:E; [|done]. intros [= ->]. bool_cases. done.
Qed.

(** A key published at every live owner is found by whoever answers. *)
Lemma answer_after_put dc w entries link keys k loc :
  let w1 := put dc w entries in
  let w2 := mk_cluster (c_shards w1) link in
  NoDup (od_keys entries) → od_get entries k = Some loc → candidates dc keys k = _owners dc k →
  (∀ n ep, n ∈ _owners dc k → live_endpoint dc w2 n = Some ep → takes w ep = true) →
  (∃ n, n ∈ _owners dc k ∧ is_Some (live_endpoint dc w2 n)) →
  dir_answer dc w2 keys k = Some loc.
Proof.
  intros w1 w2 Hnd Hk Hc Hall (n & Hn & Hl). unfold dir_answer. rewrite Hc.
  destruct (first_live_Some dc w2 _ n Hn Hl) as (n' & ep & Hn' & Hl' & ->). simpl.
  pose proof (Hall n' ep Hn' Hl') as Ht. apply live_endpoint_Some in Hl' as (Hr & _ & _).
  assert (stored w2 ep k = Some (loc_to_dict loc)) as Hs.
  { change (stored w2 ep k) with (stored w1 ep k). subst w1.
    rewrite (proj2 (put_spec dc w entries ep k Hnd)), Hk, Ht. simpl.
    unfold owned_at. rewrite bool_decide_eq_true_2; [done|]. apply Exists_exists. eauto. }
  unfold stored_loc. rewrite Hs. simpl. by rewrite loc_from_to_dict.
Qed.
End client_facts.

(** ** Properties *)

Section directory_properties.
Context {RH : RingHash}.

(** Batched lookups are pointwise.  [get] and [exists] answer the keys in
    their order, each from what the asked shard stores, and change no shard,
    whatever the batch looks like and whichever links fail; without
    replication [exists] says exactly whether [get] finds a location. *)
Theorem directory_batch_lookup (dc : DirectoryClient) (w : cluster shard) (keys : list string)
  (Hwf : shards_wf w) :
  get dc w keys = (dir_answer dc w keys <$> keys, w) ∧
  dir_exists dc w keys = (exists_answer dc w <$> keys, w) ∧
  (dc_replicas dc = 1 →
    (dir_exists dc w keys).1 = (λ l, bool_decide (is_Some l)) <$> (get dc w keys).1).
Proof.
  rewrite get_spec, exists_spec by done. split; [done|]. split; [done|]. intros Hr. simpl.
  rewrite <-list_fmap_compose. apply list_fmap_ext. intros i k Hk. simpl.
  unfold dir_answer, exists_answer. rewrite candidates_one_replica by done.
  unfold primary, _owners. rewrite Hr. simpl.
  destruct (get_node (dc_ring dc) k) as [n|]; [|done].
  destruct (String.eqb n ""); [done|]. unfold first_live. simpl.
  destruct (live_endpoint dc w n) as [ep|] eqn:El; [|done]. simpl.
  unfold stored_loc. destruct (stored w ep k) as [v|] eqn:Es; [|done].
  destruct (Hwf _ _ _ Es) as [l ->]. simpl. by rewrite loc_from_to_dict.
Qed.

(** C35: What [put] and [delete] do to the directory.  An entry changes at an
    endpoint exactly when its key is in the batch, one of the key's owners
    lives there and the call ran there (once or, through the client's retry,
    twice: both handlers are idempotent); it becomes the published location,
    or disappears.  Links and endpoints stay as they are, and entries stay
    well formed. *)
Theorem directory_put_delete_effects (dc : DirectoryClient) (w : cluster shard)
  (entries : list (string * DataLocation)) (keys : list string)
  (Hnd : NoDup (od_keys entries)) (Hwf : shards_wf w) :
  (∀ ep k, stored (put dc w entries) ep k =
    match od_get entries k with
    | Some loc => if takes w ep && owned_at dc k ep then Some (loc_to_dict loc) else stored w ep k
    | None => stored w ep k
    end) ∧
  (∀ ep k, stored (dir_delete dc w keys) ep k =
    if bool_decide (k ∈ keys) && takes w ep && owned_at dc k ep then None else stored w ep k) ∧
  same_net w (put dc w entries) ∧ same_net w (dir_delete dc w keys) ∧
  shards_wf (put dc w entries) ∧ shards_wf (dir_delete dc w keys).
Proof.
  split; [intros; by apply put_spec|]. split; [intros; by apply delete_spec|].
  split; [by apply (put_spec dc w entries "" "" Hnd)|].
  split; [by apply (delete_spec dc w keys "" "")|].
  split; [by apply put_wf|]. intros ep k v. rewrite (proj2 (delete_spec dc w keys ep k)).
  destruct (_ && _); [done|apply Hwf].
Qed.

(** C19: a published location is found.  After [put], whatever has happened to
    the links since, a lookup of the key alone finds the published location, if
    some owner of the key answers and every owner that answers had taken the
    [put].  Without replication (one replica per key) the same holds for the key
    in any batch; with replication it can fail there
    ([batch_failover_can_miss]). *)
Theorem directory_put_then_get (dc : DirectoryClient) (w : cluster shard)
  (entries : list (string * DataLocation)) (link : string → attempt * attempt)
  (k : string) (loc : DataLocation)
  (Hnd : NoDup (od_keys entries)) (Hwf : shards_wf w) (Hrep : 1 ≤ dc_replicas dc)
  (Hk : od_get entries k = Some loc)
  (Htaken : ∀ n ep, n ∈ _owners dc k →
    live_endpoint dc (mk_cluster (c_shards (put dc w entries)) link) n = Some ep → takes w ep = true)
  (Hlive : ∃ n, n ∈ _owners dc k ∧
    is_Some (live_endpoint dc (mk_cluster (c_shards (put dc w entries)) link) n)) :
  let w2 := mk_cluster (c_shards (put dc w entries)) link in
  (get dc w2 [k]).1 = [Some loc] ∧
  (dc_replicas dc = 1 → ∀ keys i, keys !! i = Some k → (get dc w2 keys).1 !! i = Some (Some loc)).
Proof.
  intros w2. assert (shards_wf w2) as Hwf2.
  { intros ep k' v. apply (put_wf dc w entries Hnd Hwf ep k' v). }
  assert (candidates dc [k] k = _owners dc k) as Hc.
  { destruct (candidates_single dc k) as [?|?]; [done|]. apply candidates_one_replica. lia. }
  split.
  - rewrite get_spec by done. simpl. f_equal. by apply answer_after_put.
  - intros Hr keys i Hi. rewrite get_spec by done. simpl. rewrite list_lookup_fmap, Hi. simpl. f_equal.
    apply answer_after_put; try done. by apply candidates_one_replica.
Qed.
End directory_properties.

(** ** Concrete instances *)

Module DirectoryExamples.
Export HashRing.RingExamples.

(** A hash table of points: nodes [a], [b], [c] with two virtual nodes each
    and the keys [k1], [k2] between them. *)
Definition table : list (string * Z) :=
  [("a#0", 10); ("b#0", 20); ("a#1", 40); ("c#0", 50); ("b#1", 60); ("c#1", 70); ("k1", 5); ("k2", 30)].
Definition table_hash : RingHash := λ s, default 99 (od_get table s).

Definition ring0 : ConsistentHashRing := @set_nodes table_hash sample_iter (new_ring 2) ["a"; "b"; "c"].
Definition resolve0 (n : string) : option string := Some (n +:+ ":9000").
Definition client (replicas : Z) : DirectoryClient := new_dclient ring0 resolve0 replicas.

Definition all_up (_ : string) : attempt * attempt := (AReply, AReply).
Definition a_down (ep : string) : attempt * attempt :=
  if decide (ep = "a:9000") then (ANoConnect, ANoConnect) else (AReply, AReply).

Definition w0 : cluster shard := mk_cluster {[ "a:9000" := ∅; "b:9000" := ∅; "c:9000" := ∅ ]} all_up.
Definition loc0 : DataLocation := mk_loc "a" "a:7000" 4096 17 64 true [] [].
Definition entries0 : list (string * DataLocation) := [("k1", loc0); ("k2", loc0)].

Lemma w0_wf : shards_wf w0.
Proof.
  intros ep k v. unfold stored, w0. simpl. intros Hs.
  destruct (_ !! ep) as [st|] eqn:E; [|done]. simpl in Hs.
  repeat (apply lookup_insert_Some in E as [[_ <-]|[_ E]]; [by rewrite lookup_empty in Hs|]).
  apply lookup_singleton_Some in E as [_ <-]. by rewrite lookup_empty in Hs.
Qed.

Lemma entries0_nodup : NoDup (od_keys entries0).
Proof. decide_vm. Qed.

(** Replica failover looks at one key per batch.  [k1] and [k2] have the
    same primary [a] and different second replicas; both are published to
    all their replicas and then [a] goes down.  Looked up alone, [k2] is
    found at its replica; in the batch [k1; k2] the group is sent to the
    replicas of [k1] and [k2] is reported missing. *)
Theorem batch_failover_can_miss :
  let dc := client 2 in
  let w1 := @put table_hash dc w0 entries0 in
  let w2 := mk_cluster (c_shards w1) a_down in
  (@get table_hash dc w2 ["k2"]).1 = [Some loc0] ∧
  (@get table_hash dc w2 ["k1"; "k2"]).1 = [Some loc0; None].
Proof. vm_compute. split; reflexivity. Qed.

Lemma directory_batch_lookup_witness :
  @dir_exists table_hash (client 1) w0 ["k1"; "k2"] = ([false; false], w0).
Proof.
  destruct (@directory_batch_lookup table_hash (client 1) w0 ["k1"; "k2"] w0_wf) as (_ & He & _).
  rewrite He. vm_compute. reflexivity.
Defined.

Lemma directory_put_delete_effects_witness :
  stored (@put table_hash (client 1) w0 entries0) "a:9000" "k1" = Some (loc_to_dict loc0).
Proof.
  destruct (@directory_put_delete_effects table_hash (client 1) w0 entries0 [] entries0_nodup w0_wf)
    as (Hp & _). rewrite Hp. vm_compute. reflexivity.
Defined.

Lemma directory_put_then_get_witness :
  (@get table_hash (client 2)
     (mk_cluster (c_shards (@put table_hash (client 2) w0 entries0)) a_down) ["k2"]).1 = [Some loc0].
Proof.
  refine (proj1 (@directory_put_then_get table_hash (client 2) w0 entries0 a_down "k2" loc0
    entries0_nodup w0_wf _ _ _ _)).
  - vm_compute. discriminate.
  - vm_compute. reflexivity.
  - intros n ep Hn Hl.
    assert (@_owners table_hash (client 2) "k2" = ["a"; "c"]) as Ho by (vm_compute; reflexivity).
    rewrite Ho in Hn. apply live_endpoint_Some in Hl as (Hr & _ & _).
    repeat (apply elem_of_cons in Hn as [->|Hn]; [injection Hr as <-; vm_compute; reflexivity|]).
    destruct (not_elem_of_nil _ Hn).
  - exists "c". split; [decide_vm|]. exists "c:9000". vm_compute. reflexivity.
Defined.
End DirectoryExamples.
