(* ===== verification/Discovery.v ===== *)
(** Membership: the meta node's registry and the client side of [discovery.py].

    [DiscoveryServer] is a table of leases: a member stays listed while its
    last heartbeat is at most [ttl] old at the next pruning.  The clock is a
    parameter of every handler.  [DiscoveryClient] derives the master hosts
    from the membership it knows, registers with and heartbeats to all of
    them, and merges what they report. *)
From S2P Require Import Prelude Bytes HashRing Types Rpc.

(** ** The registry *)

(** [_members]: node id to its descriptor and the time of its last heartbeat. *)
Record DiscoveryServer := mk_disc {
  ds_ttl : Z;
  ds_members : list (string * (pyval * Z))
}.

(** [DiscoveryServer.__init__] *)
Definition new_disc (member_ttl : Z) : DiscoveryServer := mk_disc member_ttl [].

Definition with_members (st : DiscoveryServer) (m : list (string * (pyval * Z))) : DiscoveryServer :=
  mk_disc (ds_ttl st) m.

Definition _ids (st : DiscoveryServer) : list string := merge_sort String.le (od_keys (ds_members st)).

Definition expired (now ttl : Z) (e : string * (pyval * Z)) : Prop := now - e.2.2 > ttl.
#[export] Instance expired_dec now ttl e : Decision (expired now ttl e).
Proof. unfold expired. apply _. Defined.

Definition _prune (st : DiscoveryServer) (now : Z) : DiscoveryServer :=
  let dead := (filter (expired now (ds_ttl st)) (ds_members st)).*1 in
  with_members st (foldl od_del (ds_members st) dead).

Arguments _prune : simpl never.

(** [[m for m, _ in self._members.values()]] *)
Definition member_list (st : DiscoveryServer) : pyval := VList ((λ e, e.2.1) <$> ds_members st).

(** A wire value used as a node id. *)
Definition as_id (v : pyval) : pyres string :=
  match v with
  | VStr s => Ret s
  | VList _ | VDict _ => Raise TypeError
  | _ => Raise IllTyped
  end.

Definition _on_register (now : Z) (st : DiscoveryServer) (args : pyval) : pyres pyval * DiscoveryServer :=
  match info ← py_getitem args "node"; v ← py_getitem info "node_id"; nid ← as_id v; mret (info, nid) with
  | Raise e => (Raise e, st)
  | Ret (info, nid) =>
      let st' := _prune (with_members st (od_set (ds_members st) nid (info, now))) now in
      (Ret (VDict [("members", member_list st')]), st')
  end.

Definition _on_heartbeat (now : Z) (st : DiscoveryServer) (args : pyval) : pyres pyval * DiscoveryServer :=
  match v ← py_getitem args "node_id"; as_id v with
  | Raise e => (Raise e, st)
  | Ret nid =>
      match od_get (ds_members st) nid with
      | Some (info, _) =>
          (Ret (VDict [("known", VBool true)]),
           _prune (with_members st (od_set (ds_members st) nid (info, now))) now)
      | None => (Ret (VDict [("known", VBool false)]), _prune st now)
      end
  end.

Definition _on_members (now : Z) (st : DiscoveryServer) (args : pyval) : pyres pyval * DiscoveryServer :=
  let st' := _prune st now in (Ret (VDict [("members", member_list st')]), st').

Definition _on_deregister (now : Z) (st : DiscoveryServer) (args : pyval) : pyres pyval * DiscoveryServer :=
  match v ← py_getitem args "node_id"; as_id v with
  | Raise e => (Raise e, st)
  | Ret nid => (Ret (VDict [("ok", VBool true)]), with_members st (od_del (ds_members st) nid))
  end.

(** The handlers [__init__] registers, with the clock reading [now]. *)
Definition disc_service (now : Z) : Service DiscoveryServer :=
  register (register (register (register (λ _, None) "register" (_on_register now))
    "heartbeat" (_on_heartbeat now)) "members" (_on_members now)) "deregister" (_on_deregister now).

(** ** The client *)

Record DiscoveryClient := mk_dcli {
  k_seeds : list string;
  k_seed_hosts : list string;
  k_meta_port : Z;
  k_max_masters : Z;
  k_self : NodeInfo;
  k_members : list (string * NodeInfo)
}.

(** [s.rsplit(":", 1)[0]] *)
Definition host_part (s : string) : string :=
  match rsplit1 colon s with Some (h, _) => h | None => s end.

(** [DiscoveryClient.__init__]: the fields that determine its behaviour. *)
Definition new_dcli (discovery_addr : string) (self_info : NodeInfo) (meta_port : option Z) (max_masters : Z) :
    pyres DiscoveryClient :=
  let seeds := filter (λ s, s ≠ "") (py_strip <$> py_split comma discovery_addr) in
  port ← match meta_port with
         | Some p => Ret p
         | None =>
             match seeds with
             | [] => Raise IndexError
             | s :: _ => match rsplit1 colon s with
                         | Some (_, p) => py_int (VStr p)
                         | None => Raise IndexError
                         end
             end
         end;
  mret (mk_dcli seeds (host_part <$> seeds) port (Z.max 1 max_masters) self_info []).

Definition endpoint_of (c : DiscoveryClient) (node_id : string) : option string :=
  rdma_endpoint <$> od_get (k_members c) node_id.

Definition control_of (c : DiscoveryClient) (node_id : string) : option string :=
  control_endpoint <$> od_get (k_members c) node_id.

(** [sorted({m.control_host for m in members})] *)
Definition member_hosts (members : list NodeInfo) : list string :=
  merge_sort String.le (elements (list_to_set (n_control_host <$> members) : gset string)).

Definition _masters_from (c : DiscoveryClient) (members : list NodeInfo) : list string :=
  let hosts := member_hosts members in
  let heads := filter (λ h, h ∈ hosts) (k_seed_hosts c) in
  let others := filter (λ h, h ∉ heads) hosts in
  take (Z.to_nat (k_max_masters c)) (heads ++ others).

Definition master_hosts (c : DiscoveryClient) : list string := _masters_from c (k_members c).*2.

(** [list(dict.fromkeys(self._seeds + master_eps))] *)
Definition _targets (c : DiscoveryClient) : list string :=
  let master_eps := (λ h, h +:+ ":" +:+ pretty (k_meta_port c)) <$> master_hosts c in
  uniq (k_seeds c ++ master_eps).

(** [{m["node_id"]: NodeInfo.from_dict(m) for m in raw_members}] *)
Fixpoint parse_members (raw : list pyval) (acc : list (string * NodeInfo)) : pyres (list (string * NodeInfo)) :=
  match raw with
  | [] => Ret acc
  | m :: raw' =>
      v ← py_getitem m "node_id"; nid ← as_id v; n ← node_from_dict m;
      parse_members raw' (od_set acc nid n)
  end.

(** [_apply_members]: the new client and the list given to the [on_members]
    callback. *)
Definition _apply_members (c : DiscoveryClient) (raw : list pyval) : pyres (DiscoveryClient * list NodeInfo) :=
  members ← parse_members raw [];
  mret (mk_dcli (k_seeds c) (k_seed_hosts c) (k_meta_port c) (k_max_masters c) (k_self c) members,
        members.*2).

(** [for m in resp.get("members", []): merged[m["node_id"]] = m]; an exception
    leaves what was merged before it. *)
Fixpoint merge_members (ms : list pyval) (merged : list (string * pyval)) : pyres unit * list (string * pyval) :=
  match ms with
  | [] => (Ret tt, merged)
  | m :: ms' =>
      match v ← py_getitem m "node_id"; as_id v with
      | Raise e => (Raise e, merged)
      | Ret nid => merge_members ms' (od_set merged nid m)
      end
  end.

Definition merge_reply (resp : pyval) (merged : list (string * pyval)) : pyres unit * list (string * pyval) :=
  match v ← py_get resp "members" (VList []); py_list v with
  | Raise e => (Raise e, merged)
  | Ret ms => merge_members ms merged
  end.

Abbreviation dnet := (cluster DiscoveryServer).

Definition _register_one (now : Z) (c : DiscoveryClient) (w : dnet) (ep : string) (merged : list (string * pyval)) :
    bool * list (string * pyval) * dnet :=
  match net_call (disc_service now) w ep "register" (VDict [("node", node_to_dict (k_self c))]) with
  | (Raise _, w') => (false, merged, w')
  | (Ret resp, w') =>
      match merge_reply resp merged with
      | (Ret _, merged') => (true, merged', w')
      | (Raise _, merged') => (false, merged', w')
      end
  end.

(** What [time.time()] gives in the handler of a method at an endpoint: every
    call of a round reads its own clock. *)
Definition clock := string → string → Z.

(** [reached = sum(self._register_one(ep, merged) for ep in self._targets())] *)
Definition register_step (now : clock) (c : DiscoveryClient) (st : Z * list (string * pyval) * dnet) (ep : string) :
    Z * list (string * pyval) * dnet :=
  let '(reached, merged, w) := st in
  let '(ok, merged', w') := _register_one (now ep "register") c w ep merged in
  (reached + (if ok then 1 else 0), merged', w').

Definition register_all (now : clock) (c : DiscoveryClient) (eps : list string) (w : dnet) :
    Z * list (string * pyval) * dnet := foldl (register_step now c) (0, [], w) eps.

(** [DiscoveryClient.register] *)
Definition client_register (now : clock) (c : DiscoveryClient) (w : dnet) :
    pyres (DiscoveryClient * list NodeInfo) * dnet :=
  let '(reached, merged, w') := register_all now c (_targets c) w in
  if reached =? 0 then (Raise ConnectionError, w')
  else (_apply_members c merged.*2, w').

(** The body of the [for ep in self._targets()] loop of [_loop]. *)
Definition beat_one (now : clock) (c : DiscoveryClient) (st : Z * list (string * pyval) * dnet) (ep : string) :
    Z * list (string * pyval) * dnet :=
  let '(reached, merged, w) := st in
  match net_call (disc_service (now ep "heartbeat")) w ep "heartbeat" (VDict [("node_id", VStr (n_node_id (k_self c)))]) with
  | (Raise _, w1) => (reached, merged, w1)
  | (Ret hb, w1) =>
      let reached := reached + 1 in
      match py_get hb "known" (VBool false) with
      | Raise _ => (reached, merged, w1)
      | Ret v =>
          if py_truthy v then
            match net_call (disc_service (now ep "members")) w1 ep "members" (VDict []) with
            | (Raise _, w2) => (reached, merged, w2)
            | (Ret mem, w2) => (reached, (merge_reply mem merged).2, w2)
            end
          else
            let '(_, merged', w2) := _register_one (now ep "register") c w1 ep merged in (reached, merged', w2)
      end
  end.

(** One turn of [_loop] after its sleep; [None] when the membership is kept
    (and no callback runs). *)
Definition heartbeat_round (now : clock) (c : DiscoveryClient) (w : dnet) :
    pyres (option (DiscoveryClient * list NodeInfo)) * dnet :=
  let '(reached, merged, w') := foldl (beat_one now c) (0, [], w) (_targets c) in
  if reached =? 0 then (Ret None, w')
  else match merged with
       | [] => (Ret None, w')
       | _ => (r ← _apply_members c merged.*2; mret (Some r), w')
       end.

(** The deregistrations of [stop]. *)
Definition client_stop (now : clock) (c : DiscoveryClient) (w : dnet) : dnet :=
  foldl (λ w ep, (net_call (disc_service (now ep "deregister")) w ep "deregister"
                    (VDict [("node_id", VStr (n_node_id (k_self c)))])).2) w (_targets c).

(** ** The registry as a table of leases *)

Definition disc_wf (st : DiscoveryServer) : Prop := NoDup (od_keys (ds_members st)).

(** A lease that the pruning at [now] leaves or drops. *)
Definition expire (now ttl : Z) (s : option (pyval * Z)) : option (pyval * Z) :=
  p ← s; if bool_decide (now - p.2 > ttl) then None else Some p.
Arguments expire : simpl never.

Lemma foldl_od_del_get {V} (d : list (string * V)) dead k :
  NoDup (od_keys d) →
  NoDup (od_keys (foldl od_del d dead)) ∧
  od_get (foldl od_del d dead) k = if bool_decide (k ∈ dead) then None else od_get d k.
Proof.
  revert d. induction dead as [|k' dead IH]; intros d Hnd; cbn [foldl].
  - split; [done|]. by rewrite bool_decide_eq_false_2 by apply not_elem_of_nil.
  - destruct (IH (od_del d k')) as [H1 ->]; [by apply od_keys_del_nodup|]. split; [done|].
    rewrite od_get_del by done. destruct (decide (k' = k)) as [<-|Hne].
    + rewrite (bool_decide_eq_true_2 (k' ∈ k' :: dead)) by (apply elem_of_cons; by left).
      by destruct (bool_decide _).
    + rewrite (bool_decide_ext (k ∈ k' :: dead) (k ∈ dead)); [done|]. rewrite elem_of_cons. naive_solver.
Qed.

Lemma prune_get st now nid :
  disc_wf st →
  disc_wf (_prune st now) ∧
  od_get (ds_members (_prune st now)) nid = expire now (ds_ttl st) (od_get (ds_members st) nid).
Proof.
  intros Hwf. unfold _prune, disc_wf. simpl.
  destruct (foldl_od_del_get (ds_members st) (filter (expired now (ds_ttl st)) (ds_members st)).*1 nid Hwf)
    as [Hnd ->]. split; [done|].
  destruct (od_get (ds_members st) nid) as [[i ts]|] eqn:Eg; unfold expire; simpl; [|by destruct (bool_decide _)].
  rewrite (bool_decide_ext (nid ∈ (filter (expired now (ds_ttl st)) (ds_members st)).*1)
    (now - ts > ds_ttl st)).
  { by destruct (bool_decide _). }
  rewrite list_elem_of_fmap. split.
  - intros ([n [i' ts']] & -> & [Hx Hin]%list_elem_of_filter). apply (od_elem_get _ _ _ Hwf) in Hin.
    simpl in *. rewrite Hin in Eg. by simplify_eq.
  - intros Hx. exists (nid, (i, ts)). split; [done|]. apply list_elem_of_filter.
    split; [done|]. by apply od_get_elem.
Qed.

(** What a request asks of the registry; the descriptor's [node_id] is the key. *)
Inductive disc_event :=
  | ERegister (nid : string) (rest : list (string * pyval))
  | EHeartbeat (nid : string)
  | EMembers
  | EDeregister (nid : string).

Definition event_info (nid : string) (rest : list (string * pyval)) : pyval :=
  VDict (("node_id", VStr nid) :: rest).

(** Executing the request at time [now]. *)
Definition disc_exec (st : DiscoveryServer) (te : Z * disc_event) : DiscoveryServer :=
  let '(now, e) := te in
  match e with
  | ERegister nid rest => (_on_register now st (VDict [("node", event_info nid rest)])).2
  | EHeartbeat nid => (_on_heartbeat now st (VDict [("node_id", VStr nid)])).2
  | EMembers => (_on_members now st (VDict [])).2
  | EDeregister nid => (_on_deregister now st (VDict [("node_id", VStr nid)])).2
  end.

(** The lease of one node, on its own. *)
Definition lease_step (ttl : Z) (nid : string) (s : option (pyval * Z)) (te : Z * disc_event) :
    option (pyval * Z) :=
  let '(now, e) := te in
  match e with
  | ERegister n rest => expire now ttl (if decide (n = nid) then Some (event_info n rest, now) else s)
  | EHeartbeat n => expire now ttl (if decide (n = nid) then (λ p, (p.1, now)) <$> s else s)
  | EMembers => expire now ttl s
  | EDeregister n => if decide (n = nid) then None else s
  end.

Lemma disc_exec_lease st te nid :
  disc_wf st →
  disc_wf (disc_exec st te) ∧ ds_ttl (disc_exec st te) = ds_ttl st ∧
  od_get (ds_members (disc_exec st te)) nid =
    lease_step (ds_ttl st) nid (od_get (ds_members st) nid) te.
Proof.
  intros Hwf. destruct te as [now [n rest|n| |n]].
  - change (disc_exec st (now, ERegister n rest)) with
      (_prune (with_members st (od_set (ds_members st) n (event_info n rest, now))) now).
    destruct (prune_get (with_members st (od_set (ds_members st) n (event_info n rest, now))) now nid)
      as [H1 H2]; [by apply od_keys_set_nodup|].
    split; [done|]. split; [done|]. etrans; [exact H2|]. simpl. by rewrite od_get_set.
  - simpl. unfold _on_heartbeat. simpl.
    destruct (od_get (ds_members st) n) as [[i ts]|] eqn:Eg; simpl.
    + destruct (prune_get (with_members st (od_set (ds_members st) n (i, now))) now nid)
        as [H1 H2]; [by apply od_keys_set_nodup|].
      split; [done|]. split; [done|]. etrans; [exact H2|]. simpl. rewrite od_get_set.
      case_decide as Hn; [subst; by rewrite Eg|done].
    + destruct (prune_get st now nid Hwf) as [H1 H2]. split; [done|]. split; [done|]. etrans; [exact H2|].
      case_decide as Hn; [subst; by rewrite Eg|done].
  - destruct (prune_get st now nid Hwf) as [H1 H2]. done.
  - unfold _on_deregister. simpl. split; [by apply od_keys_del_nodup|]. split; [done|].
    by rewrite od_get_del.
Qed.

Lemma disc_run_lease st trace nid :
  disc_wf st →
  disc_wf (foldl disc_exec st trace) ∧ ds_ttl (foldl disc_exec st trace) = ds_ttl st ∧
  od_get (ds_members (foldl disc_exec st trace)) nid =
    foldl (lease_step (ds_ttl st) nid) (od_get (ds_members st) nid) trace.
Proof.
  revert st. induction trace as [|te trace IH]; intros st Hwf; simpl; [done|].
  destruct (disc_exec_lease st te nid Hwf) as (H1 & H2 & H3).
  destruct (IH _ H1) as (H4 & H5 & H6). split; [done|]. split; [congruence|].
  by rewrite H6, H2, H3.
Qed.

(** The request is a sign of life of [nid]. *)
Definition is_beat (nid : string) (e : disc_event) : bool :=
  match e with ERegister n _ | EHeartbeat n => bool_decide (n = nid) | _ => false end.
Definition is_deregister (nid : string) (e : disc_event) : bool :=
  match e with EDeregister n => bool_decide (n = nid) | _ => false end.

(** From a sign of life at time [last] on, no request of the trace finds the
    last one more than [ttl] old, and the node does not leave. *)
Fixpoint keeps_beating (ttl : Z) (nid : string) (last : Z) (trace : list (Z * disc_event)) : bool :=
  match trace with
  | [] => true
  | (t, e) :: trace' =>
      if is_deregister nid e then false
      else if is_beat nid e then keeps_beating ttl nid t trace'
      else (t - last <=? ttl) && keeps_beating ttl nid last trace'
  end.

Lemma lease_kept ttl nid info last trace :
  0 ≤ ttl → keeps_beating ttl nid last trace = true →
  is_Some (foldl (lease_step ttl nid) (Some (info, last)) trace).
Proof.
  intros Httl. revert info last. induction trace as [|[t e] trace IH]; intros info last; simpl; [done|].
  assert (∀ i t', t - t' ≤ ttl → expire t ttl (Some (i, t')) = Some (i, t')) as Hex.
  { intros i t' Ht. unfold expire. simpl. rewrite bool_decide_eq_false_2; [done|]. lia. }
  destruct e as [n rest|n| |n]; simpl.
  - case_bool_decide as Hn.
    + rewrite decide_True, Hex by (done || lia). apply IH.
    + rewrite decide_False by done. intros [Ht Hk]%andb_true_iff. bool_cases. rewrite Hex by lia. by apply IH.
  - case_bool_decide as Hn.
    + rewrite decide_True by done. simpl. rewrite Hex by lia. apply IH.
    + rewrite decide_False by done. intros [Ht Hk]%andb_true_iff. bool_cases. rewrite Hex by lia. by apply IH.
  - intros [Ht Hk]%andb_true_iff. bool_cases. rewrite Hex by lia. by apply IH.
  - case_bool_decide as Hn; [done|]. rewrite decide_False by done.
    intros [Ht Hk]%andb_true_iff. by apply IH.
Qed.

(** Where a lease's time comes from. *)
Lemma lease_origin ttl nid trace i ts :
  foldl (lease_step ttl nid) None trace = Some (i, ts) →
  ∃ e, (ts, e) ∈ trace ∧ is_beat nid e = true.
Proof.
  revert i ts. induction trace as [|[t e] trace IH] using rev_ind; intros i ts; simpl; [done|].
  rewrite foldl_snoc. set (s := foldl _ None trace) in *.
  assert (∀ s', expire t ttl s' = Some (i, ts) → s' = Some (i, ts)) as Hex.
  { intros [[]|]; unfold expire; simpl; [|done]. by case_bool_decide. }
  assert (s = Some (i, ts) → ∃ e', (ts, e') ∈ trace ++ [(t, e)] ∧ is_beat nid e' = true) as Hold.
  { intros Hs. destruct (IH _ _ Hs) as (e' & ? & ?). exists e'. split; [|done]. apply elem_of_app. by left. }
  assert (t = ts → is_beat nid e = true → ∃ e', (ts, e') ∈ trace ++ [(t, e)] ∧ is_beat nid e' = true) as Hnew.
  { intros <- ?. exists e. split; [|done]. apply elem_of_app. right. by apply list_elem_of_singleton. }
  destruct e as [n rest|n| |n]; simpl.
  - intros Hs%Hex. case_decide as Hn; [|by apply Hold]. simplify_eq. apply Hnew; [done|].
    simpl. by apply bool_decide_eq_true.
  - intros Hs%Hex. case_decide as Hn; [|by apply Hold]. destruct s as [[]|]; simplify_eq/=.
    apply Hnew; [done|]. simpl. by apply bool_decide_eq_true.
  - intros Hs%Hex. by apply Hold.
  - case_decide; [done|]. apply Hold.
Qed.

(** C24: the registry is a table of independent leases.  After any sequence of
    requests, a node's entry is what its own lease says: renewed by its
    registrations and heartbeats, ended by its deregistration and by the first
    request that finds it older than the TTL. *)
Theorem registry_refines_leases (ttl : Z) (trace : list (Z * disc_event)) (nid : string) :
  od_get (ds_members (foldl disc_exec (new_disc ttl) trace)) nid =
    foldl (lease_step ttl nid) None trace.
Proof. exact (proj2 (proj2 (disc_run_lease (new_disc ttl) trace nid (NoDup_nil_2)))). Qed.

(** Who is listed.  Safety: a member that the registry lists when it is
    asked at [now] was heard of at most TTL ago.  Liveness: a node that
    registered, never lets more than the TTL pass before a request without
    sending a sign of life and does not deregister, is listed. *)
Theorem registry_lists_live_nodes (ttl : Z) (trace : list (Z * disc_event)) (nid : string) (Httl : 0 ≤ ttl) :
  (∀ now i ts,
    od_get (ds_members (disc_exec (foldl disc_exec (new_disc ttl) trace) (now, EMembers))) nid = Some (i, ts) →
    now - ts ≤ ttl ∧ ∃ e, (ts, e) ∈ trace ∧ is_beat nid e = true) ∧
  (∀ trace1 t0 rest trace2, trace = trace1 ++ (t0, ERegister nid rest) :: trace2 →
    keeps_beating ttl nid t0 trace2 = true →
    is_Some (od_get (ds_members (foldl disc_exec (new_disc ttl) trace)) nid)).
Proof.
  split.
  - intros now i ts Hl.
    destruct (disc_run_lease (new_disc ttl) trace nid (NoDup_nil_2)) as (Hwf & Ht & Hg).
    destruct (disc_exec_lease _ (now, EMembers) nid Hwf) as (_ & _ & Hl'). rewrite Hl in Hl'.
    simpl in Hl'. rewrite Ht, Hg in Hl'. unfold expire in Hl'.
    change (od_get (ds_members (new_disc ttl)) nid) with (@None (pyval * Z)) in Hl'. simpl ds_ttl in Hl'.
    destruct (foldl (lease_step ttl nid) None trace) as [[i' ts']|] eqn:Ef; simpl in Hl'; [|done].
    case_bool_decide as Hx; [done|]. injection Hl' as <- <-. split; [simpl in *; lia|].
    by apply lease_origin in Ef.
  - intros trace1 t0 rest trace2 -> Hk.
    destruct (disc_run_lease (new_disc ttl) (trace1 ++ (t0, ERegister nid rest) :: trace2) nid (NoDup_nil_2))
      as (_ & _ & ->).
    rewrite foldl_app. simpl. rewrite decide_True by done. unfold expire. simpl.
    rewrite bool_decide_eq_false_2 by lia. by apply lease_kept.
Qed.

(** ** Masters *)

Lemma member_hosts_elem members h :
  h ∈ member_hosts members ↔ h ∈ n_control_host <$> members.
Proof.
  unfold member_hosts. rewrite merge_sort_Permutation, elem_of_elements, elem_of_list_to_set. done.
Qed.

Lemma member_hosts_nodup members : NoDup (member_hosts members).
Proof. unfold member_hosts. rewrite merge_sort_Permutation. apply NoDup_elements. Qed.

Lemma member_hosts_sorted members : StronglySorted String.le (member_hosts members).
Proof. apply StronglySorted_merge_sort; apply _. Qed.

(** Only the set of hosts matters. *)
Lemma member_hosts_set ms1 ms2 :
  (∀ h, h ∈ n_control_host <$> ms1 ↔ h ∈ n_control_host <$> ms2) → member_hosts ms1 = member_hosts ms2.
Proof.
  intros He. unfold member_hosts. do 2 f_equal. apply leibniz_equiv. intros h.
  rewrite !elem_of_list_to_set. apply He.
Qed.

Lemma StronglySorted_filter {A} (R : relation A) (P : A → Prop) `{∀ x, Decision (P x)} (l : list A) :
  StronglySorted R l → StronglySorted R (filter P l).
Proof.
  induction 1 as [|x l Hs IH Hx]; [constructor|]. rewrite filter_cons. case_decide; [|done].
  constructor; [done|]. rewrite Forall_forall in *. intros y [_ Hy]%list_elem_of_filter. by apply Hx.
Qed.

Lemma masters_perm c members :
  NoDup (k_seed_hosts c) →
  ∃ heads others, heads = filter (λ h, h ∈ member_hosts members) (k_seed_hosts c) ∧
    others = filter (λ h, h ∉ heads) (member_hosts members) ∧
    _masters_from c members = take (Z.to_nat (k_max_masters c)) (heads ++ others) ∧
    heads ++ others ≡ₚ member_hosts members.
Proof.
  intros Hnd. eexists _, _. split; [done|]. split; [done|]. split; [done|].
  set (heads := filter _ _). set (others := filter _ _).
  apply NoDup_Permutation; [|apply member_hosts_nodup|].
  - apply NoDup_app. split; [by apply NoDup_filter|].
    split; [|apply NoDup_filter, member_hosts_nodup].
    intros h Hh [Hn _]%list_elem_of_filter. done.
  - intros h. rewrite elem_of_app. subst others. rewrite list_elem_of_filter.
    split; [|intros Hh; destruct (decide (h ∈ heads)); naive_solver].
    intros [Hh|[_ Hh]]; [|done]. subst heads. by apply list_elem_of_filter in Hh as [? _].
Qed.

(** How masters are chosen.  With distinct seed hosts, the masters are
    [min max_masters (number of live hosts)] distinct live hosts; a live seed
    host comes before every other host and takes precedence over it; among the
    others the smallest host names are chosen; and two clients with the same
    seeds whose memberships have the same hosts choose the same masters. *)
Theorem masters_choice (c : DiscoveryClient) (members : list NodeInfo)
  (Hnd : NoDup (k_seed_hosts c)) (Hmax : 1 ≤ k_max_masters c) :
  let ms := _masters_from c members in
  let hosts := member_hosts members in
  NoDup ms ∧ (∀ h, h ∈ ms → h ∈ n_control_host <$> members) ∧
  length ms = Nat.min (Z.to_nat (k_max_masters c)) (length hosts) ∧
  (∀ s, head (filter (λ h, h ∈ hosts) (k_seed_hosts c)) = Some s → head ms = Some s) ∧
  (∀ h h', h ∈ ms → h' ∈ hosts → h' ∉ ms → h ∉ k_seed_hosts c →
    (h' ∉ k_seed_hosts c) ∧ String.le h h') ∧
  (∀ members', (∀ h, h ∈ n_control_host <$> members ↔ h ∈ n_control_host <$> members') →
    _masters_from c members' = ms).
Proof.
  destruct (masters_perm c members Hnd) as (heads & others & Hh & Ho & Hms & Hp). cbv zeta.
  rewrite Hms. set (n := Z.to_nat (k_max_masters c)).
  assert (NoDup (heads ++ others)) as Hnd' by (rewrite Hp; apply member_hosts_nodup).
  split; [|split; [|split; [|split; [|split]]]].
  - eapply sublist_NoDup; [exact Hnd'|]. apply sublist_take.
  - intros h Hin. apply member_hosts_elem. rewrite <-Hp. eapply elem_of_sublist; [exact Hin|]. apply sublist_take.
  - rewrite length_take, Hp. done.
  - intros s Hs. rewrite <-Hh in Hs. destruct heads; [done|]. simplify_eq/=.
    destruct n eqn:En; [lia|]. done.
  - intros h h' Hin Hhost Hnin Hns. rewrite take_app in Hin, Hnin.
    assert (h ∉ heads) as Hnh by (rewrite Hh; by intros [_ ?]%list_elem_of_filter).
    apply elem_of_app in Hin as [Hin|Hin]; [destruct Hnh; eapply elem_of_sublist; [exact Hin|apply sublist_take]|].
    rewrite not_elem_of_app in Hnin. destruct Hnin as [Hn1 Hn2].
    assert (length heads < n)%nat as Hlt.
    { destruct (decide (length heads < n)%nat) as [?|Hge]; [done|].
      replace (n - length heads)%nat with 0%nat in Hin by lia. by apply not_elem_of_nil in Hin. }
    rewrite take_ge in Hn1 by lia.
    assert (h' ∈ others) as Ho' by (rewrite Ho; by apply list_elem_of_filter).
    split.
    { intros Hs. apply Hn1. rewrite Hh. by apply list_elem_of_filter. }
    eapply (StronglySorted_app_1_elem_of _ (take (n - length heads) others) (drop (n - length heads) others));
      [|exact Hin|].
    + rewrite take_drop, Ho. apply StronglySorted_filter, member_hosts_sorted.
    + rewrite <-(take_drop (n - length heads) others) in Ho'. by apply elem_of_app in Ho' as [?|?].
  - intros members' He. unfold _masters_from. rewrite <-(member_hosts_set members members') by done.
    by rewrite Hh, Ho, Hh.
Qed.

(** A repeated seed host takes a master slot twice.  With the seeds
    ["h:1,h:2"] and room for two masters, the second live host is not promoted. *)
Theorem duplicate_seed_host_wastes_slot :
  let self := mk_node "n1" "h" 1 "h" 9 "inference" in
  let other := mk_node "n2" "i" 1 "i" 9 "inference" in
  ∃ c, new_dcli "h:1, h:2" self None 2 = Ret c ∧ _masters_from c [self; other] = ["h"; "h"].
Proof. eexists. split; vm_compute; reflexivity. Qed.

(** ** Joining and heartbeating *)

Section registries.
Context {T : Z}.

(** A registry whose entries are descriptors filed under their own id and whose
    leases last for at least [T]. *)
Definition registry_ok (st : DiscoveryServer) : Prop :=
  disc_wf st ∧ 0 ≤ T ≤ ds_ttl st ∧
  ∀ nid i ts, od_get (ds_members st) nid = Some (i, ts) → ∃ n, i = node_to_dict n ∧ n_node_id n = nid.

(** The same for the answers a client has merged. *)
Definition merged_ok (merged : list (string * pyval)) : Prop :=
  NoDup (od_keys merged) ∧
  ∀ nid m, od_get merged nid = Some m → ∃ n, m = node_to_dict n ∧ n_node_id n = nid.

Lemma expire_Some now ttl s p : expire now ttl s = Some p → s = Some p.
Proof. unfold expire. destruct s as [q|]; simpl; [|done]. by case_bool_decide. Qed.

Lemma prune_ok st now : registry_ok st → registry_ok (_prune st now).
Proof.
  intros (Hwf & Ht & Hm). split; [by apply (prune_get st now "")|]. split; [done|].
  intros nid i ts. rewrite (proj2 (prune_get st now nid Hwf)). intros Hs%expire_Some. by eapply Hm.
Qed.

(** Merging the member list of a registry. *)
Lemma merge_members_spec ms merged :
  merged_ok merged → Forall (λ m, ∃ n, m = node_to_dict n) ms →
  ∃ merged', merge_members ms merged = (Ret tt, merged') ∧ merged_ok merged' ∧
    ∀ nid, (is_Some (od_get merged' nid) ↔
      is_Some (od_get merged nid) ∨ ∃ n, node_to_dict n ∈ ms ∧ n_node_id n = nid) ∧
      (∀ m, od_get merged' nid = Some m → od_get merged nid = Some m ∨ m ∈ ms).
Proof.
  revert merged. induction ms as [|m ms IH]; intros merged Hok Hf; simpl.
  - exists merged. split; [done|]. split; [done|]. intros nid. split; [|by left].
    split; [by left|]. intros [?|(n & ?%not_elem_of_nil & _)]; done.
  - apply Forall_cons in Hf as [[n ->] Hf]. simpl.
    destruct (IH (od_set merged (n_node_id n) (node_to_dict n))) as (merged' & He & Hok' & Hm); [|done|].
    { destruct Hok as [Hnd Hv]. split; [by apply od_keys_set_nodup|]. intros nid m. rewrite od_get_set.
      case_decide; [|apply Hv]. intros [= <-]. eauto. }
    exists merged'. split; [done|]. split; [done|]. intros nid. destruct (Hm nid) as [H1 H2].
    rewrite od_get_set in H1, H2. split.
    + rewrite H1. case_decide as Hn; split.
      * intros _. right. exists n. split; [apply elem_of_cons; by left|done].
      * intros _. left. by eexists.
      * intros [?|(n' & ? & ?)]; [by left|right]. exists n'. split; [apply elem_of_cons; by right|done].
      * intros [?|(n' & [Hc|?]%elem_of_cons & ?)]; [by left| |right; eauto].
        by apply node_to_dict_inj in Hc as ->.
    + intros m Hg. destruct (H2 m Hg) as [Hs|Hs]; [|right; apply elem_of_cons; by right].
      revert Hs. case_decide; [|by left]. intros [= <-]. right. apply elem_of_cons. by left.
Qed.

Lemma member_list_forall st :
  registry_ok st → Forall (λ m, ∃ n, m = node_to_dict n) ((λ e, e.2.1) <$> ds_members st).
Proof.
  intros (Hwf & _ & Hm). apply Forall_fmap, Forall_forall. intros [nid [i ts]] Hin. simpl.
  destruct (Hm nid i ts) as (n & -> & _); [by apply od_elem_get|]. eauto.
Qed.

Lemma merge_registry st merged :
  registry_ok st → merged_ok merged →
  ∃ merged', merge_reply (VDict [("members", member_list st)]) merged = (Ret tt, merged') ∧ merged_ok merged' ∧
    ∀ nid, is_Some (od_get merged' nid) ↔ is_Some (od_get merged nid) ∨ is_Some (od_get (ds_members st) nid).
Proof.
  intros Hst Hok. pose proof (member_list_forall st Hst) as Hf. destruct Hst as (Hwf & _ & Hm).
  destruct (merge_members_spec _ merged Hok Hf) as (merged' & He & Hok' & Hs).
  exists merged'. split; [done|]. split; [done|]. intros nid. rewrite (proj1 (Hs nid)).
  split; (intros [?|Hn]; [by left|right]).
  - destruct Hn as (n & Hin & <-). apply list_elem_of_fmap in Hin as ([nid [i ts]] & Hi & Hin). simpl in Hi.
    apply (od_elem_get _ _ _ Hwf) in Hin. destruct (Hm _ _ _ Hin) as (n' & -> & <-).
    apply node_to_dict_inj in Hi as ->. by rewrite Hin.
  - destruct Hn as [[i ts] Hg]. destruct (Hm _ _ _ Hg) as (n & -> & <-). exists n. split; [|done].
    apply list_elem_of_fmap. exists (n_node_id n, (node_to_dict n, ts)). split; [done|]. by apply od_get_elem.
Qed.

(** The effect of each request on a well-formed registry. *)
Lemma invoke_register now st n :
  registry_ok st →
  let st' := (invoke (disc_service now) st "register" (VDict [("node", node_to_dict n)])).2 in
  registry_ok st' ∧ is_Some (od_get (ds_members st') (n_node_id n)) ∧
  (invoke (disc_service now) st "register" (VDict [("node", node_to_dict n)])).1 =
    Ret (VDict [("members", member_list st')]).
Proof.
  intros (Hwf & Ht & Hm). cbv zeta.
  change (invoke (disc_service now) st "register" (VDict [("node", node_to_dict n)])) with
    (let st' := _prune (with_members st (od_set (ds_members st) (n_node_id n) (node_to_dict n, now))) now in
     (Ret (VDict [("members", member_list st')]), st')). cbv zeta. simpl fst. simpl snd.
  set (st1 := with_members _ _).
  assert (registry_ok st1) as Hok1.
  { split; [by apply od_keys_set_nodup|]. split; [done|]. intros nid i ts. simpl. rewrite od_get_set.
    case_decide; [|apply Hm]. intros [= <- <-]. eauto. }
  split; [by apply prune_ok|]. split; [|done].
  rewrite (proj2 (prune_get st1 now _ (proj1 Hok1))). simpl. rewrite od_get_set_eq.
  unfold expire. simpl. rewrite bool_decide_eq_false_2 by lia. by eexists.
Qed.

Lemma heartbeat_eq now st nid :
  invoke (disc_service now) st "heartbeat" (VDict [("node_id", VStr nid)]) =
    match od_get (ds_members st) nid with
    | Some (info, _) => (Ret (VDict [("known", VBool true)]),
        _prune (with_members st (od_set (ds_members st) nid (info, now))) now)
    | None => (Ret (VDict [("known", VBool false)]), _prune st now)
    end.
Proof.
  unfold invoke. change (disc_service now "heartbeat") with (Some (_on_heartbeat now)).
  unfold _on_heartbeat. simpl. by destruct (od_get (ds_members st) nid) as [[]|].
Qed.

Lemma invoke_heartbeat now st nid :
  registry_ok st →
  let st' := (invoke (disc_service now) st "heartbeat" (VDict [("node_id", VStr nid)])).2 in
  registry_ok st' ∧ ∃ known,
    (invoke (disc_service now) st "heartbeat" (VDict [("node_id", VStr nid)])).1 = Ret (VDict [("known", VBool known)]) ∧
    (known = true → ∃ i, od_get (ds_members st') nid = Some (i, now)).
Proof.
  intros Hok. pose proof Hok as (Hwf & Ht & Hm). cbv zeta. rewrite heartbeat_eq.
  destruct (od_get (ds_members st) nid) as [[i ts]|] eqn:Eg; cbn [fst snd].
  - set (st1 := with_members _ _).
    assert (registry_ok st1) as Hok1.
    { split; [by apply od_keys_set_nodup|]. split; [done|]. intros nid' i' ts'. simpl. rewrite od_get_set.
      case_decide; [|apply Hm]. intros [= <- <-]. subst nid'. by eapply Hm. }
    split; [by apply prune_ok|]. exists true. split; [done|]. intros _. exists i.
    rewrite (proj2 (prune_get st1 now _ (proj1 Hok1))). simpl. rewrite od_get_set_eq.
    unfold expire. simpl. by rewrite bool_decide_eq_false_2 by lia.
  - split; [by apply prune_ok|]. by exists false.
Qed.

Lemma invoke_members now st :
  invoke (disc_service now) st "members" (VDict []) =
    (Ret (VDict [("members", member_list (_prune st now))]), _prune st now).
Proof. done. Qed.

(** *** The client's rounds *)

Definition joined c (merged : list (string * pyval)) : Prop := is_Some (od_get merged (n_node_id (k_self c))).

Lemma register_one_spec now c w ep merged :
  servers registry_ok w → merged_ok merged →
  ∃ merged' w', _register_one now c w ep merged = (live_ep w ep, merged', w') ∧
    servers registry_ok w' ∧ (∀ ep', live_ep w' ep' = live_ep w ep') ∧ merged_ok merged' ∧
    (joined c merged ∨ live_ep w ep = true → joined c merged').
Proof.
  intros Hw Hm. unfold _register_one.
  destruct (net_call _ w ep "register" _) as [r w'] eqn:En.
  pose proof (net_call_inv (disc_service now) registry_ok (λ _, True) w ep _ _ _ _
    (λ st H, conj (proj1 (invoke_register now st (k_self c) H)) I) Hw En) as (Hw' & Hlive & Hr).
  destruct (live_ep w ep) eqn:El.
  - destruct (net_call_live (disc_service now) registry_ok w ep _ _ _ _
      (λ st H, proj1 (invoke_register now st (k_self c) H)) (Hw ep) El En) as (st & Hst & -> & _).
    destruct (invoke_register now st (k_self c) Hst) as (Hst' & Hself & ->).
    destruct (merge_registry _ merged Hst' Hm) as (merged' & -> & Hm' & Hs).
    exists merged', w'. split; [done|]. split; [done|]. split; [done|]. split; [done|].
    intros _. apply Hs. by right.
  - destruct Hr as [e ->]. exists merged, w'. do 4 (split; [done|]). by intros [?|?].
Qed.

Lemma register_all_spec now c eps w :
  servers registry_ok w →
  ∃ reached merged w', register_all now c eps w = (reached, merged, w') ∧
    servers registry_ok w' ∧ (∀ ep', live_ep w' ep' = live_ep w ep') ∧ merged_ok merged ∧ 0 ≤ reached ∧
    (reached = 0 ↔ ∀ ep, ep ∈ eps → live_ep w ep = false) ∧ (0 < reached → joined c merged).
Proof.
  intros Hw. unfold register_all. induction eps as [|ep eps IH] using rev_ind; simpl.
  - exists 0, [], w. do 3 (split; [done|]). split; [split; [constructor|done]|]. split; [done|].
    split; [|lia]. split; [|done]. by intros _ ep ?%not_elem_of_nil.
  - destruct IH as (reached & merged & w1 & Hf & Hw1 & Hl1 & Hm1 & H0 & Hz & Hj).
    rewrite foldl_snoc, Hf. unfold register_step.
    destruct (register_one_spec (now ep "register") c w1 ep merged Hw1 Hm1) as (merged' & w' & -> & Hw' & Hl' & Hm' & Hj').
    rewrite Hl1 in *. eexists _, merged', w'. split; [reflexivity|]. split; [done|].
    split; [intros; by rewrite Hl', Hl1|]. split; [done|].
    split; [destruct (live_ep w ep); lia|]. split.
    + split.
      * intros Hr ep' [Hin| ->%list_elem_of_singleton]%elem_of_app.
        -- apply Hz; [|done]. destruct (live_ep w ep); lia.
        -- destruct (live_ep w ep); [lia|done].
      * intros Hall. rewrite (Hall ep) by (apply elem_of_app; right; by apply list_elem_of_singleton).
        rewrite (proj2 Hz); [done|]. intros. apply Hall. apply elem_of_app. by left.
    + intros Hr. apply Hj'. destruct (live_ep w ep); [by right|left]. apply Hj. lia.
Qed.

(** Parsing the merged descriptors. *)
Lemma parse_members_spec raw acc :
  Forall (λ m, ∃ n, m = node_to_dict n) raw →
  ∃ members, parse_members raw acc = Ret members ∧
    ∀ nid, is_Some (od_get members nid) ↔
      is_Some (od_get acc nid) ∨ ∃ n, node_to_dict n ∈ raw ∧ n_node_id n = nid.
Proof.
  intros Hf. revert acc. induction Hf as [|m raw [n ->] _ IH]; intros acc; simpl.
  - exists acc. split; [done|]. intros nid. split; [by left|]. intros [?|(n & ?%not_elem_of_nil & _)]; done.
  - destruct (IH (od_set acc (n_node_id n) n)) as (members & He & Hs). exists members.
    split; [by destruct n|]. intros nid. rewrite Hs, od_get_set. case_decide as Hn; split.
    + intros _. right. exists n. split; [apply elem_of_cons; by left|done].
    + intros _. left. by eexists.
    + intros [?|(n' & ? & ?)]; [by left|right]. exists n'. split; [apply elem_of_cons; by right|done].
    + intros [?|(n' & [Hc|?]%elem_of_cons & ?)]; [by left| |right; eauto].
      by apply node_to_dict_inj in Hc as ->.
Qed.

Lemma apply_merged c merged :
  merged_ok merged →
  ∃ c', _apply_members c merged.*2 = Ret (c', (k_members c').*2) ∧ k_self c' = k_self c ∧
    ∀ nid, is_Some (od_get (k_members c') nid) ↔ is_Some (od_get merged nid).
Proof.
  intros [Hnd Hm]. unfold _apply_members.
  destruct (parse_members_spec merged.*2 []) as (members & -> & Hs).
  { apply Forall_fmap, Forall_forall. intros [nid m] Hin. simpl.
    destruct (Hm nid m) as (n & -> & _); [by apply od_elem_get|]. eauto. }
  exists (mk_dcli (k_seeds c) (k_seed_hosts c) (k_meta_port c) (k_max_masters c) (k_self c) members).
  split; [reflexivity|]. split; [done|]. intros nid. simpl. rewrite Hs. split.
  - intros [[? ?]|(n & Hin & <-)]; [done|]. apply list_elem_of_fmap in Hin as ([nid m] & Hd & Hin).
    apply (od_elem_get _ _ _ Hnd) in Hin. simpl in *. destruct (Hm _ _ Hin) as (n' & -> & <-).
    apply node_to_dict_inj in Hd as ->. eauto.
  - intros [m Hg]. right. destruct (Hm _ _ Hg) as (n & -> & <-). exists n. split; [|done].
    apply list_elem_of_fmap. exists (n_node_id n, node_to_dict n). split; [done|]. by apply od_get_elem.
Qed.

(** A master is asked for its members no later than [T] after it was sent the
    heartbeat. *)
Definition prompt (now : clock) : Prop := ∀ ep, now ep "members"%string - now ep "heartbeat"%string ≤ T.

(** The answer to [members] that follows a heartbeat of a known node. *)
Lemma members_after_beat (now : clock) (w w1 : dnet) ep me st r2 w2 i :
  servers registry_ok w1 → (∀ ep', live_ep w1 ep' = live_ep w ep') → live_ep w ep = true →
  registry_ok st → c_shards w1 !! ep = Some st → od_get (ds_members st) me = Some (i, now ep "heartbeat"%string) →
  net_call (disc_service (now ep "members"%string)) w1 ep "members" (VDict []) = (r2, w2) →
  ∃ st2, registry_ok st2 ∧ r2 = Ret (VDict [("members", member_list (_prune st2 (now ep "members"%string)))]) ∧
    (prompt now → is_Some (od_get (ds_members (_prune st2 (now ep "members"%string))) me)).
Proof.
  intros Hw1 Hl1 El Hst Hst1 Hi En2. set (tm := now ep "members"%string). set (th := now ep "heartbeat"%string) in *.
  assert (∀ st2, registry_ok st2 → od_get (ds_members st2) me = Some (i, th) → tm - th ≤ T →
    od_get (ds_members (_prune st2 tm)) me = Some (i, th)) as Hkeep.
  { intros st2 Hok2 Hi2 Ht. rewrite (proj2 (prune_get st2 tm me (proj1 Hok2))), Hi2. unfold expire. simpl.
    rewrite bool_decide_eq_false_2; [done|]. destruct Hok2 as (_ & ? & _). lia. }
  destruct (net_call_live (disc_service tm)
    (λ st, registry_ok st ∧ (tm - th ≤ T → od_get (ds_members st) me = Some (i, th))) w1 ep "members" (VDict []) r2 w2)
    with (4 := En2) as (st2 & [Hok2 Hi2] & -> & _).
  - intros st2 [Hok2 Hi2]. rewrite invoke_members. split; [by apply prune_ok|]. intros Ht. apply Hkeep; auto.
  - intros st2. rewrite Hst1. intros [= <-]. by split.
  - by rewrite Hl1.
  - exists st2. split; [done|]. split; [done|]. intros Hp. rewrite Hkeep; [by eexists|done|by apply Hi2, Hp|apply Hp].
Qed.

Lemma beat_one_spec (now : clock) c reached merged w ep :
  servers registry_ok w → merged_ok merged →
  ∃ merged' w', beat_one now c (reached, merged, w) ep =
      (reached + (if live_ep w ep then 1 else 0), merged', w') ∧
    servers registry_ok w' ∧ (∀ ep', live_ep w' ep' = live_ep w ep') ∧ merged_ok merged' ∧
    (live_ep w ep = false → merged' = merged) ∧
    (prompt now → joined c merged ∨ live_ep w ep = true → joined c merged').
Proof.
  intros Hw Hm. unfold beat_one. set (me := n_node_id (k_self c)). set (th := now ep "heartbeat"%string).
  destruct (net_call _ w ep "heartbeat" _) as [r w1] eqn:En.
  pose proof (net_call_inv (disc_service th) registry_ok (λ _, True) w ep _ _ _ _
    (λ st H, conj (proj1 (invoke_heartbeat th st me H)) I) Hw En) as (Hw1 & Hl1 & Hr).
  destruct (live_ep w ep) eqn:El.
  2:{ destruct Hr as [e ->]. exists merged, w1. rewrite Z.add_0_r. do 5 (split; [done|]). by intros _ [?|?]. }
  destruct (net_call_live (disc_service th) registry_ok w ep _ _ _ _
    (λ st H, proj1 (invoke_heartbeat th st me H)) (Hw ep) El En) as (st & Hst & -> & Hst1).
  destruct (invoke_heartbeat th st me Hst) as (Hst' & known & -> & Hknown). simpl.
  destruct known; simpl.
  - destruct (net_call _ w1 ep "members" _) as [r2 w2] eqn:En2. destruct (Hknown eq_refl) as [i Hi].
    assert (∀ st, registry_ok st → registry_ok (invoke (disc_service (now ep "members"%string)) st "members" (VDict [])).2)
      as Hinv by (intros st2 H2; rewrite invoke_members; by apply prune_ok).
    pose proof (net_call_inv (disc_service (now ep "members"%string)) registry_ok (λ _, True) w1 ep _ _ _ _
      (λ st H, conj (Hinv st H) I) Hw1 En2) as (Hw2 & Hl2 & _).
    destruct (members_after_beat now w w1 ep me _ r2 w2 i Hw1 Hl1 El Hst' Hst1 Hi En2) as (st2 & Hst2 & -> & Hme).
    destruct (merge_registry (_prune st2 (now ep "members"%string)) merged (prune_ok _ _ Hst2) Hm) as (merged' & -> & Hm' & Hs).
    exists merged', w2. split; [done|]. split; [done|]. split; [intros; by rewrite Hl2, Hl1|].
    split; [done|]. split; [done|]. intros Hp _. apply Hs. right. by apply Hme.
  - destruct (register_one_spec (now ep "register"%string) c w1 ep merged Hw1 Hm) as (merged' & w' & -> & Hw' & Hl' & Hm' & Hj').
    exists merged', w'. split; [done|]. split; [done|]. split; [intros; by rewrite Hl', Hl1|].
    split; [done|]. split; [done|]. intros _ _. apply Hj'. right. by rewrite Hl1.
Qed.

Lemma beat_all_spec now c eps w :
  servers registry_ok w →
  ∃ reached merged w', foldl (beat_one now c) (0, [], w) eps = (reached, merged, w') ∧
    servers registry_ok w' ∧ (∀ ep', live_ep w' ep' = live_ep w ep') ∧ merged_ok merged ∧ 0 ≤ reached ∧
    (reached = 0 ↔ ∀ ep, ep ∈ eps → live_ep w ep = false) ∧ (prompt now → 0 < reached → joined c merged).
Proof.
  intros Hw. induction eps as [|ep eps IH] using rev_ind; cbn [foldl].
  - exists 0, [], w. do 3 (split; [done|]). split; [split; [constructor|done]|]. split; [done|].
    split; [|intros _; lia]. split; [|done]. by intros _ ep ?%not_elem_of_nil.
  - destruct IH as (reached & merged & w1 & Hf & Hw1 & Hl1 & Hm1 & H0 & Hz & Hj).
    rewrite foldl_snoc, Hf.
    destruct (beat_one_spec now c reached merged w1 ep Hw1 Hm1) as (merged' & w' & -> & Hw' & Hl' & Hm' & _ & Hj').
    rewrite Hl1 in *. eexists _, merged', w'. split; [reflexivity|]. split; [done|].
    split; [intros; by rewrite Hl', Hl1|]. split; [done|].
    split; [destruct (live_ep w ep); lia|]. split.
    + split.
      * intros Hr ep' [Hin| ->%list_elem_of_singleton]%elem_of_app.
        -- apply Hz; [|done]. destruct (live_ep w ep); lia.
        -- destruct (live_ep w ep); [lia|done].
      * intros Hall. rewrite (Hall ep) by (apply elem_of_app; right; by apply list_elem_of_singleton).
        rewrite (proj2 Hz); [done|]. intros. apply Hall. apply elem_of_app. by left.
    + intros Hp Hr. apply Hj'; [done|]. destruct (live_ep w ep); [by right|left]. apply Hj; [done|lia].
Qed.

(** Joining and staying.  Against well-formed registries: [register] fails
    (and is retried) exactly when none of the targets answers; otherwise, and
    in every heartbeat round in which a target answers, the node's own id is
    in the membership it installs; a round in which no target answers keeps
    the last-known membership; and registries stay well formed.  For the
    heartbeats each master must be asked for its members before the lease it
    has just renewed is over. *)
Theorem client_joins_and_stays (now : clock) (c : DiscoveryClient) (w : dnet) (Hw : servers registry_ok w) (Hprompt : prompt now) :
  let someone := existsb (live_ep w) (_targets c) in
  (let '(r, w') := client_register now c w in
   servers registry_ok w' ∧
   if someone
   then ∃ c', r = Ret (c', (k_members c').*2) ∧ is_Some (od_get (k_members c') (n_node_id (k_self c)))
   else r = Raise ConnectionError) ∧
  (let '(r, w') := heartbeat_round now c w in
   servers registry_ok w' ∧
   if someone
   then ∃ c', r = Ret (Some (c', (k_members c').*2)) ∧ is_Some (od_get (k_members c') (n_node_id (k_self c)))
   else r = Ret None).
Proof.
  intros someone.
  assert (∀ reached : Z, 0 ≤ reached → (reached = 0 ↔ ∀ ep, ep ∈ _targets c → live_ep w ep = false) →
    if someone then 0 < reached else reached = 0) as Hsome.
  { intros reached H0 Hz. subst someone. destruct (existsb _ _) eqn:E.
    - apply existsb_exists in E as (ep & Hin & Hl). apply list_elem_of_In in Hin.
      destruct (decide (reached = 0)) as [He|]; [|lia]. rewrite (proj1 Hz He ep Hin) in Hl. done.
    - apply Hz. intros ep Hin. destruct (live_ep w ep) eqn:El; [|done].
      apply not_true_iff_false in E. destruct E. apply existsb_exists. exists ep. split; [by apply list_elem_of_In|done]. }
  split.
  - unfold client_register.
    destruct (register_all_spec now c (_targets c) w Hw) as (reached & merged & w' & -> & Hw' & _ & Hm & H0 & Hz & Hj).
    specialize (Hsome reached H0 Hz). destruct someone.
    + replace (reached =? 0) with false by (symmetry; apply Z.eqb_neq; lia). split; [done|].
      destruct (apply_merged c merged Hm) as (c' & -> & _ & Hs). exists c'. split; [done|]. by apply Hs, Hj.
    + subst reached. by split.
  - unfold heartbeat_round.
    destruct (beat_all_spec now c (_targets c) w Hw) as (reached & merged & w' & -> & Hw' & _ & Hm & H0 & Hz & Hj).
    specialize (Hsome reached H0 Hz). destruct someone.
    + replace (reached =? 0) with false by (symmetry; apply Z.eqb_neq; lia).
      pose proof (Hj Hprompt Hsome) as Hjm. destruct merged as [|e merged]; [by destruct Hjm|]. split; [done|].
      destruct (apply_merged c (e :: merged) Hm) as (c' & -> & _ & Hs). exists c'. split; [done|]. by apply Hs.
    + subst reached. by split.
Qed.

End registries.

Arguments registry_ok : clear implicits.
Arguments prompt : clear implicits.

(** ** Concrete instances *)

Module DiscoveryExamples.
Definition me : NodeInfo := mk_node "n1" "h1" 9000 "h1" 7000 "inference".
Definition cli0 : DiscoveryClient := mk_dcli ["h1:31998"] ["h1"] 31998 3 me [].
Definition w0 : dnet := mk_cluster {[ "h1:31998" := new_disc 6 ]} (λ _, (ABreakAfter, AReply)).

Lemma w0_ok : servers (registry_ok 6) w0.
Proof.
  intros ep st. unfold w0. cbn [c_shards]. intros [_ <-]%lookup_singleton_Some.
  split; [constructor|]. split; [simpl; lia|]. done.
Qed.

Lemma registry_lists_live_nodes_witness :
  is_Some (od_get (ds_members (foldl disc_exec (new_disc 6)
    [(0, ERegister "n1" []); (5, EMembers); (6, EHeartbeat "n1"); (11, EMembers)])) "n1").
Proof.
  refine (proj2 (registry_lists_live_nodes 6 _ "n1" ltac:(lia)) [] 0 [] _ eq_refl _).
  vm_compute. reflexivity.
Defined.

Lemma masters_choice_witness : length (_masters_from cli0 [me]) = 1%nat.
Proof.
  destruct (masters_choice cli0 [me]) as (_ & _ & Hl & _).
  - simpl. apply NoDup_singleton.
  - simpl. lia.
  - rewrite Hl. vm_compute. reflexivity.
Defined.

Lemma client_joins_and_stays_witness :
  ∃ c', (client_register (λ _ _, 10) cli0 w0).1 = Ret (c', (k_members c').*2) ∧ is_Some (od_get (k_members c') "n1").
Proof.
  generalize (client_joins_and_stays (λ _ _, 10) cli0 w0 w0_ok ltac:(intros ?; lia)). cbv zeta.
  replace (existsb (live_ep w0) (_targets cli0)) with true by (vm_compute; reflexivity).
  generalize (client_register (λ _ _, 10) cli0 w0), (heartbeat_round (λ _ _, 10) cli0 w0).
  intros [r w'] hb [[_ (c' & Hr & Hs)] _]. exists c'. split; [exact Hr|exact Hs].
Defined.
(** A master that answers [members] later than the lease lasts leaves the node
    out: the node installs a membership without itself. *)
Definition reg0 : pyres (DiscoveryClient * list NodeInfo) * dnet := client_register (λ _ _, 10) cli0 (mk_cluster {[ "h1:31998" := new_disc 6 ]} (λ _, (AReply, AReply))).
Definition other_joins (w : dnet) : dnet :=
  (_register_one 15 (mk_dcli [] [] 31998 3 (mk_node "n2" "h2" 9000 "h2" 7000 "inference") []) w "h1:31998" []).2.
Example slow_members_drops_self :
  ∃ c ms, (heartbeat_round (λ _ m, if String.eqb m "members" then 20 else 12) cli0 (other_joins reg0.2)).1 = Ret (Some (c, ms)) ∧
    n_node_id <$> ms = ["n2"].
Proof. eexists _, _. split; vm_compute; reflexivity. Qed.
End DiscoveryExamples.
