(* ===== verification/Runtime.v ===== *)
(** The node runtime of [server.py]: what a membership change does to the
    rings, the directory client and the listeners, and which node owns a key.

    The rest of the constructor, start and stop are in Lifecycle; the
    resolver functions [host_is_self] asks are the class [HostNames]. *)
From S2P Require Import Prelude HashRing Types Rpc Directory.

(** ** Which hosts are this one *)

Class HostNames := {
  gethostname : pyres string;
  gethostbyname : string → pyres string;
  getaddrinfo : string → pyres (list string)
}.

Section hosts.
Context {HN : HostNames}.

(** [_local_ip_set]: what was added before an exception stays. *)
Definition _local_ip_set (local_hostname : string) : gset string :=
  let ips : gset string := {[ "127.0.0.1"; "0.0.0.0"; "::1"; "localhost"; local_hostname ]} in
  match gethostname with
  | Raise _ => ips
  | Ret hostname =>
      let ips := {[hostname]} ∪ ips in
      match gethostbyname hostname with
      | Raise _ => ips
      | Ret ip =>
          let ips := {[ip]} ∪ ips in
          match getaddrinfo hostname with
          | Raise _ => ips
          | Ret l => list_to_set l ∪ ips
          end
      end
  end.

Definition host_is_self (host local_hostname : string) : bool :=
  if bool_decide (host ∈ ["127.0.0.1"; "0.0.0.0"; "::1"; "localhost"]) then true
  else
    let local := _local_ip_set local_hostname in
    if bool_decide (host ∈ local) then true
    else match gethostbyname host with
         | Ret ip => bool_decide (ip ∈ local)
         | Raise _ => false
         end.
End hosts.

(** ** The runtime *)

Record NodeRuntime := mk_runtime {
  rt_ring : ConsistentHashRing;
  rt_data_ring : ConsistentHashRing;
  rt_directory : DirectoryClient;
  rt_stopped : bool
}.

(** The part of [NodeRuntime.__init__] that builds the rings and the directory
    client, which shares the membership ring. *)
Definition new_runtime (vnodes : Z) (resolve : string → option string) (replicas : Z) : NodeRuntime :=
  mk_runtime (new_ring vnodes) (new_ring vnodes) (new_dclient (new_ring vnodes) resolve replicas) false.

Section runtime.
Context {RH : RingHash} {SI : SetIter}.
Implicit Types (rt : NodeRuntime) (members : list NodeInfo).

Definition storage_ids members : list string :=
  n_node_id <$> filter (λ m, n_role m = "storage"%string) members.

(** [_on_members]: the new runtime and whether the listeners are called. *)
Definition _on_members rt members : NodeRuntime * bool :=
  let all_ids := n_node_id <$> members in
  let st_ids := storage_ids members in
  let changed :=
    negb (bool_decide ((list_to_set all_ids : gset string) = r_nodes (rt_ring rt))) ||
    negb (bool_decide ((list_to_set st_ids : gset string) = r_nodes (rt_data_ring rt))) in
  let ring := set_nodes (rt_ring rt) all_ids in
  let data_ring := set_nodes (rt_data_ring rt) st_ids in
  (mk_runtime ring data_ring (set_ring (rt_directory rt) ring) (rt_stopped rt), changed).

Definition data_owner rt (key : string) : option string :=
  if bool_decide (nodes (rt_data_ring rt) = []) then None else get_node (rt_data_ring rt) key.

Definition data_owner_all rt (key : string) : option string :=
  if bool_decide (nodes (rt_ring rt) = []) then None else get_node (rt_ring rt) key.

Definition storage_nodes rt : list string := nodes (rt_data_ring rt).

(** [stop]: whether this call tears the node down; it is idempotent. *)
Definition stop rt : bool * NodeRuntime :=
  (negb (rt_stopped rt), mk_runtime (rt_ring rt) (rt_data_ring rt) (rt_directory rt) true).

(** ** Routing *)

(** The runtime after a sequence of membership updates. *)
Definition after rt (updates : list (list NodeInfo)) : NodeRuntime := foldl (λ rt ms, (_on_members rt ms).1) rt updates.

Definition update_nodes (updates : list (list NodeInfo)) : gset string :=
  list_to_set (n_node_id <$> concat updates).

Record runtime_ok (U : gset string) (vn : Z) rt : Prop := {
  ro_ring : ring_ok (rt_ring rt);
  ro_data : ring_ok (rt_data_ring rt);
  ro_vn : r_vnodes (rt_ring rt) = vn ∧ r_vnodes (rt_data_ring rt) = vn
}.

Lemma storage_ids_sub members n : n ∈ storage_ids members → n ∈ n_node_id <$> members.
Proof. unfold storage_ids. rewrite !list_elem_of_fmap. setoid_rewrite list_elem_of_filter. naive_solver. Qed.

Lemma on_members_ok U vn rt members :
  collision_free vn U → (list_to_set (n_node_id <$> members) : gset string) ⊆ U →
  runtime_ok U vn rt → runtime_ok U vn (_on_members rt members).1.
Proof.
  intros Hc Hu [H1 H2 [H3 H4]]. split; simpl.
  - apply set_nodes_ok; [|done]. rewrite H3. by eapply collision_free_mono.
  - apply set_nodes_ok; [|done]. rewrite H4. eapply collision_free_mono; [|done].
    intros n. rewrite elem_of_list_to_set. intros ?%storage_ids_sub. apply Hu. by apply elem_of_list_to_set.
  - by rewrite !vnodes_set_nodes.
Qed.

Lemma after_ok U vn rt updates :
  collision_free vn U → update_nodes updates ⊆ U → runtime_ok U vn rt → runtime_ok U vn (after rt updates).
Proof.
  intros Hc. revert rt. unfold update_nodes. induction updates as [|ms updates IH]; intros rt Hu Hok; [done|].
  simpl in *. rewrite fmap_app, list_to_set_app_L in Hu. apply IH; [set_solver|]. apply on_members_ok; set_solver.
Qed.

Lemma nodes_nil r : nodes r = [] ↔ r_nodes r = ∅.
Proof.
  unfold nodes.
  pose proof (merge_sort_Permutation String.le (elements (r_nodes r))) as Hp.
  split; intros H; rewrite H in Hp.
  - apply leibniz_equiv, elements_empty_inv. by apply Permutation_nil_l in Hp.
  - rewrite H. by rewrite elements_empty.
Qed.

(** A ring with members owns every key. *)
Lemma get_node_member r key :
  ring_ok r → 0 < r_vnodes r →
  match (if bool_decide (nodes r = []) then None else get_node r key) with
  | Some n => n ∈ r_nodes r
  | None => r_nodes r = ∅
  end.
Proof.
  intros [Hwf Hcan] Hv. case_bool_decide as Hn; [by apply nodes_nil|].
  assert (r_nodes r ≠ ∅) as Hne by (by rewrite nodes_nil in Hn).
  apply set_choose_L in Hne as [x Hx]. apply (member_has_point r x) in Hx as [k Hk]; [|done..].
  assert (k ∈ r_sorted_keys r) as Hin by (apply elem_of_sorted_keys; eauto).
  destruct (get_node_exists r key Hwf) as (n & -> & k' & Hk'); [intros E; rewrite E in Hin; by apply not_elem_of_nil in Hin|].
  by apply (Hcan k' n) in Hk' as [? _].
Qed.

(** C15: routing follows the membership.  After any sequence of membership
    updates, on any node: the owner of a key is a live member, and its storage
    owner a live storage node, [None] exactly when there is none; two nodes
    whose last update lists the same nodes with the same roles route every
    key to the same owners and the same directory replicas, whatever updates
    they saw before; and the next update calls the listeners unless it lists
    the same set of nodes and the same set of storage nodes. *)
Theorem routing_follows_membership (U : gset string) (vn : Z) (rt1 rt2 : NodeRuntime)
  (updates1 updates2 : list (list NodeInfo)) (ms1 ms2 : list NodeInfo)
  (Hcf : collision_free vn U) (Hvn : 0 < vn)
  (Hu1 : update_nodes (updates1 ++ [ms1]) ⊆ U) (Hu2 : update_nodes (updates2 ++ [ms2]) ⊆ U)
  (H1 : runtime_ok U vn rt1) (H2 : runtime_ok U vn rt2)
  (Hrep : dc_replicas (rt_directory rt1) = dc_replicas (rt_directory rt2))
  (Hsame : ∀ n, n ∈ n_node_id <$> ms1 ↔ n ∈ n_node_id <$> ms2)
  (Hroles : ∀ n, n ∈ storage_ids ms1 ↔ n ∈ storage_ids ms2) (key : string) :
  let a := after rt1 (updates1 ++ [ms1]) in
  let b := after rt2 (updates2 ++ [ms2]) in
  match data_owner_all a key with Some n => n ∈ n_node_id <$> ms1 | None => ms1 = [] end ∧
  match data_owner a key with Some n => n ∈ storage_ids ms1 | None => storage_ids ms1 = [] end ∧
  data_owner_all a key = data_owner_all b key ∧ data_owner a key = data_owner b key ∧
  _owners (rt_directory a) key = _owners (rt_directory b) key ∧
  ∀ ms, (_on_members a ms).2 = false ↔
    (∀ n, n ∈ n_node_id <$> ms ↔ n ∈ n_node_id <$> ms1) ∧ (∀ n, n ∈ storage_ids ms ↔ n ∈ storage_ids ms1).
Proof.
  intros a b.
  assert (runtime_ok U vn a) as Ha by (by apply after_ok).
  assert (runtime_ok U vn b) as Hb by (by apply after_ok).
  assert (r_nodes (rt_ring a) = list_to_set (n_node_id <$> ms1) ∧
          r_nodes (rt_data_ring a) = list_to_set (storage_ids ms1)) as [Hna Hda].
  { unfold a, after. rewrite foldl_snoc. simpl. by rewrite !nodes_set_nodes. }
  assert (r_nodes (rt_ring b) = list_to_set (n_node_id <$> ms2) ∧
          r_nodes (rt_data_ring b) = list_to_set (storage_ids ms2)) as [Hnb Hdb].
  { unfold b, after. rewrite foldl_snoc. simpl. by rewrite !nodes_set_nodes. }
  assert (∀ rt us ms, dc_ring (rt_directory (after rt (us ++ [ms]))) = rt_ring (after rt (us ++ [ms])) ∧
    dc_replicas (rt_directory (after rt (us ++ [ms]))) = dc_replicas (rt_directory rt)) as Hdc.
  { intros rt us ms. unfold after. rewrite foldl_snoc. simpl. split; [done|].
    revert rt. induction us as [|m us IH]; intros rt; simpl; [done|]. by rewrite IH. }
  destruct (Hdc rt1 updates1 ms1) as [Hd1 Hr1]. destruct (Hdc rt2 updates2 ms2) as [Hd2 Hr2].
  fold a in Hd1, Hr1. fold b in Hd2, Hr2. clear Hdc.
  assert (rt_ring a = rt_ring b) as Eab.
  { apply canonical_unique; [apply Ha|apply Hb|by rewrite (proj1 (ro_vn _ _ _ Ha)), (proj1 (ro_vn _ _ _ Hb))|].
    rewrite Hna, Hnb. apply set_eq. intros n. by rewrite !elem_of_list_to_set. }
  assert (rt_data_ring a = rt_data_ring b) as Edab.
  { apply canonical_unique; [apply Ha|apply Hb|by rewrite (proj2 (ro_vn _ _ _ Ha)), (proj2 (ro_vn _ _ _ Hb))|].
    rewrite Hda, Hdb. apply set_eq. intros n. by rewrite !elem_of_list_to_set. }
  assert (∀ l : list string, (list_to_set l : gset string) = ∅ → l = []) as Hnil.
  { intros [|x l] H; [done|]. set_solver. }
  refine (conj _ (conj _ (conj _ (conj _ (conj _ _))))).
  - pose proof (get_node_member (rt_ring a) key (ro_ring _ _ _ Ha)) as H.
    rewrite (proj1 (ro_vn _ _ _ Ha)) in H. specialize (H Hvn). unfold data_owner_all.
    destruct (if bool_decide _ then _ else _); rewrite Hna in H; [by apply elem_of_list_to_set in H|].
    apply Hnil in H. by destruct ms1.
  - pose proof (get_node_member (rt_data_ring a) key (ro_data _ _ _ Ha)) as H.
    rewrite (proj2 (ro_vn _ _ _ Ha)) in H. specialize (H Hvn). unfold data_owner.
    destruct (if bool_decide _ then _ else _); rewrite Hda in H; [by apply elem_of_list_to_set in H|].
    by apply Hnil in H.
  - unfold data_owner_all. by rewrite Eab.
  - unfold data_owner. by rewrite Edab.
  - unfold _owners. by rewrite Hd1, Hd2, Hr1, Hr2, Eab, Hrep.
  - intros ms. cbn [_on_members snd]. rewrite Hna, Hda, orb_false_iff, !negb_false_iff, !bool_decide_eq_true, !set_eq.
    setoid_rewrite elem_of_list_to_set. done.
Qed.
End runtime.

Module RuntimeExamples.
Import RingExamples.
Definition node (n role : string) : NodeInfo := mk_node n n 1 n 2 role.
Definition rt0 : NodeRuntime := new_runtime 3 (λ n, Some n) 2.

Lemma rt0_ok : runtime_ok (list_to_set ["a"; "b"; "c"; "d"]) 3 rt0.
Proof. split; [apply new_ring_ok|apply new_ring_ok|split; reflexivity]. Qed.

Lemma routing_follows_membership_witness :
  data_owner_all (after rt0 [[node "a" "inference"; node "b" "storage"]]) "k" =
  data_owner_all (after rt0 [[node "c" "inference"]; [node "b" "storage"; node "a" "inference"]]) "k".
Proof.
  refine (proj1 (proj2 (proj2 (routing_follows_membership (list_to_set ["a"; "b"; "c"; "d"]) 3 rt0 rt0
    [] [[node "c" "inference"]] [node "a" "inference"; node "b" "storage"]
    [node "b" "storage"; node "a" "inference"] cf_abc _ _ _ rt0_ok rt0_ok _ _ _ "k")))).
  - lia.
  - decide_vm.
  - decide_vm.
  - reflexivity.
  - intros n. simpl. set_solver.
  - intros n. reflexivity.
Defined.
End RuntimeExamples.
