(* ===== verification/Keys.v ===== *)
(** How [store.py] names the stored objects of a page and combines the results
    of its components.

    A page is stored as one or two components; the component keys carry the
    optional tenant prefix, the rank suffix and the component tag.  Pages made
    of several host buffers are packed into one blob and scattered back.
    [naming] holds the attributes of [PeerCacheStore] these functions read. *)
From S2P Require Import Prelude Bytes Types.

Record naming := mk_naming {
  nm_prefix : string;
  nm_is_mla : bool;
  nm_mha_suffix : string;
  nm_mla_suffix : string
}.

(** The suffixes [__init__] derives from the rank parameters. *)
Definition new_naming (prefix : string) (is_mla : bool) (tp_rank pp_rank pp_size : Z) : naming :=
  if pp_size >? 1
  then mk_naming prefix is_mla (pretty tp_rank +:+ "_" +:+ pretty pp_rank) (pretty pp_rank)
  else mk_naming prefix is_mla (pretty tp_rank) "".

(** ** Component keys *)

Definition _tag_keys (nm : naming) (keys : list string) : list string :=
  if String.eqb (nm_prefix nm) "" then keys else (λ k, nm_prefix nm +:+ "_" +:+ k) <$> keys.

Definition mla_key (nm : naming) (k : string) : string := k +:+ "_" +:+ nm_mla_suffix nm +:+ "_k".
Definition mha_k_key (nm : naming) (k : string) : string := k +:+ "_" +:+ nm_mha_suffix nm +:+ "_k".
Definition mha_v_key (nm : naming) (k : string) : string := k +:+ "_" +:+ nm_mha_suffix nm +:+ "_v".

(** [_component_keys]: the keys, and how many belong to a page. *)
Definition _component_keys (nm : naming) (keys : list string) : list string * nat :=
  let keys := _tag_keys nm keys in
  if nm_is_mla nm then (mla_key nm <$> keys, 1%nat)
  else (keys ≫= λ k, [mha_k_key nm k; mha_v_key nm k], 2%nat).

Definition _lookup_keys (nm : naming) (raw_keys : bool) (keys : list string) : list string * nat :=
  if raw_keys then (keys, 1%nat) else _component_keys nm keys.

(** A v2 transfer names a pool; [draft_mla] says whether the registered draft
    pool has no value buffer. *)
Definition _v2_component_keys (nm : naming) (draft_mla : bool) (name : string) (keys : list string) :
    list string * nat :=
  if String.eqb name "kv" then _component_keys nm keys
  else
    let keys := _tag_keys nm keys in
    if bool_decide (name ∈ ["draft"; "draft_mla"]) then
      if draft_mla then ((λ k, k +:+ "_" +:+ nm_mla_suffix nm +:+ "_draft_k") <$> keys, 1%nat)
      else (keys ≫= λ k, [k +:+ "_" +:+ nm_mha_suffix nm +:+ "_draft_k";
                          k +:+ "_" +:+ nm_mha_suffix nm +:+ "_draft_v"], 2%nat)
    else ((λ k, k +:+ "_" +:+ nm_mha_suffix nm +:+ "_" +:+ name) <$> keys, 1%nat).

(** ** Results per page *)

(** [all(comp_results[i : i + multiplier])] for every page start [i]. *)
Fixpoint page_blocks {A} (fuel : nat) (multiplier : nat) (l : list A) : list (list A) :=
  match fuel, l with
  | S fuel', _ :: _ => take multiplier l :: page_blocks fuel' multiplier (drop multiplier l)
  | _, _ => []
  end.

Definition _page_results (comp_results : list bool) (multiplier : nat) : list bool :=
  forallb id <$> page_blocks (length comp_results) multiplier comp_results.

(** The loop of [_hit_prefix] from the index [i]. *)
Fixpoint hit_prefix_from {A} (i : nat) (locs : list (option A)) (multiplier n : nat) : nat :=
  match locs with
  | [] => n
  | None :: _ => (i / multiplier)%nat
  | Some _ :: locs' => hit_prefix_from (S i) locs' multiplier n
  end.

Definition _hit_prefix {A} (locs : list (option A)) (multiplier : nat) : nat :=
  hit_prefix_from 0 locs multiplier (length locs / multiplier)%nat.

(** The counting loop of the slot-map branch of [batch_exists]: pages from the
    front until a component is missing. *)
Fixpoint present_pages (pages : nat) (present : list bool) (multiplier : nat) : nat :=
  match pages with
  | O => O
  | S pages' =>
      let block := take multiplier present in
      if negb (bool_decide (block = [])) && forallb id block
      then S (present_pages pages' (drop multiplier present) multiplier) else O
  end.

(** The boundary of one pool transfer in [batch_exists_v2]. *)
Definition page_exists (locs : list (option DataLocation)) (mult i : nat) : bool :=
  forallb (λ l, bool_decide (is_Some l)) (take mult (drop (i * mult) locs)).

Fixpoint first_missing (kv_pages i : nat) (ok : nat → bool) : nat :=
  match kv_pages with
  | O => i
  | S n => if ok i then first_missing n (S i) ok else i
  end.

Definition v2_boundary (all_pages : bool) (kv_pages : nat) (mult : nat) (locs : list (option DataLocation))
    (n_keys : option nat) : nat :=
  if all_pages then first_missing kv_pages 0 (page_exists locs mult)
  else
    let window := match n_keys with Some (S n) => S n | _ => 1%nat end in
    if forallb (λ l, bool_decide (is_Some l)) (take window locs) then kv_pages else 0%nat.

(** ** Pages of several buffers *)

(** The packing loop: the buffers of a page one after the other at [dst]. *)
Fixpoint pack_chunk (m : mem) (dst : Z) (chunk : list (Z * Z)) : mem :=
  match chunk with
  | [] => m
  | (p, sz) :: chunk' => pack_chunk (memmove m dst p sz) (dst + sz) chunk'
  end.

(** The scattering loop: a blob at [src] back into the buffers. *)
Fixpoint scatter_chunk (m : mem) (src : Z) (chunk : list (Z * Z)) : mem :=
  match chunk with
  | [] => m
  | (p, sz) :: chunk' => scatter_chunk (memmove m p src sz) (src + sz) chunk'
  end.

Definition chunk_size (chunk : list (Z * Z)) : Z := sumZ chunk.*2.

(** The pages' blobs, placed by [place] ([ctypes] allocates them). *)
Fixpoint pack_pages (m : mem) (place : nat → Z) (i : nat) (pages : list (list (Z * Z))) :
    list (Z * Z) * mem :=
  match pages with
  | [] => ([], m)
  | chunk :: pages' =>
      let m := pack_chunk m (place i) chunk in
      let '(rest, m) := pack_pages m place (S i) pages' in
      ((place i, chunk_size chunk) :: rest, m)
  end.

(** [_pack_multi_buffer]: pointers and sizes with one entry per key. *)
Definition _pack_multi_buffer (m : mem) (place : nat → Z) (comp_keys : list string) (ptrs sizes : list Z) :
    pyres (list Z * list Z) * mem :=
  if (length ptrs =? length comp_keys)%nat then (Ret (ptrs, sizes), m)
  else if (length comp_keys =? 0)%nat then (Raise ZeroDivisionError, m)
  else if negb (length ptrs mod length comp_keys =? 0)%nat then (Raise AssertionError, m)
  else
    let nbuf := (length ptrs / length comp_keys)%nat in
    let '(packed, m) := pack_pages m place 0 (page_blocks (length ptrs) nbuf (zip ptrs sizes)) in
    (Ret (packed.*1, packed.*2), m).

(** The loop of [_scatter_multi_buffer] over the fetched pages. *)
Fixpoint scatter_pages (m : mem) (pages : list (list (Z * Z))) (blobs : list Z) (results : list bool) :
    mem * list bool :=
  match pages, results with
  | chunk :: pages', ok :: results' =>
      let '(m, ok, blobs') :=
        match ok, blobs with
        | true, src :: bl => (scatter_chunk m src chunk, true, bl)
        | true, [] => (m, false, [])
        | false, bl => (m, false, tail bl)
        end in
      let '(m, oks) := scatter_pages m pages' blobs' results' in (m, ok :: oks)
  | _, _ => (m, results)
  end.

Definition _scatter_multi_buffer (m : mem) (comp_keys : list string) (ptrs sizes : list Z)
    (blobs : list Z) (results : list bool) : mem * list bool :=
  if (length ptrs =? length comp_keys)%nat then (m, results)
  else
    let nbuf := (length ptrs / length comp_keys)%nat in
    scatter_pages m (page_blocks (length ptrs) nbuf (zip ptrs sizes)) blobs results.

(** ** Component keys name one page *)

Lemma str_app_inj_r (a b s : string) : a +:+ s = b +:+ s → a = b.
Proof.
  intros H%(f_equal str_rev). rewrite !str_rev_concat in H.
  assert (∀ x y z : string, x +:+ y = x +:+ z → y = z) as Hl
    by (intros x y z; induction x; simpl; [done|intros [= ?]; auto]).
  apply Hl in H. apply (f_equal str_rev) in H.
  assert (∀ x, str_rev (str_rev x) = x) as Hi.
  { intros x. induction x as [|c x IH]; [done|]. change (String c x) with (String c "" +:+ x).
    by rewrite !str_rev_concat, IH. }
  by rewrite !Hi in H.
Qed.

Lemma str_app_inj_l (s a b : string) : s +:+ a = s +:+ b → a = b.
Proof. induction s; simpl; [done|intros [= ?]; auto]. Qed.

#[export] Instance app_suffix_inj (s : string) : Inj (=) (=) (λ k : string, k +:+ s).
Proof. intros a b. apply str_app_inj_r. Qed.

(** The last character tells the two components of a page apart. *)
Lemma mha_k_v_ne nm x y : mha_k_key nm x ≠ mha_v_key nm y.
Proof.
  unfold mha_k_key, mha_v_key. rewrite !str_app_assoc. intros H%(f_equal str_rev).
  rewrite !str_rev_concat in H. discriminate.
Qed.

Lemma tag_keys_NoDup nm keys : NoDup keys → NoDup (_tag_keys nm keys).
Proof.
  intros Hnd. unfold _tag_keys. destruct (String.eqb _ _); [done|].
  apply NoDup_fmap_2; [|done]. intros a b H. apply str_app_inj_l in H. by injection H.
Qed.

Lemma component_keys_NoDup nm keys : NoDup keys → NoDup (_component_keys nm keys).1.
Proof.
  intros Hnd%(tag_keys_NoDup nm). unfold _component_keys. destruct (nm_is_mla nm); simpl.
  { apply NoDup_fmap_2; [|done]. unfold mla_key. apply _. }
  induction Hnd as [|k ks Hk Hnd IH]; simpl; [constructor|].
  assert (∀ x, x ∈ ks ≫= (λ k, [mha_k_key nm k; mha_v_key nm k]) →
    ∃ k', k' ∈ ks ∧ (x = mha_k_key nm k' ∨ x = mha_v_key nm k')) as Hin.
  { intros x (k' & Hx & Hk')%list_elem_of_bind. set_unfold in Hx. exists k'. naive_solver. }
  unfold mha_k_key, mha_v_key in *. fold (mha_k_key nm k) (mha_v_key nm k).
  constructor; [|constructor; [|exact IH]].
  - intros [H|H%Hin]%elem_of_cons; [by apply mha_k_v_ne in H|].
    destruct H as (k' & Hk' & [H|H]); [apply str_app_inj_r in H; by subst|by apply (mha_k_v_ne nm k k') in H].
  - intros (k' & Hk' & [H|H])%Hin; [symmetry in H; by apply (mha_k_v_ne nm k' k) in H|apply str_app_inj_r in H; by subst].
Qed.

Lemma component_keys_page nm keys i k :
  _tag_keys nm keys !! i = Some k →
  let '(comps, mult) := _component_keys nm keys in
  take mult (drop (i * mult) comps) =
    if nm_is_mla nm then [mla_key nm k] else [mha_k_key nm k; mha_v_key nm k].
Proof.
  unfold _component_keys. generalize (_tag_keys nm keys) as ks. intros ks. destruct (nm_is_mla nm); simpl.
  - revert i. induction ks as [|k' ks IH]; intros [|i] Hi; simplify_eq/=; [done|]. by apply IH.
  - revert i. induction ks as [|k' ks IH]; intros [|i] Hi; simplify_eq/=; [done|]. by apply IH.
Qed.

(** A component belongs to one page.  Distinct page keys give distinct
    component keys, page [i] owns the [i]-th block of them, and there are
    [multiplier] per page. *)
Theorem component_keys_unambiguous (nm : naming) (keys : list string) (Hnd : NoDup keys) :
  let '(comps, mult) := _component_keys nm keys in
  NoDup comps ∧ length comps = (length keys * mult)%nat ∧ (0 < mult)%nat ∧
  ∀ i k, _tag_keys nm keys !! i = Some k →
    take mult (drop (i * mult) comps) =
      if nm_is_mla nm then [mla_key nm k] else [mha_k_key nm k; mha_v_key nm k].
Proof.
  pose proof (component_keys_NoDup nm keys Hnd) as H1. pose proof (component_keys_page nm keys) as H2.
  assert (length (_tag_keys nm keys) = length keys) as Hl.
  { unfold _tag_keys. destruct (String.eqb _ _); [done|]. apply length_fmap. }
  unfold _component_keys in *. destruct (nm_is_mla nm); simpl in *.
  - rewrite length_fmap, Hl. split; [done|]. split; [lia|]. split; [lia|done].
  - split; [done|]. split; [|split; [lia|done]]. rewrite <-Hl. generalize (_tag_keys nm keys). clear.
    intros l. induction l as [|x l IH]; [done|]. rewrite bind_cons, length_app, IH. done.
Qed.

(** ** Results per page *)

Lemma page_blocks_cons {A} fuel mult (b rest : list A) :
  (0 < mult)%nat → length b = mult → (length (b ++ rest) ≤ fuel)%nat →
  page_blocks fuel mult (b ++ rest) = b :: page_blocks (pred fuel) mult rest.
Proof.
  intros Hm Hb Hf. destruct fuel as [|fuel]; [rewrite length_app in Hf; lia|]. simpl.
  destruct (b ++ rest) as [|x l] eqn:E; [destruct b; simpl in *; [lia|done]|]. rewrite <-E.
  by rewrite take_app_length', drop_app_length'.
Qed.

(** A list of [n] blocks of [mult] elements. *)
Lemma split_block {A} (l : list A) (n mult : nat) :
  length l = (S n * mult)%nat → ∃ b rest, l = b ++ rest ∧ length b = mult ∧ length rest = (n * mult)%nat.
Proof.
  intros Hl. exists (take mult l), (drop mult l). rewrite take_drop, length_take, length_drop.
  split; [done|]. simpl in Hl. lia.
Qed.

Lemma page_blocks_lookup {A} fuel (mult n i : nat) (l : list A) :
  (0 < mult)%nat → length l = (n * mult)%nat → (length l ≤ fuel)%nat → (i < n)%nat →
  page_blocks fuel mult l !! i = Some (take mult (drop (i * mult) l)).
Proof.
  intros Hm. revert fuel i l. induction n as [|n IH]; intros fuel i l Hl Hf Hi; [lia|].
  destruct (split_block l n mult Hl) as (b & rest & -> & Hb & Hr).
  rewrite page_blocks_cons by done. destruct i as [|i]; simpl.
  - by rewrite drop_0, take_app_length'.
  - rewrite length_app in Hf. rewrite IH; [|done|lia|lia].
    rewrite drop_app_ge by lia. do 3 f_equal. lia.
Qed.

Lemma length_page_blocks {A} fuel (mult n : nat) (l : list A) :
  (0 < mult)%nat → length l = (n * mult)%nat → (length l ≤ fuel)%nat →
  length (page_blocks fuel mult l) = n.
Proof.
  intros Hm. revert fuel l. induction n as [|n IH]; intros fuel l Hl Hf.
  { destruct l; [|done]. by destruct fuel. }
  destruct (split_block l n mult Hl) as (b & rest & -> & Hb & Hr).
  rewrite page_blocks_cons by done. simpl. f_equal. rewrite length_app in Hf. apply IH; [done|lia].
Qed.

Lemma hit_prefix_block {A} (b rest : list (option A)) (i mult n : nat) :
  (0 < mult)%nat → length b = mult →
  hit_prefix_from (i * mult) (b ++ rest) mult n =
    if forallb (λ o, bool_decide (is_Some o)) b then hit_prefix_from (S i * mult) rest mult n else i.
Proof.
  intros Hm Hb.
  assert (∀ (l : list (option A)) j, (j + length l = mult)%nat →
    hit_prefix_from (i * mult + j) (l ++ rest) mult n =
      if forallb (λ o, bool_decide (is_Some o)) l then hit_prefix_from (S i * mult) rest mult n else i) as H.
  { intros l. induction l as [|[x|] l IH]; intros j Hj; simpl in *.
    - f_equal. lia.
    - rewrite <-(IH (S j)) by lia. f_equal. lia.
    - rewrite Nat.div_add_l, Nat.div_small by lia. lia. }
  specialize (H b 0%nat). rewrite Nat.add_0_r in H. apply H. lia.
Qed.

Lemma hit_prefix_present {A} (locs : list (option A)) (n i mult : nat) :
  (0 < mult)%nat → length locs = (n * mult)%nat →
  hit_prefix_from (i * mult) locs mult (i + n) =
    (i + present_pages n ((λ o, bool_decide (is_Some o)) <$> locs) mult)%nat.
Proof.
  intros Hm. revert i locs. induction n as [|n IH]; intros i locs Hl.
  { destruct locs; [simpl; lia|done]. }
  destruct (split_block locs n mult Hl) as (b & rest & -> & Hb & Hr).
  rewrite hit_prefix_block by done. simpl present_pages. rewrite fmap_app.
  rewrite take_app_length', drop_app_length' by by rewrite length_fmap.
  assert (bool_decide ((λ o : option A, bool_decide (is_Some o)) <$> b = []) = false) as ->.
  { apply bool_decide_eq_false. destruct b; [simpl in Hb; lia|done]. }
  assert (forallb id ((λ o : option A, bool_decide (is_Some o)) <$> b) =
          forallb (λ o, bool_decide (is_Some o)) b) as -> by (clear; induction b as [|o b IH]; csimpl; [done|by rewrite IH]).
  simpl. destruct (forallb _ b); [|lia].
  replace (i + S n)%nat with (S i + n)%nat by lia. change (mult + i * mult)%nat with (S i * mult)%nat.
  rewrite IH by done. lia.
Qed.

(** The results of a batch are per page, and the two existence probes
    agree.  With [multiplier] components per page, the result of page [i] is
    the conjunction of its components' results; and the hit length computed
    from directory locations ([_hit_prefix]) is the one computed from presence
    flags (the slot-map branch): the number of leading pages all of whose
    components are present. *)
Theorem page_results_per_page (mult n : nat) (comp_results : list bool)
  (locs : list (option DataLocation)) (Hm : (0 < mult)%nat)
  (Hc : length comp_results = (n * mult)%nat) (Hl : length locs = (n * mult)%nat) :
  length (_page_results comp_results mult) = n ∧
  (∀ i, (i < n)%nat →
     _page_results comp_results mult !! i = Some (forallb id (take mult (drop (i * mult) comp_results)))) ∧
  _hit_prefix locs mult = present_pages n ((λ o, bool_decide (is_Some o)) <$> locs) mult.
Proof.
  unfold _page_results. split; [|split].
  - rewrite length_fmap. by apply length_page_blocks.
  - intros i Hi. rewrite list_lookup_fmap, (page_blocks_lookup _ mult n) by done. done.
  - unfold _hit_prefix. rewrite Hl, Nat.div_mul by lia.
    pose proof (hit_prefix_present locs n 0 mult Hm Hl) as H. done.
Qed.

(** ** Packing *)

(** The bytes of the buffers of a page, in order. *)
Definition chunk_bytes (m : mem) (chunk : list (Z * Z)) : list Z := chunk ≫= λ b, mem_read m b.1 b.2.

(** A region apart from every buffer. *)
Definition apart (a n : Z) (chunk : list (Z * Z)) : Prop :=
  ∀ b, b ∈ chunk → ranges_disjoint a n b.1 b.2.

Lemma zlength_chunk_bytes m chunk :
  Forall (λ b, 0 ≤ b.2) chunk → zlength (chunk_bytes m chunk) = chunk_size chunk.
Proof.
  unfold zlength, chunk_bytes, chunk_size. induction 1 as [|b chunk Hb _ IH]; [done|].
  rewrite bind_cons, length_app, Nat2Z.inj_add, IH. simpl. f_equal.
  pose proof (zlength_mem_read m b.1 b.2 Hb). unfold zlength in *. lia.
Qed.

Lemma chunk_bytes_ext m m' chunk :
  (∀ b x, b ∈ chunk → b.1 ≤ x < b.1 + b.2 → m x = m' x) → chunk_bytes m chunk = chunk_bytes m' chunk.
Proof.
  induction chunk as [|b chunk IH]; intros H; [done|]. unfold chunk_bytes in *. rewrite !bind_cons.
  f_equal; [apply mem_read_ext; intros x; apply H; set_solver|]. apply IH. intros. eapply H; set_solver.
Qed.

Lemma chunk_size_nonneg chunk : Forall (λ b, 0 ≤ b.2) chunk → 0 ≤ chunk_size chunk.
Proof. intros H. apply sumZ_nonneg. rewrite Forall_fmap. done. Qed.

Lemma pack_chunk_spec m dst chunk :
  Forall (λ b, 0 ≤ b.2) chunk → apart dst (chunk_size chunk) chunk →
  mem_read (pack_chunk m dst chunk) dst (chunk_size chunk) = chunk_bytes m chunk ∧
  ∀ x, ¬ (dst ≤ x < dst + chunk_size chunk) → pack_chunk m dst chunk x = m x.
Proof.
  intros Hs. revert m dst. induction Hs as [|[p sz] chunk Hsz Hs IH]; intros m dst Hap; [done|].
  simpl in Hsz. pose proof (chunk_size_nonneg _ Hs) as Hn.
  change (chunk_size ((p, sz) :: chunk)) with (sz + chunk_size chunk) in *. simpl pack_chunk.
  destruct (IH (memmove m dst p sz) (dst + sz)) as [IH1 IH2].
  { intros b Hb. specialize (Hap b ltac:(set_solver)). unfold ranges_disjoint in *. lia. }
  split.
  - rewrite mem_read_app by lia. unfold chunk_bytes at 1. rewrite bind_cons. f_equal.
    + cbn [fst snd]. rewrite <-(mem_read_memmove_same m dst p sz) by done. apply mem_read_ext. intros x Hx. apply IH2. lia.
    + rewrite IH1. apply chunk_bytes_ext. intros b x Hb Hx. apply mem_write_out.
      rewrite zlength_mem_read by done. specialize (Hap b ltac:(set_solver)). unfold ranges_disjoint in Hap. lia.
  - intros x Hx. rewrite IH2 by lia. apply mem_write_out. rewrite zlength_mem_read by done. lia.
Qed.

Lemma scatter_chunk_spec m src chunk :
  Forall (λ b, 0 ≤ b.2) chunk → apart src (chunk_size chunk) chunk →
  ForallOrdPairs (λ b b', ranges_disjoint b.1 b.2 b'.1 b'.2) chunk →
  chunk_bytes (scatter_chunk m src chunk) chunk = mem_read m src (chunk_size chunk) ∧
  ∀ x, (∀ b, b ∈ chunk → ¬ (b.1 ≤ x < b.1 + b.2)) → scatter_chunk m src chunk x = m x.
Proof.
  intros Hs. revert m src. induction Hs as [|[p sz] chunk Hsz Hs IH]; intros m src Hap Hd; [done|].
  simpl in Hsz. pose proof (chunk_size_nonneg _ Hs) as Hn.
  change (chunk_size ((p, sz) :: chunk)) with (sz + chunk_size chunk) in *. simpl scatter_chunk.
  inversion_clear Hd as [|? ? Hp Hd']. rewrite Forall_forall in Hp.
  destruct (IH (memmove m p src sz) (src + sz)) as [IH1 IH2]; [|done|].
  { intros b Hb. specialize (Hap b ltac:(set_solver)). unfold ranges_disjoint in *. lia. }
  split.
  - rewrite mem_read_app by lia. unfold chunk_bytes at 1. rewrite bind_cons. f_equal.
    + cbn [fst snd]. rewrite <-(mem_read_memmove_same m p src sz) by done. apply mem_read_ext. intros x Hx. apply IH2.
      intros b Hb. specialize (Hp b Hb). unfold ranges_disjoint in Hp. simpl in Hp. lia.
    + fold (chunk_bytes (scatter_chunk (memmove m p src sz) (src + sz) chunk) chunk). rewrite IH1.
      apply mem_read_memmove_disjoint; [done|]. specialize (Hap (p, sz) ltac:(set_solver)).
      unfold ranges_disjoint in *. simpl in Hap. lia.
  - intros x Hx. rewrite IH2 by (intros b Hb; apply Hx; set_solver). apply mem_write_out.
    rewrite zlength_mem_read by done. apply (Hx (p, sz)). set_solver.
Qed.

(** A page of several buffers survives packing.  Packing puts the bytes of
    the buffers one after the other and touches nothing else; when a reader
    receives that blob, scattering it into its own buffers of the same sizes
    leaves in them exactly what the writer's buffers held. *)
Theorem pack_scatter_roundtrip (m m' : mem) (dst src : Z) (chunk chunk' : list (Z * Z))
  (Hsize : Forall (λ b, 0 ≤ b.2) chunk) (Hsame : chunk'.*2 = chunk.*2)
  (Hdst : apart dst (chunk_size chunk) chunk) (Hsrc : apart src (chunk_size chunk) chunk')
  (Hdisj : ForallOrdPairs (λ b b', ranges_disjoint b.1 b.2 b'.1 b'.2) chunk')
  (Hblob : mem_read m' src (chunk_size chunk) = mem_read (pack_chunk m dst chunk) dst (chunk_size chunk)) :
  chunk_bytes (scatter_chunk m' src chunk') chunk' = chunk_bytes m chunk ∧
  (∀ x, ¬ (dst ≤ x < dst + chunk_size chunk) → pack_chunk m dst chunk x = m x) ∧
  (∀ x, (∀ b, b ∈ chunk' → ¬ (b.1 ≤ x < b.1 + b.2)) → scatter_chunk m' src chunk' x = m' x).
Proof.
  assert (chunk_size chunk' = chunk_size chunk) as Hcs by (unfold chunk_size; by rewrite Hsame).
  assert (Forall (λ b, 0 ≤ b.2) chunk') as Hs'.
  { assert (Forall (λ x, 0 ≤ x) chunk'.*2) as H by (rewrite Hsame, Forall_fmap; exact Hsize).
    rewrite Forall_fmap in H. exact H. }
  destruct (pack_chunk_spec m dst chunk) as [H1 H2]; [done..|].
  destruct (scatter_chunk_spec m' src chunk') as [H3 H4]; [done|by rewrite Hcs|done|].
  split; [|by split]. rewrite H3, Hcs, Hblob. done.
Qed.

(** *** All the pages of a call *)

Lemma concat_page_blocks {A} fuel mult : ∀ l : list A,
  (0 < mult)%nat → (length l ≤ fuel)%nat → concat (page_blocks fuel mult l) = l.
Proof.
  induction fuel as [|fuel IH]; intros l Hm Hl; [destruct l; [done|simpl in Hl; lia]|]. cbn [page_blocks].
  destruct l as [|x l]; [done|]. cbn [concat]. rewrite IH; [apply take_drop|done|]. rewrite length_drop. simpl in *. lia.
Qed.

Lemma pack_pages_spec place pages : ∀ m i packed m',
  Forall (Forall (λ b, 0 ≤ b.2)) pages → pack_pages m place i pages = (packed, m') →
  length packed = length pages ∧
  (∀ q chunk, pages !! q = Some chunk → packed !! q = Some (place (i + q)%nat, chunk_size chunk)) ∧
  (∀ x, (∀ q chunk, pages !! q = Some chunk → ¬ (place (i + q)%nat ≤ x < place (i + q)%nat + chunk_size chunk)) → m' x = m x).
Proof.
  assert (∀ chunk m dst x, Forall (λ b, 0 ≤ b.2) chunk → ¬ (dst ≤ x < dst + chunk_size chunk) → pack_chunk m dst chunk x = m x) as Hout.
  { intros chunk m dst x Hs. revert m dst. induction Hs as [|[p sz] chunk Hsz Hs IH]; intros m dst Hx; [done|].
    pose proof (chunk_size_nonneg _ Hs). change (chunk_size ((p, sz) :: chunk)) with (sz + chunk_size chunk) in Hx. simpl in *.
    rewrite IH by lia. apply mem_write_out. rewrite zlength_mem_read by done. lia. }
  induction pages as [|chunk pages IH]; intros m i packed m' Hs; cbn [pack_pages].
  { intros [= <- <-]. split; [done|]. split; [|done]. intros q chunk Hq. by rewrite lookup_nil in Hq. }
  apply Forall_cons in Hs as [Hc Hs].
  destruct (pack_pages (pack_chunk m (place i) chunk) place (S i) pages) as [rest m1] eqn:E. intros [= <- <-].
  destruct (IH _ _ _ _ Hs E) as (H1 & H2 & H3). split; [by simpl; rewrite H1|]. split.
  - intros [|q] ch; simpl; [intros [= <-]; by rewrite Nat.add_0_r|]. intros Hq. rewrite (H2 q ch Hq). do 2 f_equal. f_equal. lia.
  - intros x Hx. rewrite H3; [|intros q ch Hq; specialize (Hx (S q) ch Hq); by replace (S i + q)%nat with (i + S q)%nat by lia].
    apply Hout; [done|]. specialize (Hx 0%nat chunk eq_refl). by rewrite Nat.add_0_r in Hx.
Qed.

(** Every blob is apart from every buffer. *)
Definition blobs_apart (pages : list (list (Z * Z))) (blobs : list Z) : Prop :=
  ∀ q q' chunk chunk' a, pages !! q = Some chunk → pages !! q' = Some chunk' → blobs !! q' = Some a →
    apart a (chunk_size chunk') chunk.

Abbreviation buffers_disjoint := (ForallOrdPairs (λ b b' : Z * Z, ranges_disjoint b.1 b.2 b'.1 b'.2)).

Lemma disjoint_concat_cons (chunk : list (Z * Z)) rest :
  buffers_disjoint (chunk ++ rest) →
  buffers_disjoint chunk ∧ buffers_disjoint rest ∧ ∀ b b', b ∈ chunk → b' ∈ rest → ranges_disjoint b.1 b.2 b'.1 b'.2.
Proof.
  induction chunk as [|x chunk IH]; intros Hd; cbn [app] in Hd; [split; [constructor|split; [done|by intros ?? ?%not_elem_of_nil]]|].
  inversion_clear Hd as [|? ? Hx Hd']. destruct (IH Hd') as (H1 & H2 & H3). apply Forall_app in Hx as [Hx1 Hx2].
  split; [by constructor|]. split; [done|]. intros b b' [->|Hb]%elem_of_cons Hb'; [|by apply H3].
  by apply (proj1 (Forall_forall _ _) Hx2).
Qed.

(** Scattering the fetched pages: a fetched page's buffers hold its blob. *)
Lemma scatter_pages_spec pages : ∀ m blobs results,
  length blobs = length pages → length results = length pages → Forall (Forall (λ b, 0 ≤ b.2)) pages →
  blobs_apart pages blobs → buffers_disjoint (concat pages) →
  (scatter_pages m pages blobs results).2 = results ∧
  (∀ q chunk a, pages !! q = Some chunk → blobs !! q = Some a → results !! q = Some true →
     chunk_bytes (scatter_pages m pages blobs results).1 chunk = mem_read m a (chunk_size chunk)) ∧
  (∀ x, (∀ b, b ∈ concat pages → ¬ (b.1 ≤ x < b.1 + b.2)) → (scatter_pages m pages blobs results).1 x = m x).
Proof.
  induction pages as [|chunk pages IH]; intros m [|a blobs] [|ok results] Hb Hr Hs Hap Hd; try done.
  cbn [scatter_pages]. cbn [concat] in *. apply Forall_cons in Hs as [Hs1 Hs].
  apply disjoint_concat_cons in Hd as (Hd1 & Hd & Hd2). injection Hb as Hb. injection Hr as Hr.
  set (m1 := if ok then scatter_chunk m a chunk else m).
  assert (match ok with true => (scatter_chunk m a chunk, true, blobs) | false => (m, false, tail (a :: blobs)) end
    = (m1, ok, blobs)) as -> by by destruct ok.
  destruct (scatter_chunk_spec m a chunk Hs1) as [Hc1 Hc2]; [by apply (Hap 0%nat 0%nat chunk chunk a)|done|].
  assert (∀ x, (∀ b, b ∈ chunk → ¬ (b.1 ≤ x < b.1 + b.2)) → m1 x = m x) as Hm1 by (intros x Hx; unfold m1; destruct ok; auto).
  destruct (IH m1 blobs results Hb Hr Hs) as (I1 & I2 & I3); [|done|].
  { intros q q' c c' a' H1 H2 H3. by apply (Hap (S q) (S q') c c' a'). }
  destruct (scatter_pages m1 pages blobs results) as [m2 oks]. simpl in I1, I2, I3 |- *. subst oks.
  split; [done|]. split.
  - intros [|q] ch a'; simpl.
    + intros [= <-] [= <-] [= ->]. rewrite <-Hc1. apply chunk_bytes_ext. intros b x Hin Hx. rewrite I3; [done|].
      intros b' Hb'. specialize (Hd2 b b' Hin Hb'). unfold ranges_disjoint in Hd2. lia.
    + intros Hq Ha Ho. rewrite (I2 q ch a' Hq Ha Ho). apply mem_read_ext. intros x Hx. apply Hm1. intros b Hin.
      specialize (Hap 0%nat (S q) chunk ch a' eq_refl Hq Ha b Hin). unfold ranges_disjoint in Hap. lia.
  - intros x Hx. rewrite I3 by (intros b Hin; apply Hx, elem_of_app; by right). apply Hm1. intros b Hin. apply Hx, elem_of_app. by left.
Qed.

(** Prefixes do not separate tenants.  The tenants ["a"] and ["a_b"] store
    the keys ["b_x"] and ["x"] under the same component keys. *)
Theorem prefix_collision :
  _component_keys (new_naming "a" true 0 0 1) ["b_x"] = _component_keys (new_naming "a_b" true 0 0 1) ["x"].
Proof. reflexivity. Qed.

(** The raw existence probe ignores the prefix.  With a prefix, the key the
    generic [batch_set] writes is never the key [batch_exists] looks up. *)
Theorem raw_probe_ignores_prefix (nm : naming) (k : string) (Hp : nm_prefix nm ≠ ""%string) :
  (_lookup_keys nm true [k]).1 ≠ _tag_keys nm [k].
Proof.
  unfold _lookup_keys, _tag_keys. rewrite (proj2 (String.eqb_neq _ _)) by done. simpl. intros [= H].
  apply (f_equal String.length) in H.
  assert (∀ a b, String.length (a +:+ b) = (String.length a + String.length b)%nat) as Hl
    by (intros a b; induction a; simpl; auto).
  rewrite !Hl in H. simpl in H. lia.
Qed.

Module KeysExamples.
Definition nm0 : naming := new_naming "t" false 3 0 1.

Lemma component_keys_unambiguous_witness : NoDup (_component_keys nm0 ["p"; "q"]).1.
Proof.
  pose proof (component_keys_unambiguous nm0 ["p"; "q"] ltac:(decide_vm)) as H.
  destruct (_component_keys nm0 ["p"; "q"]). exact (proj1 H).
Defined.

Lemma page_results_per_page_witness : _page_results [true; true; false; true] 2 !! 1%nat = Some false.
Proof.
  exact (proj1 (proj2 (page_results_per_page 2 2 [true; true; false; true] [None; None; None; None]
    ltac:(lia) ltac:(reflexivity) ltac:(reflexivity))) 1%nat ltac:(lia)).
Defined.

Definition mem0 : mem := λ x, x mod 7.

Lemma pack_scatter_roundtrip_witness :
  let m' := mem_write mem0 500 (mem_read (pack_chunk mem0 100 [(10, 2); (20, 3)]) 100 5) in
  chunk_bytes (scatter_chunk m' 500 [(30, 2); (40, 3)]) [(30, 2); (40, 3)] = chunk_bytes mem0 [(10, 2); (20, 3)].
Proof.
  intros m'. refine (proj1 (pack_scatter_roundtrip mem0 m' 100 500 [(10, 2); (20, 3)] [(30, 2); (40, 3)] _ _ _ _ _ _)).
  - repeat constructor; simpl; lia.
  - reflexivity.
  - intros b Hb. unfold ranges_disjoint. vm_compute in Hb. set_unfold in Hb. destruct_or! Hb; subst b; simpl; lia.
  - intros b Hb. unfold ranges_disjoint. set_unfold in Hb. destruct_or! Hb; subst b; simpl; lia.
  - repeat constructor. unfold ranges_disjoint. simpl. lia.
  - vm_compute. reflexivity.
Defined.

Lemma raw_probe_ignores_prefix_witness : (_lookup_keys nm0 true ["p"]).1 ≠ _tag_keys nm0 ["p"].
Proof. apply (raw_probe_ignores_prefix nm0 "p"). discriminate. Defined.
End KeysExamples.
