(* ===== verification/DiskStore.v ===== *)
(** The disk tier of [diskstore.py].

    [DiskStore] keeps an LRU index of the pages on disk, a queue of pending
    writes and the set of keys in flight; the directory is the record [disk].
    Every operation is a step on the store; the worker thread's [_write] and
    the two halves of [remove] (the index under the lock, the file after it)
    are separate steps, so that a trace is an interleaving of the threads. *)
From S2P Require Import Prelude Bytes HashRing Hashlib Types.

(** ** The directory on disk *)

(** [index.json]: absent, unreadable, or the entries dumped there. *)
Inductive index_file :=
  | NoIndex
  | BadIndex
  | IndexData (entries : list (string * (string * Z))).

Record disk := mk_disk {
  d_files : gmap string (list Z);
  d_index : index_file
}.

Record DiskStore := mk_store {
  s_max_bytes : Z;
  s_index : list (string * (string * Z));
  s_used : Z;
  s_inflight : gset string;
  s_writes_since_flush : Z;
  s_queue : list (string * list Z);
  s_running : bool;
  s_disk : disk
}.

Section diskstore.
Context {HL : Hashlib}.

Definition with_disk (s : DiskStore) (d : disk) : DiskStore :=
  mk_store (s_max_bytes s) (s_index s) (s_used s) (s_inflight s) (s_writes_since_flush s)
    (s_queue s) (s_running s) d.

Definition with_index (s : DiskStore) (idx : list (string * (string * Z))) (used : Z) : DiskStore :=
  mk_store (s_max_bytes s) idx used (s_inflight s) (s_writes_since_flush s)
    (s_queue s) (s_running s) (s_disk s).

(** ** Opening *)

(** The entries of [index.json] whose file is still there. *)
Definition load_entry (files : gmap string (list Z)) (st : list (string * (string * Z)) * Z)
    (e : string * (string * Z)) : list (string * (string * Z)) * Z :=
  let '(key, (name, length)) := e in
  if bool_decide (is_Some (files !! name))
  then (od_set st.1 key (name, length), st.2 + length) else st.

(** [name.endswith(".bin")] *)
Definition is_bin (name : string) : bool := String.prefix (str_rev ".bin") (str_rev name).

(** The key and the payload length a file's header gives; [None] when the scan
    skips the file. *)
Definition scan_file (content : list Z) : option (string * Z) :=
  let hdr := take 4 content in
  if decide (length hdr < 4)%nat then None
  else
    let klen := be_val hdr in
    key ← decode_utf8_strict (take (Z.to_nat klen) (drop 4 content));
    let length := zlength content - 4 - klen in
    if 0 <=? length then Some (key, length) else None.

Definition scan_one (files : gmap string (list Z)) (st : list (string * (string * Z)) * Z) (name : string) :
    list (string * (string * Z)) * Z :=
  if is_bin name then
    match files !! name ≫= scan_file with
    | Some (key, length) => (od_set st.1 key (name, length), st.2 + length)
    | None => st
    end
  else st.

(** [sorted(os.listdir(self.dir))] *)
Definition listdir (files : gmap string (list Z)) : list string := merge_sort String.le (elements (dom files)).

Definition _rebuild_from_scan (files : gmap string (list Z)) : list (string * (string * Z)) * Z :=
  foldl (scan_one files) ([], 0) (listdir files).

Definition _load_index (d : disk) : list (string * (string * Z)) * Z :=
  match d_index d with
  | IndexData entries => foldl (load_entry (d_files d)) ([], 0) entries
  | NoIndex | BadIndex => _rebuild_from_scan (d_files d)
  end.

(** [DiskStore.__init__] on the directory [d]. *)
Definition open_store (d : disk) (max_bytes : Z) : DiskStore :=
  let '(idx, used) := _load_index d in
  mk_store max_bytes idx used ∅ 0 [] true d.

(** [_flush_index]: the temporary file replaces [index.json] atomically. *)
Definition _flush_index (s : DiskStore) : DiskStore :=
  with_disk s (mk_disk (d_files (s_disk s)) (IndexData (s_index s))).

(** ** Operations *)

(** [put]: enqueue a write unless the key is on disk or in flight. *)
Definition put (s : DiskStore) (key : string) (data : list Z) : DiskStore :=
  if negb (s_running s) || (zlength data >? s_max_bytes s) then s
  else if od_mem (s_index s) key || bool_decide (key ∈ s_inflight s) then s
  else mk_store (s_max_bytes s) (s_index s) (s_used s) ({[key]} ∪ s_inflight s)
         (s_writes_since_flush s) (s_queue s ++ [(key, data)]) (s_running s) (s_disk s).

(** The bytes of a page's file; [None] when [struct.pack] refuses the key's
    length. *)
Definition file_bytes (key : string) (data : list Z) : option (list Z) :=
  h ← pack_be 4 (zlength (encode_utf8 key)); Some (h ++ encode_utf8 key ++ data).

(** The capacity loop of [_write]. *)
Fixpoint evict_disk (max_bytes : Z) (idx : list (string * (string * Z))) (used : Z)
    (files : gmap string (list Z)) (evicted : list string) :
    list (string * (string * Z)) * Z * gmap string (list Z) * list string :=
  match idx with
  | (old_key, (old_name, old_len)) :: idx' =>
      if (used >? max_bytes) && (1 <? length idx)%nat
      then evict_disk max_bytes idx' (used - old_len) (delete old_name files) (evicted ++ [old_key])
      else (idx, used, files, evicted)
  | [] => ([], used, files, evicted)
  end.

(** [_write]: the new store and the keys reported to [on_evict]; [None] when
    the file cannot be written ([io_ok] is false, or the key is too long). *)
Definition _write (s : DiskStore) (key : string) (data : list Z) (io_ok : bool) :
    option (DiskStore * list string) :=
  let name := _safe_name key in
  content ← (if io_ok then file_bytes key data else None);
  let files := <[name := content]> (d_files (s_disk s)) in
  let used := if od_mem (s_index s) key then s_used s else s_used s + zlength data in
  let idx := od_move_to_end (od_set (s_index s) key (name, zlength data)) key in
  let wsf := s_writes_since_flush s + 1 in
  let '(idx, used, files, evicted) := evict_disk (s_max_bytes s) idx used files [] in
  let flush := 256 <=? wsf in
  let s' := mk_store (s_max_bytes s) idx used (s_inflight s) (if flush then 0 else wsf)
              (s_queue s) (s_running s) (mk_disk files (d_index (s_disk s))) in
  Some (if flush then _flush_index s' else s', evicted).

(** One turn of the worker's loop [_run] on a queued page. *)
Definition run_one (s : DiskStore) (io_ok : bool) : DiskStore * list string :=
  match s_queue s with
  | [] => (s, [])
  | (key, data) :: q =>
      let s := mk_store (s_max_bytes s) (s_index s) (s_used s) (s_inflight s)
                 (s_writes_since_flush s) q (s_running s) (s_disk s) in
      let '(s, evicted) := default (s, []) (_write s key data io_ok) in
      (mk_store (s_max_bytes s) (s_index s) (s_used s) (s_inflight s ∖ {[key]})
         (s_writes_since_flush s) (s_queue s) (s_running s) (s_disk s), evicted)
  end.

(** Reading a page's file for [length] bytes; [None] covers every exception. *)
Definition read_file (content : option (list Z)) (length : Z) : option (list Z) :=
  c ← content;
  let hdr := take 4 c in
  if bool_decide (List.length hdr = 4%nat)
  then Some (take (Z.to_nat length) (drop (Z.to_nat (4 + be_val hdr)) c))
  else None.

Definition get (s : DiskStore) (key : string) : option (list Z) * DiskStore :=
  match od_get (s_index s) key with
  | None => (None, s)
  | Some (name, length) =>
      (read_file (d_files (s_disk s) !! name) length,
       with_index s (od_move_to_end (s_index s) key) (s_used s))
  end.

(** [DiskStore.exists] *)
Definition disk_exists (s : DiskStore) (key : string) : bool := od_mem (s_index s) key.

(** [remove], under the lock: the file left to unlink. *)
Definition remove_entry (s : DiskStore) (key : string) : option string * DiskStore :=
  match od_get (s_index s) key with
  | None => (None, s)
  | Some (name, length) => (Some name, with_index s (od_del (s_index s) key) (s_used s - length))
  end.

(** [os.remove], after the lock is released. *)
Definition unlink (s : DiskStore) (name : string) : DiskStore :=
  with_disk s (mk_disk (delete name (d_files (s_disk s))) (d_index (s_disk s))).

Definition remove (s : DiskStore) (key : string) : DiskStore :=
  match remove_entry s key with
  | (None, s) => s
  | (Some name, s) => unlink s name
  end.

Definition stats (s : DiskStore) : Z * nat := (s_used s, length (s_index s)).

(** The worker drains the queue up to the stop marker. *)
Definition drain (s : DiskStore) : DiskStore :=
  Nat.iter (length (s_queue s)) (λ s, (run_one s true).1) s.

Definition stop_running (s : DiskStore) : DiskStore :=
  mk_store (s_max_bytes s) (s_index s) (s_used s) (s_inflight s) (s_writes_since_flush s)
    (s_queue s) false (s_disk s).

(** [close]: stop accepting, let the worker finish, flush the index. *)
Definition close (s : DiskStore) : DiskStore := _flush_index (drain (stop_running s)).
End diskstore.

(** ** Invariant *)

Definition index_bytes (idx : list (string * (string * Z))) : Z := sumZ ((λ e, e.2.2) <$> idx).

Lemma index_bytes_app i1 i2 : index_bytes (i1 ++ i2) = index_bytes i1 + index_bytes i2.
Proof. unfold index_bytes. by rewrite fmap_app, sumZ_app. Qed.

Lemma index_bytes_cons e i : index_bytes (e :: i) = e.2.2 + index_bytes i.
Proof. done. Qed.

Lemma index_bytes_perm i1 i2 : i1 ≡ₚ i2 → index_bytes i1 = index_bytes i2.
Proof. intros Hp. apply sumZ_perm. by rewrite Hp. Qed.

(** The capacity loop drops a prefix of the index, with its files. *)
Lemma evict_disk_spec max idx used files ev idx' used' files' ev' :
  evict_disk max idx used files ev = (idx', used', files', ev') →
  ∃ gone, idx = gone ++ idx' ∧ used' = used - index_bytes gone ∧ ev' = ev ++ od_keys gone ∧
    (∀ name, files' !! name = if bool_decide (name ∈ (λ e, e.2.1) <$> gone) then None else files !! name) ∧
    (used' ≤ max ∨ (length idx' ≤ 1)%nat) ∧ (idx ≠ [] → idx' ≠ []).
Proof.
  revert used files ev. induction idx as [|[k [n l]] idx IH]; intros used files ev; simpl.
  - intros [= <- <- <- <-]. exists []. unfold index_bytes. simpl.
    refine (conj _ (conj _ (conj _ (conj _ (conj _ _))))); [done|lia|by rewrite app_nil_r|done|right; simpl; lia|done].
  - destruct (_ && _) eqn:E; simpl in E.
    + intros Hev. apply andb_true_iff in E as [E1 E2]. bool_cases. apply Nat.ltb_lt in E2.
      apply IH in Hev as (gone & -> & -> & -> & Hf & Hb & Hne).
      exists ((k, (n, l)) :: gone). refine (conj _ (conj _ (conj _ (conj _ (conj _ _))))).
      * done.
      * rewrite index_bytes_cons. simpl. lia.
      * unfold od_keys. simpl. by rewrite <-app_assoc.
      * intros name. rewrite Hf. rewrite fmap_cons. cbn [fst snd].
        destruct (decide (name = n)) as [->|Hn].
        -- rewrite lookup_delete_eq. rewrite (bool_decide_eq_true_2 (n ∈ n :: _)) by (apply elem_of_cons; by left).
           by destruct (bool_decide _).
        -- rewrite lookup_delete_ne by done.
           rewrite (bool_decide_ext (name ∈ n :: ((λ e, e.2.1) <$> gone)) (name ∈ (λ e, e.2.1) <$> gone)); [done|].
           rewrite elem_of_cons. naive_solver.
      * done.
      * intros _. apply Hne. destruct gone, idx'; simpl in *; try done; lia.
    + intros [= <- <- <- <-]. exists []. unfold index_bytes. simpl.
      refine (conj _ (conj _ (conj _ (conj _ (conj _ _))))); [done|lia|by rewrite app_nil_r|done| |done].
      apply andb_false_iff in E as [E|E]; bool_cases; [by left|right]. apply Nat.ltb_ge in E. done.
Qed.

Section disk_facts.
Context {HL : Hashlib}.
Implicit Types (s : DiskStore) (acc : gmap string (list Z)).

(** [acc] is the data of the last accepted [put] of every key.  A file may be
    missing (another thread, or an operator, unlinked it), but when it is there
    it is the accepted page. *)
Record disk_inv s acc : Prop := {
  di_keys : NoDup (od_keys (s_index s));
  di_used : s_used s = index_bytes (s_index s);
  di_cap : s_used s ≤ s_max_bytes s;
  di_queue : NoDup (od_keys (s_queue s));
  di_inflight k : k ∈ s_inflight s ↔ k ∈ od_keys (s_queue s);
  di_pending k d : (k, d) ∈ s_queue s →
    acc !! k = Some d ∧ zlength d ≤ s_max_bytes s ∧ od_get (s_index s) k = None;
  di_files k name l : od_get (s_index s) k = Some (name, l) →
    name = _safe_name k ∧ ∃ d, acc !! k = Some d ∧ l = zlength d ∧
      (d_files (s_disk s) !! name = None ∨ d_files (s_disk s) !! name = file_bytes k d)
}.

(** File names identify the keys of [K] (no SHA-1 collision among them). *)
Definition names_distinct (K : gset string) : Prop :=
  ∀ k1 k2, k1 ∈ K → k2 ∈ K → _safe_name k1 = _safe_name k2 → k1 = k2.

Lemma read_file_bytes key d content :
  file_bytes key d = Some content → read_file (Some content) (zlength d) = Some d.
Proof.
  unfold file_bytes. destruct (pack_be 4 _) as [h|] eqn:Eh; [|done]. intros [= <-].
  apply pack_be_Some in Eh as [Hr ->]. unfold read_file. cbn [mbind option_bind].
  assert (take 4 (be_bytes 4 (zlength (encode_utf8 key)) ++ encode_utf8 key ++ d) =
    be_bytes 4 (zlength (encode_utf8 key))) as -> by (apply take_app_length'; by rewrite length_be_bytes).
  rewrite bool_decide_eq_true_2 by apply length_be_bytes. f_equal.
  rewrite be_val_be_bytes by done. rewrite app_assoc.
  rewrite drop_app_length' by (rewrite length_app, length_be_bytes; unfold zlength; lia).
  unfold zlength. rewrite Nat2Z.id. apply firstn_all.
Qed.

Lemma disk_put_inv s acc key d :
  disk_inv s acc →
  ∃ acc', disk_inv (put s key d) acc' ∧ (acc' = acc ∨ acc' = <[key := d]> acc).
Proof.
  intros Hi. unfold put. destruct (_ || _) eqn:E1; [by eauto|].
  destruct (od_mem _ _ || _) eqn:E2; [by eauto|].
  apply orb_false_iff in E1 as [Hrun Hsz], E2 as [Hidx Hinf]. bool_cases.
  unfold od_mem in Hidx. bool_cases. rewrite <-eq_None_not_Some in Hidx.
  rewrite (di_inflight _ _ Hi) in Hinf. destruct Hi as [H1 H2 H3 H4 H5 H6 H7].
  exists (<[key := d]> acc). split; [|by right]. split; simpl; try done.
  - unfold od_keys in *. rewrite fmap_app. simpl. apply NoDup_app. split; [done|].
    split; [|apply NoDup_singleton]. by intros k Hk ->%list_elem_of_singleton.
  - intros k. unfold od_keys in *. rewrite fmap_app, elem_of_union, elem_of_singleton, elem_of_app, H5. simpl.
    rewrite list_elem_of_singleton. naive_solver.
  - intros k d' [Hin|Heq%list_elem_of_singleton]%elem_of_app.
    + destruct (decide (key = k)) as [<-|Hne]; [|rewrite lookup_insert_ne by done; by apply H6].
      destruct Hinf. apply list_elem_of_fmap. by exists (key, d').
    + injection Heq as -> ->. by rewrite lookup_insert_eq.
  - intros k name l Hg. destruct (decide (key = k)) as [<-|Hne]; [congruence|].
    rewrite lookup_insert_ne by done. by apply H7.
Qed.

Lemma disk_get_inv s acc key : disk_inv s acc → disk_inv (get s key).2 acc.
Proof.
  intros Hi. unfold get. destruct (od_get (s_index s) key) as [[name l]|]; [|done].
  destruct Hi as [H1 H2 H3 H4 H5 H6 H7]. split; simpl; try done.
  - by apply od_keys_move_nodup.
  - rewrite H2. symmetry. apply index_bytes_perm, od_move_to_end_perm.
  - intros k d Hk. destruct (H6 k d Hk) as (? & ? & ?). by rewrite od_get_move_to_end.
  - intros k name' l'. rewrite od_get_move_to_end by done. apply H7.
Qed.

Lemma disk_remove_inv s acc key : disk_inv s acc → disk_inv (remove_entry s key).2 acc.
Proof.
  intros Hi. unfold remove_entry. destruct (od_get (s_index s) key) as [[name l]|] eqn:Eg; [|done].
  destruct Hi as [H1 H2 H3 H4 H5 H6 H7].
  assert (s_used s = l + index_bytes (od_del (s_index s) key)) as Hu.
  { rewrite H2, (index_bytes_perm _ _ (od_del_perm _ _ _ Eg)). done. }
  destruct (H7 _ _ _ Eg) as (_ & d0 & _ & Hl & _).
  split; simpl; try done.
  - by apply od_keys_del_nodup.
  - lia.
  - rewrite Hl. unfold zlength. lia.
  - intros k d Hk. destruct (H6 k d Hk) as (? & ? & ?). rewrite od_get_del by done. by case_decide.
  - intros k name' l'. rewrite od_get_del by done. case_decide; [done|]. apply H7.
Qed.

Lemma disk_unlink_inv s acc name : disk_inv s acc → disk_inv (unlink s name) acc.
Proof.
  intros [H1 H2 H3 H4 H5 H6 H7]. split; simpl; try done.
  intros k name' l Hg. destruct (H7 _ _ _ Hg) as (? & d & ? & ? & Hf). split; [done|].
  exists d. split; [done|]. split; [done|]. destruct (decide (name = name')) as [<-|Hne].
  - left. apply lookup_delete_eq.
  - by rewrite lookup_delete_ne.
Qed.

(** The effect of a successful [_write] of a key that is not on disk. *)
Lemma write_spec s key d content :
  od_get (s_index s) key = None → file_bytes key d = Some content →
  ∃ s' ev gone kept, _write s key d true = Some (s', ev) ∧
    s_index s ++ [(key, (_safe_name key, zlength d))] = gone ++ kept ∧ kept ≠ [] ∧
    s_index s' = kept ∧ ev = od_keys gone ∧
    s_used s' = s_used s + zlength d - index_bytes gone ∧
    (s_used s' ≤ s_max_bytes s ∨ (length kept ≤ 1)%nat) ∧
    (∀ name, d_files (s_disk s') !! name =
      if bool_decide (name ∈ (λ e, e.2.1) <$> gone) then None
      else (<[_safe_name key := content]> (d_files (s_disk s))) !! name) ∧
    s_max_bytes s' = s_max_bytes s ∧ s_inflight s' = s_inflight s ∧ s_queue s' = s_queue s ∧
    s_running s' = s_running s.
Proof.
  intros Hn Hc. unfold _write. rewrite Hc. cbn [mbind option_bind].
  rewrite (od_move_set_fresh _ _ _ Hn).
  replace (od_mem (s_index s) key) with false
    by (symmetry; apply bool_decide_eq_false_2; rewrite Hn; by intros []).
  destruct (evict_disk _ _ _ _ _) as [[[idx used] files] ev] eqn:Ee.
  apply evict_disk_spec in Ee as (gone & Hidx & Hused & Hev & Hf & Hb & Hne).
  eexists _, ev, gone, idx. split; [reflexivity|]. split; [done|].
  split; [apply Hne; by destruct (s_index s)|].
  destruct (256 <=? _); simpl; (split; [done|]); (split; [done|]); (split; [lia|]);
    (split; [by subst|]); done.
Qed.

Lemma last_in_suffix {A} (l1 l2 : list A) x gone : l1 ++ [x] = gone ++ l2 → l2 ≠ [] → x ∈ l2.
Proof.
  intros He Hne. destruct (exists_last Hne) as (l2' & y & ->).
  rewrite app_assoc in He. apply app_inj_tail in He as [_ ->]. apply elem_of_app. right.
  by apply list_elem_of_singleton.
Qed.

(** The worker's view of the index after a new page: what is evicted and what
    is kept. *)
Lemma split_index K s acc key (d : list Z) gone kept :
  names_distinct K → (∀ k, k ∈ od_keys (s_index s) → k ∈ K) → key ∈ K → disk_inv s acc →
  od_get (s_index s) key = None → s_index s ++ [(key, (_safe_name key, zlength d))] = gone ++ kept →
  NoDup (od_keys kept) ∧ index_bytes gone + index_bytes kept = s_used s + zlength d ∧
  ∀ k v, (k, v) ∈ kept → k ∈ K ∧ v.1 = _safe_name k ∧ (v.1 ∉ ((λ e, e.2.1) <$> gone)) ∧
    (od_get (s_index s) k = Some v ∨ (k, v) = (key, (_safe_name key, zlength d))).
Proof.
  intros HK Hks HkK [H1 H2 _ _ _ _ H7] Hnone Hsplit.
  assert (NoDup (od_keys (gone ++ kept))) as Hnd.
  { rewrite <-Hsplit. unfold od_keys in *. rewrite fmap_app. simpl. apply NoDup_app. split; [done|].
    split; [|apply NoDup_singleton]. intros k Hk ->%list_elem_of_singleton. by apply od_get_None in Hnone. }
  unfold od_keys in Hnd. rewrite fmap_app in Hnd. apply NoDup_app in Hnd as (_ & Hdis & Hndk).
  assert (∀ k v, (k, v) ∈ gone ++ kept → k ∈ K ∧ v.1 = _safe_name k ∧
    (od_get (s_index s) k = Some v ∨ (k, v) = (key, (_safe_name key, zlength d)))) as Hall.
  { intros k [n l]. rewrite <-Hsplit. intros [Hin|Hin%list_elem_of_singleton]%elem_of_app.
    - apply (od_elem_get _ _ _ H1) in Hin. split; [apply Hks, od_get_is_Some; eauto|]. split; [by apply (H7 k n l)|by left].
    - injection Hin as -> -> ->. eauto. }
  split; [done|]. split.
  { rewrite <-index_bytes_app, <-Hsplit, index_bytes_app, H2. unfold index_bytes at 2. simpl. lia. }
  intros k v Hk. destruct (Hall k v) as (HkK' & Hn & Hv); [apply elem_of_app; by right|].
  split; [done|]. split; [done|]. split; [|done]. intros ([k' v'] & Hn' & Hgone)%list_elem_of_fmap. simpl in Hn'.
  destruct (Hall k' v') as (HkK2 & Hn2 & _); [apply elem_of_app; by left|].
  assert (k' = k) as -> by (apply HK; [done|done|congruence]).
  apply (Hdis k); apply list_elem_of_fmap; [by exists (k, v')|by exists (k, v)].
Qed.

(** A successful write of an accepted page that is not queued any more. *)
Lemma written_inv K s acc key d content s2 ev :
  names_distinct K → (∀ k, k ∈ od_keys (s_index s) → k ∈ K) → key ∈ K → disk_inv s acc →
  od_get (s_index s) key = None → key ∉ od_keys (s_queue s) → acc !! key = Some d → zlength d ≤ s_max_bytes s →
  file_bytes key d = Some content → _write s key d true = Some (s2, ev) →
  disk_inv s2 acc ∧ (∀ k, k ∈ od_keys (s_index s2) → k ∈ K) ∧ s_queue s2 = s_queue s.
Proof.
  intros HK Hks HkK Hi Hnone Hkq Hacc Hsz Hc Ew.
  destruct (write_spec s key d content Hnone Hc) as
    (s2' & ev' & gone & kept & Hw & Hsplit & Hne & Hidx & _ & Hused & Hcap & Hfiles & Hmax & Hin & Hqq & _).
  rewrite Hw in Ew. injection Ew as -> ->.
  destruct (split_index K s acc key d gone kept HK Hks HkK Hi Hnone Hsplit) as (Hndk & Hsum & Hkept).
  destruct Hi as [H1 H2 H3 H4 H5 H6 H7].
  assert (∀ k, k ∈ od_keys kept → k ∈ K) as HkeptK
    by (intros k ([k' v] & -> & Hk)%list_elem_of_fmap; by apply (Hkept k' v)).
  split; [|by rewrite Hidx]. split; rewrite ?Hidx, ?Hmax, ?Hin, ?Hqq; try done.
  - lia.
  - destruct Hcap as [?|Hone]; [done|]. pose proof (last_in_suffix _ _ _ _ Hsplit Hne) as Hlast.
    destruct kept as [|e [|]]; simpl in Hone; [done| |lia].
    apply list_elem_of_singleton in Hlast. subst e. unfold index_bytes in Hsum at 2. simpl in Hsum. lia.
  - intros k d' Hk. destruct (H6 k d' Hk) as (? & ? & Hno). split; [done|]. split; [done|].
    apply od_get_None. intros ([k' v] & -> & Hk')%list_elem_of_fmap.
    destruct (Hkept k' v Hk') as (_ & _ & _ & [Hg|[= -> ->]]); [simpl in *; congruence|].
    apply Hkq. apply list_elem_of_fmap. by exists (key, d').
  - intros k name l Hg%od_get_elem. destruct (Hkept _ _ Hg) as (HkK' & Hname & Hng & Hv). simpl in Hname, Hng.
    split; [done|]. rewrite Hfiles, bool_decide_eq_false_2 by done. destruct Hv as [Hold|[= -> -> ->]].
    + destruct (H7 _ _ _ Hold) as (_ & d' & Ha & Hl & Hf). exists d'. split; [done|]. split; [done|].
      rewrite lookup_insert_ne; [done|]. rewrite Hname. intros Hnm.
      assert (key = k) as <- by by apply HK. congruence.
    + exists d. split; [done|]. split; [done|]. right. by rewrite lookup_insert_eq.
Qed.

(** Taking the first page off the queue. *)
Definition popped s (key : string) (q : list (string * list Z)) : DiskStore :=
  mk_store (s_max_bytes s) (s_index s) (s_used s) (s_inflight s ∖ {[key]}) (s_writes_since_flush s) q
    (s_running s) (s_disk s).

Lemma popped_inv s acc key d q : disk_inv s acc → s_queue s = (key, d) :: q →
  disk_inv (popped s key q) acc ∧ key ∉ od_keys q.
Proof.
  intros [H1 H2 H3 H4 H5 H6 H7] Eq. rewrite Eq in *. unfold od_keys in H4. simpl in H4.
  apply NoDup_cons in H4 as [Hkq Hq]. split; [|done]. split; simpl; try done.
  - intros k. rewrite elem_of_difference, elem_of_singleton, H5. unfold od_keys. simpl.
    rewrite elem_of_cons. split; [naive_solver|]. intros Hk. split; [by right|]. by intros ->.
  - intros k d' Hk. apply H6. apply elem_of_cons. by right.
Qed.

(** The turn of the worker in terms of the popped store. *)
Lemma run_one_popped s key d q ok : s_queue s = (key, d) :: q →
  run_one s ok = default (popped s key q, []) (_write (popped s key q) key d ok).
Proof.
  intros Eq. unfold run_one. rewrite Eq. unfold _write, popped. simpl. destruct ok; [|done].
  destruct (file_bytes key d); simpl; [|done]. destruct (evict_disk _ _ _ _ _) as [[[idx used] files] ev].
  by destruct (256 <=? _).
Qed.

Lemma run_one_inv K s acc ok :
  names_distinct K → (∀ k, k ∈ od_keys (s_index s) ∨ k ∈ od_keys (s_queue s) → k ∈ K) →
  disk_inv s acc →
  disk_inv (run_one s ok).1 acc ∧
  (∀ k, k ∈ od_keys (s_index (run_one s ok).1) ∨ k ∈ od_keys (s_queue (run_one s ok).1) → k ∈ K).
Proof.
  intros HK Hks Hi. destruct (s_queue s) as [|[key d] q] eqn:Eq.
  { unfold run_one. rewrite Eq. simpl. rewrite Eq. split; [done|]. intros k Hk. by apply Hks. }
  rewrite (run_one_popped s key d q ok Eq). destruct (popped_inv s acc key d q Hi Eq) as [Hp Hkq].
  assert (key ∈ K) as HkK by (apply Hks; right; unfold od_keys; simpl; apply elem_of_cons; by left).
  assert (∀ k, k ∈ od_keys (s_index s) ∨ k ∈ od_keys q → k ∈ K) as Hks'
    by (intros k [?|?]; apply Hks; [by left|right]; unfold od_keys; simpl; apply elem_of_cons; by right).
  destruct (di_pending _ _ Hi key d) as (Hacc & Hsz & Hnone); [rewrite Eq; apply elem_of_cons; by left|].
  destruct (_write (popped s key q) key d ok) as [[s2 ev]|] eqn:Ew; simpl; [|done].
  assert (ok = true ∧ is_Some (file_bytes key d)) as [-> [content Hc]].
  { unfold _write in Ew. destruct ok; [|done]. destruct (file_bytes key d); [by eauto|done]. }
  destruct (written_inv K (popped s key q) acc key d content s2 ev) as (Hi2 & HK2 & Hq2); eauto.
  split; [done|]. rewrite Hq2. intros k [?|?]; eauto.
Qed.

(** *** Interleavings *)

(** What the threads do: callers put, get, remove (in two halves, the second
    of which may hit any file) and close; the worker writes, possibly failing,
    and flushes the index. *)
Inductive disk_op :=
  | DPut (key : string) (data : list Z)
  | DWork (io_ok : bool)
  | DGet (key : string)
  | DRemove (key : string)
  | DUnlink (name : string)
  | DFlush
  | DClose.

Definition disk_step s (op : disk_op) : DiskStore :=
  match op with
  | DPut key data => put s key data
  | DWork io_ok => (run_one s io_ok).1
  | DGet key => (get s key).2
  | DRemove key => (remove_entry s key).2
  | DUnlink name => unlink s name
  | DFlush => _flush_index s
  | DClose => close s
  end.

Definition op_key_ok (K : gset string) (op : disk_op) : Prop :=
  match op with DPut key _ => key ∈ K | _ => True end.

Definition keys_within (K : gset string) s : Prop :=
  ∀ k, k ∈ od_keys (s_index s) ∨ k ∈ od_keys (s_queue s) → k ∈ K.

Lemma flush_inv s acc : disk_inv s acc → disk_inv (_flush_index s) acc.
Proof. by intros [H1 H2 H3 H4 H5 H6 H7]; split. Qed.

Lemma drain_inv K s acc :
  names_distinct K → keys_within K s → disk_inv s acc → disk_inv (drain s) acc ∧ keys_within K (drain s).
Proof.
  intros HK Hks Hi. unfold drain. induction (length (s_queue s)) as [|n IH]; [done|]. destruct IH as [Hi' Hks'].
  rewrite Nat.iter_succ. by apply (run_one_inv K).
Qed.

Lemma disk_step_inv K s acc op :
  names_distinct K → op_key_ok K op → keys_within K s → disk_inv s acc →
  ∃ acc', disk_inv (disk_step s op) acc' ∧ keys_within K (disk_step s op) ∧
    ∀ k d, acc' !! k = Some d → acc !! k = Some d ∨ op = DPut k d.
Proof.
  intros HK Hop Hks Hi. destruct op as [key d|ok|key|key|name| |]; simpl.
  - destruct (disk_put_inv s acc key d Hi) as (acc' & Hi' & Ha). exists acc'. split; [done|]. split.
    + intros k Hk. unfold put in Hk. destruct (_ || _); [by apply Hks|].
      destruct (od_mem _ _ || _); [by apply Hks|]. simpl in Hk. unfold od_keys in Hk.
      rewrite fmap_app, elem_of_app in Hk.
      destruct Hk as [Hk|[Hk| ->%list_elem_of_singleton]]; [apply Hks; by left|apply Hks; by right|done].
    + intros k d'. destruct Ha as [->| ->]; [by left|]. rewrite lookup_insert_Some. naive_solver.
  - destruct (run_one_inv K s acc ok HK Hks Hi) as [H1 H2]. eauto.
  - exists acc. split; [by apply disk_get_inv|]. split; [|by left]. intros k. unfold get.
    destruct (od_get _ _) as [[]|]; [|apply Hks]. simpl. rewrite (od_keys_perm _ _ (od_move_to_end_perm _ _)). apply Hks.
  - exists acc. split; [by apply disk_remove_inv|]. split; [|by left]. intros k. unfold remove_entry.
    destruct (od_get _ _) as [[]|] eqn:Eg; [|apply Hks]. simpl. intros Hk. apply Hks. destruct Hk as [Hk|Hk]; [left|by right].
    rewrite (od_keys_perm _ _ (od_del_perm _ _ _ Eg)). unfold od_keys in *. simpl. apply elem_of_cons. by right.
  - exists acc. split; [by apply disk_unlink_inv|]. split; [done|by left].
  - exists acc. split; [by apply flush_inv|]. split; [done|by left].
  - assert (disk_inv (stop_running s) acc) as Hi0 by by destruct Hi.
    destruct (drain_inv K (stop_running s) acc HK Hks Hi0) as [Hi1 Hks1].
    exists acc. split; [by apply flush_inv|]. split; [done|by left].
Qed.

Lemma disk_run_inv K s acc ops :
  names_distinct K → Forall (op_key_ok K) ops → keys_within K s → disk_inv s acc →
  ∃ acc', disk_inv (foldl disk_step s ops) acc' ∧ keys_within K (foldl disk_step s ops) ∧
    ∀ k d, acc' !! k = Some d → acc !! k = Some d ∨ DPut k d ∈ ops.
Proof.
  intros HK Hops. revert s acc. induction Hops as [|op ops Hop _ IH]; intros s acc Hks Hi; simpl.
  - exists acc. split; [done|]. split; [done|]. by left.
  - destruct (disk_step_inv K s acc op HK Hop Hks Hi) as (acc1 & Hi1 & Hks1 & Ha1).
    destruct (IH _ _ Hks1 Hi1) as (acc' & Hi' & Hks' & Ha'). exists acc'. split; [done|]. split; [done|].
    intros k d Hk. destruct (Ha' k d Hk) as [Hk1|?]; [|right; apply elem_of_cons; by right].
    destruct (Ha1 k d Hk1) as [?| ->]; [by left|right; apply elem_of_cons; by left].
Qed.

Definition empty_disk : disk := mk_disk ∅ NoIndex.

Lemma open_empty max : 0 ≤ max →
  disk_inv (open_store empty_disk max) ∅ ∧ ∀ K, keys_within K (open_store empty_disk max).
Proof.
  intros Hm. assert (open_store empty_disk max = mk_store max [] 0 ∅ 0 [] true empty_disk) as ->.
  { unfold open_store, empty_disk, _load_index, _rebuild_from_scan, listdir. simpl.
    rewrite dom_empty_L, elements_empty. done. }
  split; [split; simpl; try done|].
  - constructor.
  - constructor.
  - intros k. unfold od_keys. simpl. split; [set_solver|by intros ?%not_elem_of_nil].
  - intros k d Hk. by apply not_elem_of_nil in Hk.
  - intros K k [Hk|Hk]; unfold od_keys in Hk; by apply not_elem_of_nil in Hk.
Qed.

(** ** Properties *)


(** Write-through.  A page accepted into an idle store and written by the
    worker is on disk and read back byte for byte; the pages evicted for it are
    the least recently used ones, in order, and the budget holds again. *)
Theorem disk_put_then_get (K : gset string) (s : DiskStore) (acc : gmap string (list Z)) (key : string) (d : list Z)
  (HK : names_distinct K) (Hks : keys_within K s) (Hkey : key ∈ K) (Hi : disk_inv s acc)
  (Hidle : s_queue s = []) (Hrun : s_running s = true) (Hnew : od_get (s_index s) key = None)
  (Hfit : zlength d ≤ s_max_bytes s) (Hlen : zlength (encode_utf8 key) < 2 ^ 32) :
  let '(s', evicted) := run_one (put s key d) true in
  (get s' key).1 = Some d ∧ s_queue s' = [] ∧ s_used s' ≤ s_max_bytes s' ∧
  ∃ kept, od_keys (s_index s) = evicted ++ kept ∧ od_keys (s_index s') = kept ++ [key].
Proof.
  assert (put s key d = mk_store (s_max_bytes s) (s_index s) (s_used s) ({[key]} ∪ s_inflight s)
    (s_writes_since_flush s) [(key, d)] (s_running s) (s_disk s)) as Hput.
  { unfold put. rewrite Hrun. replace (zlength d >? s_max_bytes s) with false by (symmetry; rewrite Z.gtb_ltb; by apply Z.ltb_ge).
    simpl. unfold od_mem. rewrite (bool_decide_eq_false_2 (is_Some _)) by (rewrite Hnew; by intros []).
    rewrite bool_decide_eq_false_2; [by rewrite Hidle|]. rewrite (di_inflight _ _ Hi), Hidle. apply not_elem_of_nil. }
  destruct (file_bytes key d) as [content|] eqn:Ec.
  2:{ unfold file_bytes in Ec. destruct (pack_be 4 _) eqn:Ep; [done|]. unfold pack_be in Ep.
      rewrite bool_decide_eq_true_2 in Ep; [done|]. unfold zlength in *. simpl. lia. }
  destruct (disk_put_inv s acc key d Hi) as (acc' & Hi1 & _).
  assert (keys_within K (put s key d)) as Hks1.
  { intros k. rewrite Hput. unfold od_keys. simpl.
    intros [Hk| ->%list_elem_of_singleton]; [apply Hks; by left|done]. }
  pose proof (run_one_inv K _ acc' true HK Hks1 Hi1) as [Hi2 _].
  revert Hi2. rewrite Hput. unfold run_one. cbn [s_queue].
  set (s1 := mk_store _ _ _ _ _ [] _ _).
  destruct (write_spec s1 key d content Hnew Ec) as
    (s2 & ev & gone & kept & Hw & Hsplit & Hne & Hidx & Hev & _ & _ & Hfiles & _ & _ & Hq & _).
  rewrite Hw. cbn [default from_option id]. intros Hi2. simpl in Hsplit, Hfiles.
  destruct (exists_last Hne) as (kept' & e & ->).
  rewrite app_assoc in Hsplit. apply app_inj_tail in Hsplit as [Hsplit <-].
  assert (od_get (s_index s2) key = Some (_safe_name key, zlength d)) as Hg.
  { rewrite Hidx. apply od_elem_get; [|apply elem_of_app; right; by apply list_elem_of_singleton].
    rewrite <-Hidx. exact (di_keys _ _ Hi2). }
  pose proof (di_files _ _ Hi2 _ _ _ Hg) as (_ & d' & Hacc & Hl & Hf). simpl in Hf.
  split; [|split; [|split]].
  - unfold get. cbn [s_index s_disk]. rewrite Hg. simpl.
    assert (d_files (s_disk s2) !! _safe_name key = Some content) as ->.
    { rewrite Hfiles. rewrite bool_decide_eq_false_2; [by rewrite lookup_insert_eq|].
      intros ([k [n l]] & Hn & Hin)%list_elem_of_fmap. simpl in Hn.
      assert (od_get (s_index s) k = Some (n, l)) as Hgk.
      { apply od_elem_get; [by apply Hi|]. rewrite Hsplit. apply elem_of_app. by left. }
      destruct (di_files _ _ Hi _ _ _ Hgk) as [Hnk _].
      assert (k = key) as ->; [|congruence].
      apply HK; [|done|congruence]. apply Hks. left. apply list_elem_of_fmap. exists (k, (n, l)).
      split; [done|]. by apply od_get_elem. }
    by rewrite (read_file_bytes key d content Ec).
  - simpl. by rewrite Hq.
  - exact (di_cap _ _ Hi2).
  - exists (od_keys kept'). simpl. rewrite Hidx, Hsplit, Hev. unfold od_keys. by rewrite !fmap_app.
Qed.

(** *** Recovery *)

Lemma load_entries files entries idx used :
  NoDup (od_keys (idx ++ entries)) →
  foldl (load_entry files) (idx, used) entries =
    (idx ++ filter (λ e, is_Some (files !! e.2.1)) entries,
     used + index_bytes (filter (λ e, is_Some (files !! e.2.1)) entries)).
Proof.
  revert idx used. induction entries as [|[k [n l]] entries IH]; intros idx used Hnd; simpl.
  - rewrite app_nil_r. unfold index_bytes. simpl. by rewrite Z.add_0_r.
  - rewrite filter_cons. simpl.
    assert (od_get idx k = None) as Hn.
    { apply od_get_None. unfold od_keys in *. rewrite fmap_app in Hnd. simpl in Hnd.
      apply NoDup_app in Hnd as (_ & Hd & _). intros Hk. apply (Hd k Hk), elem_of_cons. by left. }
    case_bool_decide as Hf; case_decide as Hf'; try done.
    + rewrite od_set_fresh by done. rewrite IH by (by rewrite <-app_assoc).
      rewrite <-app_assoc, index_bytes_cons. simpl. f_equal. lia.
    + apply IH. unfold od_keys in *. rewrite fmap_app in *. simpl in Hnd.
      by apply NoDup_app in Hnd as (H1 & H2 & [_ H3]%NoDup_cons);
        apply NoDup_app; split; [done|split; [|done]]; intros x Hx Hx'; apply (H2 x Hx), elem_of_cons; right.
Qed.

(** Reopening after a flush.  Opening the directory of a flushed store gives
    an index with exactly the entries whose file is still there, in the same
    LRU order, with their lengths accounted; if no file was lost it is the same
    index with the same answers. *)
Theorem disk_flush_then_open (s : DiskStore) (acc : gmap string (list Z)) (max : Z) (Hi : disk_inv s acc) :
  let s' := open_store (s_disk (_flush_index s)) max in
  s_index s' = filter (λ e, is_Some (d_files (s_disk s) !! e.2.1)) (s_index s) ∧
  s_used s' = index_bytes (s_index s') ∧
  ((∀ e, e ∈ s_index s → is_Some (d_files (s_disk s) !! e.2.1)) →
    s_index s' = s_index s ∧ s_used s' = s_used s ∧ ∀ k, (get s' k).1 = (get s k).1).
Proof.
  intros s'.
  assert (s' = mk_store max (filter (λ e, is_Some (d_files (s_disk s) !! e.2.1)) (s_index s))
    (index_bytes (filter (λ e, is_Some (d_files (s_disk s) !! e.2.1)) (s_index s))) ∅ 0 [] true
    (s_disk (_flush_index s))) as ->.
  { subst s'. unfold open_store, _load_index. simpl. rewrite load_entries by apply Hi. done. }
  split; [done|]. split; [done|]. intros Hall. simpl.
  assert (filter (λ e, is_Some (d_files (s_disk s) !! e.2.1)) (s_index s) = s_index s) as ->.
  { clear -Hall. induction (s_index s) as [|e l IH]; [done|]. rewrite filter_cons_True.
    - f_equal. apply IH. intros e' He'. apply Hall, elem_of_cons. by right.
    - apply Hall, elem_of_cons. by left. }
  split; [done|]. split; [by rewrite (di_used _ _ Hi)|]. intros k. unfold get. simpl.
  by destruct (od_get (s_index s) k) as [[]|].
Qed.

Lemma is_bin_safe_name key : is_bin (_safe_name key) = true.
Proof.
  destruct (_safe_name_suffix key) as [stem ->]. unfold is_bin.
  rewrite str_rev_concat. apply prefix_concat.
Qed.

Lemma scan_file_bytes k d content :
  file_bytes k d = Some content → utf8_valid (encode_utf8 k) = true →
  scan_file content = Some (k, zlength d).
Proof.
  unfold file_bytes. destruct (pack_be 4 _) as [h|] eqn:Eh; [|done]. intros [= <-] Hv.
  apply pack_be_Some in Eh as [Hr ->]. unfold scan_file.
  assert (take 4 (be_bytes 4 (zlength (encode_utf8 k)) ++ encode_utf8 k ++ d) =
    be_bytes 4 (zlength (encode_utf8 k))) as -> by (apply take_app_length'; by rewrite length_be_bytes).
  rewrite decide_False by (rewrite length_be_bytes; lia). rewrite be_val_be_bytes by done.
  rewrite drop_app_length' by by rewrite length_be_bytes.
  rewrite take_app_length' by (unfold zlength; lia). unfold decode_utf8_strict. rewrite Hv. cbn [mbind option_bind].
  rewrite decode_encode_utf8. unfold zlength in *. rewrite !length_app, length_be_bytes.
  replace (_ - 4 - _) with (Z.of_nat (length d)) by lia. by rewrite (proj2 (Z.leb_le 0 _)) by lia.
Qed.

(** Every page file of the directory was written by [_write]. *)
Definition page_files (files : gmap string (list Z)) : Prop :=
  ∀ name content, files !! name = Some content → is_bin name = true →
    ∃ k d, name = _safe_name k ∧ file_bytes k d = Some content ∧ utf8_valid (encode_utf8 k) = true.

Lemma scan_names files names :
  page_files files → NoDup names →
  let '(idx, used) := foldl (scan_one files) ([], 0) names in
  NoDup (od_keys idx) ∧ used = index_bytes idx ∧
  ∀ k n l, od_get idx k = Some (n, l) ↔
    n ∈ names ∧ n = _safe_name k ∧ ∃ d content, files !! n = Some content ∧ file_bytes k d = Some content ∧
      utf8_valid (encode_utf8 k) = true ∧ l = zlength d.
Proof.
  intros Hpf. induction names as [|name names IH] using rev_ind; intros Hnd; cbn [foldl].
  - split; [constructor|]. split; [done|]. intros k n l. split; [done|]. by intros [?%not_elem_of_nil _].
  - apply NoDup_app in Hnd as (Hnd & Hnew & _). rewrite foldl_snoc. specialize (IH Hnd).
    destruct (foldl (scan_one files) ([], 0) names) as [idx used]. destruct IH as (H1 & H2 & H3).
    unfold scan_one at 1. destruct (is_bin name) eqn:Eb.
    2:{ split; [done|]. split; [done|]. intros k n l. rewrite H3, elem_of_app, list_elem_of_singleton.
        split; [naive_solver|]. intros ([?|Hn] & Hs & Hr); [done|]. rewrite <-Hn, Hs, is_bin_safe_name in Eb. done. }
    destruct (files !! name) as [content|] eqn:Ef; cbn [mbind option_bind].
    2:{ split; [done|]. split; [done|]. intros k n l. rewrite H3, elem_of_app, list_elem_of_singleton.
        split; [naive_solver|]. intros ([?|Hn] & Hs & d & c & Hc & Hr); [naive_solver|]. congruence. }
    destruct (Hpf name content Ef Eb) as (k0 & d0 & Hname & Hfb & Hv).
    rewrite (scan_file_bytes k0 d0 content Hfb Hv). simpl.
    assert (od_get idx k0 = None) as Hfresh.
    { destruct (od_get idx k0) as [[n l]|] eqn:Eg; [|done]. apply H3 in Eg as (Hin & -> & _).
      destruct (Hnew name); [congruence|by apply list_elem_of_singleton]. }
    split; [by apply od_keys_set_nodup|]. split.
    { rewrite od_set_fresh, index_bytes_app, H2 by done. unfold index_bytes at 3. simpl. lia. }
    intros k n l. rewrite od_get_set, elem_of_app, list_elem_of_singleton. case_decide as Hk.
    + subst k. split.
      * intros [= <- <-]. split; [by right|]. split; [done|]. eauto 10.
      * intros (_ & -> & d & c & Hc & Hfb' & _ & ->). rewrite <-Hname in Hc. assert (c = content) as -> by congruence.
        pose proof (scan_file_bytes _ _ _ Hfb' Hv) as Hs. rewrite (scan_file_bytes _ _ _ Hfb Hv) in Hs.
        injection Hs as <-. by rewrite Hname.
    + rewrite H3. split; [naive_solver|]. intros ([?|Hn] & Hs & d & c & Hc & Hfb' & Hv' & Hl); [naive_solver|].
      exfalso. apply Hk. rewrite Hn in Hc. assert (c = content) as -> by congruence.
      pose proof (scan_file_bytes _ _ _ Hfb' Hv') as Hsc. rewrite (scan_file_bytes _ _ _ Hfb Hv) in Hsc.
      by injection Hsc.
Qed.

(** Recovery by scanning.  Without a readable [index.json] (missing or
    corrupt), the store opened on the page files indexes every page and nothing
    else, with its length accounted, and reads each of them back. *)
Theorem disk_scan_recovers (files : gmap string (list Z)) (bad : bool) (max : Z) (Hpf : page_files files) :
  let s := open_store (mk_disk files (if bad then BadIndex else NoIndex)) max in
  s_used s = index_bytes (s_index s) ∧
  (∀ k, disk_exists s k = true ↔ utf8_valid (encode_utf8 k) = true ∧
    ∃ d content, files !! _safe_name k = Some content ∧ file_bytes k d = Some content) ∧
  (∀ k d, utf8_valid (encode_utf8 k) = true → is_Some (file_bytes k d) →
    files !! _safe_name k = file_bytes k d → (get s k).1 = Some d).
Proof.
  intros s. pose proof (scan_names files (listdir files) Hpf) as Hs.
  assert (NoDup (listdir files)) as Hnd by (unfold listdir; rewrite merge_sort_Permutation; apply NoDup_elements).
  specialize (Hs Hnd).
  assert (s = let '(idx, used) := foldl (scan_one files) ([], 0) (listdir files) in
    mk_store max idx used ∅ 0 [] true (mk_disk files (if bad then BadIndex else NoIndex))) as ->
    by (subst s; unfold open_store, _load_index; by destruct bad).
  destruct (foldl (scan_one files) ([], 0) (listdir files)) as [idx used]. destruct Hs as (H1 & H2 & H3).
  assert (∀ n c, files !! n = Some c → n ∈ listdir files) as Hls.
  { intros n c Hn. unfold listdir. rewrite merge_sort_Permutation, elem_of_elements. by eapply elem_of_dom_2. }
  split; [done|]. split.
  - intros k. unfold disk_exists, od_mem. simpl. rewrite bool_decide_eq_true. split.
    + intros [[n l] Hg]. apply H3 in Hg as (_ & -> & d & c & ? & ? & ? & _). eauto.
    + intros (Hv & d & c & Hc & Hfb). exists (_safe_name k, zlength d). apply H3. eauto 10.
  - intros k d Hv [c Hc] Hf. rewrite Hc in Hf. unfold get. simpl.
    assert (od_get idx k = Some (_safe_name k, zlength d)) as -> by (apply H3; eauto 10).
    simpl. rewrite Hf. by apply (read_file_bytes k).
Qed.
End disk_facts.

(** ** Concrete instances *)

Module DiskExamples.
Import ExampleHash.

Definition K0 : gset string := {[ "k1"; "k2" ]}.

Lemma K0_distinct : names_distinct K0.
Proof.
  intros k1 k2 H1 H2. unfold K0 in H1, H2. rewrite elem_of_union, !elem_of_singleton in H1, H2.
  destruct H1 as [-> | ->], H2 as [-> | ->]; intros He; try reflexivity; vm_compute in He; discriminate He.
Qed.

Definition page1 : list Z := [1; 2; 3].
Definition page2 : list Z := [4; 5].
Definition s_new : DiskStore := open_store empty_disk 4.
Definition s_one : DiskStore := (run_one (put s_new "k1" page1) true).1.

Lemma ops_ok : Forall (op_key_ok K0) [DPut "k1" page1; DWork true].
Proof. constructor; [simpl; decide_vm|]. constructor; [exact I|constructor]. Qed.

Lemma s_one_inv : ∃ acc, disk_inv s_one acc ∧ keys_within K0 s_one.
Proof.
  destruct (open_empty 4 ltac:(lia)) as [Hi Hk].
  destruct (disk_run_inv K0 s_new ∅ [DPut "k1" page1; DWork true] K0_distinct ops_ok (Hk K0) Hi)
    as (acc & H1 & H2 & _). exists acc. split; [exact H1|exact H2].
Qed.


(** The second page fits only by evicting the first one. *)
Lemma disk_put_then_get_witness :
  (run_one (put s_one "k2" page2) true).2 = ["k1"] ∧
  (get (run_one (put s_one "k2" page2) true).1 "k2").1 = Some page2.
Proof.
  destruct s_one_inv as (acc & Hi & Hk).
  pose proof (disk_put_then_get K0 s_one acc "k2" page2 K0_distinct Hk ltac:(decide_vm) Hi) as H.
  specialize (H ltac:(vm_compute; reflexivity) ltac:(vm_compute; reflexivity) ltac:(vm_compute; reflexivity)
    ltac:(vm_compute; discriminate) ltac:(vm_compute; reflexivity)).
  split; [vm_compute; reflexivity|].
  destruct (run_one (put s_one "k2" page2) true) as [s' ev]. exact (proj1 H).
Defined.

Lemma disk_flush_then_open_witness :
  s_index (open_store (s_disk (_flush_index s_one)) 4) = s_index s_one.
Proof.
  destruct s_one_inv as (acc & Hi & _).
  destruct (disk_flush_then_open s_one acc 4 Hi) as (_ & _ & H).
  refine (proj1 (H _)). intros e He.
  assert (s_index s_one = [("k1", (_safe_name "k1", 3))]) as E by (vm_compute; reflexivity).
  rewrite E in He. apply list_elem_of_singleton in He as ->. decide_vm.
Defined.

Lemma disk_scan_recovers_witness :
  (get (open_store (mk_disk (d_files (s_disk s_one)) NoIndex) 4) "k1").1 = Some page1.
Proof.
  assert (page_files (d_files (s_disk s_one))) as Hpf.
  { intros name content Hf _.
    assert (d_files (s_disk s_one) = {[ _safe_name "k1" := default [] (file_bytes "k1" page1) ]}) as E
      by (vm_compute; reflexivity).
    rewrite E in Hf. apply lookup_singleton_Some in Hf as [<- <-].
    exists "k1", page1. split; [reflexivity|]. split; vm_compute; reflexivity. }
  refine (proj2 (proj2 (disk_scan_recovers _ false 4 Hpf)) "k1" page1 _ _ _).
  - vm_compute. reflexivity.
  - decide_vm.
  - vm_compute. reflexivity.
Defined.

(** Pages written after the last index flush are lost to a restart.  A store
    is closed (which flushes the index), reopened, writes [k2] and crashes: the
    next open trusts the stale [index.json], so the file of [k2] stays on disk,
    is not indexed, and is not counted against the budget. *)
Theorem crash_orphans_unflushed_page :
  let s1 := close (put (open_store empty_disk 8) "k1" page1) in
  let s2 := (run_one (put (open_store (s_disk s1) 8) "k2" page2) true).1 in
  let s3 := open_store (s_disk s2) 8 in
  (get s2 "k2").1 = Some page2 ∧ disk_exists s3 "k2" = false ∧
  is_Some (d_files (s_disk s3) !! _safe_name "k2") ∧ (stats s3).1 = 3.
Proof.
  cbv zeta. split; [vm_compute; reflexivity|]. split; [vm_compute; reflexivity|].
  split; [decide_vm|vm_compute; reflexivity].
Qed.

(** [remove] does not cancel a queued write: a key removed while its write
    is pending is on disk once the worker runs. *)
Theorem remove_loses_to_queued_write :
  let s := remove (put (open_store empty_disk 8) "k1" page1) "k1" in
  disk_exists s "k1" = false ∧ disk_exists (run_one s true).1 "k1" = true.
Proof. split; vm_compute; reflexivity. Qed.
End DiskExamples.
