(* ===== verification/Transport.v ===== *)
(** The data plane of [transport.py]: rail selection and the TCP transport.

    [TcpTransport] serves reads and writes of a process's registered memory
    over sockets; the processes of the cluster, with their memories and regions,
    are a [fabric].  How the connection of each operation fares is an argument
    (the [attempt] of [Rpc.v]).  The base class, the socket cache and the
    RDMA transport are in DataPlane. *)
From S2P Require Import Prelude Bytes Types Rpc.

(** ** Memory regions *)

(** A process: its memory and the [(addr, length)] regions it registered. *)
Record process := mk_proc {
  pr_mem : mem;
  pr_regions : list (Z * Z)
}.

Record Mr := mk_mr { mr_addr : Z; mr_rkey : Z; mr_lkey : Z; mr_rkeys : list Z; mr_lkeys : list Z }.

(** [Mr(addr=addr, rkey=0, lkey=0)] with [__post_init__]. *)
Definition new_mr (addr rkey lkey : Z) : Mr := mk_mr addr rkey lkey [rkey] [lkey].

Definition register_mr (p : process) (addr length : Z) : Mr * process :=
  (new_mr addr 0 0, mk_proc (pr_mem p) (pr_regions p ++ [(addr, length)])).

Definition deregister_mr (p : process) (addr : Z) : process :=
  mk_proc (pr_mem p) (filter (λ r, r.1 ≠ addr) (pr_regions p)).

Definition _covered (p : process) (addr length : Z) : bool :=
  existsb (λ '(base, ln), (base <=? addr) && (addr + length <=? base + ln)) (pr_regions p).

(** ** The server *)

Definition _TCP_OP_READ : Z := 1.
Definition _TCP_OP_WRITE : Z := 2.

(** One turn of [_serve_conn]: the bytes sent back, or [None] when the
    connection ends; [_recv_exact] is the routine of [rpc.py]. *)
Definition serve_data (p : process) (s : stream) : option (list Z) * process * stream :=
  match _recv_exact 17 s with
  | (Ret (Some hdr), s1) =>
      let op := default 0 (hdr !! 0%nat) in
      let remote_addr := be_val (slice hdr 1 9) in
      let length := be_val (slice hdr 9 17) in
      if op =? _TCP_OP_READ then
        if _covered p remote_addr length
        then (Some (mem_read (pr_mem p) remote_addr length), p, s1) else (None, p, s1)
      else if op =? _TCP_OP_WRITE then
        match _recv_exact (Z.to_nat length) s1 with
        | (Ret (Some data), s2) =>
            if _covered p remote_addr length
            then (Some [1], mk_proc (mem_write (pr_mem p) remote_addr data) (pr_regions p), s2)
            else (Some [0], p, s2)
        | (_, s2) => (None, p, s2)
        end
      else (None, p, s1)
  | (_, s1) => (None, p, s1)
  end.

(** [_serve_conn] until the stream ends or a request closes it. *)
Fixpoint serve_data_conn (fuel : nat) (p : process) (s : stream) : list (list Z) * process :=
  match fuel with
  | O => ([], p)
  | S fuel' =>
      match serve_data p s with
      | (Some out, p', s') => let '(outs, p'') := serve_data_conn fuel' p' s' in (out :: outs, p'')
      | (None, p', _) => ([], p')
      end
  end.

(** ** The fabric *)

(** Processes by name, and the process behind each endpoint (a process has one
    endpoint per rail). *)
Record fabric := mk_fabric {
  f_procs : gmap string process;
  f_host : string → option string
}.

Definition set_proc (f : fabric) (n : string) (p : process) : fabric :=
  mk_fabric (<[n := p]> (f_procs f)) (f_host f).

(** [struct.pack(">BQQ", op, addr, length)] *)
Definition pack_request (op addr length : Z) : option (list Z) :=
  a ← pack_be 8 addr; l ← pack_be 8 length; Some (op :: a ++ l).

(** The exchange of one request over a connection that fares as [a]: the reply
    bytes, if any. *)
Definition exchange (f : fabric) (endpoint : string) (req : list Z) (a : attempt) : option (list Z) * fabric :=
  match f_host f endpoint ≫= λ n, (λ p, (n, p)) <$> f_procs f !! n with
  | None => (None, f)
  | Some (n, p) =>
      match a with
      | ANoConnect | ABreakBefore => (None, f)
      | ABreakAfter => (None, set_proc f n (serve_data p [CData req]).1.2)
      | AReply => let '(out, p', _) := serve_data p [CData req] in (out, set_proc f n p')
      end
  end.

Record ReadOp := mk_readop {
  ro_endpoint : string;
  ro_local : Z;
  ro_remote : Z;
  ro_rkey : Z;
  ro_length : Z
}.

Definition write_local_mem (f : fabric) (me : string) (addr : Z) (data : list Z) : fabric :=
  match f_procs f !! me with
  | Some p => set_proc f me (mk_proc (mem_write (pr_mem p) addr data) (pr_regions p))
  | None => f
  end.

(** [connect] and [sendall] go through.  A request lost after [sendall] returned
    is an [ABreakAfter] here: the server of a read changes nothing. *)
Definition sent (f : fabric) (endpoint : string) (a : attempt) : bool :=
  match f_host f endpoint ≫= λ n, f_procs f !! n, a with
  | None, _ | _, ANoConnect | _, ABreakBefore => false
  | Some _, _ => true
  end.

(** The body of the loop of [batch_read].  What the socket delivers is the
    reply, or the end of the stream; a read of no bytes takes nothing from it
    and succeeds as soon as the request is sent. *)
Definition read_one (f : fabric) (me : string) (op : ReadOp) (a : attempt) : bool * fabric :=
  match pack_request _TCP_OP_READ (ro_remote op) (ro_length op) with
  | None => (false, f)
  | Some req =>
      let '(reply, f') := exchange f (ro_endpoint op) req a in
      if sent f (ro_endpoint op) a then
        match (_recv_exact (Z.to_nat (ro_length op)) (match reply with Some out => [CData out] | None => [] end)).1 with
        | Ret (Some data) => (true, write_local_mem f' me (ro_local op) data)
        | _ => (false, f')
        end
      else (false, f')
  end.

(** [TcpTransport.batch_read]; [link] says how the connection of the [i]-th
    operation fares. *)
Fixpoint batch_read_from (i : nat) (f : fabric) (me : string) (ops : list ReadOp) (link : nat → attempt) :
    list bool * fabric :=
  match ops with
  | [] => ([], f)
  | op :: ops' =>
      let '(ok, f1) := read_one f me op (link i) in
      let '(oks, f2) := batch_read_from (S i) f1 me ops' link in (ok :: oks, f2)
  end.

Definition batch_read (f : fabric) (me : string) (ops : list ReadOp) (link : nat → attempt) : list bool * fabric :=
  batch_read_from 0 f me ops link.

(** The body of the loop of [batch_write_v]. *)
Definition write_one (f : fabric) (me : string) (op : ReadOp) (a : attempt) : bool * fabric :=
  match f_procs f !! me, pack_request _TCP_OP_WRITE (ro_remote op) (ro_length op) with
  | Some p, Some req =>
      let payload := mem_read (pr_mem p) (ro_local op) (ro_length op) in
      let '(reply, f') := exchange f (ro_endpoint op) (req ++ payload) a in
      match reply with
      | None => (false, f')
      | Some out =>
          match (_recv_exact 1 [CData out]).1 with
          | Ret (Some [1]) => (true, f')
          | _ => (false, f')
          end
      end
  | _, _ => (false, f)
  end.

Fixpoint batch_write_from (i : nat) (f : fabric) (me : string) (ops : list ReadOp) (link : nat → attempt) :
    list bool * fabric :=
  match ops with
  | [] => ([], f)
  | op :: ops' =>
      let '(ok, f1) := write_one f me op (link i) in
      let '(oks, f2) := batch_write_from (S i) f1 me ops' link in (ok :: oks, f2)
  end.

(** [TcpTransport.batch_write_v] *)
Definition batch_write (f : fabric) (me : string) (ops : list ReadOp) (link : nat → attempt) : list bool * fabric :=
  batch_write_from 0 f me ops link.

(** ** Rail selection *)

(** [rail = i % N if (i % N) < len(xs) else 0; xs[rail]] *)
Definition pick_rail {A} (n_rails i : Z) (xs : list A) : option A :=
  let N := Z.max 1 n_rails in
  let rail := if i mod N <? zlength xs then i mod N else 0 in
  xs !! Z.to_nat rail.

Definition rail_endpoint (n_rails i : Z) (rail_endpoints : gmap string (list string)) (node : string) : string :=
  default "" (pick_rail n_rails i (default [] (rail_endpoints !! node))).

(** [rail_rkeys.get(node) or [0]] *)
Definition rail_rkey (n_rails i : Z) (rail_rkeys : gmap string (list Z)) (node : string) : Z :=
  let ks := match rail_rkeys !! node with Some (k :: ks) => k :: ks | _ => [0] end in
  default 0 (pick_rail n_rails i ks).

(** One operation of a multi-rail batch: node, local and remote address, length. *)
Record MultiOp := mk_multiop { mo_node : string; mo_local : Z; mo_remote : Z; mo_length : Z }.

(** The single-rail operations [batch_read_multi] and [batch_write_multi] build. *)
Definition stripe (n_rails : Z) (rail_endpoints : gmap string (list string)) (rail_rkeys : gmap string (list Z))
    (ops : list MultiOp) : list ReadOp :=
  imap (λ i op, mk_readop (rail_endpoint n_rails (Z.of_nat i) rail_endpoints (mo_node op))
                  (mo_local op) (mo_remote op)
                  (rail_rkey n_rails (Z.of_nat i) rail_rkeys (mo_node op)) (mo_length op)) ops.

Definition batch_read_multi (f : fabric) (me : string) (n_rails : Z) (ops : list MultiOp)
    (rail_endpoints : gmap string (list string)) (rail_rkeys : gmap string (list Z)) (link : nat → attempt) :
    list bool * fabric :=
  batch_read f me (stripe n_rails rail_endpoints rail_rkeys ops) link.

Definition batch_write_multi (f : fabric) (me : string) (n_rails : Z) (ops : list MultiOp)
    (rail_endpoints : gmap string (list string)) (rail_rkeys : gmap string (list Z)) (link : nat → attempt) :
    list bool * fabric :=
  batch_write f me (stripe n_rails rail_endpoints rail_rkeys ops) link.

(** ** One request *)

Lemma pack_request_Some op addr len req :
  pack_request op addr len = Some req →
  0 ≤ addr < 2 ^ 64 ∧ 0 ≤ len < 2 ^ 64 ∧ req = op :: be_bytes 8 addr ++ be_bytes 8 len.
Proof.
  unfold pack_request. destruct (pack_be 8 addr) as [a|] eqn:Ea; [|done]. simpl.
  destruct (pack_be 8 len) as [l|] eqn:El; [|done]. simpl.
  apply pack_be_Some in Ea as [Ha ->], El as [Hl ->]. intros [= <-]. done.
Qed.

Lemma pack_request_total op addr len :
  0 ≤ addr < 2 ^ 64 → 0 ≤ len < 2 ^ 64 → is_Some (pack_request op addr len).
Proof.
  intros Ha Hl. unfold pack_request, pack_be. rewrite !bool_decide_eq_true_2 by done. by eexists.
Qed.

(** The server reads the request back from its header. *)
Lemma serve_header p op addr len rest s :
  0 ≤ addr < 2 ^ 64 → 0 ≤ len < 2 ^ 64 → data_ok s →
  stream_bytes s = (op :: be_bytes 8 addr ++ be_bytes 8 len) ++ rest →
  ∃ s1, data_ok s1 ∧ stream_bytes s1 = rest ∧
    serve_data p s =
      (if op =? _TCP_OP_READ then
         if _covered p addr len then (Some (mem_read (pr_mem p) addr len), p, s1) else (None, p, s1)
       else if op =? _TCP_OP_WRITE then
         match _recv_exact (Z.to_nat len) s1 with
         | (Ret (Some data), s2) =>
             if _covered p addr len
             then (Some [1], mk_proc (mem_write (pr_mem p) addr data) (pr_regions p), s2)
             else (Some [0], p, s2)
         | (_, s2) => (None, p, s2)
         end
       else (None, p, s1)).
Proof.
  intros Ha Hl Hok Hs.
  destruct (recv_exact_app 17 s _ rest Hok Hs) as (s1 & Hok1 & Hr & Hs1);
    [by rewrite length_cons, length_app, !length_be_bytes|].
  exists s1. split; [done|]. split; [done|]. unfold serve_data. rewrite Hr.
  assert (slice (op :: be_bytes 8 addr ++ be_bytes 8 len) 1 9 = be_bytes 8 addr) as ->.
  { unfold slice. change (Z.to_nat 1) with 1%nat. change (Z.to_nat (9 - 1)) with 8%nat.
    change (drop 1 (op :: be_bytes 8 addr ++ be_bytes 8 len)) with (be_bytes 8 addr ++ be_bytes 8 len).
    apply take_app_length'. by rewrite length_be_bytes. }
  assert (slice (op :: be_bytes 8 addr ++ be_bytes 8 len) 9 17 = be_bytes 8 len) as ->.
  { unfold slice. change (Z.to_nat 9) with 9%nat. change (Z.to_nat (17 - 9)) with 8%nat.
    change (drop 9 (op :: be_bytes 8 addr ++ be_bytes 8 len)) with (drop 8 (be_bytes 8 addr ++ be_bytes 8 len)).
    rewrite drop_app_length' by by rewrite length_be_bytes. apply take_ge. by rewrite length_be_bytes. }
  rewrite !be_val_be_bytes by done. done.
Qed.

Lemma serve_read p addr len req :
  pack_request _TCP_OP_READ addr len = Some req →
  (serve_data p [CData req]).1 =
    (if _covered p addr len then Some (mem_read (pr_mem p) addr len) else None, p).
Proof.
  intros (Ha & Hl & ->)%pack_request_Some.
  destruct (serve_header p _TCP_OP_READ addr len [] [CData (_TCP_OP_READ :: be_bytes 8 addr ++ be_bytes 8 len)])
    as (s1 & _ & _ & ->); [done|done|by apply data_ok_single|by rewrite app_nil_r|].
  simpl. by destruct (_covered p addr len).
Qed.

Lemma serve_write p addr len req payload :
  pack_request _TCP_OP_WRITE addr len = Some req → zlength payload = len →
  (serve_data p [CData (req ++ payload)]).1 =
    (if _covered p addr len
     then (Some [1], mk_proc (mem_write (pr_mem p) addr payload) (pr_regions p))
     else (Some [0], p)).
Proof.
  intros (Ha & Hl & ->)%pack_request_Some Hp.
  destruct (serve_header p _TCP_OP_WRITE addr len payload
    [CData ((_TCP_OP_WRITE :: be_bytes 8 addr ++ be_bytes 8 len) ++ payload)])
    as (s1 & Hok & Hs & ->); [done|done|by apply data_ok_single|simpl; by rewrite app_nil_r|].
  simpl. destruct (recv_exact_app (Z.to_nat len) s1 payload [] Hok) as (s2 & _ & -> & _);
    [by rewrite app_nil_r|unfold zlength in Hp; lia|].
  by destruct (_covered p addr len).
Qed.

Lemma covered_region p addr len :
  _covered p addr len = true →
  ∃ base ln, (base, ln) ∈ pr_regions p ∧ base ≤ addr ∧ addr + len ≤ base + ln.
Proof.
  unfold _covered. intros ([base ln] & Hin & Hb)%existsb_exists. bool_cases.
  exists base, ln. split; [by apply list_elem_of_In|done].
Qed.

(** [x] belongs to no registered region. *)
Definition unregistered (p : process) (x : Z) : Prop :=
  ∀ base ln, (base, ln) ∈ pr_regions p → ¬ (base ≤ x < base + ln).

(** A reply only shows registered memory. *)
Definition reply_ok (p : process) (out : list Z) : Prop :=
  out = [0] ∨ out = [1] ∨
  ∃ addr len, _covered p addr len = true ∧ out = mem_read (pr_mem p) addr len.

Lemma serve_data_protected p s out p' s' :
  serve_data p s = (out, p', s') →
  pr_regions p' = pr_regions p ∧ (∀ x, unregistered p x → pr_mem p' x = pr_mem p x) ∧
  (∀ o, out = Some o → reply_ok p o).
Proof.
  unfold serve_data. destruct (_recv_exact 17 s) as [[[hdr|]|e] s1]; [|naive_solver..].
  set (addr := be_val _). set (len := be_val _). destruct (_ =? _TCP_OP_READ).
  { destruct (_covered p addr len) eqn:Ec; [|naive_solver]. intros [= <- <- <-].
    split; [done|]. split; [done|]. intros o [= <-]. right. right. eauto. }
  destruct (_ =? _TCP_OP_WRITE); [|naive_solver].
  destruct (_recv_exact (Z.to_nat len) s1) as [[[data|]|e] s2] eqn:Er; [|naive_solver..].
  destruct (_covered p addr len) eqn:Ec; intros [= <- <- <-].
  2:{ split; [done|]. split; [done|]. intros o [= <-]. by left. }
  split; [done|]. split.
  - intros x Hx. simpl. apply mem_write_out. apply covered_region in Ec as (base & ln & Hin & H1 & H2).
    specialize (Hx base ln Hin).
    assert (zlength data ≤ Z.max 0 len) as Hd.
    { apply recv_exact_length in Er. unfold zlength. lia. }
    lia.
  - intros o [= <-]. right. by left.
Qed.

(** A turn that answers has read its 17-byte request. *)
Lemma serve_data_consumes p s out p' s' :
  serve_data p s = (Some out, p', s') → (length (stream_bytes s') + 17 ≤ length (stream_bytes s))%nat.
Proof.
  unfold serve_data. destruct (_recv_exact 17 s) as [[[hdr|]|e] s1] eqn:E; [|naive_solver..].
  apply recv_exact_consumes in E. destruct (_ =? _TCP_OP_READ).
  { destruct (_covered p _ _); intros [= _ _ <-]; lia. }
  destruct (_ =? _TCP_OP_WRITE); [|naive_solver].
  destruct (_recv_exact (Z.to_nat _) s1) as [[[data|]|e] s2] eqn:Er; [|naive_solver..].
  apply recv_exact_consumes in Er. destruct (_covered p _ _); intros [= _ _ <-]; lia.
Qed.

Lemma serve_data_conn_fuel fuel fuel' p s :
  (length (stream_bytes s) < 17 * fuel)%nat → (length (stream_bytes s) < 17 * fuel')%nat →
  serve_data_conn fuel p s = serve_data_conn fuel' p s ∧
  (17 * length (serve_data_conn fuel p s).1 ≤ length (stream_bytes s))%nat.
Proof.
  revert fuel' p s. induction fuel as [|fuel IH]; intros [|fuel'] p s H1 H2; try lia. simpl.
  destruct (serve_data p s) as [[[out|] p'] s'] eqn:E; [|simpl; split; [done|lia]].
  apply serve_data_consumes in E. destruct (IH fuel' p' s') as [<- Hl]; [lia..|].
  destruct (serve_data_conn fuel p' s') as [outs p'']. simpl in *. split; [done|lia].
Qed.

(** ** One operation *)

Definition remote_process (f : fabric) (endpoint : string) : option (string * process) :=
  n ← f_host f endpoint; (λ p, (n, p)) <$> f_procs f !! n.

(** The operation addresses registered memory of the process behind its
    endpoint. *)
Definition target (f : fabric) (op : ReadOp) : option (string * process) :=
  np ← remote_process f (ro_endpoint op);
  if bool_decide (0 ≤ ro_remote op < 2 ^ 64 ∧ 0 ≤ ro_length op < 2 ^ 64) && _covered np.2 (ro_remote op) (ro_length op)
  then Some np else None.

(** The bytes the operation reads. *)
Definition remote_bytes (f : fabric) (op : ReadOp) : option (list Z) :=
  (λ np, mem_read (pr_mem np.2) (ro_remote op) (ro_length op)) <$> target f op.

Lemma set_proc_id f n p : f_procs f !! n = Some p → set_proc f n p = f.
Proof. intros H. unfold set_proc. rewrite insert_id by done. by destruct f. Qed.

Lemma remote_process_Some f ep n p :
  remote_process f ep = Some (n, p) → f_host f ep = Some n ∧ f_procs f !! n = Some p.
Proof.
  unfold remote_process. destruct (f_host f ep) as [n'|]; [|done]. simpl.
  destruct (f_procs f !! n') as [p'|] eqn:E; [|done]. naive_solver.
Qed.

Lemma recv_reply n out :
  (length out = n)%nat → (_recv_exact n [CData out]).1 = Ret (Some out).
Proof.
  intros Hn. destruct out as [|x out].
  - by subst n.
  - destruct (recv_exact_app n [CData (x :: out)] (x :: out) []) as (s' & _ & -> & _);
      [by apply data_ok_single|simpl; by rewrite app_nil_r|done|done].
Qed.

Lemma pack_request_None op addr len :
  pack_request op addr len = None ↔ ¬ (0 ≤ addr < 2 ^ 64 ∧ 0 ≤ len < 2 ^ 64).
Proof.
  split.
  - intros Hn [Ha Hl]. destruct (pack_request_total op addr len Ha Hl) as [? Hs]. congruence.
  - intros Hn. destruct (pack_request op addr len) eqn:E; [|done].
    apply pack_request_Some in E as (? & ? & _). naive_solver.
Qed.

(** What a read delivers: the remote bytes when the reply arrives, and nothing
    at all, successfully, for a read of no bytes that could be sent. *)
Definition read_data (f : fabric) (op : ReadOp) (a : attempt) : option (list Z) :=
  if ro_length op =? 0 then if bool_decide (0 ≤ ro_remote op < 2 ^ 64) && sent f (ro_endpoint op) a then Some [] else None
  else match a with AReply => remote_bytes f op | _ => None end.

Lemma read_one_spec f me op a :
  read_one f me op a =
    match read_data f op a with
    | Some data => (true, write_local_mem f me (ro_local op) data)
    | None => (false, f)
    end.
Proof.
  unfold read_one, read_data, remote_bytes, target, exchange, sent.
  change (f_host f (ro_endpoint op) ≫= λ n, (λ p, (n, p)) <$> f_procs f !! n) with (remote_process f (ro_endpoint op)).
  destruct (pack_request _ _ _) as [req|] eqn:Ep.
  2:{ apply pack_request_None in Ep. rewrite (bool_decide_eq_false_2 (_ ∧ 0 ≤ ro_length op < _)) by done.
      destruct (Z.eqb_spec (ro_length op) 0) as [H0|H0].
      - rewrite bool_decide_eq_false_2; [done|]. intros H. apply Ep. split; [done|lia].
      - destruct (remote_process _ _) as [[]|]; by destruct a. }
  pose proof (pack_request_Some _ _ _ _ Ep) as (Ha & Hl & _).
  rewrite !bool_decide_eq_true_2 by done. simpl.
  destruct (remote_process f (ro_endpoint op)) as [[n p]|] eqn:Er; simpl.
  2:{ unfold remote_process in Er. destruct (f_host f (ro_endpoint op)) as [n|]; simpl in *.
      - destruct (f_procs f !! n); [done|]. destruct a, (ro_length op =? 0); done.
      - destruct a, (ro_length op =? 0); done. }
  apply remote_process_Some in Er as [-> Hp]. simpl. rewrite Hp.
  pose proof (serve_read p (ro_remote op) (ro_length op) req Ep) as Hs.
  destruct (serve_data p [CData req]) as [[out p'] s']. simpl in Hs. injection Hs as -> ->.
  destruct (Z.eqb_spec (ro_length op) 0) as [H0|H0].
  - rewrite H0. destruct a; simpl; [done|done|by rewrite set_proc_id by done|].
    rewrite set_proc_id by done. by destruct (_covered p (ro_remote op) 0).
  - destruct a; simpl; [done|done| |]; rewrite set_proc_id by done.
    + destruct (Z.to_nat (ro_length op)) eqn:En; [lia|done].
    + destruct (_covered p (ro_remote op) (ro_length op)); simpl.
      * by rewrite recv_reply by by rewrite length_mem_read.
      * destruct (Z.to_nat (ro_length op)) eqn:En; [lia|done].
Qed.

Lemma write_one_spec f me op a p0 :
  f_procs f !! me = Some p0 →
  write_one f me op a =
    match target f op with
    | Some (n, p) =>
        let f' := set_proc f n (mk_proc (mem_write (pr_mem p) (ro_remote op)
                    (mem_read (pr_mem p0) (ro_local op) (ro_length op))) (pr_regions p)) in
        (bool_decide (a = AReply), if runs a then f' else f)
    | None => (false, f)
    end.
Proof.
  intros Hme. unfold write_one, target, exchange. rewrite Hme.
  change (f_host f (ro_endpoint op) ≫= λ n, (λ p, (n, p)) <$> f_procs f !! n) with (remote_process f (ro_endpoint op)).
  destruct (pack_request _ _ _) as [req|] eqn:Ep.
  2:{ apply pack_request_None in Ep. rewrite bool_decide_eq_false_2 by done.
      by destruct (remote_process _ _) as [[]|]. }
  pose proof (pack_request_Some _ _ _ _ Ep) as (Ha & Hl & _).
  rewrite bool_decide_eq_true_2 by done. simpl.
  destruct (remote_process f (ro_endpoint op)) as [[n p]|] eqn:Er; simpl; [|done].
  apply remote_process_Some in Er as [_ Hp].
  pose proof (serve_write p (ro_remote op) (ro_length op) req
    (mem_read (pr_mem p0) (ro_local op) (ro_length op)) Ep) as Hs.
  rewrite zlength_mem_read in Hs by lia. specialize (Hs eq_refl).
  destruct (serve_data p _) as [[out p'] s']. simpl in Hs.
  destruct (_covered p (ro_remote op) (ro_length op)); injection Hs as -> ->;
    destruct a; simpl; rewrite ?(set_proc_id f n p) by done; done.
Qed.

(** ** Batches *)

(** The operations read from other processes, into disjoint local ranges. *)
Definition local_disjoint (op1 op2 : ReadOp) : Prop :=
  ranges_disjoint (ro_local op1) (ro_length op1) (ro_local op2) (ro_length op2).

Definition remote_ops (f : fabric) (me : string) (ops : list ReadOp) : Prop :=
  Forall (λ op, f_host f (ro_endpoint op) ≠ Some me) ops.

(** The same cluster, except for the memory of [me]. *)
Definition only_memory (me : string) (f f' : fabric) : Prop :=
  f_host f' = f_host f ∧ (∀ n, n ≠ me → f_procs f' !! n = f_procs f !! n) ∧
  (pr_regions <$> f_procs f' !! me) = (pr_regions <$> f_procs f !! me).

Lemma write_local_only f me addr data : only_memory me f (write_local_mem f me addr data).
Proof.
  unfold write_local_mem. destruct (f_procs f !! me) as [p|] eqn:E; [|done].
  split; [done|]. split; simpl.
  - intros n Hn. by rewrite lookup_insert_ne.
  - by rewrite lookup_insert_eq, E.
Qed.

Lemma only_memory_trans me f1 f2 f3 : only_memory me f1 f2 → only_memory me f2 f3 → only_memory me f1 f3.
Proof.
  intros (H1 & H2 & H3) (H4 & H5 & H6). split; [congruence|]. split; [|congruence].
  intros n Hn. by rewrite H5, H2.
Qed.

Lemma only_memory_bytes me f f' op :
  only_memory me f f' → f_host f (ro_endpoint op) ≠ Some me → remote_bytes f' op = remote_bytes f op.
Proof.
  intros (Hh & Hp & _) Hne. unfold remote_bytes, target, remote_process. rewrite Hh.
  destruct (f_host f (ro_endpoint op)) as [n|]; [|done]. simpl. by rewrite Hp by congruence.
Qed.

Lemma only_memory_data me f f' op a :
  only_memory me f f' → f_host f (ro_endpoint op) ≠ Some me → read_data f' op a = read_data f op a.
Proof.
  intros Hm Hne. unfold read_data, sent. rewrite (only_memory_bytes me f f' op Hm Hne).
  destruct Hm as (-> & Hp & _). destruct (f_host f (ro_endpoint op)) as [n|]; [|done]. simpl. by rewrite Hp by congruence.
Qed.

Definition read_ok (f : fabric) (op : ReadOp) (a : attempt) : bool := bool_decide (is_Some (read_data f op a)).

Lemma remote_bytes_length f op data :
  remote_bytes f op = Some data → 0 ≤ ro_length op ∧ zlength data = ro_length op.
Proof.
  unfold remote_bytes, target. destruct (remote_process _ _) as [np|]; [|done]. simpl.
  destruct (_ && _) eqn:E; [|done]. simpl. intros [= <-]. bool_cases.
  split; [lia|]. apply zlength_mem_read. lia.
Qed.

Lemma read_data_length f op a data :
  read_data f op a = Some data → 0 ≤ ro_length op ∧ zlength data = ro_length op.
Proof.
  unfold read_data. destruct (Z.eqb_spec (ro_length op) 0) as [->|_].
  - destruct (_ && _); [|done]. by intros [= <-].
  - destruct a; [done..|]. apply remote_bytes_length.
Qed.

(** A read that reports success has the remote bytes or asked for none. *)
Lemma read_ok_true f op a :
  read_ok f op a = true →
  ∃ data, read_data f op a = Some data ∧ (ro_length op = 0 ∧ data = [] ∨ remote_bytes f op = Some data).
Proof.
  intros [data Hd]%bool_decide_eq_true. exists data. split; [done|]. unfold read_data in Hd.
  destruct (Z.eqb_spec (ro_length op) 0); [left|right].
  - split; [done|]. destruct (_ && _); [|done]. by injection Hd.
  - by destruct a.
Qed.

Lemma target_range f op np : target f op = Some np → 0 ≤ ro_remote op < 2 ^ 64 ∧ remote_process f (ro_endpoint op) = Some np.
Proof.
  unfold target. destruct (remote_process _ _) as [np'|]; [|done]. simpl. destruct (_ && _) eqn:E; [|done].
  intros [= <-]. bool_cases. split; [lia|done].
Qed.

(** A reply with the remote bytes is a success with them. *)
Lemma read_data_reply f op data : remote_bytes f op = Some data → read_data f op AReply = Some data.
Proof.
  intros Hb. unfold read_data. destruct (Z.eqb_spec (ro_length op) 0) as [H0|H0]; [|done].
  pose proof (remote_bytes_length _ _ _ Hb) as [_ Hl]. rewrite H0 in Hl.
  unfold remote_bytes in Hb. destruct (target f op) as [np|] eqn:Et; [|done]. apply target_range in Et as [Hr Hp].
  rewrite bool_decide_eq_true_2 by done. destruct np as [n p]. apply remote_process_Some in Hp as [Hh Hp].
  unfold sent. rewrite Hh. simpl. rewrite Hp. destruct data; [done|]. unfold zlength in Hl. simpl in Hl. lia.
Qed.

Lemma read_ok_reply f op data : remote_bytes f op = Some data → read_ok f op AReply = true.
Proof. intros Hb. apply bool_decide_eq_true_2. rewrite (read_data_reply f op data Hb). by eexists. Qed.

Lemma batch_read_from_spec i f me ops link p0 :
  f_procs f !! me = Some p0 → remote_ops f me ops → ForallOrdPairs local_disjoint ops →
  let '(oks, f') := batch_read_from i f me ops link in
  only_memory me f f' ∧ oks = imap (λ j op, read_ok f op (link (i + j)%nat)) ops ∧
  ∃ p', f_procs f' !! me = Some p' ∧
    (∀ j op data, ops !! j = Some op → read_data f op (link (i + j)%nat) = Some data →
      mem_read (pr_mem p') (ro_local op) (ro_length op) = data) ∧
    (∀ x, (∀ j op, ops !! j = Some op → oks !! j = Some true →
        ¬ (ro_local op ≤ x < ro_local op + ro_length op)) → pr_mem p' x = pr_mem p0 x).
Proof.
  revert i f p0. induction ops as [|op ops IH]; intros i f p0 Hme Hrem Hdis; cbn [batch_read_from].
  { split; [done|]. split; [done|]. exists p0. split; [done|]. split; done. }
  apply Forall_cons in Hrem as [Hr Hrem].
  assert (Forall (local_disjoint op) ops ∧ ForallOrdPairs local_disjoint ops) as [Hd Hdis'] by by inversion Hdis.
  destruct (read_one f me op (link i)) as [ok f1] eqn:E1.
  rewrite read_one_spec in E1.
  assert (only_memory me f f1 ∧ ok = read_ok f op (link i) ∧ ∃ p1, f_procs f1 !! me = Some p1 ∧
    (∀ data, read_data f op (link i) = Some data → pr_mem p1 = mem_write (pr_mem p0) (ro_local op) data) ∧
    (ok = false → pr_mem p1 = pr_mem p0)) as (Hom & Hok & p1 & Hp1 & Hw & Hnw).
  { unfold read_ok. destruct (read_data f op (link i)) as [data|]; injection E1 as <- <-.
    - split; [apply write_local_only|]. split; [symmetry; apply bool_decide_eq_true; eauto|].
      unfold write_local_mem. rewrite Hme. eexists. split; [simpl; apply lookup_insert_eq|].
      split; [|done]. simpl. by intros ? [= <-].
    - split; [done|]. split; [symmetry; apply bool_decide_eq_false; by intros [? ?]|].
      exists p0. split; [done|]. by split. }
  assert (remote_ops f1 me ops) as Hrem1.
  { unfold remote_ops. destruct Hom as [-> _]. done. }
  specialize (IH (S i) f1 p1 Hp1 Hrem1 Hdis').
  destruct (batch_read_from (S i) f1 me ops link) as [oks f2]. destruct IH as (Hom2 & Hoks & p2 & Hp2 & Hdata & Hout).
  assert (∀ op' a, op' ∈ ops → read_data f1 op' a = read_data f op' a) as Hsame.
  { intros op' a Hin. apply (only_memory_data me); [done|]. unfold remote_ops in Hrem.
    rewrite Forall_forall in Hrem. by apply Hrem. }
  split; [by eapply only_memory_trans|]. split.
  { rewrite Hok, Hoks. rewrite imap_cons. f_equal; [by rewrite Nat.add_0_r|].
    apply imap_ext. intros j op' Hj. unfold read_ok. rewrite Hsame by (by eapply list_elem_of_lookup_2).
    simpl. by rewrite Nat.add_succ_r. }
  exists p2. split; [done|]. split.
  - intros [|j] op' data Hj Hb; simpl in Hj.
    + injection Hj as <-. rewrite Nat.add_0_r in Hb.
      pose proof (read_data_length _ _ _ _ Hb) as [Hlen0 Hlen].
      transitivity (mem_read (pr_mem p1) (ro_local op) (ro_length op)).
      * apply mem_read_ext. intros x Hx. apply Hout. intros j op'' Hj _.
        rewrite Forall_forall in Hd. specialize (Hd op'' (list_elem_of_lookup_2 _ _ _ Hj)).
        unfold local_disjoint, ranges_disjoint in Hd. lia.
      * rewrite (Hw data Hb). rewrite <-Hlen. apply mem_read_write_same.
    + apply (Hdata j); [done|]. rewrite Nat.add_succ_r in Hb. rewrite Hsame; [done|]. by eapply list_elem_of_lookup_2.
  - intros x Hx. rewrite Hout.
    + destruct ok; [|by rewrite Hnw]. symmetry in Hok. apply bool_decide_eq_true in Hok as [data Hb].
      rewrite (Hw data Hb). apply mem_write_out.
      pose proof (read_data_length _ _ _ _ Hb) as [_ ->]. by apply (Hx 0%nat).
    + intros j op' Hj Hjo. apply (Hx (S j)); done.
Qed.

(** ** Properties *)

(** C17: what a batch of TCP reads does.  For operations on other processes with
    disjoint destinations: a read of at least one byte succeeds exactly when its
    reply arrives and the remote range is registered there, a read of no bytes
    as soon as its request can be sent; every successful operation's destination
    holds the remote bytes; no other byte of the reader's memory and nothing in
    any other process changes. *)
Theorem tcp_batch_read_exact (f : fabric) (me : string) (ops : list ReadOp) (link : nat → attempt) (p0 : process)
  (Hme : f_procs f !! me = Some p0) (Hrem : remote_ops f me ops) (Hdis : ForallOrdPairs local_disjoint ops) :
  let '(oks, f') := batch_read f me ops link in
  only_memory me f f' ∧ length oks = length ops ∧
  (∀ i op, ops !! i = Some op → oks !! i = Some true ↔
     if ro_length op =? 0 then 0 ≤ ro_remote op < 2 ^ 64 ∧ sent f (ro_endpoint op) (link i) = true
     else link i = AReply ∧ is_Some (remote_bytes f op)) ∧
  ∃ p', f_procs f' !! me = Some p' ∧
    (∀ i op data, ops !! i = Some op → link i = AReply → remote_bytes f op = Some data →
      mem_read (pr_mem p') (ro_local op) (ro_length op) = data) ∧
    (∀ x, (∀ i op, ops !! i = Some op → oks !! i = Some true →
        ¬ (ro_local op ≤ x < ro_local op + ro_length op)) → pr_mem p' x = pr_mem p0 x).
Proof.
  pose proof (batch_read_from_spec 0 f me ops link p0 Hme Hrem Hdis) as Hspec. unfold batch_read.
  destruct (batch_read_from 0 f me ops link) as [oks f']. destruct Hspec as (Hom & -> & p' & Hp & Hd & Hx).
  split; [done|]. split; [apply length_imap|]. split.
  - intros i op Hi. rewrite list_lookup_imap, Hi. cbn [fmap option_fmap option_map]. simpl. unfold read_ok, read_data.
    destruct (Z.eqb_spec (ro_length op) 0); rewrite (inj_iff Some), bool_decide_eq_true.
    + destruct (sent f (ro_endpoint op) (link i)) eqn:Es; rewrite ?andb_true_r, ?andb_false_r.
      * case_bool_decide; split; [by split|by eexists|by intros [? ?]|by intros [? _]].
      * split; [by intros [? ?]|by intros [_ ?]].
    + destruct (link i); (split; [intros Hs|intros [Hl Hs]]); try done; by destruct Hs.
  - exists p'. split; [done|]. split; [|done]. intros i op data Hi Hl Hb. apply (Hd i op); [done|].
    simpl. rewrite Hl. by apply read_data_reply.
Qed.

(** C18: the data server is confined to registered memory.  Whatever bytes a peer
    sends, in whatever chunks, the server changes no byte outside its registered
    regions, keeps its regions, and every reply is an acknowledgement or the
    current content of a registered range. *)
Theorem tcp_server_confined (fuel : nat) (p : process) (s : stream) :
  let '(outs, p') := serve_data_conn fuel p s in
  pr_regions p' = pr_regions p ∧
  (∀ x, unregistered p x → pr_mem p' x = pr_mem p x) ∧
  (∀ out, out ∈ outs → ∃ q, pr_regions q = pr_regions p ∧
    (∀ x, unregistered p x → pr_mem q x = pr_mem p x) ∧ reply_ok q out).
Proof.
  revert p s. induction fuel as [|fuel IH]; intros p s; simpl.
  { split; [done|]. split; [done|]. by intros out ?%not_elem_of_nil. }
  destruct (serve_data p s) as [[out p1] s1] eqn:E.
  apply serve_data_protected in E as (H1 & H2 & H3). destruct out as [out|].
  2:{ split; [done|]. split; [done|]. by intros out ?%not_elem_of_nil. }
  specialize (IH p1 s1). destruct (serve_data_conn fuel p1 s1) as [outs p2]. destruct IH as (H4 & H5 & H6).
  assert (∀ x, unregistered p x → unregistered p1 x) as Hu.
  { intros x Hx. unfold unregistered in *. by rewrite H1. }
  split; [congruence|]. split; [intros x Hx; rewrite H5 by auto; by apply H2|].
  intros o [->|Hin]%elem_of_cons.
  - exists p. split; [done|]. split; [done|]. by apply H3.
  - destruct (H6 o Hin) as (q & Hq1 & Hq2 & Hq3). exists q. split; [congruence|]. split; [|done].
    intros x Hx. rewrite Hq2 by auto. by apply H2.
Qed.

(** C29: connections are finite work.  Whatever bytes arrive, in whatever
    chunks and with whatever errors, [_recv_exact n] is over after at most
    [n] turns, a control connection after one turn per four bytes received
    and one more, a data connection after one per seventeen bytes and one
    more: a larger budget gives the same replies and the same final state,
    and no more replies are sent than requests fit in the bytes. *)
Theorem connections_terminate {C : Codec} {S} (svc : Service S) (st : S) (p : process) (s : stream) :
  let received := length (stream_bytes s) in
  (∀ n fuel, (n ≤ fuel)%nat → recv_loop fuel n [] s = _recv_exact n s) ∧
  (∀ fuel, (received / 4 < fuel)%nat →
    serve_conn fuel svc st s = serve_conn (Datatypes.S (received / 4)) svc st s ∧
    (length (serve_conn fuel svc st s).1 ≤ received / 4)%nat) ∧
  (∀ fuel, (received / 17 < fuel)%nat →
    serve_data_conn fuel p s = serve_data_conn (Datatypes.S (received / 17)) p s ∧
    (length (serve_data_conn fuel p s).1 ≤ received / 17)%nat).
Proof.
  intros received. assert (∀ k fuel, (0 < k)%nat → (received / k < fuel)%nat → (received < k * fuel)%nat) as Hk.
  { intros k fuel Hk Hf. pose proof (Nat.div_mod received k ltac:(lia)). pose proof (Nat.mod_upper_bound received k ltac:(lia)). nia. }
  split; [intros n fuel Hn; apply recv_loop_fuel; simpl; lia|]. split; intros fuel Hf.
  - destruct (serve_conn_fuel svc fuel (Datatypes.S (received / 4)) st s) as [He Hl]; [apply Hk; lia..|].
    split; [exact He|]. apply Nat.div_le_lower_bound; [lia|exact Hl].
  - destruct (serve_data_conn_fuel fuel (Datatypes.S (received / 17)) p s) as [He Hl]; [apply Hk; lia..|].
    split; [exact He|]. apply Nat.div_le_lower_bound; [lia|exact Hl].
Qed.

(** A TCP write lands.  A write whose acknowledgement arrives has put the
    local bytes at the remote address, inside a registered region, and a read
    of that range delivers them; a write to unregistered memory is refused
    without effect; a lost acknowledgement reports failure although the bytes
    may have landed. *)
Theorem tcp_write_then_read (f : fabric) (me : string) (op : ReadOp) (a : attempt) (p0 : process)
  (Hme : f_procs f !! me = Some p0) :
  let data := mem_read (pr_mem p0) (ro_local op) (ro_length op) in
  match target f op with
  | None => write_one f me op a = (false, f)
  | Some (n, p) =>
      let f' := set_proc f n (mk_proc (mem_write (pr_mem p) (ro_remote op) data) (pr_regions p)) in
      write_one f me op a = (bool_decide (a = AReply), if runs a then f' else f) ∧
      _covered p (ro_remote op) (ro_length op) = true ∧ remote_bytes f' op = Some data
  end.
Proof.
  intros data. rewrite (write_one_spec f me op a p0 Hme).
  destruct (target f op) as [[n p]|] eqn:Et; [|done]. split; [done|].
  unfold target in Et. destruct (remote_process f (ro_endpoint op)) as [[n' p']|] eqn:Er; [|done]. simpl in Et.
  destruct (_ && _) eqn:Ec; [|done]. injection Et as -> ->. bool_cases.
  split; [done|]. apply remote_process_Some in Er as [Hh Hp].
  unfold remote_bytes, target, remote_process. simpl. rewrite Hh. simpl. rewrite lookup_insert_eq. simpl.
  rewrite bool_decide_eq_true_2 by done. simpl. unfold _covered in *. simpl. rewrite H0. simpl. f_equal.
  rewrite <-(zlength_mem_read (pr_mem p0) (ro_local op) (ro_length op)) at 1 by lia.
  apply mem_read_write_same.
Qed.

(** An operation's endpoint and key belong to the same rail.  When a node
    advertises as many endpoints as keys, operation [i] of a multi-rail batch
    uses endpoint and key number [i mod n_rails] of its node, or number 0 when
    the node has fewer rails; a node with no advertised rails gets no
    endpoint. *)
Theorem rail_selection (n_rails : Z) (eps : gmap string (list string)) (ks : gmap string (list Z))
  (ops : list MultiOp) (i : nat) (op : MultiOp) (Hop : ops !! i = Some op)
  (Hlen : length (default [] (eps !! mo_node op)) = length (default [] (ks !! mo_node op))) :
  let rails := zlength (default [] (eps !! mo_node op)) in
  let r := if Z.of_nat i mod Z.max 1 n_rails <? rails then Z.of_nat i mod Z.max 1 n_rails else 0 in
  ∃ ro, stripe n_rails eps ks ops !! i = Some ro ∧
    ro_local ro = mo_local op ∧ ro_remote ro = mo_remote op ∧ ro_length ro = mo_length op ∧
    (0 < rails → 0 ≤ r < rails ∧
      default [] (eps !! mo_node op) !! Z.to_nat r = Some (ro_endpoint ro) ∧
      default [] (ks !! mo_node op) !! Z.to_nat r = Some (ro_rkey ro)) ∧
    (rails = 0 → ro_endpoint ro = "").
Proof.
  intros rails r. unfold stripe. rewrite list_lookup_imap, Hop. simpl.
  eexists. split; [reflexivity|]. simpl. split; [done|]. split; [done|]. split; [done|].
  unfold rail_endpoint, rail_rkey, pick_rail. fold rails. fold r.
  assert (0 ≤ Z.of_nat i mod Z.max 1 n_rails) as Hm by (apply Z.mod_pos_bound; lia).
  split.
  - intros Hr. assert (0 ≤ r < rails) as Hrr.
    { subst r. destruct (_ <? _) eqn:E; bool_cases; lia. }
    split; [done|]. destruct (eps !! mo_node op) as [es|]; simpl in *; [|subst rails; unfold zlength in Hr; simpl in Hr; lia].
    destruct (ks !! mo_node op) as [k|]; simpl in *; [|subst rails; unfold zlength in Hr; rewrite Hlen in Hr; simpl in Hr; lia].
    destruct k as [|k0 k]; [subst rails; unfold zlength in Hr; rewrite Hlen in Hr; simpl in Hr; lia|].
    assert (zlength (k0 :: k) = rails) as -> by (subst rails; unfold zlength; congruence). fold r.
    destruct (lookup_lt_is_Some_2 es (Z.to_nat r)) as [e He]; [subst rails; unfold zlength in Hrr; lia|].
    destruct (lookup_lt_is_Some_2 (k0 :: k) (Z.to_nat r)) as [e' He'];
      [rewrite <-Hlen; subst rails; unfold zlength in Hrr; lia|].
    rewrite He, He'. done.
  - intros Hr. destruct (eps !! mo_node op) as [es|]; simpl in *; [|done].
    destruct es; [done|]. subst rails. unfold zlength in Hr. simpl in Hr. lia.
Qed.

(** ** Concrete instances *)

Module TransportExamples.
Definition m_src : mem := mem_write (λ _, 0) 4096 [9; 8; 7].
Definition f0 : fabric :=
  mk_fabric {[ "A" := mk_proc (λ _, 0) [(100, 64)]; "B" := mk_proc m_src [(4096, 3)] ]}
    (λ ep, if String.eqb ep "b:1" then Some "B" else if String.eqb ep "a:1" then Some "A" else None).
Definition op0 : ReadOp := mk_readop "b:1" 100 4096 0 3.

Lemma f0_me : f_procs f0 !! "A" = Some (mk_proc (λ _, 0) [(100, 64)]).
Proof. reflexivity. Qed.

Lemma tcp_batch_read_exact_witness : (batch_read f0 "A" [op0] (λ _, AReply)).1 !! 0%nat = Some true.
Proof.
  assert (remote_ops f0 "A" [op0]) as Hr by (constructor; [vm_compute; discriminate|constructor]).
  assert (ForallOrdPairs local_disjoint [op0]) as Hd by (constructor; constructor).
  generalize (tcp_batch_read_exact f0 "A" [op0] (λ _, AReply) _ f0_me Hr Hd).
  generalize (batch_read f0 "A" [op0] (λ _, AReply)). intros [oks f'] (_ & _ & H & _). simpl.
  apply (H 0%nat op0 eq_refl). split; [reflexivity|]. by eexists.
Defined.

(** A read of no bytes succeeds although the peer refuses the range. *)
Example empty_read_refused : (batch_read f0 "A" [mk_readop "b:1" 100 9999 0 0] (λ _, AReply)).1 = [true].
Proof. reflexivity. Qed.

Lemma tcp_write_then_read_witness :
  write_one f0 "A" (mk_readop "b:1" 100 8000 0 3) AReply = (false, f0).
Proof. exact (tcp_write_then_read f0 "A" (mk_readop "b:1" 100 8000 0 3) AReply _ f0_me). Defined.

Lemma rail_selection_witness :
  ∃ ro, stripe 2 {[ "n" := ["h:1"; "h:2"] ]} {[ "n" := [5; 6] ]}
      [mk_multiop "n" 0 0 8; mk_multiop "n" 8 8 8] !! 1%nat = Some ro ∧ ro_endpoint ro = "h:2".
Proof.
  destruct (rail_selection 2 {[ "n" := ["h:1"; "h:2"] ]} {[ "n" := [5; 6] ]}
    [mk_multiop "n" 0 0 8; mk_multiop "n" 8 8 8] 1 (mk_multiop "n" 8 8 8)
    ltac:(reflexivity) ltac:(vm_compute; reflexivity))
    as (ro & Hs & _ & _ & _ & Hr & _).
  exists ro. split; [exact Hs|]. destruct (Hr ltac:(vm_compute; reflexivity)) as (_ & He & _).
  cbv -[ro_endpoint] in He. injection He as He. symmetry. exact He.
Defined.
(** Seven bytes that are not a request: both servers stop after two turns. *)
Lemma connections_terminate_witness :
  serve_data_conn 9 (mk_proc (λ _, 0) []) [CData [0; 0; 0]; CData [1; 7; 7; 7]] =
  serve_data_conn 1 (mk_proc (λ _, 0) []) [CData [0; 0; 0]; CData [1; 7; 7; 7]] ∧
  Nat.le (length (serve_conn (C := RpcExamples.ex_codec) 9 RpcExamples.swap_svc VNone
    [CData [0; 0; 0]; CData [1; 7; 7; 7]]).1) 1.
Proof.
  destruct (connections_terminate (C := RpcExamples.ex_codec) RpcExamples.swap_svc VNone (mk_proc (λ _, 0) [])
    [CData [0; 0; 0]; CData [1; 7; 7; 7]]) as (_ & Hc & Hd).
  split; [apply Hd; vm_compute; lia|]. apply Hc. vm_compute. lia.
Defined.
End TransportExamples.
