(* ===== verification/DataPlane.v ===== *)
(** The transports of [transport.py] as objects: the methods every transport
    has, the TCP transport with its cache of sockets, the RDMA transport in
    front of the engine, and the choice between them.

    The socket cache is the same structure as [RpcClientPool] (per-endpoint
    idle lists of bounded length), so the model and its invariant are shared.
    A socket is an identifier; [tt_dead] are the sockets whose peer is gone, on
    which every operation fails.  [stale_sockets_cost_once] says that such a
    socket costs at most one operation and that no operation leaves a new one
    in the cache. *)
From S2P Require Import Prelude Bytes Types Rpc Transport.

(** ** The base class *)

(** The methods a transport overrides.  [S] is the state the transport and
    the memories share, [link] how the connection of each operation fares. *)
Class TransportOps (S : Type) := {
  tp_n_rails : S → Z;
  tp_endpoints : S → list string;
  tp_batch_read : S → list ReadOp → (nat → attempt) → list bool * S;
  tp_batch_write : S → list ReadOp → (nat → attempt) → list bool * S
}.

Section base.
Context {S : Type} {TO : TransportOps S}.

(** [ReadOp(remote_nodes[i], ...) for i in range(len(lengths))] *)
Definition op_at (remote_nodes : list string) (local_addrs remote_addrs rkeys lengths : list Z) (i : nat) :
    pyres ReadOp :=
  match remote_nodes !! i, local_addrs !! i, remote_addrs !! i, rkeys !! i, lengths !! i with
  | Some n, Some l, Some r, Some k, Some len => Ret (mk_readop n l r k len)
  | _, _, _, _, _ => Raise IndexError
  end.

Definition ops_of (remote_nodes : list string) (local_addrs remote_addrs rkeys lengths : list Z) :
    pyres (list ReadOp) :=
  py_mapM (op_at remote_nodes local_addrs remote_addrs rkeys lengths) (seq 0 (length lengths)).

Definition batch_read_v (s : S) (remote_nodes : list string) (local_addrs remote_addrs rkeys lengths : list Z)
    (link : nat → attempt) : pyres (list bool) * S :=
  match ops_of remote_nodes local_addrs remote_addrs rkeys lengths with
  | Raise e => (Raise e, s)
  | Ret ops => let '(oks, s) := tp_batch_read s ops link in (Ret oks, s)
  end.

(** [stats]: [read_timeouts], [channel_discards], [rails] *)
Definition transport_stats (s : S) : list (string * Z) :=
  [("read_timeouts", 0); ("channel_discards", 0); ("rails", tp_n_rails s)].

(** The endpoints and keys [batch_read_multi] and [batch_write_multi] pick. *)
Definition rail_nodes (s : S) (node_ids : list string) (rail_endpoints : gmap string (list string)) : list string :=
  imap (λ i node, rail_endpoint (tp_n_rails s) (Z.of_nat i) rail_endpoints node) node_ids.
Definition rail_keys (s : S) (node_ids : list string) (rail_rkeys : gmap string (list Z)) : list Z :=
  imap (λ i node, rail_rkey (tp_n_rails s) (Z.of_nat i) rail_rkeys node) node_ids.

Definition batch_read_multi_v (s : S) (node_ids : list string) (local_addrs remote_addrs lengths : list Z)
    (rail_endpoints : gmap string (list string)) (rail_rkeys : gmap string (list Z)) (link : nat → attempt) :
    pyres (list bool) * S :=
  batch_read_v s (rail_nodes s node_ids rail_endpoints) local_addrs remote_addrs (rail_keys s node_ids rail_rkeys)
    lengths link.

(** The default [batch_read_multi] is [batch_read] of the striped operations
    of [Transport.v]. *)
Lemma py_mapM_lookup {A B} (f : nat → pyres B) (l : list A) (g : nat → A → B) : ∀ k,
  (∀ i x, l !! i = Some x → f (k + i)%nat = Ret (g (k + i)%nat x)) →
  py_mapM f (seq k (length l)) = Ret (imap (λ i, g (k + i)%nat) l).
Proof.
  revert f g. induction l as [|x l IH]; intros f g k Hf; [done|]. cbn [length seq py_mapM].
  pose proof (Hf 0%nat x eq_refl) as H0. rewrite Nat.add_0_r in H0. rewrite H0.
  rewrite (IH f g (Datatypes.S k)) by (intros i y Hi; specialize (Hf (Datatypes.S i) y Hi); by rewrite <-Nat.add_succ_comm in Hf).
  cbn [imap]. rewrite Nat.add_0_r. do 2 f_equal. apply imap_ext. intros i y _. simpl. f_equal. lia.
Qed.

Lemma ops_of_stripe (n_rails : Z) (ops : list MultiOp) eps ks :
  ops_of (imap (λ i op, rail_endpoint n_rails (Z.of_nat i) eps op) (mo_node <$> ops))
    (mo_local <$> ops) (mo_remote <$> ops)
    (imap (λ i op, rail_rkey n_rails (Z.of_nat i) ks op) (mo_node <$> ops)) (mo_length <$> ops) =
  Ret (stripe n_rails eps ks ops).
Proof.
  unfold ops_of, stripe. rewrite length_fmap.
  rewrite (py_mapM_lookup _ ops (λ i op, mk_readop (rail_endpoint n_rails (Z.of_nat i) eps (mo_node op))
    (mo_local op) (mo_remote op) (rail_rkey n_rails (Z.of_nat i) ks (mo_node op)) (mo_length op)) 0); [done|].
  intros i op Hi. unfold op_at. rewrite !list_lookup_imap, !list_lookup_fmap. simpl. by rewrite Hi.
Qed.

Lemma batch_read_multi_striped (s : S) (ops : list MultiOp) eps ks link :
  batch_read_multi_v s (mo_node <$> ops) (mo_local <$> ops) (mo_remote <$> ops) (mo_length <$> ops) eps ks link =
  (let '(oks, s) := tp_batch_read s (stripe (tp_n_rails s) eps ks ops) link in (Ret oks, s)).
Proof.
  unfold batch_read_multi_v, batch_read_v, rail_nodes, rail_keys. by rewrite ops_of_stripe.
Qed.
End base.

(** ** The TCP transport *)

Record TcpTransport := mk_tcp {
  tt_sockets : RpcClientPool;
  tt_dead : gset nat;
  tt_endpoints : list string;
  tt_running : bool
}.

(** [TcpTransport.__init__]: one listener per rail, at least one; [port] gives
    the port the system bound for each, or the error of [bind]. *)
Definition new_tcp (max_channels_per_peer : Z) (rails : nat) (hostname : string) (port : nat → pyres Z) :
    pyres TcpTransport :=
  ports ← py_mapM port (seq 0 (Nat.max 1 rails));
  Ret (mk_tcp (new_cpool max_channels_per_peer) ∅ ((λ p, hostname +:+ ":" +:+ pretty p) <$> ports) true).

(** [_acquire]: an idle socket of the endpoint, or a new connection when
    [connects]. *)
Definition tcp_acquire (p : RpcClientPool) (endpoint : string) (connects : bool) : option nat * RpcClientPool :=
  match cp_idle p !! endpoint ≫= pop_last with
  | Some _ => let '(c, p) := _acquire p endpoint in (Some c, p)
  | None => if connects then let '(c, p) := _acquire p endpoint in (Some c, p) else (None, p)
  end.

(** [_release] *)
Definition tcp_release (p : RpcClientPool) (endpoint : string) (sock : nat) : RpcClientPool :=
  _release p endpoint sock.

(** The server answered the request and goes on serving the connection. *)
Definition answered (f : fabric) (endpoint : string) (req : option (list Z)) (a : attempt) : bool :=
  match req with
  | Some req => match (exchange f endpoint req a).1 with Some _ => true | None => false end
  | None => false
  end.

(** The requests of [batch_read] and [batch_write_v] on the wire. *)
Definition read_request (op : ReadOp) : option (list Z) := pack_request _TCP_OP_READ (ro_remote op) (ro_length op).
Definition write_request (f : fabric) (me : string) (op : ReadOp) : option (list Z) :=
  p ← f_procs f !! me; req ← pack_request _TCP_OP_WRITE (ro_remote op) (ro_length op);
  Some (req ++ mem_read (pr_mem p) (ro_local op) (ro_length op)).

(** One operation with its socket: leased, returned after a success, closed
    after anything else.  A connection needs a listener at the endpoint.  On a
    dead socket the request does not arrive; a socket whose request was not
    answered is dead from then on. *)
Definition with_socket (p : RpcClientPool) (dead : gset nat) (f : fabric) (endpoint : string) (a : attempt)
    (transfer : fabric → attempt → bool * fabric) (keeps : fabric → attempt → bool) :
    bool * RpcClientPool * gset nat * fabric :=
  match tcp_acquire p endpoint (bool_decide (is_Some (f_host f endpoint) ∧ a ≠ ANoConnect)) with
  | (None, p) => (false, p, dead, f)
  | (Some c, p) =>
      let a := if bool_decide (c ∈ dead) then ABreakBefore else a in
      let '(ok, f') := transfer f a in
      (ok, if ok then tcp_release p endpoint c else close_client p c, if keeps f a then dead else {[c]} ∪ dead, f')
  end.

Fixpoint tcp_batch (one : ReadOp → fabric → attempt → bool * fabric) (keeps : ReadOp → fabric → attempt → bool) (i : nat)
    (p : RpcClientPool) (dead : gset nat) (f : fabric) (ops : list ReadOp) (link : nat → attempt) :
    list bool * RpcClientPool * gset nat * fabric :=
  match ops with
  | [] => ([], p, dead, f)
  | op :: ops' =>
      let '(ok, p, dead, f) := with_socket p dead f (ro_endpoint op) (link i) (one op) (keeps op) in
      let '(oks, p, dead, f) := tcp_batch one keeps (S i) p dead f ops' link in (ok :: oks, p, dead, f)
  end.

(** [TcpTransport.batch_read] and [TcpTransport.batch_write_v] of process [me]. *)
Definition tcp_batch_read (me : string) (t : TcpTransport) (f : fabric) (ops : list ReadOp) (link : nat → attempt) :
    list bool * TcpTransport * fabric :=
  let '(oks, p, dead, f) :=
    tcp_batch (λ op f a, read_one f me op a) (λ op f a, answered f (ro_endpoint op) (read_request op) a)
      0 (tt_sockets t) (tt_dead t) f ops link in
  (oks, mk_tcp p dead (tt_endpoints t) (tt_running t), f).
Definition tcp_batch_write (me : string) (t : TcpTransport) (f : fabric) (ops : list ReadOp) (link : nat → attempt) :
    list bool * TcpTransport * fabric :=
  let '(oks, p, dead, f) :=
    tcp_batch (λ op f a, write_one f me op a) (λ op f a, answered f (ro_endpoint op) (write_request f me op) a)
      0 (tt_sockets t) (tt_dead t) f ops link in
  (oks, mk_tcp p dead (tt_endpoints t) (tt_running t), f).

(** [TcpTransport.n_rails], [local_endpoint] and [local_endpoints] *)
Definition tcp_n_rails (t : TcpTransport) : Z := zlength (tt_endpoints t).
Definition tcp_local_endpoint (t : TcpTransport) : string := default "" (head (tt_endpoints t)).

(** [TcpTransport.close] *)
Definition tcp_close (t : TcpTransport) : TcpTransport :=
  mk_tcp (cpool_close (tt_sockets t)) (tt_dead t) (tt_endpoints t) false.

#[export] Instance tcp_transport (me : string) : TransportOps (TcpTransport * fabric) := {|
  tp_n_rails s := tcp_n_rails s.1;
  tp_endpoints s := tt_endpoints s.1;
  tp_batch_read s ops link := let '(oks, t, f) := tcp_batch_read me s.1 s.2 ops link in (oks, (t, f));
  tp_batch_write s ops link := let '(oks, t, f) := tcp_batch_write me s.1 s.2 ops link in (oks, (t, f))
|}.

(** ** The RDMA transport

    The engine is C++ code; [RdmaTransport] forwards to it. *)

Section rdma.
Context {E : Type}.

(** What [RdmaTransport] calls on the engine; a registration gives one
    [(rkey, lkey)] handle per rail. *)
Record EngineOps := mk_engine_ops {
  eng_n_rails : E → Z;
  eng_register_mr : E → Z → Z → pyres (list (Z * Z)) * E;
  eng_register_mr_dmabuf : E → Z → Z → Z → Z → pyres (list (Z * Z)) * E;
  eng_deregister_mr : E → Z → E;
  eng_batch_read : E → list ReadOp → (nat → attempt) → list bool * E;
  eng_batch_write : E → list ReadOp → (nat → attempt) → list bool * E;
  eng_endpoints : E → list string
}.
Context (ops : EngineOps).

(** The [Mr] of the handles; [rkeys[0]] raises for an engine without rails. *)
Definition mr_of_handles (addr : Z) (handles : list (Z * Z)) : pyres Mr :=
  match handles with
  | [] => Raise IndexError
  | (rkey, lkey) :: _ => Ret (mk_mr addr rkey lkey handles.*1 handles.*2)
  end.

Definition rdma_register_mr (e : E) (addr length : Z) : pyres Mr * E :=
  let '(r, e) := eng_register_mr ops e addr length in
  (handles ← r; mr_of_handles addr handles, e).

Definition rdma_register_mr_dmabuf (e : E) (addr length fd fd_offset : Z) : pyres Mr * E :=
  let '(r, e) := eng_register_mr_dmabuf ops e addr length fd fd_offset in
  (handles ← r; mr_of_handles addr handles, e).

Definition rdma_deregister_mr (e : E) (addr : Z) : E := eng_deregister_mr ops e addr.

Definition rdma_transport : TransportOps E := {|
  tp_n_rails := eng_n_rails ops;
  tp_endpoints := eng_endpoints ops;
  tp_batch_read := eng_batch_read ops;
  tp_batch_write := eng_batch_write ops
|}.

(** The built extension: whether it has RDMA, and its engine constructor. *)
Record Extension := mk_ext {
  HAS_RDMA : bool;
  TransferEngine : list string → pyres E
}.

(** [RdmaTransport.__init__]; [ext] is the import of [_peercache]. *)
Definition new_rdma (ext : pyres Extension) (devices : list string) : pyres E :=
  x ← ext; if HAS_RDMA x then TransferEngine x devices else Raise RuntimeError.

Inductive transport :=
  | Tcp (t : TcpTransport)
  | Rdma (e : E).

Definition create_transport (protocol : string) (ext : pyres Extension) (devices : list string)
    (tcp : pyres TcpTransport) : pyres transport :=
  if String.eqb protocol "tcp" then (t ← tcp; Ret (Tcp t))
  else match new_rdma ext devices with
       | Ret e => Ret (Rdma e)
       | Raise _ => t ← tcp; Ret (Tcp t)
       end.
End rdma.

(** ** The sockets of a batch *)

(** Every socket that was ever opened is idle, in use, or closed. *)
Definition no_leak (p : RpcClientPool) (L : list (string * nat)) : Prop :=
  ∀ c, (c < cp_next p)%nat → c ∈ places p L ∨ c ∈ cp_closed p.

Lemma no_leak_intro p L p' L' extra gone :
  no_leak p L → extra ++ places p L ≡ₚ gone ++ places p' L' →
  (∀ c, (c < cp_next p')%nat → (c < cp_next p)%nat ∨ c ∈ extra) →
  (∀ c, c ∈ gone ∨ c ∈ cp_closed p → c ∈ cp_closed p') → no_leak p' L'.
Proof.
  intros Hn Hp Hnext Hcl c Hc.
  assert (c ∈ extra ++ places p L ∨ c ∈ cp_closed p) as [H|H].
  { destruct (Hnext c Hc) as [H|H]; [|left; apply elem_of_app; by left].
    destruct (Hn c H) as [?|?]; [left; apply elem_of_app; by right|by right]. }
  - rewrite Hp in H. apply elem_of_app in H as [H|H]; [right; apply Hcl; by left|by left].
  - right. apply Hcl. by right.
Qed.

Lemma acquire_places p L ep c p' :
  _acquire p ep = (c, p') →
  (c = cp_next p ∧ cp_next p' = S (cp_next p) ∧ c :: places p L ≡ₚ places p' ((ep, c) :: L) ∨
   cp_next p' = cp_next p ∧ places p L ≡ₚ places p' ((ep, c) :: L)) ∧ cp_closed p' = cp_closed p.
Proof.
  unfold _acquire. destruct (cp_idle p !! ep ≫= pop_last) as [[c' idle]|] eqn:El; intros [= <- <-].
  - destruct (cp_idle p !! ep) as [l|] eqn:Em; [|done]. simpl in El. apply pop_last_Some in El as ->.
    split; [|done]. right. split; [done|]. unfold places. simpl.
    rewrite idle_all_insert, (idle_all_split (cp_idle p) ep), Em. simpl. solve_Permutation.
  - split; [|done]. left. split; [done|]. split; [done|]. unfold places. simpl. solve_Permutation.
Qed.

Lemma acquire_no_leak p L ep c p' : no_leak p L → _acquire p ep = (c, p') → no_leak p' ((ep, c) :: L).
Proof.
  intros Hn Ha. destruct (acquire_places p L ep c p' Ha) as [[(-> & Hnx & Hp)|[Hnx Hp]] Hc].
  - apply (no_leak_intro p L _ _ [cp_next p] []); [done|done| |intros x [?%not_elem_of_nil|?]; [done|by rewrite Hc]].
    intros x Hx. rewrite Hnx in Hx. destruct (decide (x = cp_next p)) as [->|]; [right; by apply list_elem_of_singleton|left; lia].
  - apply (no_leak_intro p L _ _ [] []); [done|done|intros x; rewrite Hnx; by left|].
    intros x [?%not_elem_of_nil|?]; [done|by rewrite Hc].
Qed.

Lemma release_no_leak p ep c L : no_leak p ((ep, c) :: L) → no_leak (_release p ep c) L.
Proof.
  intros Hn. unfold _release.
  assert (idle_all (<[ep := default [] (cp_idle p !! ep)]> (cp_idle p)) ≡ₚ idle_all (cp_idle p)) as Hid
    by (rewrite idle_all_insert; symmetry; apply idle_all_split).
  destruct (_ <? _) eqn:El.
  - apply (no_leak_intro p ((ep, c) :: L) _ _ [] []); [done| |by left|by intros x [?%not_elem_of_nil|?]].
    unfold places. simpl. rewrite idle_all_insert, (idle_all_split (cp_idle p) ep). solve_Permutation.
  - apply (no_leak_intro p ((ep, c) :: L) _ _ [] [c]); [done| |by left|set_solver].
    unfold places. simpl. rewrite Hid. solve_Permutation.
Qed.

Lemma close_client_no_leak p ep c L : no_leak p ((ep, c) :: L) → no_leak (close_client p c) L.
Proof.
  intros Hn. apply (no_leak_intro p ((ep, c) :: L) _ _ [] [c]); [done| |by left|set_solver].
  unfold places. simpl. solve_Permutation.
Qed.

(** A transfer over a connection that cannot be made does nothing. *)
Definition needs_connection (transfer : fabric → attempt → bool * fabric) (f : fabric) (ep : string) : Prop :=
  ∀ a, ¬ (is_Some (f_host f ep) ∧ a ≠ ANoConnect) → transfer f a = (false, f).

(** The dead sockets that wait in the cache. *)
Definition stale (p : RpcClientPool) (dead : gset nat) : list nat := filter (λ c, c ∈ dead) (idle_all (cp_idle p)).

(** A success needs the reply, and the server keeps the connection. *)
Definition success_answered (transfer : fabric → attempt → bool * fabric) (keeps : fabric → attempt → bool) : Prop :=
  (∀ f, transfer f ABreakBefore = (false, f)) ∧ (∀ f a, (transfer f a).1 = true → keeps f a = true).

(** The cache and the dead sockets, between operations. *)
Record sockets_inv (p : RpcClientPool) (dead : gset nat) (L : list (string * nat)) : Prop := {
  sk_pool : cpool_inv p L;
  sk_leak : no_leak p L;
  sk_dead c : c ∈ dead → (c < cp_next p)%nat
}.

(** Taking a socket out of the cache: a stale one is counted no longer. *)
Lemma acquire_stale p L ep c p' dead :
  sockets_inv p dead L → _acquire p ep = (c, p') →
  (c < cp_next p')%nat ∧ (cp_next p ≤ cp_next p')%nat ∧ (c ∉ idle_all (cp_idle p')) ∧
  length (stale p dead) = ((if decide (c ∈ dead) then 1 else 0) + length (stale p' dead))%nat.
Proof.
  intros [Hi _ Hd] Ha. pose proof (acquire_inv _ _ _ _ _ Hi Ha) as Hi'.
  assert (c ∈ places p' ((ep, c) :: L)) as Hc by (unfold places; set_solver).
  pose proof (ci_live _ _ Hi' _ Hc) as [Hlt _].
  assert (c ∉ idle_all (cp_idle p')) as Hno.
  { pose proof (ci_nodup _ _ Hi') as Hnd. unfold places in Hnd. apply NoDup_app in Hnd as (_ & Hdis & _).
    intros Hin. apply (Hdis c Hin). csimpl. by left. }
  destruct (acquire_places p L ep c p' Ha) as [[(-> & Hnx & Hp)|[Hnx Hp]] _].
  - split; [done|]. split; [lia|]. split; [done|]. rewrite decide_False by (intros Hin%Hd; lia). simpl.
    assert (idle_all (cp_idle p') ≡ₚ idle_all (cp_idle p)) as Heq.
    { unfold places in Hp. csimpl in Hp. apply (Permutation_cons_inv (a := cp_next p)).
      apply (Permutation_app_inv_r (L.*2)). rewrite <-!app_comm_cons. rewrite Hp. solve_Permutation. }
    unfold stale. by rewrite Heq.
  - split; [lia|]. split; [lia|]. split; [done|].
    assert (idle_all (cp_idle p) ≡ₚ c :: idle_all (cp_idle p')) as Heq.
    { unfold places in Hp. csimpl in Hp. apply (Permutation_app_inv_r (L.*2)). rewrite Hp. solve_Permutation. }
    unfold stale. rewrite Heq, filter_cons. by case_decide.
Qed.

(** Marking a socket dead that is not in the cache. *)
Lemma stale_other p dead c : c ∉ idle_all (cp_idle p) → stale p ({[c]} ∪ dead) = stale p dead.
Proof.
  intros Hno. unfold stale.
  induction (idle_all (cp_idle p)) as [|x l IH]; [done|]. apply not_elem_of_cons in Hno as [Hx Hno].
  rewrite !filter_cons, IH by done. repeat case_decide; set_solver.
Qed.

Lemma release_stale p L ep c dead :
  cpool_inv p ((ep, c) :: L) → c ∉ dead → length (stale (_release p ep c) dead) = length (stale p dead).
Proof.
  intros Hi Hc. unfold stale, _release. destruct (_ <? _); simpl.
  - rewrite idle_all_insert, (idle_all_split (cp_idle p) ep), !filter_app, filter_cons_False by done. by rewrite app_nil_r.
  - by rewrite idle_all_insert, (idle_all_split (cp_idle p) ep).
Qed.

(** One operation: it fares as [link] says, or it met a stale socket and there
    is one less. *)
Lemma with_socket_spec p dead f ep a transfer keeps L :
  sockets_inv p dead L → needs_connection transfer f ep → success_answered transfer keeps →
  ∃ p' dead' a', with_socket p dead f ep a transfer keeps = ((transfer f a').1, p', dead', (transfer f a').2) ∧
    sockets_inv p' dead' L ∧ (a' = a ∨ a' = ABreakBefore) ∧
    (length (stale p' dead') + (if decide (a' = a) then 0 else 1) ≤ length (stale p dead))%nat.
Proof.
  intros Hk Hconn [Hbreak Hans]. unfold with_socket, tcp_acquire.
  destruct (_acquire p ep) as [c p1] eqn:Ea.
  destruct (acquire_stale _ _ _ _ _ _ Hk Ea) as (Hlt & Hnx & Hno & Hst).
  destruct Hk as [Hi Hn Hd]. pose proof (acquire_inv _ _ _ _ _ Hi Ea) as Hi1. pose proof (acquire_no_leak _ _ _ _ _ Hn Ea) as Hn1.
  assert (∃ p' dead' a', (let a := if bool_decide (c ∈ dead) then ABreakBefore else a in
      let '(ok, f') := transfer f a in
      (ok, if ok then tcp_release p1 ep c else close_client p1 c, if keeps f a then dead else {[c]} ∪ dead, f')) =
        ((transfer f a').1, p', dead', (transfer f a').2) ∧ sockets_inv p' dead' L ∧ (a' = a ∨ a' = ABreakBefore) ∧
        (length (stale p' dead') + (if decide (a' = a) then 0 else 1) ≤ length (stale p dead))%nat) as Hgo.
  { case_bool_decide as Hc; [rewrite decide_True in Hst by done|rewrite decide_False in Hst by done].
    - exists (close_client p1 c), (if keeps f ABreakBefore then dead else {[c]} ∪ dead), ABreakBefore.
      cbn zeta. rewrite Hbreak. split; [done|]. split; [split|split].
      + by apply (fail_inv _ [] L ep).
      + by eapply close_client_no_leak.
      + simpl. intros x. destruct (keeps f ABreakBefore); [intros ?%Hd; lia|].
        rewrite elem_of_union, elem_of_singleton. intros [->|?%Hd]; lia.
      + by right.
      + unfold stale at 1. simpl. fold (stale p1 (if keeps f ABreakBefore then dead else {[c]} ∪ dead)).
        destruct (keeps f ABreakBefore); rewrite ?stale_other by done; destruct (decide (ABreakBefore = a)); lia.
    - cbn zeta. specialize (Hans f a). destruct (transfer f a) as [[] f'] eqn:Et; simpl in Hans.
      + exists (tcp_release p1 ep c), dead, a. rewrite Et, Hans by done. split; [done|]. split; [split|split].
        * by apply (release_inv _ [] L).
        * by eapply release_no_leak.
        * unfold tcp_release, _release. destruct (_ <? _); simpl; intros x ?%Hd; lia.
        * by left.
        * rewrite decide_True by done. unfold tcp_release. rewrite (release_stale p1 L) by done. lia.
      + exists (close_client p1 c), (if keeps f a then dead else {[c]} ∪ dead), a. rewrite Et. split; [done|]. split; [split|split].
        * by apply (fail_inv _ [] L ep).
        * by eapply close_client_no_leak.
        * simpl. intros x. destruct (keeps f a); [intros ?%Hd; lia|].
          rewrite elem_of_union, elem_of_singleton. intros [->|?%Hd]; lia.
        * by left.
        * rewrite decide_True by done. unfold stale at 1. simpl. fold (stale p1 (if keeps f a then dead else {[c]} ∪ dead)).
          destruct (keeps f a); rewrite ?stale_other by done; lia. }
  destruct (cp_idle p !! ep ≫= pop_last); [exact Hgo|].
  destruct (bool_decide (is_Some _ ∧ _)) eqn:Hcon; [exact Hgo|]. apply bool_decide_eq_false in Hcon.
  exists p, dead, a. rewrite (Hconn a Hcon). split; [done|]. split; [done|]. split; [by left|]. rewrite decide_True by done. lia.
Qed.

Lemma read_needs_connection me op f : needs_connection (λ f a, read_one f me op a) f (ro_endpoint op).
Proof.
  intros a Ha. rewrite read_one_spec. unfold read_data, sent, remote_bytes, target, remote_process.
  destruct (f_host f (ro_endpoint op)); simpl.
  - destruct a; [|by destruct Ha..]. destruct (f_procs f !! s); rewrite ?andb_false_r; by destruct (_ =? _).
  - rewrite andb_false_r. by destruct (_ =? _), a.
Qed.

(** A read of some bytes that succeeded was answered. *)
Lemma read_success_answered me op :
  ro_length op ≠ 0 →
  success_answered (λ f a, read_one f me op a) (λ f a, answered f (ro_endpoint op) (read_request op) a).
Proof.
  intros Hl. split.
  - intros f. rewrite read_one_spec. unfold read_data. destruct (Z.eqb_spec (ro_length op) 0); done.
  - intros f a. unfold read_one, answered, read_request. destruct (pack_request _ _ _) as [req|] eqn:Ep; [|done].
    apply pack_request_Some in Ep as (_ & Hr & _).
    destruct (exchange f (ro_endpoint op) req a) as [[out|] f'] eqn:Ex; [done|]. cbn [fst].
    destruct (sent f (ro_endpoint op) a); [|done]. destruct (Z.to_nat (ro_length op)) eqn:En; [lia|done].
Qed.

Lemma write_needs_connection me op f : needs_connection (λ f a, write_one f me op a) f (ro_endpoint op).
Proof.
  intros a Ha. unfold write_one. destruct (f_procs f !! me) as [p0|] eqn:Hp; [|done].
  destruct (pack_request _ _ _); [|done]. unfold exchange. destruct (f_host f (ro_endpoint op)) as [n|]; [|done]. simpl.
  destruct (f_procs f !! n); [|done]. simpl. destruct a; [done|..]; destruct Ha; by split.
Qed.

Lemma write_success_answered me op :
  success_answered (λ f a, write_one f me op a) (λ f a, answered f (ro_endpoint op) (write_request f me op) a).
Proof.
  split.
  - intros f. unfold write_one. destruct (f_procs f !! me) as [p|]; [|done]. destruct (pack_request _ _ _); [|done].
    unfold exchange. by destruct (_ ≫= _) as [[]|].
  - intros f a. unfold write_one, answered, write_request. destruct (f_procs f !! me) as [p|]; [|done]. simpl.
    destruct (pack_request _ _ _) as [req|]; [|done]. simpl. by destruct (exchange f (ro_endpoint op) _ a) as [[out|] f'].
Qed.

(** The batch without sockets. *)
Fixpoint plain_batch (one : ReadOp → fabric → attempt → bool * fabric) (i : nat) (f : fabric)
    (ops : list ReadOp) (link : nat → attempt) : list bool * fabric :=
  match ops with
  | [] => ([], f)
  | op :: ops' =>
      let '(ok, f) := one op f (link i) in
      let '(oks, f) := plain_batch one (S i) f ops' link in (ok :: oks, f)
  end.

(** The operations of a batch that fared worse than the network. *)
Definition spoiled (link link' : nat → attempt) (i n : nat) : list nat := filter (λ j, link' j ≠ link j) (seq i n).

Lemma plain_batch_ext one ops link link' : ∀ i f,
  (∀ j, (i ≤ j)%nat → link' j = link j) → plain_batch one i f ops link' = plain_batch one i f ops link.
Proof.
  induction ops as [|op ops IH]; intros i f H; [done|]. cbn [plain_batch]. rewrite H by lia.
  destruct (one op f (link i)) as [ok f1]. rewrite IH; [done|]. intros j Hj. apply H. lia.
Qed.

Lemma tcp_batch_spec one keeps link L : ∀ ops i p dead f,
  sockets_inv p dead L →
  Forall (λ op, (∀ f, needs_connection (one op) f (ro_endpoint op)) ∧ success_answered (one op) (keeps op)) ops →
  ∃ p' dead' link', tcp_batch one keeps i p dead f ops link =
      ((plain_batch one i f ops link').1, p', dead', (plain_batch one i f ops link').2) ∧
    sockets_inv p' dead' L ∧ (∀ j, link' j = link j ∨ link' j = ABreakBefore) ∧
    (length (spoiled link link' i (length ops)) + length (stale p' dead') ≤ length (stale p dead))%nat.
Proof.
  induction ops as [|op ops IH]; intros i p dead f Hk Hone; cbn [tcp_batch].
  { exists p, dead, link. split; [done|]. split; [done|]. split; [by left|]. simpl. lia. }
  apply Forall_cons in Hone as [[Hc Hs] Hone].
  destruct (with_socket_spec p dead f (ro_endpoint op) (link i) (one op) (keeps op) L Hk (Hc f) Hs)
    as (p1 & dead1 & a & -> & Hk1 & Ha & Hn1).
  destruct (IH (S i) p1 dead1 (one op f a).2 Hk1 Hone) as (p2 & dead2 & link2 & -> & Hk2 & Hl2 & Hn2).
  set (link' := λ j, if decide (j = i) then a else link2 j).
  assert (∀ j, (S i ≤ j)%nat → link' j = link2 j) as Htail by (intros j Hj; unfold link'; rewrite decide_False by lia; done).
  assert (link' i = a) as Hhead by (unfold link'; by rewrite decide_True).
  exists p2, dead2, link'. split; [|split; [done|split]].
  - cbn [plain_batch]. rewrite Hhead. destruct (one op f a) as [ok f1]. simpl. rewrite (plain_batch_ext one ops link2 link') by done.
    by destruct (plain_batch one (S i) f1 ops link2).
  - intros j. unfold link'. destruct (decide (j = i)) as [->|_]; [exact Ha|apply Hl2].
  - assert (spoiled link link' (S i) (length ops) = spoiled link link2 (S i) (length ops)) as He.
    { unfold spoiled. assert (Forall (λ j, link' j = link2 j) (seq (S i) (length ops))) as Hall
        by (apply Forall_forall; intros j Hj%elem_of_seq; apply Htail; lia).
      induction Hall as [|j l Hj _ IHl]; [done|]. by rewrite !filter_cons, Hj, IHl. }
    unfold spoiled in *. cbn [length seq]. rewrite filter_cons, Hhead. rewrite He.
    destruct (decide (a = link i)) as [->|Hne]; [rewrite decide_False by (by intros [])|rewrite decide_True by done]; simpl; lia.
Qed.

Lemma plain_batch_read me f ops link : ∀ i,
  plain_batch (λ op f a, read_one f me op a) i f ops link = batch_read_from i f me ops link.
Proof.
  revert f. induction ops as [|op ops IH]; intros f i; [done|]. cbn [plain_batch batch_read_from].
  destruct (read_one f me op (link i)) as [ok f1]. by rewrite IH.
Qed.

Lemma plain_batch_write me f ops link : ∀ i,
  plain_batch (λ op f a, write_one f me op a) i f ops link = batch_write_from i f me ops link.
Proof.
  revert f. induction ops as [|op ops IH]; intros f i; [done|]. cbn [plain_batch batch_write_from].
  destruct (write_one f me op (link i)) as [ok f1]. by rewrite IH.
Qed.

(** The idle sockets of a transport whose peer is gone. *)
Definition stale_of (t : TcpTransport) : list nat := stale (tt_sockets t) (tt_dead t).
Definition sockets_ok (t : TcpTransport) (L : list (string * nat)) : Prop := sockets_inv (tt_sockets t) (tt_dead t) L.

(** C30: a stale socket costs at most one operation.  Take any cache, with any
    number of idle sockets whose peer is gone, and sockets leased by other
    threads.  A batch of reads of some bytes, or of writes, has the results and
    the memory effect of the same operations over fresh connections, except
    for operations that fail where a fresh connection might not have; there
    are no more of these than stale sockets that left the cache, and no
    operation, failed or not, leaves a new stale one in it.  The leased sockets
    are untouched, no socket is idle twice, no closed socket is kept and none
    is lost track of; [close] with no batch running closes them all. *)
Theorem stale_sockets_cost_once (me : string) (t : TcpTransport) (f : fabric) (ops : list ReadOp)
    (link : nat → attempt) (L : list (string * nat)) (Hok : sockets_ok t L) :
  (Forall (λ op, ro_length op ≠ 0) ops → let '(oks, t', f') := tcp_batch_read me t f ops link in
   sockets_ok t' L ∧ ∃ link', batch_read f me ops link' = (oks, f') ∧ (∀ j, link' j = link j ∨ link' j = ABreakBefore) ∧
     (length (spoiled link link' 0 (length ops)) + length (stale_of t') ≤ length (stale_of t))%nat) ∧
  (let '(oks, t', f') := tcp_batch_write me t f ops link in
   sockets_ok t' L ∧ ∃ link', batch_write f me ops link' = (oks, f') ∧ (∀ j, link' j = link j ∨ link' j = ABreakBefore) ∧
     (length (spoiled link link' 0 (length ops)) + length (stale_of t') ≤ length (stale_of t))%nat) ∧
  (L = [] → ∀ c, (c < cp_next (tt_sockets (tcp_close t)))%nat → c ∈ cp_closed (tt_sockets (tcp_close t))).
Proof.
  split; [|split].
  - intros Hlen. unfold tcp_batch_read.
    destruct (tcp_batch_spec (λ op f a, read_one f me op a) (λ op f a, answered f (ro_endpoint op) (read_request op) a)
      link L ops 0 (tt_sockets t) (tt_dead t) f Hok) as (p & dead & link' & -> & Hk & Hl & Hn).
    { eapply Forall_impl; [exact Hlen|]. intros op Hop. split; [intros f'; apply read_needs_connection|by apply read_success_answered]. }
    split; [done|]. exists link'. rewrite plain_batch_read. unfold batch_read. by destruct (batch_read_from 0 f me ops link').
  - unfold tcp_batch_write.
    destruct (tcp_batch_spec (λ op f a, write_one f me op a) (λ op f a, answered f (ro_endpoint op) (write_request f me op) a)
      link L ops 0 (tt_sockets t) (tt_dead t) f Hok) as (p & dead & link' & -> & Hk & Hl & Hn).
    { apply Forall_forall. intros op _. split; [intros f'; apply write_needs_connection|apply write_success_answered]. }
    split; [done|]. exists link'. rewrite plain_batch_write. unfold batch_write. by destruct (batch_write_from 0 f me ops link').
  - intros -> c Hc. simpl in *. destruct (sk_leak _ _ _ Hok c Hc) as [H|H]; [|set_solver].
    unfold places in H. simpl in H. rewrite app_nil_r in H. apply elem_of_union_l. by apply elem_of_list_to_set.
Qed.

(** The transport a node gets.  It is the RDMA one exactly when the
    protocol asks for it and the engine starts; otherwise the TCP one, with
    the TCP transport's own errors. *)
Lemma create_transport_choice {E : Type} (protocol : string) (ext : pyres (@Extension E)) (devices : list string)
    (tcp : pyres TcpTransport) :
  create_transport protocol ext devices tcp =
    if negb (String.eqb protocol "tcp") && match new_rdma ext devices with Ret _ => true | _ => false end
    then (e ← new_rdma ext devices; Ret (Rdma e)) else (t ← tcp; Ret (Tcp t)).
Proof. unfold create_transport. destruct (String.eqb protocol "tcp"); [done|]. by destruct (new_rdma ext devices). Qed.

Module DataPlaneExamples.
Import TransportExamples.

(** One idle socket to [b:1] whose peer was restarted. *)
Definition t0 : TcpTransport := mk_tcp (mk_cpool 16 {[ "b:1" := [0%nat] ]} 1 ∅) {[ 0%nat ]} ["h:7"] true.

Lemma t0_ok : sockets_ok t0 [].
Proof.
  assert (places (tt_sockets t0) [] = [0%nat]) as Hid by reflexivity.
  split; [split|..].
  - rewrite Hid. apply NoDup_singleton.
  - intros c. rewrite Hid. intros ->%list_elem_of_singleton. split; [apply Nat.lt_0_1|apply not_elem_of_empty].
  - intros c []%not_elem_of_empty.
  - discriminate.
  - intros ep l Hl. cbn [t0 tt_sockets cp_idle] in Hl. apply lookup_singleton_Some in Hl as [<- <-]. discriminate.
  - intros c Hc. left. rewrite Hid. apply list_elem_of_singleton. cbn [t0 tt_sockets cp_next] in Hc. lia.
  - intros c Hc. cbn [t0 tt_dead] in Hc. apply elem_of_singleton in Hc as ->. apply Nat.lt_0_1.
Qed.

(** The first read meets it and fails; the second opens a connection. *)
Lemma stale_sockets_cost_once_witness :
  (tcp_batch_read "A" t0 f0 [op0; op0] (λ _, AReply)).1.1 = [false; true] ∧
  stale_of t0 = [0%nat] ∧ (length (stale_of (tcp_batch_read "A" t0 f0 [op0; op0] (λ _, AReply)).1.2) ≤ 1)%nat.
Proof.
  split; [vm_compute; reflexivity|]. split; [vm_compute; reflexivity|].
  destruct (stale_sockets_cost_once "A" t0 f0 [op0; op0] (λ _, AReply) [] t0_ok) as [H _].
  specialize (H ltac:(repeat constructor; discriminate)).
  destruct (tcp_batch_read "A" t0 f0 [op0; op0] (λ _, AReply)) as [[oks t'] f'].
  destruct H as (_ & link' & _ & _ & H). change (length (stale_of t0)) with 1%nat in H. simpl. lia.
Defined.
End DataPlaneExamples.
