(* ===== verification/Config.v ===== *)
(** The configuration of [config.py].

    [_parse_size] and [_as_bool] read the option values of the extra
    configuration, [__post_init__] fills in and normalises the fields, and
    [_validate] rejects a misconfiguration.  A configuration object is the
    dictionary of its fields (values that the JSON options can carry) together
    with the list of rails; an integral default that the source writes as a
    float ([2.0]) is the integer.  Resolving the local address and drawing a
    node name are parameters.  [float] of a decimal literal is computed exactly:
    the nearest double, ties to even. *)
From S2P Require Import Prelude Bytes Types.

(** ** Python floats *)

(** [str.lower] on ASCII. *)
Definition lower_char (c : Ascii.ascii) : Ascii.ascii :=
  let n := Ascii.N_of_ascii c in
  if bool_decide (65 ≤ n ∧ n ≤ 90)%N then Ascii.ascii_of_N (n + 32) else c.

Fixpoint py_lower (s : string) : string :=
  match s with
  | EmptyString => EmptyString
  | String c s' => String (lower_char c) (py_lower s')
  end.

Definition chr_is (n : N) (c : Ascii.ascii) : bool := bool_decide (Ascii.N_of_ascii c = n).

(** Decimal digits from the front of [s], single underscores between digits
    skipped: the accumulated value, the number of digits and the rest. *)
Fixpoint scan_digits (acc : Z) (n : nat) (s : string) : Z * nat * string :=
  match s with
  | EmptyString => (acc, n, EmptyString)
  | String c s' =>
      match digit_val c with
      | Some d => scan_digits (acc * 10 + d) (S n) s'
      | None =>
          match n, s' with
          | S _, String c' _ =>
              if chr_is 95 c && bool_decide (is_Some (digit_val c')) then scan_digits acc n s'
              else (acc, n, s)
          | _, _ => (acc, n, s)
          end
      end
  end.

(** An unsigned decimal literal as [(m, e)], the number [m * 10 ^ e]. *)
Definition parse_decimal (s : string) : option (Z * Z) :=
  let '(m1, n1, r1) := scan_digits 0 0 s in
  let '(m2, n2, r2) :=
    match r1 with
    | String c r => if chr_is 46 c then scan_digits m1 0 r else (m1, O, r1)
    | EmptyString => (m1, O, r1)
    end in
  if (n1 + n2 =? 0)%nat then None
  else
    match r2 with
    | EmptyString => Some (m2, - Z.of_nat n2)
    | String c r =>
        if chr_is 101 c || chr_is 69 c then
          let '(sgn, r') :=
            match r with
            | String c' r' => if chr_is 45 c' then (-1, r') else if chr_is 43 c' then (1, r') else (1, r)
            | EmptyString => (1, r)
            end in
          match scan_digits 0 0 r' with
          | (e, S _, EmptyString) => Some (m2, sgn * e - Z.of_nat n2)
          | _ => None
          end
        else None
    end.

(** [p / q] rounded to the nearest integer, ties to even. *)
Definition round_half_even (p q : Z) : Z :=
  let d := p / q in
  let r := p mod q in
  if 2 * r <? q then d
  else if 2 * r >? q then d + 1
  else if Z.even d then d else d + 1.

(** The double nearest to [p / q] ([0 <= p], [0 < q]) as [(m, k)], the number
    [m * 2 ^ k]; the exponent range is checked by the user. *)
Definition round_double (p q : Z) : Z * Z :=
  if p =? 0 then (0, 0)
  else
    let lg := Z.log2 p - Z.log2 q in
    let k := if p * 2 ^ Z.max 0 (- lg) <? q * 2 ^ Z.max 0 lg then lg - 53 else lg - 52 in
    let k := Z.max k (-1074) in
    (round_half_even (p * 2 ^ Z.max 0 (- k)) (q * 2 ^ Z.max 0 k), k).

Inductive pyfloat :=
  | FNum (neg : bool) (m k : Z)
  | FInf
  | FNan.

(** The finite double [m * 2 ^ k], or infinity past the largest one. *)
Definition finite_double (neg : bool) (m k : Z) : pyfloat :=
  if m * 2 ^ Z.max 0 k >=? 2 ^ 1024 then FInf else FNum neg m k.

(** [float(s)] *)
Definition py_float (s : string) : option pyfloat :=
  let s := py_lower (py_strip s) in
  let '(neg, s) :=
    match s with
    | String c s' => if chr_is 45 c then (true, s') else if chr_is 43 c then (false, s') else (false, s)
    | EmptyString => (false, s)
    end in
  if bool_decide (s = "inf" ∨ s = "infinity") then Some FInf
  else if bool_decide (s = "nan") then Some FNan
  else
    '(m, e) ← parse_decimal s;
    let '(m, k) := round_double (m * 10 ^ Z.max 0 e) (10 ^ Z.max 0 (- e)) in
    Some (finite_double neg m k).

(** [f * 2 ** j] *)
Definition scale_float (f : pyfloat) (j : Z) : pyfloat :=
  match f with
  | FNum neg m k => if m =? 0 then f else finite_double neg m (k + j)
  | _ => f
  end.

(** [int(f)]: truncation. *)
Definition int_of_float (f : pyfloat) : pyres Z :=
  match f with
  | FNum neg m k =>
      let n := if 0 <=? k then m * 2 ^ k else m / 2 ^ (- k) in
      Ret (if neg then - n else n)
  | FInf => Raise OverflowError
  | FNan => Raise ValueError
  end.

(** ** Option values *)

(** [s.endswith(suffix)], with the text before the suffix. *)
Definition strip_suffix (suffix s : string) : option string :=
  if String.prefix (str_rev suffix) (str_rev s)
  then Some (String.substring 0 (String.length s - String.length suffix) s) else None.

(** The [units] table, as powers of two. *)
Definition units : list (string * Z) := [("kb", 10); ("mb", 20); ("gb", 30); ("tb", 40)].

Fixpoint parse_units (us : list (string * Z)) (s : string) : pyres Z :=
  match us with
  | [] => match parse_int s with Some z => Ret z | None => Raise ValueError end
  | (suffix, j) :: us' =>
      match strip_suffix suffix s with
      | Some body =>
          match py_float (py_strip body) with
          | Some f => int_of_float (scale_float f j)
          | None => Raise ValueError
          end
      | None => parse_units us' s
      end
  end.

Definition _parse_size (value : pyval) : pyres Z :=
  match value with
  | VInt z => Ret z
  | VBool b => Ret (if b then 1 else 0)
  | _ => s ← py_str value; parse_units units (py_lower (py_strip s))
  end.

(** [str(value).strip().lower()]; the text of a container never equals an
    option name. *)
Definition norm (value : pyval) : string :=
  match py_str value with Ret s => py_lower (py_strip s) | Raise _ => ""%string end.

Definition _as_bool (value : pyval) : bool :=
  match value with
  | VBool b => b
  | VInt z => negb (z =? 0)
  | _ => bool_decide (norm value ∈ ["1"; "true"; "yes"; "on"])
  end.

(** ** The configuration object *)

Record PeerCacheConfig := mk_config {
  cfg_fields : list (string * pyval);
  cfg_rails : list string
}.

(** The dataclass fields after [discovery_addr], with their defaults. *)
Definition field_defaults : list (string * pyval) :=
  [ ("mode", VStr "p2p"); ("write_policy", VStr "local"); ("role", VStr "auto");
    ("protocol", VStr "rdma"); ("device_name", VStr ""); ("device_names", VStr "");
    ("ib_port", VInt 1); ("gid_index", VInt 3); ("max_channels_per_peer", VInt 16);
    ("global_segment_size", VInt (4 * 2 ^ 30)); ("vnodes", VInt 160);
    ("directory_replicas", VInt 2); ("directory_read_cache_ttl", VInt 0);
    ("local_hostname", VStr ""); ("rdma_bind_host", VStr "0.0.0.0"); ("rdma_port", VInt 0);
    ("control_bind_host", VStr "0.0.0.0"); ("control_port", VInt 0);
    ("meta_bind_host", VStr "0.0.0.0"); ("disk_enabled", VBool true);
    ("disk_path", VStr "/data/peercache/"); ("disk_size", VInt (100 * 2 ^ 30));
    ("metrics_enabled", VBool true); ("metrics_bind_host", VStr "0.0.0.0");
    ("metrics_port", VInt 31997); ("metrics_dashboard", VBool true); ("node_id", VStr "");
    ("prefix", VStr ""); ("interface_v1", VBool false);
    ("slot_max_page_bytes", VInt 262144); ("slot_ways", VInt 4); ("slot_num_buckets", VInt 0);
    ("heartbeat_interval", VInt 2); ("member_ttl", VInt 6); ("max_masters", VInt 3) ].

Definition attr (c : list (string * pyval)) (name : string) : pyval := default VNone (od_get c name).

Definition field (c : PeerCacheConfig) (name : string) : pyval := attr (cfg_fields c) name.

(** *** Modes and roles *)

Definition is_centralized (c : PeerCacheConfig) : bool := String.eqb (norm (field c "mode")) "centralized".
Definition is_slotmap (c : PeerCacheConfig) : bool := String.eqb (norm (field c "mode")) "slotmap".
Definition is_hybrid (c : PeerCacheConfig) : bool := String.eqb (norm (field c "mode")) "hybrid".

(** [value in (name1, name2, ...)] for string names. *)
Definition one_of (value : pyval) (names : list string) : bool :=
  match value with VStr s => bool_decide (s ∈ names) | _ => false end.

Definition uses_storage_writes (c : PeerCacheConfig) : bool :=
  if is_centralized c then true
  else if is_hybrid c then one_of (field c "write_policy") ["storage"; "both"]
  else false.

Definition effective_role (c : PeerCacheConfig) (for_storage_server : bool) : string :=
  let r := norm (field c "role") in
  if negb (String.eqb r "auto") then r
  else if for_storage_server then "storage" else "inference".

Definition is_inference_client_only (c : PeerCacheConfig) : bool :=
  is_centralized c && String.eqb (effective_role c false) "inference".

Definition writes_local_pool (c : PeerCacheConfig) : bool :=
  if is_inference_client_only c then false
  else if is_hybrid c then one_of (field c "write_policy") ["local"; "both"]
  else true.

(** *** Lists in options *)

(** [[x.strip() for x in s.split(",") if x.strip()]] *)
Definition comma_list (s : string) : list string :=
  filter (λ x, x ≠ ""%string) (py_strip <$> py_split comma s).

(** [device_rails]: never empty. *)
Definition device_rails (c : PeerCacheConfig) : list string :=
  match cfg_rails c with
  | [] => [match field c "device_name" with VStr s => s | _ => ""%string end]
  | rs => rs
  end.

Definition discovery_seeds (c : PeerCacheConfig) : pyres (list string) :=
  s ← py_str (field c "discovery_addr"); Ret (comma_list s).

(** [s.rsplit(":", 1)[1]] *)
Definition port_of (seed : string) : option string := snd <$> rsplit1 colon seed.

Definition meta_port (c : PeerCacheConfig) : pyres Z :=
  seeds ← discovery_seeds c;
  match seeds with
  | [] => Raise IndexError
  | s :: _ =>
      match port_of s with
      | Some p => match parse_int p with Some z => Ret z | None => Raise ValueError end
      | None => Raise IndexError
      end
  end.

(** *** Validation *)

Definition check (b : bool) : pyres unit := if b then Ret tt else Raise ValueError.

Definition set_field (c : PeerCacheConfig) (name : string) (v : pyval) : PeerCacheConfig :=
  mk_config (od_set (cfg_fields c) name v) (cfg_rails c).

(** All elements equal: [len(set(l)) <= 1]. *)
Definition all_same (l : list string) : bool :=
  match l with [] => true | x :: l' => forallb (String.eqb x) l' end.

Definition _validate (c : PeerCacheConfig) : pyres PeerCacheConfig :=
  let mode := norm (field c "mode") in
  _ ← check (bool_decide (mode ∈ ["p2p"; "hybrid"; "centralized"; "slotmap"]));
  let c := set_field c "mode" (VStr mode) in
  let role := norm (field c "role") in
  _ ← check (bool_decide (role ∈ ["auto"; "inference"; "storage"]));
  let c := set_field c "role" (VStr role) in
  let wp := norm (field c "write_policy") in
  _ ← check (bool_decide (wp ∈ ["local"; "storage"; "both"]));
  let c := set_field c "write_policy" (VStr wp) in
  _ ← check (one_of (field c "protocol") ["rdma"; "tcp"]);
  seeds ← discovery_seeds c;
  _ ← check (negb (bool_decide (seeds = [])) && forallb (λ s, bool_decide (is_Some (port_of s))) seeds);
  _ ← check (all_same (omap port_of seeds));
  mm ← py_int (field c "max_masters"); _ ← check (1 <=? mm);
  ib ← py_int (field c "ib_port"); _ ← check ((1 <=? ib) && (ib <=? 255));
  gid ← py_int (field c "gid_index"); _ ← check (-1 <=? gid);
  seg ← py_int (field c "global_segment_size"); _ ← check (0 <? seg);
  ch ← py_int (field c "max_channels_per_peer"); _ ← check (1 <=? ch);
  let named := filter (λ d, d ≠ ""%string) (cfg_rails c) in
  _ ← check (bool_decide (NoDup named));
  Ret c.

(** *** Construction *)

Section construct.
(** The address of this host that reaches the given one, and the eight hex
    digits drawn for a node name. *)
Context (local_ip : string → pyres string) (uuid8 : string).

Definition _resolve_local_ip (peer_addr : string) : pyres string :=
  local_ip (if String.eqb peer_addr "" then "8.8.8.8"%string else default ""%string (head (py_split colon peer_addr))).

(** The normalised rail list. *)
Definition rails_of (c : list (string * pyval)) : pyres (list string) :=
  if py_truthy (attr c "device_names") then s ← py_str (attr c "device_names"); Ret (comma_list s)
  else if py_truthy (attr c "device_name") then s ← as_str (attr c "device_name"); Ret [s]
  else Ret [""%string].

Definition set_size (c : list (string * pyval)) (name : string) : pyres (list (string * pyval)) :=
  z ← _parse_size (attr c name); Ret (od_set c name (VInt z)).

Definition set_bool (c : list (string * pyval)) (name : string) : list (string * pyval) :=
  od_set c name (VBool (_as_bool (attr c name))).

(** [__post_init__] up to its last line: the values filled in and parsed. *)
Definition filled_in (c : list (string * pyval)) : pyres PeerCacheConfig :=
  c ← (if py_truthy (attr c "local_hostname") then Ret c
       else addr ← as_str (attr c "discovery_addr"); h ← _resolve_local_ip addr;
            Ret (od_set c "local_hostname" (VStr h)));
  c ← (if py_truthy (attr c "node_id") then Ret c
       else h ← py_str (attr c "local_hostname"); Ret (od_set c "node_id" (VStr (h +:+ "-" +:+ uuid8))));
  c ← set_size c "global_segment_size";
  c ← set_size c "slot_max_page_bytes";
  rails ← rails_of c;
  c ← set_size c "disk_size";
  let c := set_bool (set_bool (set_bool c "disk_enabled") "metrics_enabled") "metrics_dashboard" in
  Ret (mk_config c rails).

Definition __post_init__ (c : list (string * pyval)) : pyres PeerCacheConfig :=
  c ← filled_in c; _validate c.

(** The fields of the dataclass: given, or the default. *)
Definition given_fields (addr : pyval) (kwargs : list (string * pyval)) : list (string * pyval) :=
  ("discovery_addr", addr) :: ((λ f, (f.1, default f.2 (od_get kwargs f.1))) <$> field_defaults).

(** The generated [__init__] of the dataclass. *)
Definition new_config (kwargs : list (string * pyval)) : pyres PeerCacheConfig :=
  match od_get kwargs "discovery_addr" with
  | None => Raise TypeError
  | Some addr =>
      __post_init__ (given_fields addr kwargs)
  end.

Definition known : list string := "discovery_addr" :: field_defaults.*1.

Definition from_extra_config (extra : list (string * pyval)) : pyres PeerCacheConfig :=
  if negb (od_mem extra "discovery_addr") then Raise ValueError
  else
    let kwargs := filter (λ e, e.1 ∈ known) extra in
    let kwargs :=
      match od_get kwargs "interface_v1" with
      | Some v => od_set kwargs "interface_v1" (VBool (py_truthy v))
      | None => kwargs
      end in
    new_config kwargs.
End construct.

(** ** Sizes *)

(** Every character of [s] satisfies [P]. *)
Fixpoint str_all (P : Ascii.ascii → Prop) (s : string) : Prop :=
  match s with EmptyString => True | String c s' => P c ∧ str_all P s' end.

Lemma str_all_app P a b : str_all P (a +:+ b) ↔ str_all P a ∧ str_all P b.
Proof. induction a as [|c a IH]; simpl; [tauto|]. rewrite IH. tauto. Qed.

Lemma str_all_mono (P Q : Ascii.ascii → Prop) s : (∀ c, P c → Q c) → str_all P s → str_all Q s.
Proof. intros HPQ. induction s; simpl; naive_solver. Qed.

Lemma str_all_rev P s : str_all P s → str_all P (str_rev s).
Proof.
  induction s as [|c s IH]; [done|]. intros [Hc Hs].
  change (String c s) with (String c "" +:+ s). rewrite str_rev_concat. apply str_all_app.
  split; [by apply IH|]. done.
Qed.

Lemma str_rev_involutive s : str_rev (str_rev s) = s.
Proof.
  induction s as [|c s IH]; [done|]. change (String c s) with (String c "" +:+ s).
  by rewrite str_rev_concat, str_rev_concat, IH.
Qed.

Lemma lstrip_id s : str_all (λ c, is_space c = false) s → lstrip s = s.
Proof. destruct s as [|c s]; simpl; [done|]. by intros [-> _]. Qed.

Lemma py_strip_id s : str_all (λ c, is_space c = false) s → py_strip s = s.
Proof.
  intros Hs. unfold py_strip. rewrite (lstrip_id s) by done.
  rewrite lstrip_id by by apply str_all_rev. apply str_rev_involutive.
Qed.

Lemma py_lower_id s : str_all (λ c, lower_char c = c) s → py_lower s = s.
Proof. induction s as [|c s IH]; simpl; [done|]. intros [-> Hs]. by rewrite IH. Qed.

(** A character of a number or of a unit. *)
Definition plain (c : Ascii.ascii) : Prop := is_space c = false ∧ lower_char c = c.

Lemma str_plain_id s : str_all plain s → py_lower (py_strip s) = s ∧ py_strip s = s.
Proof.
  intros Hs. rewrite py_strip_id by by eapply str_all_mono; [|done]; unfold plain; naive_solver.
  rewrite py_lower_id by by eapply str_all_mono; [|done]; unfold plain; naive_solver. done.
Qed.

Lemma pretty_N_char_plain n : (n < 10)%N → plain (pretty_N_char n).
Proof.
  intros Hn. assert (n ∈ [0;1;2;3;4;5;6;7;8;9]%N) as Hin.
  { rewrite !elem_of_cons. lia. }
  repeat (apply elem_of_cons in Hin as [->|Hin]; [by split|]). by apply elem_of_nil in Hin.
Qed.

Lemma pretty_N_char_digit n : (n < 10)%N → digit_val (pretty_N_char n) = Some (Z.of_N n).
Proof.
  intros Hn. assert (n ∈ [0;1;2;3;4;5;6;7;8;9]%N) as Hin.
  { rewrite !elem_of_cons. lia. }
  repeat (apply elem_of_cons in Hin as [->|Hin]; [reflexivity|]). by apply elem_of_nil in Hin.
Qed.

Lemma pretty_N_go_digits n s :
  (str_all plain s → str_all plain (pretty_N_go n s)) ∧
  ∃ k, (0 < n → 0 < k)%N ∧
    scan_digits 0 0 (pretty_N_go n s) = scan_digits (Z.of_N n) (N.to_nat k) s.
Proof.
  revert s. induction (N.lt_wf_0 n) as [n _ IH]. intros s.
  destruct (decide (n = 0%N)) as [->|Hn].
  { rewrite pretty_N_go_0. split; [done|]. exists 0%N. done. }
  pose proof (N.mod_lt n 10 ltac:(lia)) as Hm. pose proof (N.div_mod n 10 ltac:(lia)) as Hd.
  rewrite pretty_N_go_step by lia.
  destruct (IH (n / 10)%N ltac:(apply N.div_lt; lia) (String (pretty_N_char (n mod 10)) s)) as [IH1 (k & _ & IH2)].
  split; [intros Hs; apply IH1; split; [by apply pretty_N_char_plain|done]|].
  exists (N.succ k). split; [lia|]. rewrite IH2. simpl. rewrite pretty_N_char_digit by done.
  f_equal; lia.
Qed.

Lemma pretty_Z_digits z s :
  0 ≤ z →
  (str_all plain s → str_all plain (pretty z +:+ s)) ∧
  ∃ k, scan_digits 0 0 (pretty z +:+ s) = scan_digits z (S k) s.
Proof.
  intros Hz. destruct z as [|p|p]; [|..|lia].
  { split; [by split|]. exists O. done. }
  change (pretty (Z.pos p)) with (pretty_N_go (N.pos p) "").
  assert (∀ n t s, pretty_N_go n t +:+ s = pretty_N_go n (t +:+ s)) as Happ.
  { intros n. induction (N.lt_wf_0 n) as [n _ IH]. intros t u.
    destruct (decide (n = 0%N)) as [->|Hn]; [by rewrite !pretty_N_go_0|].
    rewrite !(pretty_N_go_step n) by lia. apply IH. apply N.div_lt; lia. }
  rewrite Happ. change ("" +:+ s) with s. destruct (pretty_N_go_digits (N.pos p) s) as [H1 (k & Hk & H2)].
  split; [done|]. exists (pred (N.to_nat k)). rewrite H2. f_equal; lia.
Qed.

Lemma substring_app_l a b n : n = String.length a → String.substring 0 n (a +:+ b) = a.
Proof.
  intros ->. induction a as [|c a IH]; simpl; [by destruct b|]. by f_equal.
Qed.

Lemma string_length_app a b : String.length (a +:+ b) = (String.length a + String.length b)%nat.
Proof. induction a; simpl; auto. Qed.

Lemma strip_suffix_app a suffix : strip_suffix suffix (a +:+ suffix) = Some a.
Proof.
  unfold strip_suffix. rewrite str_rev_concat, prefix_concat. f_equal.
  apply substring_app_l. rewrite string_length_app. lia.
Qed.

(** An integer below [2 ^ 53] is a double, and scaling it is exact. *)
Lemma int_of_scaled_nat n j :
  0 ≤ n < 2 ^ 53 → 0 ≤ j ≤ 40 →
  let '(m, k) := round_double n 1 in
  int_of_float (scale_float (finite_double false m k) j) = Ret (n * 2 ^ j).
Proof.
  intros Hn Hj. unfold round_double. case_bool_decide || destruct (n =? 0) eqn:E0.
  { apply Z.eqb_eq in E0 as ->. reflexivity. }
  apply Z.eqb_neq in E0. change (Z.log2 1) with 0. rewrite Z.sub_0_r.
  assert (0 ≤ Z.log2 n ≤ 52) as Hlg.
  { split; [apply Z.log2_nonneg|]. assert (Z.log2 n < 53); [|lia]. apply Z.log2_lt_pow2; lia. }
  pose proof (Z.log2_spec n ltac:(lia)) as [Hl1 Hl2].
  rewrite (Z.max_l 0 (- Z.log2 n)), (Z.max_r 0 (Z.log2 n)), Z.mul_1_r, Z.mul_1_l by lia.
  rewrite (proj2 (Z.ltb_ge _ _)) by lia.
  rewrite (Z.max_l (Z.log2 n - 52)) by lia.
  rewrite (Z.max_r 0 (- (Z.log2 n - 52))), (Z.max_l 0 (Z.log2 n - 52)) by lia.
  set (lg := Z.log2 n) in *. change (2 ^ 0) with 1. rewrite Z.mul_1_r.
  assert (round_half_even (n * 2 ^ (- (lg - 52))) 1 = n * 2 ^ (52 - lg)) as ->.
  { unfold round_half_even. rewrite Z.mod_1_r, Z.div_1_r. simpl. f_equal. f_equal. lia. }
  assert (0 < 2 ^ (52 - lg)) as Hp by (apply Z.pow_pos_nonneg; lia).
  assert (n * 2 ^ (52 - lg) < 2 ^ 53) as Hb.
  { replace (2 ^ 53) with (2 ^ Z.succ lg * 2 ^ (52 - lg)) by (rewrite <-Z.pow_add_r by lia; f_equal; lia). nia. }
  assert (2 ^ 53 * 2 ^ 40 < 2 ^ 1024) as Hbig by (vm_compute; reflexivity).
  assert (∀ k, k ≤ 40 → (n * 2 ^ (52 - lg) * 2 ^ Z.max 0 k >=? 2 ^ 1024) = false) as Hfin.
  { intros k Hk. rewrite Z.geb_leb, Z.leb_gt.
    assert (0 < 2 ^ Z.max 0 k ≤ 2 ^ 40) by (split; [apply Z.pow_pos_nonneg; lia|apply Z.pow_le_mono_r; lia]). nia. }
  unfold finite_double. rewrite (Hfin (lg - 52)) by lia. simpl.
  rewrite (proj2 (Z.eqb_neq (n * 2 ^ (52 - lg)) 0)) by nia.
  unfold finite_double. rewrite Hfin by lia. simpl. f_equal.
  destruct (0 <=? lg - 52 + j) eqn:Ek; bool_cases.
  - rewrite <-Z.mul_assoc, <-Z.pow_add_r by lia. f_equal. f_equal. lia.
  - replace (2 ^ (52 - lg)) with (2 ^ j * 2 ^ (- (lg - 52 + j))) by (rewrite <-Z.pow_add_r by lia; f_equal; lia).
    rewrite Z.mul_assoc. apply Z.div_mul. apply Z.pow_nonzero; lia.
Qed.

Lemma digit_no_sign s z k : scan_digits 0 0 s = (z, S k, EmptyString) → ∃ c s', s = String c s' ∧ is_Some (digit_val c).
Proof.
  destruct s as [|c s]; simpl; [done|]. destruct (digit_val c) eqn:E; [eauto|by destruct s].
Qed.

Lemma py_float_nat n : 0 ≤ n →
  py_float (pretty n) = Some (let '(m, k) := round_double n 1 in finite_double false m k).
Proof.
  intros Hn. destruct (pretty_Z_digits n "" Hn) as [Hpl (k & Hs)]. rewrite str_app_empty_r in *.
  unfold py_float. rewrite (proj1 (str_plain_id _ (Hpl I))).
  destruct (digit_no_sign _ _ _ Hs) as (c & s' & He & [d Hd]).
  assert (∀ x, digit_val (Ascii.ascii_of_N x) = None → (x < 256)%N → chr_is x c = false) as Hc.
  { intros x Hx Hlt. unfold chr_is. apply bool_decide_eq_false. intros <-.
    rewrite Ascii.ascii_N_embedding in Hx. congruence. }
  rewrite He at 1. rewrite !Hc by done. rewrite <-?He.
  rewrite !bool_decide_eq_false_2; [|rewrite He; intros [= -> _]; done
    |rewrite He; intros [[= -> _]|[= -> _]]; done].
  unfold parse_decimal. rewrite Hs. simpl. rewrite Z.mul_1_r.
  change (10 ^ (0 `max` (- - Z.of_nat 0))) with 1. by destruct (round_double n 1).
Qed.

(** Sizes.  A non-negative integer below [2 ^ 53] followed by a unit is
    that many units, exactly, although the code goes through a float; an
    integer without a unit is itself. *)
Theorem parse_size_exact (n : Z) (suffix : string) (j : Z)
  (Hn : 0 ≤ n < 2 ^ 53) (Hu : (suffix, j) ∈ units) :
  _parse_size (VStr (pretty n +:+ suffix)) = Ret (n * 2 ^ j) ∧
  _parse_size (VInt n) = Ret n.
Proof.
  split; [|done].
  change (parse_units units (py_lower (py_strip (pretty n +:+ suffix))) = Ret (n * 2 ^ j)).
  assert (str_all plain suffix ∧ 0 ≤ j ≤ 40) as [Hs Hj].
  { unfold units in Hu. set_unfold in Hu. destruct_or! Hu; simplify_eq; (split; [repeat split|lia]). }
  assert (str_all plain (pretty n)) as Hpl.
  { rewrite <-(str_app_empty_r (pretty n)). apply pretty_Z_digits; [lia|done]. }
  assert (str_all plain (pretty n +:+ suffix)) as Hall by (apply str_all_app; done).
  rewrite (proj1 (str_plain_id _ Hall)).
  assert (parse_units units (pretty n +:+ suffix) =
    match py_float (py_strip (pretty n)) with
    | Some f => int_of_float (scale_float f j) | None => Raise ValueError end) as ->.
  { unfold units in *. cbn [parse_units].
    set_unfold in Hu. destruct_or! Hu; simplify_eq; rewrite strip_suffix_app;
      unfold strip_suffix; rewrite ?str_rev_concat; reflexivity. }
  rewrite (proj2 (str_plain_id _ Hpl)). rewrite py_float_nat by lia.
  pose proof (int_of_scaled_nat n j Hn Hj) as H. by destruct (round_double n 1).
Qed.

(** ** Validation *)

Lemma bind_Ret {A B} (r : pyres A) (k : A → pyres B) v : (x ← r; k x) = Ret v ↔ ∃ a, r = Ret a ∧ k a = Ret v.
Proof. destruct r as [a|e]; simpl; naive_solver. Qed.

Lemma check_Ret b x : check b = Ret x ↔ b = true.
Proof. destruct b, x; simpl; naive_solver. Qed.

Lemma field_set_field c k v k' : field (set_field c k v) k' = if decide (k = k') then v else field c k'.
Proof. unfold field, attr, set_field. simpl. rewrite od_get_set. by case_decide. Qed.

Lemma one_of_true v names : one_of v names = true ↔ ∃ s, v = VStr s ∧ s ∈ names.
Proof. destruct v; simpl; rewrite ?bool_decide_eq_true; naive_solver. Qed.

Lemma all_same_ports seeds :
  forallb (λ s, bool_decide (is_Some (port_of s))) seeds = true →
  all_same (omap port_of seeds) = true ↔ ∃ port, ∀ s, s ∈ seeds → port_of s = Some port.
Proof.
  intros Hall. rewrite forallb_forall in Hall.
  assert (∀ s, s ∈ seeds → ∃ p, port_of s = Some p) as Hp.
  { intros s Hs%list_elem_of_In. specialize (Hall s Hs). by apply bool_decide_eq_true in Hall as [p ?]; eauto. }
  clear Hall. destruct seeds as [|s seeds]; simpl; [split; [by exists ""%string; intros ? ?%elem_of_nil|done]|].
  destruct (Hp s) as [p Hs]; [set_solver|]. rewrite Hs. simpl. rewrite forallb_forall. split.
  - intros H. exists p. intros s' [->|Hin]%elem_of_cons; [done|]. destruct (Hp s') as [p' Hs']; [set_solver|].
    rewrite Hs'. f_equal. symmetry. apply String.eqb_eq, H. apply list_elem_of_In, list_elem_of_omap. eauto.
  - intros [port H] x Hx%list_elem_of_In. apply list_elem_of_omap in Hx as (s' & Hin & Hs').
    rewrite (H s) in Hs by set_solver. rewrite (H s') in Hs' by set_solver. apply String.eqb_eq. congruence.
Qed.

(** A field whose integer value lies in the given range. *)
Definition int_field (c : PeerCacheConfig) (name : string) (P : Z → Prop) : Prop :=
  ∃ z, py_int (field c name) = Ret z ∧ P z.

(** What [_validate] asks of a configuration. *)
Record config_ok (c : PeerCacheConfig) : Prop := {
  ok_mode : norm (field c "mode") ∈ ["p2p"; "hybrid"; "centralized"; "slotmap"];
  ok_role : norm (field c "role") ∈ ["auto"; "inference"; "storage"];
  ok_policy : norm (field c "write_policy") ∈ ["local"; "storage"; "both"];
  ok_protocol : ∃ s, field c "protocol" = VStr s ∧ s ∈ ["rdma"; "tcp"];
  ok_seeds : ∃ seeds port, discovery_seeds c = Ret seeds ∧ seeds ≠ [] ∧
    ∀ s, s ∈ seeds → port_of s = Some port;
  ok_masters : int_field c "max_masters" (λ z, 1 ≤ z);
  ok_ib : int_field c "ib_port" (λ z, 1 ≤ z ≤ 255);
  ok_gid : int_field c "gid_index" (λ z, -1 ≤ z);
  ok_segment : int_field c "global_segment_size" (λ z, 0 < z);
  ok_channels : int_field c "max_channels_per_peer" (λ z, 1 ≤ z);
  ok_rails : NoDup (filter (λ d, d ≠ ""%string) (cfg_rails c))
}.

Lemma field_other c k1 v1 k2 v2 k3 v3 k :
  k ≠ k1 → k ≠ k2 → k ≠ k3 →
  field (set_field (set_field (set_field c k1 v1) k2 v2) k3 v3) k = field c k.
Proof. intros. rewrite !field_set_field. by repeat case_decide; try congruence. Qed.

(** The configuration with its three names normalised. *)
Definition normalised (c : PeerCacheConfig) : PeerCacheConfig :=
  set_field (set_field (set_field c "mode" (VStr (norm (field c "mode"))))
    "role" (VStr (norm (field c "role")))) "write_policy" (VStr (norm (field c "write_policy"))).

Lemma check_seeds seeds :
  negb (bool_decide (seeds = [])) && forallb (λ s, bool_decide (is_Some (port_of s))) seeds = true ∧
    all_same (omap port_of seeds) = true ↔
  ∃ port, seeds ≠ [] ∧ ∀ s, s ∈ seeds → port_of s = Some port.
Proof.
  rewrite andb_true_iff, negb_true_iff, bool_decide_eq_false. split.
  - intros [[H1 H2] [port H3]%all_same_ports]; eauto.
  - intros (port & H1 & H2).
    assert (forallb (λ s, bool_decide (is_Some (port_of s))) seeds = true) as Hb.
    { apply forallb_forall. intros s Hs%list_elem_of_In. apply bool_decide_eq_true. rewrite H2 by done. eauto. }
    split; [done|]. apply all_same_ports; eauto.
Qed.

Lemma validate_spec c c' : _validate c = Ret c' ↔ config_ok c ∧ c' = normalised c.
Proof.
  unfold _validate. cbv zeta.
  rewrite (field_set_field _ "mode" _ "role"), decide_False by done.
  rewrite !(field_set_field _ _ _ "write_policy"), !decide_False by done.
  fold (normalised c).
  assert (∀ k, k ≠ "mode"%string → k ≠ "role"%string → k ≠ "write_policy"%string →
    field (normalised c) k = field c k) as Hf by (intros; by apply field_other).
  assert (discovery_seeds (normalised c) = discovery_seeds c) as Hds
    by (unfold discovery_seeds; by rewrite Hf by done).
  rewrite !Hf, Hds by done. change (cfg_rails (normalised c)) with (cfg_rails c).
  split.
  - intros H. repeat (apply bind_Ret in H as (? & ?%check_Ret & H) || apply bind_Ret in H as (? & ? & H)).
    injection H as <-. bool_cases. split; [|done].
    destruct (proj1 (check_seeds x3)) as (port & ? & ?);
      [split; [apply andb_true_iff; split; [by apply negb_true_iff, bool_decide_eq_false|done]|done]|].
    split; [done|done|done|by apply one_of_true|by eauto|by eexists..|done].
  - intros [[] ->]. destruct ok_seeds0 as (seeds & port & Hs & Hne & Hp).
    destruct (proj2 (check_seeds seeds)) as [Hc1 Hc2]; [eauto|].
    destruct ok_masters0 as (mm & Hmm & ?), ok_ib0 as (ib & Hib & ?), ok_gid0 as (gid & Hgid & ?),
      ok_segment0 as (seg & Hseg & ?), ok_channels0 as (ch & Hch & ?).
    rewrite !bool_decide_eq_true_2 by done. rewrite (proj2 (one_of_true _ _)) by done.
    rewrite Hs, Hmm, Hib, Hgid, Hseg, Hch. simpl. rewrite Hc1. simpl. rewrite Hc2. simpl.
    rewrite (proj2 (Z.leb_le 1 mm)), (proj2 (Z.leb_le 1 ib)), (proj2 (Z.leb_le ib 255)), (proj2 (Z.leb_le (-1) gid)),
      (proj2 (Z.ltb_lt 0 seg)), (proj2 (Z.leb_le 1 ch)) by lia. done.
Qed.

Lemma norm_names v names : norm v ∈ names → Forall (λ s, norm (VStr s) = s) names → norm (VStr (norm v)) = norm v.
Proof. intros Hin Hall. rewrite Forall_forall in Hall. by apply Hall. Qed.

Lemma normalised_field c k :
  config_ok c → k ∈ ["mode"; "role"; "write_policy"] → field (normalised c) k = VStr (norm (field c k)).
Proof.
  intros _ Hk. unfold normalised. rewrite !field_set_field.
  set_unfold in Hk. destruct_or! Hk; subst k; repeat (rewrite decide_False by done); by rewrite decide_True by done.
Qed.

Lemma normalised_ok c : config_ok c → config_ok (normalised c).
Proof.
  intros Hc. pose proof (normalised_field c) as Hn.
  assert (∀ k, k ≠ "mode"%string → k ≠ "role"%string → k ≠ "write_policy"%string →
    field (normalised c) k = field c k) as Hf by (intros; by apply field_other).
  assert (discovery_seeds (normalised c) = discovery_seeds c) as Hds
    by (unfold discovery_seeds; by rewrite Hf by done).
  destruct Hc as [H1 H2 H3 H4 H5 H6 H7 H8 H9 H10 H11] eqn:E.
  split; unfold int_field; rewrite ?Hds, ?(Hf "protocol"), ?(Hf "max_masters"), ?(Hf "ib_port"), ?(Hf "gid_index"),
    ?(Hf "global_segment_size"), ?(Hf "max_channels_per_peer") by done; try done.
  all: rewrite Hn by set_solver; erewrite norm_names; [done|done|repeat constructor].
Qed.

(** Membership in one of the three tables of names. *)
Ltac name_cases H := set_unfold in H; destruct_or! H; rewrite H in *.

Lemma valid_writes c :
  config_ok c →
  (writes_local_pool (normalised c) || uses_storage_writes (normalised c) = true) ∧
  (uses_storage_writes (normalised c) = true → is_slotmap (normalised c) = false).
Proof.
  intros Hc. unfold writes_local_pool, uses_storage_writes, is_inference_client_only, is_slotmap, is_hybrid,
    is_centralized, effective_role.
  rewrite !normalised_field by (done || set_solver).
  destruct Hc as [H1 H2 H3 _ _ _ _ _ _ _ _].
  name_cases H1; name_cases H2; name_cases H3; split; vm_compute; (reflexivity || discriminate || done).
Qed.

(** C38: when a configuration constructs, and what it looks like then.  It
    constructs exactly when a discovery address is given, the remaining values
    can be filled in and parsed (host address, node name, sizes, rails), and
    the result has a known mode, role, write policy and protocol, at least one
    seed, all with the same text after the last colon, numeric options in their
    ranges and distinct rail devices; validation then changes nothing but the
    three names, which it normalises.  So the mode a client tests is one of the
    four names, and it publishes somewhere: into its own pool, to the storage
    servers, or both.  That the port is a number is not checked
    ([port_not_validated]). *)
Theorem config_accepts_exactly (local_ip : string → pyres string) (uuid8 : string)
  (kwargs : list (string * pyval)) :
  (∀ c c', _validate c = Ret c' ↔ config_ok c ∧ c' = normalised c) ∧
  (∀ c, new_config local_ip uuid8 kwargs = Ret c ↔
     ∃ addr c0, od_get kwargs "discovery_addr" = Some addr ∧
       filled_in local_ip uuid8 (given_fields addr kwargs) = Ret c0 ∧ config_ok c0 ∧ c = normalised c0) ∧
  (∀ c, new_config local_ip uuid8 kwargs = Ret c →
     (∃ mode, field c "mode" = VStr mode ∧ mode ∈ ["p2p"; "hybrid"; "centralized"; "slotmap"]) ∧
     config_ok c ∧ device_rails c ≠ [] ∧
     writes_local_pool c || uses_storage_writes c = true ∧
     (uses_storage_writes c = true → is_slotmap c = false)).
Proof.
  assert (∀ c, new_config local_ip uuid8 kwargs = Ret c ↔
     ∃ addr c0, od_get kwargs "discovery_addr" = Some addr ∧
       filled_in local_ip uuid8 (given_fields addr kwargs) = Ret c0 ∧ config_ok c0 ∧ c = normalised c0) as Hnew.
  { intros c. unfold new_config, __post_init__. destruct (od_get kwargs "discovery_addr") as [addr|]; [|naive_solver].
    split.
    - intros (c0 & Hf & [Hok ->]%validate_spec)%bind_Ret. eauto 10.
    - intros (? & c0 & [= <-] & Hf & Hok & ->). apply bind_Ret. exists c0. split; [done|]. by apply validate_spec. }
  split; [intros; apply validate_spec|]. split; [done|]. intros c (addr & c0 & _ & _ & Hok & ->)%Hnew.
  split; [|split; [by apply normalised_ok|split; [|by apply valid_writes]]].
  - exists (norm (field c0 "mode")). split; [apply normalised_field; [done|set_solver]|by destruct Hok].
  - unfold device_rails. by destruct (cfg_rails _).
Qed.

(** Validation does not look at the port.  A seed whose port is not a
    number is accepted, and the node fails later, when [NodeRuntime] asks for
    the meta port. *)
Theorem port_not_validated :
  ∃ c, new_config (λ h, Ret h) "01234567" [("discovery_addr", VStr "meta:http")] = Ret c ∧
    meta_port c = Raise ValueError.
Proof. eexists. split; [vm_compute; reflexivity|]. vm_compute. reflexivity. Qed.

(** The flag [interface_v1] is true for every non-empty string, ["0"] and
    ["false"] included, unlike the other flags. *)
Theorem interface_v1_string_flag :
  ∃ c, from_extra_config (λ h, Ret h) "01234567"
         [("discovery_addr", VStr "meta:31998"); ("interface_v1", VStr "0"); ("disk_enabled", VStr "0")] = Ret c ∧
    field c "interface_v1" = VBool true ∧ field c "disk_enabled" = VBool false.
Proof. eexists. split; [vm_compute; reflexivity|]. split; vm_compute; reflexivity. Qed.

Module ConfigExamples.
Lemma parse_size_exact_witness : _parse_size (VStr (pretty 64 +:+ "gb")) = Ret (64 * 2 ^ 30).
Proof. apply (parse_size_exact 64 "gb" 30); [lia|set_solver]. Defined.

Example float_size : _parse_size (VStr " 1.5 GB") = Ret 1610612736.
Proof. vm_compute. reflexivity. Qed.

Example tenth_size : _parse_size (VStr "0.1kb") = Ret 102.
Proof. vm_compute. reflexivity. Qed.

Example rejected_rails :
  new_config (λ h, Ret h) "01234567" [("discovery_addr", VStr "m:1"); ("device_names", VStr "mlx5_0, mlx5_0")]
  = Raise ValueError.
Proof. vm_compute. reflexivity. Qed.
End ConfigExamples.
