(* ===== verification/Metrics.v ===== *)
(** The counters and latency reservoirs of [metrics.py].

    [Metrics] is a dictionary of counters and a bounded window of the latest
    latencies per operation (in clock ticks).  [snapshot] reads them out: the
    hit rate and the quantiles are computed with doubles as the code does.
    The Prometheus exposition and the HTTP routes are in Exposition. *)
From S2P Require Import Prelude Types Config.

Definition _COUNTERS : list string :=
  [ "read_requests"; "read_hits"; "read_misses"; "read_local_hits"; "read_remote_hits"; "read_disk_hits";
    "write_requests"; "bytes_read"; "bytes_written"; "evictions"; "disk_writes"; "disk_bytes_written";
    "disk_evictions"; "promotes"; "read_failures"; "directory_republishes"; "directory_lookups_saved";
    "exists_requests"; "exists_pages_found" ].

Record Metrics := mk_metrics {
  m_counters : gmap string Z;
  m_gauges : list (string * option Z);
  m_lat : gmap string (list Z);
  m_reservoir : nat
}.

Definition new_metrics (reservoir : nat) : Metrics :=
  mk_metrics (list_to_map ((λ n, (n, 0)) <$> _COUNTERS)) [] {[ "read" := []; "write" := [] ]} reservoir.

Definition counter (m : Metrics) (name : string) : Z := default 0 (m_counters m !! name).

Definition with_counters (m : Metrics) (c : gmap string Z) : Metrics :=
  mk_metrics c (m_gauges m) (m_lat m) (m_reservoir m).

(** [self._counters[name] = self._counters.get(name, 0) + n] *)
Definition inc (m : Metrics) (name : string) (n : Z) : Metrics :=
  with_counters m (<[name := counter m name + n]> (m_counters m)).

(** [deque(maxlen=n).append]: the oldest element leaves a full window. *)
Definition window_push (n : nat) (l : list Z) (x : Z) : list Z :=
  let l := l ++ [x] in drop (length l - n) l.

(** [observe]; [_lat] of a new operation gets the default window. *)
Definition observe (m : Metrics) (op : string) (seconds : Z) : Metrics :=
  let n := if bool_decide (op ∈ ["read"; "write"]) then m_reservoir m else Z.to_nat 8192 in
  mk_metrics (m_counters m) (m_gauges m)
    (<[op := window_push n (default [] (m_lat m !! op)) seconds]> (m_lat m)) (m_reservoir m).

(** A provider is the value its function returns, or [None] when it raises. *)
Definition set_gauge_provider (m : Metrics) (name : string) (fn : option Z) : Metrics :=
  mk_metrics (m_counters m) (od_set (m_gauges m) name fn) (m_lat m) (m_reservoir m).

Definition record_read (m : Metrics) (hit : bool) (nbytes seconds : Z) (source : option string) : Metrics :=
  let m := inc m "read_requests" 1 in
  let m :=
    if hit then
      let m := inc (inc m "read_hits" 1) "bytes_read" nbytes in
      match source with
      | Some s => if bool_decide (s ∈ ["local"; "remote"; "disk"])
                  then inc m ("read_" +:+ s +:+ "_hits") 1 else m
      | None => m
      end
    else inc m "read_misses" 1 in
  observe m "read" seconds.

Definition record_write (m : Metrics) (nbytes seconds : Z) : Metrics :=
  observe (inc (inc m "write_requests" 1) "bytes_written" nbytes) "write" seconds.

(** ** Read-out *)

(** The doubles [0.5], [0.9] and [0.99]. *)
Definition _QUANTILES : list (Z * Z) :=
  Eval vm_compute in [round_double 1 2; round_double 9 10; round_double 99 100].

(** [int(round(q * n))] for the double [q = qm * 2 ^ qk]. *)
Definition quantile_round (q : Z * Z) (n : Z) : Z :=
  let '(m, k) := round_double (q.1 * n * 2 ^ Z.max 0 q.2) (2 ^ Z.max 0 (- q.2)) in
  round_half_even (m * 2 ^ Z.max 0 k) (2 ^ Z.max 0 (- k)).

Definition _quantile (sorted_vals : list Z) (q : Z * Z) : Z :=
  match sorted_vals with
  | [] => 0
  | _ => let n := zlength sorted_vals - 1 in
         default 0 (sorted_vals !! Z.to_nat (Z.min n (quantile_round q n)))
  end.

Record LatencyStats := mk_lstats { ls_count : nat; ls_quantiles : list Z }.

Record Snapshot := mk_snapshot {
  sn_counters : gmap string Z;
  sn_gauges : list (string * Z);
  sn_latency : gmap string LatencyStats;
  sn_hit_rate : Z * Z
}.

Definition latency_stats (vals : list Z) : LatencyStats :=
  let vals := merge_sort Z.le vals in
  mk_lstats (length vals) (_quantile vals <$> _QUANTILES).

Definition snapshot (m : Metrics) : Snapshot :=
  let reads := counter m "read_requests" in
  mk_snapshot (m_counters m) ((λ g, (g.1, default 0 g.2)) <$> m_gauges m) (latency_stats <$> m_lat m)
    (if reads =? 0 then (0, 0) else round_double (counter m "read_hits") reads).

(** ** Counters *)

Lemma counter_inc m name n name' :
  counter (inc m name n) name' = counter m name' + if decide (name = name') then n else 0.
Proof.
  unfold counter, inc, with_counters. simpl. case_decide as H.
  - subst. by rewrite lookup_insert_eq.
  - rewrite lookup_insert_ne by done. lia.
Qed.

Lemma counter_observe m op s name : counter (observe m op s) name = counter m name.
Proof. done. Qed.

(** The events the store reports. *)
Inductive event :=
  | EInc (name : string) (n : Z)
  | ERead (hit : bool) (nbytes seconds : Z) (source : option string)
  | EWrite (nbytes seconds : Z).

Definition on_event (m : Metrics) (e : event) : Metrics :=
  match e with
  | EInc name n => inc m name n
  | ERead hit nbytes seconds source => record_read m hit nbytes seconds source
  | EWrite nbytes seconds => record_write m nbytes seconds
  end.

(** The counters [record_read] keeps, which nothing else increments. *)
Definition read_counters : list string :=
  ["read_requests"; "read_hits"; "read_misses"; "read_local_hits"; "read_remote_hits"; "read_disk_hits"; "bytes_read"].

Definition event_ok (e : event) : Prop :=
  match e with
  | EInc name n => name ∉ read_counters
  | ERead true nbytes _ source => 0 ≤ nbytes ∧ ∃ s, source = Some s ∧ s ∈ ["local"; "remote"; "disk"]
  | _ => True
  end.

Definition is_read (b : bool) (e : event) : bool := match e with ERead hit _ _ _ => Bool.eqb hit b | _ => false end.
Definition bytes_of (e : event) : Z := match e with ERead true n _ _ => n | _ => 0 end.
Definition latency_of (e : event) : option Z := match e with ERead _ _ s _ => Some s | _ => None end.

Record counters_inv (m : Metrics) (es : list event) : Prop := {
  ci_hits : counter m "read_hits" = zlength (filter (λ e, is_read true e = true) es);
  ci_misses : counter m "read_misses" = zlength (filter (λ e, is_read false e = true) es);
  ci_requests : counter m "read_requests" = counter m "read_hits" + counter m "read_misses";
  ci_sources : counter m "read_hits" =
    counter m "read_local_hits" + counter m "read_remote_hits" + counter m "read_disk_hits";
  ci_bytes : counter m "bytes_read" = sumZ (bytes_of <$> es)
}.

Lemma counter_record_read m hit nbytes seconds source name :
  counter (record_read m hit nbytes seconds source) name =
    counter m name + (if decide (name = "read_requests") then 1 else 0) +
    (if hit then
       (if decide (name = "read_hits") then 1 else 0) + (if decide (name = "bytes_read") then nbytes else 0) +
       match source with
       | Some s => if decide (s ∈ ["local"; "remote"; "disk"] ∧ name = "read_" +:+ s +:+ "_hits") then 1 else 0
       | None => 0
       end
     else if decide (name = "read_misses") then 1 else 0).
Proof.
  unfold record_read. rewrite counter_observe. destruct hit; [|rewrite !counter_inc; repeat case_decide; lia || congruence].
  destruct source as [s|]; [|rewrite !counter_inc; repeat case_decide; lia || congruence].
  case_bool_decide as Hs; rewrite !counter_inc; repeat case_decide; try lia; try congruence; naive_solver.
Qed.

Lemma on_event_inv m es e :
  event_ok e → counters_inv m es → counters_inv (on_event m e) (es ++ [e]).
Proof.
  intros He [H1 H2 H3 H4 H5].
  assert (sumZ (bytes_of <$> es ++ [e]) = sumZ (bytes_of <$> es) + bytes_of e) as Hb
    by (rewrite fmap_app, sumZ_app; simpl; lia).
  assert (∀ b, zlength (filter (λ e, is_read b e = true) (es ++ [e])) =
    zlength (filter (λ e, is_read b e = true) es) + if is_read b e then 1 else 0) as Hf.
  { intros b. unfold zlength. rewrite filter_app, length_app, filter_cons, filter_nil.
    destruct (is_read b e); simpl; lia. }
  split; rewrite ?Hf, ?Hb, <-?H1, <-?H2, <-?H5; clear Hf Hb H1 H2 H5.
  all: destruct e as [name n|[] nbytes secs [s|]|nbytes secs]; simpl in *.
  all: try (rewrite !counter_record_read; simpl; try lia).
  all: try (unfold record_write; rewrite !counter_observe).
  all: rewrite ?counter_inc; repeat case_decide; subst; try lia; try set_solver.
  all: destruct He as [_ (s' & [= <-] & Hs)]; set_unfold in Hs; destruct_or! Hs; subst s; simpl in *; naive_solver lia.
Qed.

Lemma window_push_spec n l x : window_push n (drop (length l - n) l) x = drop (length (l ++ [x]) - n) (l ++ [x]).
Proof.
  unfold window_push. rewrite !length_app, length_drop. simpl.
  destruct (decide (length l ≤ n)%nat) as [Hle|Hgt].
  - replace (length l - n)%nat with O by lia. rewrite drop_0. f_equal. lia.
  - rewrite <-(drop_app_le _ [x] (length l - n)) by lia. rewrite drop_drop. f_equal. lia.
Qed.

Lemma read_window m e :
  default [] (m_lat (on_event m e) !! "read") =
    match latency_of e with
    | Some s => window_push (m_reservoir m) (default [] (m_lat m !! "read")) s
    | None => default [] (m_lat m !! "read")
    end ∧ m_reservoir (on_event m e) = m_reservoir m.
Proof.
  destruct e as [name n|hit nbytes secs source|nbytes secs]; [done| |simpl; by rewrite lookup_insert_ne].
  simpl. unfold record_read, observe. simpl. rewrite lookup_insert_eq. simpl.
  destruct hit; [destruct source as [s|]; [case_bool_decide|]|]; done.
Qed.

(** The hits that came from [source]. *)
Definition from_source (source : string) (e : event) : bool :=
  match e with ERead true _ _ (Some s) => String.eqb s source | _ => false end.

(** Each source counter is the number of hits from that source. *)
Lemma source_counter reservoir es source :
  Forall event_ok es → source ∈ ["local"; "remote"; "disk"] →
  counter (foldl on_event (new_metrics reservoir) es) ("read_" +:+ source +:+ "_hits") =
    zlength (filter (λ e, from_source source e = true) es).
Proof.
  intros Hok Hs. induction es as [|e es IH] using rev_ind.
  { set_unfold in Hs. destruct_or! Hs; by subst. }
  apply Forall_app in Hok as [Hok He]. apply Forall_cons_1 in He as [He _].
  rewrite foldl_snoc, filter_app. unfold zlength in *. rewrite length_app, Nat2Z.inj_add, <-(IH Hok). clear IH.
  generalize (foldl on_event (new_metrics reservoir) es). intros m.
  set_unfold in Hs. rewrite filter_cons, filter_nil.
  destruct e as [name n|[] nbytes secs [s|]|nbytes secs]; simpl in He; cbn [from_source on_event].
  - rewrite counter_inc, decide_False; [simpl; lia|]. intros Heq. apply He. unfold read_counters.
    destruct_or! Hs; subst source; rewrite <-?Heq, ?Heq; set_solver.
  - rewrite counter_record_read. destruct He as [_ (s' & [= <-] & Hs')]. set_unfold in Hs'.
    destruct_or! Hs; destruct_or! Hs'; subst; simpl; repeat case_decide; simpl; try lia; naive_solver.
  - by destruct He as [_ (? & ? & _)].
  - rewrite counter_record_read. destruct_or! Hs; subst; simpl; lia.
  - rewrite counter_record_read. destruct_or! Hs; subst; simpl; lia.
  - unfold record_write. rewrite counter_observe, !counter_inc. destruct_or! Hs; subst; simpl; lia.
Qed.

(** A double nearest to a quotient of at most 1 is at most 1. *)
Definition double_le_1 (d : Z * Z) : Prop := 0 ≤ d.1 ∧ d.1 * 2 ^ Z.max 0 d.2 ≤ 2 ^ Z.max 0 (- d.2).

Lemma round_half_even_bounds p q n :
  0 < q → 0 ≤ p → p ≤ n * q → 0 ≤ round_half_even p q ≤ n.
Proof.
  intros Hq Hp Hn. unfold round_half_even.
  pose proof (Z.div_mod p q ltac:(lia)) as Hd. pose proof (Z.mod_pos_bound p q Hq) as Hm.
  assert (0 ≤ p / q) by (apply Z.div_pos; lia).
  assert (p / q ≤ n) by (apply Z.div_le_upper_bound; lia).
  assert (p / q = n → p mod q = 0) by nia.
  destruct (2 * (p mod q) <? q) eqn:E1; [lia|]. bool_cases.
  assert (p / q ≠ n) by (intros ?; lia).
  destruct (2 * (p mod q) >? q); [lia|]. destruct (Z.even (p / q)); lia.
Qed.

Lemma round_double_le_1 p q : 0 ≤ p ≤ q → 0 < q → double_le_1 (round_double p q).
Proof.
  intros Hpq Hq. unfold round_double, double_le_1. destruct (p =? 0) eqn:E; [simpl; lia|]. bool_cases.
  set (lg := Z.log2 p - Z.log2 q).
  assert (lg ≤ 0) as Hlg. { pose proof (Z.log2_le_mono p q). lia. }
  set (k := Z.max _ (-1074)).
  assert (k ≤ -52) as Hk. { subst k. destruct (_ <? _); lia. }
  simpl. rewrite (Z.max_l 0 k), (Z.max_r 0 (- k)) by lia. change (2 ^ 0) with 1. rewrite !Z.mul_1_r.
  apply round_half_even_bounds; [lia| |].
  - apply Z.mul_nonneg_nonneg; [lia|]. apply Z.pow_nonneg. lia.
  - rewrite Z.mul_comm. apply Z.mul_le_mono_nonneg_l; [apply Z.pow_nonneg; lia|lia].
Qed.

(** C39: the read counters tell what happened.  After any sequence of events,
    where hits name their source, the hits and misses are the reads that hit
    and missed, their sum is the number of requests, each of the local, remote
    and disk counters is the number of hits from that source and together they
    are all the hits, the bytes are those of the hits, the latency
    window holds the latest reads, and the reported hit rate lies between 0
    and 1. *)
Theorem metrics_consistent (reservoir : nat) (es : list event) (Hok : Forall event_ok es) :
  let m := foldl on_event (new_metrics reservoir) es in
  let lats := omap latency_of es in
  counters_inv m es ∧
  (∀ source, source ∈ ["local"; "remote"; "disk"] →
     counter m ("read_" +:+ source +:+ "_hits") = zlength (filter (λ e, from_source source e = true) es)) ∧
  default [] (m_lat m !! "read") = drop (length lats - reservoir) lats ∧
  double_le_1 (sn_hit_rate (snapshot m)).
Proof.
  assert (counters_inv (foldl on_event (new_metrics reservoir) es) es ∧
    default [] (m_lat (foldl on_event (new_metrics reservoir) es) !! "read") =
      drop (length (omap latency_of es) - reservoir) (omap latency_of es) ∧
    m_reservoir (foldl on_event (new_metrics reservoir) es) = reservoir) as (Hi & Hw & _).
  { induction es as [|e es IH] using rev_ind; [split; [split; reflexivity|split; reflexivity]|].
    apply Forall_app in Hok as [Hok He]. apply Forall_cons_1 in He as [He _].
    destruct (IH Hok) as (IH1 & IH2 & IH3). rewrite foldl_snoc.
    destruct (read_window (foldl on_event (new_metrics reservoir) es) e) as [Hr ->].
    split; [by apply on_event_inv|]. split; [|done]. rewrite Hr, IH2, IH3, omap_app. simpl.
    destruct (latency_of e); simpl; [apply window_push_spec|by rewrite app_nil_r]. }
  intros m lats. split; [done|]. split; [intros; by apply source_counter|]. split; [done|]. simpl.
  destruct (counter m "read_requests" =? 0) eqn:E; [unfold double_le_1; simpl; lia|]. bool_cases.
  destruct Hi as [H1 H2 H3 _ _]. unfold zlength in *. fold m in H1, H2, H3. apply round_double_le_1; lia.
Qed.

Lemma round_half_even_near p q :
  0 < q → 2 * p - q ≤ 2 * q * round_half_even p q ≤ 2 * p + q.
Proof.
  intros Hq. unfold round_half_even.
  pose proof (Z.div_mod p q ltac:(lia)) as Hd. pose proof (Z.mod_pos_bound p q Hq) as Hm.
  destruct (2 * (p mod q) <? q) eqn:E1; bool_cases; [nia|].
  destruct (2 * (p mod q) >? q) eqn:E2; bool_cases; [nia|]. destruct (Z.even (p / q)); nia.
Qed.

(** The sample index is within half a step of [q * n], up to the rounding of
    the product to a double. *)
Lemma quantile_round_near qm n :
  0 < qm ≤ 2 ^ 53 → 0 < n ≤ 8192 →
  2 * (qm * n) - 2 ^ 53 - 2 ^ 15 ≤ 2 * 2 ^ 53 * quantile_round (qm, -53) n ≤ 2 * (qm * n) + 2 ^ 53 + 2 ^ 15.
Proof.
  intros Hq Hn. unfold quantile_round. cbn [fst snd].
  change (2 ^ Z.max 0 (-53)) with 1. change (Z.max 0 (- -53)) with 53. rewrite Z.mul_1_r.
  set (p := qm * n). assert (0 < p ≤ 2 ^ 53 * 2 ^ 13) as Hp by (subst p; nia).
  unfold round_double. rewrite (proj2 (Z.eqb_neq p 0)) by lia.
  change (Z.log2 (2 ^ 53)) with 53. set (k := Z.max _ (-1074)).
  assert (-1074 ≤ k ≤ -39) as Hk.
  { assert (Z.log2 p ≤ 66). { change 66 with (Z.log2 (2 ^ 53 * 2 ^ 13)). apply Z.log2_le_mono. lia. }
    subst k. destruct (_ <? _); lia. }
  rewrite (Z.max_l 0 k), (Z.max_r 0 (- k)) by lia. change (2 ^ 0) with 1. rewrite !Z.mul_1_r.
  set (K := 2 ^ (- k)). assert (2 ^ 38 ≤ K) as HK by (apply Z.pow_le_mono_r; lia).
  set (m := round_half_even (p * K) (2 ^ 53)).
  pose proof (round_half_even_near (p * K) (2 ^ 53) ltac:(lia)) as H1. fold m in H1.
  pose proof (round_half_even_near m K ltac:(lia)) as H2.
  set (i := round_half_even m K) in *. clearbody i m K. clear k Hk.
  change (2 ^ 53) with 9007199254740992 in *. change (2 ^ 38) with 274877906944 in *.
  change (2 ^ 15) with 32768 in *. split; nia.
Qed.

Lemma quantile_round_mono qm qm' n :
  0 < qm → qm + 2 ^ 16 ≤ qm' → qm' ≤ 2 ^ 53 → 0 ≤ n ≤ 8192 →
  0 ≤ quantile_round (qm, -53) n ≤ quantile_round (qm', -53) n.
Proof.
  intros H1 H2 H3 Hn. destruct (decide (n = 0)) as [->|Hn0].
  { unfold quantile_round. simpl. rewrite !Z.mul_0_r. done. }
  pose proof (quantile_round_near qm n ltac:(lia) ltac:(lia)) as Ha.
  pose proof (quantile_round_near qm' n ltac:(lia) ltac:(lia)) as Hb.
  set (i := quantile_round _ n) in *. set (j := quantile_round _ n) in *. clearbody i j.
  assert (qm * n + 2 ^ 16 ≤ qm' * n) as Hd by nia. assert (0 < qm * n) by nia.
  change (2 ^ 53) with 9007199254740992 in *. change (2 ^ 15) with 32768 in *. change (2 ^ 16) with 65536 in *.
  lia.
Qed.

Lemma StronglySorted_lookup_le l i j u v :
  StronglySorted Z.le l → (i < j)%nat → l !! i = Some u → l !! j = Some v → u ≤ v.
Proof.
  intros Hs. revert i j. induction Hs as [|x l Hs IH Hf]; intros i j Hij Hi Hj; [done|].
  destruct j as [|j]; [lia|]. destruct i as [|i]; simpl in *; [|eapply (IH i j); eauto; lia].
  injection Hi as <-. rewrite Forall_forall in Hf. apply Hf. by eapply list_elem_of_lookup_2.
Qed.

(** The quantiles of a latency window are samples of it, and
    [p50 <= p90 <= p99], for windows up to the size the code allocates. *)
Theorem quantiles_are_ordered_samples (vals : list Z) (Hne : vals ≠ [])
  (Hlen : zlength vals ≤ 8192) :
  ∃ p50 p90 p99, ls_quantiles (latency_stats vals) = [p50; p90; p99] ∧
    p50 ∈ vals ∧ p90 ∈ vals ∧ p99 ∈ vals ∧ p50 ≤ p90 ≤ p99.
Proof.
  unfold latency_stats. set (s := merge_sort Z.le vals).
  assert (s ≡ₚ vals) as Hp by apply merge_sort_Permutation.
  assert (StronglySorted Z.le s) as Hs by (apply Sorted_StronglySorted; [|apply Sorted_merge_sort]; apply _).
  assert (length s = length vals) as Hl by by rewrite Hp.
  assert (s ≠ []) as Hsne by (intros E; rewrite E in Hl; by destruct vals).
  assert (length s ≠ 0)%nat by (by destruct s). unfold zlength in Hlen.
  unfold _quantile. destruct s as [|x s'] eqn:E; [done|]. rewrite <-E in *. clear E.
  assert (zlength s - 1 = Z.of_nat (length s - 1)) as Hz by (unfold zlength; lia). rewrite Hz.
  set (n := Z.of_nat (length s - 1)).
  assert (∀ i, 0 ≤ i → ∃ v, s !! Z.to_nat (Z.min n i) = Some v ∧ v ∈ vals) as Hget.
  { intros i Hi. destruct (lookup_lt_is_Some_2 s (Z.to_nat (Z.min n i))) as [v Hv]; [lia|]. exists v. split; [done|].
    rewrite <-Hp. by eapply list_elem_of_lookup_2. }
  assert (∀ i j u v, 0 ≤ i ≤ j → s !! Z.to_nat i = Some u → s !! Z.to_nat j = Some v → u ≤ v) as Hmono.
  { intros i j u v Hij Hu Hv. destruct (decide (i = j)) as [->|]; [rewrite Hu in Hv; injection Hv; lia|].
    apply (StronglySorted_lookup_le s (Z.to_nat i) (Z.to_nat j)); [done|lia|done|done]. }
  unfold _QUANTILES. cbn [fmap list_fmap].
  pose proof (quantile_round_mono 4503599627370496 8106479329266893 n) as [H1 H2]; [lia..|].
  pose proof (quantile_round_mono 8106479329266893 8917127262193582 n) as [H3 H4]; [lia..|].
  destruct (Hget _ H1) as (p50 & H50 & ?), (Hget _ H3) as (p90 & H90 & ?).
  destruct (Hget (quantile_round (8917127262193582, -53) n)) as (p99 & H99 & ?); [lia|].
  exists p50, p90, p99. rewrite H50, H90, H99. split; [done|]. split; [done|]. split; [done|]. split; [done|].
  split; [eapply Hmono; [|exact H50|exact H90]|eapply Hmono; [|exact H90|exact H99]]; lia.
Qed.

Module MetricsExamples.
Lemma metrics_consistent_witness :
  counter (foldl on_event (new_metrics 2)
    [ERead true 10 5 (Some "local"); ERead false 0 7 None; ERead true 20 9 (Some "disk"); EInc "promotes" 1])
    "read_requests" = 3.
Proof.
  destruct (metrics_consistent 2
    [ERead true 10 5 (Some "local"); ERead false 0 7 None; ERead true 20 9 (Some "disk"); EInc "promotes" 1])
    as ([_ _ -> _ _] & _); [|vm_compute; reflexivity].
  repeat constructor; try lia; try (eexists; split; [done|set_solver]); set_solver.
Defined.

Lemma quantiles_are_ordered_samples_witness : ∃ p50 p90 p99 : Z,
  ls_quantiles (latency_stats [9; 1; 5]) = [p50; p90; p99] ∧ p50 ≤ p90 ≤ p99.
Proof.
  destruct (quantiles_are_ordered_samples [9; 1; 5]) as (p50 & p90 & p99 & H & _ & _ & _ & H2);
    [discriminate|vm_compute; discriminate|].
  exists p50, p90, p99. split; assumption.
Defined.
End MetricsExamples.
