(* ===== verification/Tier.v ===== *)
(** The page tier of one node: its published pool, its disk store and what it
    tells the directory about them.

    [PeerCacheStore] ([store.py]) and [StorageServer] ([storage_server.py]) keep
    the same state and share these operations, which the source writes twice.
    A [local] is what one thread of the node works on: the tier, the directory
    shards with the links to them, and the memory of the process.  Temporary
    buffers live at the fixed address [i_scratch]; clocks are arguments. *)
From S2P Require Import Prelude Bytes Hashlib HashRing Types Rpc Directory Runtime Pool DiskStore Metrics.

(** ** State *)

(** What a node advertises: its name, its endpoint and the endpoint of every
    rail; and where its temporary buffers are. *)
Record ident := mk_ident {
  i_id : string;
  i_endpoint : string;
  i_rails : list string;
  i_scratch : Z
}.

Record tier := mk_tier {
  t_ident : ident;
  t_rt : NodeRuntime;
  t_pool : option PublishedPool;
  t_disk : option DiskStore;
  t_key_len : list (string * Z);
  t_metrics : Metrics
}.

(** [self.runtime.directory] *)
Definition t_dc (t : tier) : DirectoryClient := rt_directory (t_rt t).

Record local := mk_local {
  l_tier : tier;
  l_dir : cluster shard;
  l_mem : mem
}.

Definition set_tier (s : local) (t : tier) : local := mk_local t (l_dir s) (l_mem s).
Definition set_dir (s : local) (d : cluster shard) : local := mk_local (l_tier s) d (l_mem s).
Definition set_mem (s : local) (m : mem) : local := mk_local (l_tier s) (l_dir s) m.

Definition set_pool (s : local) (p : PublishedPool) : local :=
  let t := l_tier s in
  set_tier s (mk_tier (t_ident t) (t_rt t) (Some p) (t_disk t) (t_key_len t) (t_metrics t)).

Definition set_disk (s : local) (d : DiskStore) : local :=
  let t := l_tier s in
  set_tier s (mk_tier (t_ident t) (t_rt t) (t_pool t) (Some d) (t_key_len t) (t_metrics t)).

Definition set_key_len (s : local) (kl : list (string * Z)) : local :=
  let t := l_tier s in
  set_tier s (mk_tier (t_ident t) (t_rt t) (t_pool t) (t_disk t) kl (t_metrics t)).

Definition set_metrics (s : local) (mt : Metrics) : local :=
  let t := l_tier s in
  set_tier s (mk_tier (t_ident t) (t_rt t) (t_pool t) (t_disk t) (t_key_len t) mt).

Definition count (s : local) (name : string) (n : Z) : local :=
  set_metrics s (inc (t_metrics (l_tier s)) name n).

(** ** Locations *)

Definition _resident_location (i : ident) (p : PublishedPool) (remote_addr length : Z) : DataLocation :=
  mk_loc (i_id i) (i_endpoint i) remote_addr (p_rkey p) length true (i_rails i) (p_rkeys p).

(** The location of a page that is on this node's disk only. *)
Definition disk_location (i : ident) (length : Z) : DataLocation :=
  mk_loc (i_id i) (i_endpoint i) 0 0 length false [] [].

Section tier.
Context {RH : RingHash} {SI : SetIter} {HL : Hashlib}.

(** [self.runtime.directory.put] and [delete] *)
Definition directory_put (s : local) (entries : list (string * DataLocation)) : local :=
  set_dir s (Directory.put (t_dc (l_tier s)) (l_dir s) entries).
Definition directory_delete (s : local) (keys : list string) : local :=
  set_dir s (Directory.dir_delete (t_dc (l_tier s)) (l_dir s) keys).

(** ** Eviction callbacks *)

Definition evicted_entries (t : tier) (evicted : list string) : list (string * DataLocation) :=
  foldl (λ es k, match od_get (t_key_len t) k with
                 | Some length => od_set es k (disk_location (t_ident t) length)
                 | None => es
                 end) [] evicted.

Definition _on_pool_evict (s : local) (evicted_keys : list string) : local :=
  let s := count s "evictions" (zlength evicted_keys) in
  match t_disk (l_tier s) with
  | None => directory_delete s evicted_keys
  | Some _ =>
      match evicted_entries (l_tier s) evicted_keys with
      | [] => s
      | entries => directory_put s entries
      end
  end.

Definition _on_disk_evict (s : local) (evicted_keys : list string) : local :=
  let s := count s "disk_evictions" (zlength evicted_keys) in
  let s := set_key_len s (foldl od_del (t_key_len (l_tier s)) evicted_keys) in
  directory_delete s evicted_keys.

(** [self._pool.publish] with its callback; a node without a pool raises. *)
Definition pool_publish (s : local) (key : string) (src_ptr length : Z) : pyres (option Z) * local :=
  match t_pool (l_tier s) with
  | None => (Raise AttributeError, s)
  | Some p =>
      let '(addr, p, m, evicted) := Pool.publish p (l_mem s) key src_ptr length in
      let s := set_mem (set_pool s p) m in
      (Ret addr, match evicted with [] => s | _ => _on_pool_evict s evicted end)
  end.

(** [self._pool.reserve] with its callback. *)
Definition pool_reserve (s : local) (key : string) (length : Z) : pyres (option Z) * local :=
  match t_pool (l_tier s) with
  | None => (Raise AttributeError, s)
  | Some p =>
      let '(addr, p, evicted) := Pool.reserve p key length in
      let s := set_pool s p in
      (Ret addr, match evicted with [] => s | _ => _on_pool_evict s evicted end)
  end.

(** One page written by the disk worker, with its callback. *)
Definition disk_worker (s : local) (io_ok : bool) : local :=
  match t_disk (l_tier s) with
  | None => s
  | Some d =>
      let '(d, evicted) := DiskStore.run_one d io_ok in
      let s := set_disk s d in
      match evicted with [] => s | _ => _on_disk_evict s evicted end
  end.

(** ** Promotion *)

Definition pool_address (s : local) (key : string) : option (Z * Z) * local :=
  match t_pool (l_tier s) with
  | None => (None, s)
  | Some p => let '(al, p) := Pool.address_of p key in (al, set_pool s p)
  end.

Definition disk_get (s : local) (key : string) : option (list Z) * local :=
  match t_disk (l_tier s) with
  | None => (None, s)
  | Some d => let '(data, d) := DiskStore.get d key in (data, set_disk s d)
  end.

(** The body of the loop of [_ensure_resident]. *)
Definition ensure_one (st : list (option DataLocation) * list (string * DataLocation) * local) (k : string) :
    list (option DataLocation) * list (string * DataLocation) * local :=
  let '(out, promoted, s) := st in
  match t_pool (l_tier s) with
  | None => (out ++ [None], promoted, s)
  | Some p =>
      let i := t_ident (l_tier s) in
      match pool_address s k with
      | (Some (addr, length), s) => (out ++ [Some (_resident_location i p addr length)], promoted, s)
      | (None, s) =>
          match disk_get s k with
          | (None, s) => (out ++ [None], promoted, s)
          | (Some data, s) =>
              let s := set_mem s (mem_write (l_mem s) (i_scratch i) data) in
              match pool_publish s k (i_scratch i) (zlength data) with
              | (Ret (Some addr), s) =>
                  let loc := _resident_location i p addr (zlength data) in
                  let s := set_key_len s (od_set (t_key_len (l_tier s)) k (zlength data)) in
                  (out ++ [Some loc], od_set promoted k loc, count s "promotes" 1)
              | (_, s) => (out ++ [None], promoted, s)
              end
          end
      end
  end.

Definition _ensure_resident (s : local) (keys : list string) : list (option DataLocation) * local :=
  let '(out, promoted, s) := foldl ensure_one ([], [], s) keys in
  (out, match promoted with [] => s | _ => directory_put s promoted end).

Definition opt_loc_dict (l : option DataLocation) : pyval :=
  match l with Some l => loc_to_dict l | None => VNone end.

(** [[k for k, l in zip(keys, locs) if l is None]] *)
Definition missing (keys : list string) (locs : list (option DataLocation)) : list string :=
  (filter (λ p : string * option DataLocation, p.2 = None) (zip keys locs)).*1.

(** [_on_data_promote]: the wire arguments hold a list of strings. *)
Definition _on_data_promote (s : local) (args : pyval) : pyres pyval * local :=
  match keys ← py_get args "keys" (VList []); l ← py_list keys; py_mapM as_str l with
  | Raise e => (Raise e, s)
  | Ret keys =>
      let '(locs, s) := _ensure_resident s keys in
      let s := match missing keys locs with [] => s | misses => directory_delete s misses end in
      (Ret (VDict [("locations", VList (opt_loc_dict <$> locs))]), s)
  end.

(** ** Publishing into the local pool *)

(** Write-through to the disk tier. *)
Definition disk_put (s : local) (key : string) (data : list Z) : local :=
  match t_disk (l_tier s) with
  | None => s
  | Some d => count (count (set_disk s (DiskStore.put d key data)) "disk_writes" 1)
                "disk_bytes_written" (zlength data)
  end.

(** The loop of [_publish_p2p] over [(key, ptr, size, existing)]: the directory
    entries, the results and the published bytes so far. *)
Fixpoint publish_pages (s : local) (items : list (string * Z * Z * bool))
    (entries : list (string * DataLocation)) (results : list bool) (bytes : Z) :
    pyres (list (string * DataLocation) * list bool * Z) * local :=
  match items with
  | [] => (Ret (entries, results, bytes), s)
  | (key, ptr, size, existing) :: items' =>
      if (existing : bool) then publish_pages s items' entries (results ++ [true]) bytes
      else
        match pool_publish s key ptr size with
        | (Raise e, s) => (Raise e, s)
        | (Ret None, s) => publish_pages s items' entries (results ++ [false]) bytes
        | (Ret (Some addr), s) =>
            let s := disk_put s key (mem_read (l_mem s) ptr size) in
            let s := set_key_len s (od_set (t_key_len (l_tier s)) key size) in
            match t_pool (l_tier s) with
            | None => (Raise AttributeError, s)
            | Some p =>
                publish_pages s items'
                  (od_set entries key (_resident_location (t_ident (l_tier s)) p addr size))
                  (results ++ [true]) (bytes + size)
            end
        end
  end.

Definition set_remote_addr (l : DataLocation) (addr : Z) : DataLocation :=
  mk_loc (l_node_id l) (l_rdma_endpoint l) addr (l_rkey l) (l_length l) (l_resident l)
    (l_rail_endpoints l) (l_rail_rkeys l).

(** The reconciliation of one entry with what the pool holds now. *)
Definition reconcile_one (st : list (string * DataLocation) * local) (key : string) :
    list (string * DataLocation) * local :=
  let '(entries, s) := st in
  match od_get entries key with
  | None => (entries, s)
  | Some loc =>
      match pool_address s key with
      | (None, s) =>
          let length := default (l_length loc) (od_get (t_key_len (l_tier s)) key) in
          (od_set entries key (disk_location (t_ident (l_tier s)) length), s)
      | (Some (addr, _), s) => (od_set entries key (set_remote_addr loc addr), s)
      end
  end.

Definition reconcile (s : local) (entries : list (string * DataLocation)) :
    list (string * DataLocation) * local :=
  foldl reconcile_one (entries, s) (od_keys entries).

(** [_publish_p2p]; [seconds] is the time it took. *)
Definition _publish_p2p (s : local) (comp_keys : list string) (ptrs sizes : list Z)
    (update_directory : bool) (seconds : Z) : pyres (list bool) * local :=
  let '(existing, dir) := Directory.dir_exists (t_dc (l_tier s)) (l_dir s) comp_keys in
  let s := set_dir s dir in
  match publish_pages s (zip (zip (zip comp_keys ptrs) sizes) existing) [] [] 0 with
  | (Raise e, s) => (Raise e, s)
  | (Ret (entries, results, bytes), s) =>
      let '(entries, s) := reconcile s entries in
      let s := match entries with
               | [] => s
               | _ => if update_directory then directory_put s entries else s
               end in
      (Ret results, set_metrics s (record_write (t_metrics (l_tier s)) bytes seconds))
  end.

(** ** Membership changes and clearing *)

Fixpoint chunks {A} (fuel : nat) (n : nat) (l : list A) : list (list A) :=
  match fuel, l with
  | S fuel', _ :: _ => take n l :: chunks fuel' n (drop n l)
  | _, _ => []
  end.

(** The entries [_republish_directory] puts: resident pages from the pool,
    then the pages known to be on disk only. *)
Definition republish_entries (t : tier) (p : PublishedPool) : list (string * DataLocation) :=
  let resident := foldl (λ es '(key, addr, length), od_set es key (_resident_location (t_ident t) p addr length))
                    [] (Pool.snapshot p) in
  match t_disk t with
  | None => resident
  | Some _ =>
      foldl (λ es e, od_set es e.1 (disk_location (t_ident t) e.2)) resident
        (filter (λ e : string * Z, od_mem resident e.1 = false) (t_key_len t))
  end.

Definition _republish_directory (s : local) : local :=
  match t_pool (l_tier s) with
  | None => s
  | Some p =>
      match republish_entries (l_tier s) p with
      | [] => s
      | entries =>
          count (foldl directory_put s (chunks (length entries) 512 entries)) "directory_republishes" 1
      end
  end.

(** [NodeRuntime._on_members] on this node; the listener of a storage server
    and of a store with a pool publishes its entries again. *)
Definition tier_on_members (s : local) (members : list NodeInfo) : local :=
  let t := l_tier s in
  let '(rt, changed) := _on_members (t_rt t) members in
  let s := set_tier s (mk_tier (t_ident t) rt (t_pool t) (t_disk t) (t_key_len t) (t_metrics t)) in
  if changed then _republish_directory s else s.

(** [clear]; the keys are taken in the iteration order of a set. *)
Definition clear_key (s : local) (k : string) : local :=
  let s := match t_pool (l_tier s) with Some p => set_pool s (Pool.remove p k) | None => s end in
  match t_disk (l_tier s) with Some d => set_disk s (DiskStore.remove d k) | None => s end.

Definition clear (s : local) : local :=
  let known : gset string := list_to_set (od_keys (t_key_len (l_tier s))) in
  let pooled : gset string :=
    match t_pool (l_tier s) with Some p => list_to_set (od_keys (p_entries p)) | None => ∅ end in
  let keys := set_iter (known ∪ pooled) in
  let s := match keys with [] => s | _ => directory_delete s keys end in
  set_key_len (foldl clear_key s keys) [].
End tier.
