(* ===== verification/Coherence.v ===== *)
(** Coherence of the directory with the pools, on one node.

    In the peer-to-peer mode a location in the directory is trusted: a reader
    copies the bytes at the advertised address without asking the owner.
    [lcoh] says that every resident location names a page its owner's pool
    still holds at that address and length, and that every pooled page holds
    bytes published under its key.  The operations of [Tier.v] keep it, for a
    node without a disk tier and directory calls that reach their server. *)
From S2P Require Import Prelude Bytes Hashlib HashRing Types Rpc Directory Runtime Pool DiskStore Metrics Tier.

Section coherence.
Context {RH : RingHash} {SI : SetIter} {HL : Hashlib}.

Abbreviation history := (list (string * list Z)).

(** The directory's routing, the owner of an endpoint, and the length of
    every key's page: fixed throughout. *)
Context (dc : DirectoryClient) (host : string → option string) (key_len : string → Z).

(** All rails of the location lead to its node. *)
Definition rails_to (n : string) (l : DataLocation) : Prop :=
  host (l_rdma_endpoint l) = Some n ∧ Forall (λ e, host e = Some n) (endpoints l).

(** The pool holds the page of [k] at this address and length. *)
Definition pool_page (p : PublishedPool) (k : string) (addr len : Z) : Prop :=
  ∃ b, od_get (p_entries p) k = Some b ∧ addr = p_base p + b.1 ∧ len = b.2.

(** A location is right about node [me]'s pool, or satisfies [O] for another
    node. *)
Definition loc_right (me : string) (O : string → string → Z → Z → Prop) (p : option PublishedPool)
    (k : string) (l : DataLocation) : Prop :=
  l_resident l = true →
  rails_to (l_node_id l) l ∧
  if decide (l_node_id l = me) then ∃ p', p = Some p' ∧ pool_page p' k (l_remote_addr l) (l_length l)
  else O (l_node_id l) k (l_remote_addr l) (l_length l).

(** Every call reaches the shard it is sent to. *)
Definition all_taken (d : cluster shard) : Prop := ∀ ep, is_Some (c_shards d !! ep) → takes d ep = true.

Record dir_coh (me : string) (O : string → string → Z → Z → Prop) (p : option PublishedPool) (d : cluster shard) : Prop := {
  dc_wf : shards_wf d;
  dc_taken : all_taken d;
  dc_locs ep k l : stored_loc d ep k = Some l → owned_at dc k ep = true ∧ loc_right me O p k l
}.

Definition pool_coh (h : history) (p : PublishedPool) (m : mem) : Prop :=
  pool_inv p ∧ ∀ k b, od_get (p_entries p) k = Some b → (k, page_bytes p m b) ∈ h.

Definition ident_ok (i : ident) : Prop :=
  host (i_endpoint i) = Some (i_id i) ∧ Forall (λ e, host e = Some (i_id i)) (i_rails i).

Record lcoh (h : history) (O : string → string → Z → Z → Prop) (s : local) : Prop := {
  lc_dc : t_dc (l_tier s) = dc;
  lc_disk : t_disk (l_tier s) = None;
  lc_ident : ident_ok (t_ident (l_tier s));
  lc_pool p : t_pool (l_tier s) = Some p → pool_coh h p (l_mem s);
  lc_dir : dir_coh (i_id (t_ident (l_tier s))) O (t_pool (l_tier s)) (l_dir s)
}.

(** Everyone publishes a key at its own length. *)
Definition sized (h : history) : Prop := ∀ k d, (k, d) ∈ h → zlength d = key_len k.

(** What the operations do not change: who the node is and where its pool
    lies. *)
Definition pool_place (p : PublishedPool) : Z * Z * Z * list Z := (p_base p, p_capacity p, p_rkey p, p_rkeys p).

Record same_node (s s' : local) : Prop := {
  sm_ident : t_ident (l_tier s') = t_ident (l_tier s);
  sm_rt : t_rt (l_tier s') = t_rt (l_tier s);
  sm_place : pool_place <$> t_pool (l_tier s') = pool_place <$> t_pool (l_tier s);
  sm_mem x : (∀ p, t_pool (l_tier s) = Some p → ¬ (p_base p ≤ x < p_base p + p_capacity p)) →
    l_mem s' x = l_mem s x
}.

Lemma same_node_refl s : same_node s s.
Proof. by split. Qed.

Lemma same_node_trans s1 s2 s3 : same_node s1 s2 → same_node s2 s3 → same_node s1 s3.
Proof.
  intros [A1 A2 A3 A4] [B1 B2 B3 B4]. split; [congruence..|]. intros x Hx. rewrite B4; [by apply A4|].
  intros p Hp. rewrite Hp in A3. destruct (t_pool (l_tier s1)) as [p1|] eqn:E; [|done].
  simpl in A3. injection A3 as -> -> _ _. by apply Hx.
Qed.

(** Updates that only touch the metrics or the key lengths. *)
Lemma lcoh_metrics h O s mt : lcoh h O s → lcoh h O (set_metrics s mt) ∧ same_node s (set_metrics s mt).
Proof. intros [A1 A2 A3 A4 A5]. split; by split. Qed.

Lemma lcoh_key_len h O s kl : lcoh h O s → lcoh h O (set_key_len s kl) ∧ same_node s (set_key_len s kl).
Proof. intros [A1 A2 A3 A4 A5]. split; by split. Qed.

(** ** Looking up the pool *)

Lemma address_of_spec p k al p' :
  pool_inv p → Pool.address_of p k = (al, p') →
  pool_inv p' ∧ pool_place p' = pool_place p ∧ (∀ k', od_get (p_entries p') k' = od_get (p_entries p) k') ∧
  (∀ a n, al = Some (a, n) → pool_page p k a n).
Proof.
  intros Hinv. unfold Pool.address_of. destruct (od_get (p_entries p) k) as [[o n]|] eqn:E; intros [= <- <-].
  - split; [apply pool_inv_perm; [|done]; symmetry; apply od_move_to_end_perm|]. split; [done|]. split.
    + intros k'. simpl. by apply od_get_move_to_end, Hinv.
    + intros a n' [= <- <-]. by exists (o, n).
  - split; [done|]. split; [done|]. split; [done|]. done.
Qed.

Lemma loc_right_pool me O p p' k l :
  (∀ q, p = Some q → ∃ q', p' = Some q' ∧ p_base q' = p_base q ∧
     (∀ b, od_get (p_entries q) k = Some b → od_get (p_entries q') k = Some b)) →
  loc_right me O p k l → loc_right me O p' k l.
Proof.
  intros Hq Hl Hres. destruct (Hl Hres) as [H1 H2]. split; [done|]. case_decide; [|done].
  destruct H2 as (q & Hp & b & Hb & Ha & Hn). destruct (Hq q Hp) as (q' & Hq' & Hbase & Hent).
  exists q'. split; [done|]. exists b. rewrite Hbase. auto.
Qed.

Lemma pool_address_keeps h O s k al s' :
  lcoh h O s → pool_address s k = (al, s') →
  lcoh h O s' ∧ same_node s s' ∧ l_mem s' = l_mem s ∧ l_dir s' = l_dir s ∧
  (∀ a n, al = Some (a, n) → ∃ p, t_pool (l_tier s) = Some p ∧ pool_page p k a n) ∧
  (∀ p, t_pool (l_tier s) = Some p → ∃ p', t_pool (l_tier s') = Some p' ∧ p_base p' = p_base p ∧
     ∀ k', od_get (p_entries p') k' = od_get (p_entries p) k').
Proof.
  intros Hc. unfold pool_address. destruct (t_pool (l_tier s)) as [p|] eqn:Ep.
  2:{ intros [= <- <-]. split; [done|]. split; [apply same_node_refl|]. done. }
  destruct (Pool.address_of p k) as [al' p'] eqn:Ea. intros [= <- <-].
  destruct (lc_pool _ _ _ Hc p Ep) as [Hinv Hpub].
  destruct (address_of_spec p k al' p' Hinv Ea) as (Hinv' & Hpl & Hent & Hal).
  assert (p_base p' = p_base p) as Hbase by (by injection Hpl).
  destruct Hc as [A1 A2 A3 A4 A5]. split.
  { split; try done.
    - intros q [= <-]. split; [done|]. intros k' b. rewrite Hent. intros Hb.
      unfold page_bytes. rewrite Hbase. by apply Hpub.
    - destruct A5 as [D1 D2 D3]. split; try done. intros ep k' l Hs. destruct (D3 ep k' l Hs) as [H1 H2].
      split; [done|]. eapply loc_right_pool; [|exact H2]. simpl. intros q Hq. exists p'. rewrite Ep in Hq.
      injection Hq as <-. split; [done|]. split; [done|]. intros b. by rewrite Hent. }
  split; [split; try done; simpl; by rewrite Ep; simpl; rewrite Hpl|]. split; [done|]. split; [done|].
  split; [intros a n Hs; exists p; split; [done|]; by apply Hal|].
  intros q [= <-]. exists p'. done.
Qed.

(** ** Publishing one page *)

Lemma stored_loc_None d ep k : stored d ep k = None → stored_loc d ep k = None.
Proof. unfold stored_loc. by intros ->. Qed.

(** Deleting the evicted keys restores coherence with a smaller pool. *)
Lemma delete_coh me O p p' d keys :
  dir_coh me O p d →
  (∀ q, p = Some q → ∃ q', p' = Some q' ∧ p_base q' = p_base q ∧
     ∀ k b, k ∉ keys → od_get (p_entries q) k = Some b → od_get (p_entries q') k = Some b) →
  dir_coh me O p' (dir_delete dc d keys).
Proof.
  intros [D1 D2 D3] Hp.
  assert (Directory.same_net d (dir_delete dc d keys)) as Hnet by apply (delete_spec dc d keys "" "").
  split.
  - intros ep k v Hs. rewrite (proj2 (delete_spec dc d keys ep k)) in Hs.
    destruct (_ && _ && _); [done|]. by eapply D1.
  - intros ep Hep. rewrite (Directory.same_net_takes _ _ _ Hnet). apply D2. by apply Hnet.
  - intros ep k l Hs. unfold stored_loc in Hs. rewrite (proj2 (delete_spec dc d keys ep k)) in Hs.
    destruct (bool_decide (k ∈ keys) && takes d ep && owned_at dc k ep) eqn:Edel; [done|].
    assert (stored_loc d ep k = Some l) as Hs0 by done. destruct (D3 ep k l Hs0) as [H1 H2].
    split; [done|]. eapply loc_right_pool; [|exact H2]. intros q Hq. destruct (Hp q Hq) as (q' & Hq' & Hb & Hent).
    exists q'. split; [done|]. split; [done|]. intros b. apply Hent. intros Hin.
    rewrite bool_decide_eq_true_2 in Edel by done. rewrite H1, andb_true_r in Edel. simpl in Edel.
    assert (is_Some (c_shards d !! ep)) as Hsh.
    { unfold stored_loc, stored in Hs0. destruct (c_shards d !! ep); [by eexists|done]. }
    rewrite (D2 ep Hsh) in Edel. done.
Qed.

Lemma evict_keeps h O s keys p' m :
  lcoh h O s → keys ≠ [] → pool_coh h p' m →
  (∀ q, t_pool (l_tier s) = Some q → pool_place p' = pool_place q ∧
     ∀ k b, k ∉ keys → od_get (p_entries q) k = Some b → od_get (p_entries p') k = Some b) →
  is_Some (t_pool (l_tier s)) →
  lcoh h O (_on_pool_evict (set_mem (set_pool s p') m) keys).
Proof.
  intros [A1 A2 A3 A4 A5] Hne Hpc Hq [p Hp]. unfold _on_pool_evict. simpl. rewrite A2.
  destruct (Hq p Hp) as [Hpl Hent]. assert (p_base p' = p_base p) as Hbase by (by injection Hpl).
  split; try done.
  - intros q [= <-]. done.
  - simpl. change (t_dc _) with (t_dc (l_tier s)). rewrite A1.
    eapply delete_coh; [exact A5|]. intros q Hq'. rewrite Hp in Hq'. injection Hq' as <-.
    exists p'. done.
Qed.

Lemma pool_publish_keeps h O s key src len r s' :
  lcoh h O s → 0 ≤ len → (key, mem_read (l_mem s) src len) ∈ h →
  pool_publish s key src len = (r, s') →
  lcoh h O s' ∧ same_node s s' ∧
  (∀ addr, r = Ret (Some addr) → ∃ p, t_pool (l_tier s') = Some p).
Proof.
  intros Hc Hl Hin. unfold pool_publish.
  destruct (t_pool (l_tier s)) as [p|] eqn:Ep; [|intros [= <- <-]; split; [done|]; split; [apply same_node_refl|done]].
  destruct (Pool.publish p (l_mem s) key src len) as [[[addr p'] m'] ev] eqn:Epub. intros [= <- <-].
  destruct (lc_pool _ _ _ Hc p Ep) as [Hinv Hpub].
  destruct (publish_page_cases p (l_mem s) key src len addr p' m' ev Hinv Hl Epub)
    as (Hnew & Hold & Hev & Haddr & Hmem).
  assert (pool_place p' = pool_place p) as Hpl.
  { rewrite publish_reserve in Epub. destruct (Pool.reserve p key len) as [[r1 p1] ev1] eqn:Er.
    injection Epub as _ -> _ _. unfold pool_place. destruct (reserve_base _ _ _ _ _ _ Er) as (-> & -> & -> & ->). done. }
  assert (p_base p' = p_base p) as Hbase by (by injection Hpl).
  assert (pool_coh h p' m') as Hpc.
  { split; [pose proof (publish_inv p (l_mem s) key src len Hinv Hl) as Hi; by rewrite Epub in Hi|].
    intros k b Hb. destruct (Hnew k b Hb) as [[Hb0 ->]|[-> ->]]; [by apply Hpub|done]. }
  assert (same_node s (set_mem (set_pool s p') m')) as Hsn.
  { split; try done; simpl; [by rewrite Ep; simpl; rewrite Hpl|]. intros x Hx. apply Hmem. by apply Hx. }
  destruct ev as [|k0 ev].
  - split; [|split; [exact Hsn|by exists p']]. destruct Hc as [A1 A2 A3 A4 A5]. split; try done.
    + by intros q [= <-].
    + destruct A5 as [D1 D2 D3]. split; try done. intros ep k l Hs. destruct (D3 ep k l Hs) as [H1 H2].
      split; [done|]. eapply loc_right_pool; [|exact H2]. intros q Hq. rewrite Ep in Hq. injection Hq as <-.
      exists p'. split; [done|]. split; [done|]. intros b Hb. destruct (Hold k b Hb) as [?%not_elem_of_nil|?]; done.
  - split; [|split; [|]].
    + apply evict_keeps; [done|done|done| |by rewrite Ep]. intros q Hq. rewrite Ep in Hq. injection Hq as <-.
      split; [done|]. intros k b Hk Hb. by destruct (Hold k b Hb).
    + destruct Hsn as [S1 S2 S3 S4]. unfold _on_pool_evict. simpl. rewrite (lc_disk _ _ _ Hc). by split.
    + intros _ _. exists p'. unfold _on_pool_evict. simpl. by rewrite (lc_disk _ _ _ Hc).
Qed.

(** ** The publish loop *)

(** A buffer the pool does not overlap. *)
Definition apart_pool (s : local) (ptr len : Z) : Prop :=
  ∀ p, t_pool (l_tier s) = Some p → ranges_disjoint (p_base p) (p_capacity p) ptr len.

Lemma apart_pool_same s s' ptr len : same_node s s' → apart_pool s ptr len → apart_pool s' ptr len.
Proof.
  intros [_ _ Hp _] Ha p' Hp'. rewrite Hp' in Hp. destruct (t_pool (l_tier s)) as [p|] eqn:E; [|done].
  simpl in Hp. injection Hp as -> -> _ _. by apply Ha.
Qed.

Lemma same_node_read s s' ptr len :
  same_node s s' → apart_pool s ptr len → mem_read (l_mem s') ptr len = mem_read (l_mem s) ptr len.
Proof.
  intros Hs Ha. apply mem_read_ext. intros x Hx. apply (sm_mem _ _ Hs). intros p Hp.
  specialize (Ha p Hp). unfold ranges_disjoint in Ha. lia.
Qed.

(** A page to publish: its buffer, and its bytes in the history. *)
Definition item_ok (h : history) (s : local) (x : string * Z * Z * bool) : Prop :=
  let '(key, ptr, size, _) := x in
  0 ≤ size ∧ apart_pool s ptr size ∧ (key, mem_read (l_mem s) ptr size) ∈ h.

Lemma item_ok_same h s s' x : same_node s s' → item_ok h s x → item_ok h s' x.
Proof.
  destruct x as [[[key ptr] size] ex]. intros Hs (H1 & H2 & H3). split; [done|].
  split; [by eapply apart_pool_same|]. by rewrite (same_node_read _ _ _ _ Hs H2).
Qed.

(** An entry the node made for the directory: it is about this node, and has
    the key's length; its address may be out of date. *)
Definition entry_ok (i : ident) (k : string) (l : DataLocation) : Prop :=
  l_resident l = true → l_node_id l = i_id i ∧ rails_to (i_id i) l ∧ l_length l = key_len k.

Definition entries_ok (i : ident) (es : list (string * DataLocation)) : Prop :=
  NoDup (od_keys es) ∧ ∀ k l, od_get es k = Some l → entry_ok i k l.

Lemma entries_ok_set i es k l : entries_ok i es → entry_ok i k l → entries_ok i (od_set es k l).
Proof.
  intros [H1 H2] Hl. split; [by apply od_keys_set_nodup|]. intros k' l'. rewrite od_get_set.
  case_decide; [|apply H2]. intros [= <-]. by subst.
Qed.

Lemma resident_entry_ok i p k addr len :
  ident_ok i → len = key_len k → entry_ok i k (_resident_location i p addr len).
Proof.
  intros [H1 H2] Hl _. split; [done|]. split; [|done]. split; [done|]. unfold endpoints. simpl.
  destruct (i_rails i); [by repeat constructor|done].
Qed.

Lemma publish_pages_keeps h O items : ∀ s entries results bytes r s',
  sized h → lcoh h O s → Forall (item_ok h s) items → entries_ok (t_ident (l_tier s)) entries →
  publish_pages s items entries results bytes = (r, s') →
  lcoh h O s' ∧ same_node s s' ∧
  (∀ entries' results' bytes', r = Ret (entries', results', bytes') → entries_ok (t_ident (l_tier s)) entries').
Proof.
  induction items as [|[[[key ptr] size] ex] items IH]; intros s entries results bytes r s' Hsz Hc Hf He;
    cbn [publish_pages].
  { intros [= <- <-]. split; [done|]. split; [apply same_node_refl|]. by intros ??? [= <- <- <-]. }
  apply Forall_cons in Hf as [Hit Hf].
  assert (∀ s1 entries1 results1 bytes1, lcoh h O s1 → same_node s s1 → entries_ok (t_ident (l_tier s)) entries1 →
    publish_pages s1 items entries1 results1 bytes1 = (r, s') →
    lcoh h O s' ∧ same_node s s' ∧
    (∀ entries' results' bytes', r = Ret (entries', results', bytes') → entries_ok (t_ident (l_tier s)) entries')) as Hgo.
  { intros s1 entries1 results1 bytes1 Hc1 Hs1 He1 Hp.
    rewrite <-(sm_ident _ _ Hs1) in He1.
    destruct (IH s1 entries1 results1 bytes1 r s' Hsz Hc1) as (I1 & I2 & I3); [|done|done|].
    - eapply Forall_impl; [exact Hf|]. intros x. by apply item_ok_same.
    - split; [done|]. split; [by eapply same_node_trans|]. rewrite (sm_ident _ _ Hs1) in I3. done. }
  destruct ex; [by apply Hgo; [|apply same_node_refl|]|].
  destruct Hit as (Hsize & Hap & Hin).
  destruct (pool_publish s key ptr size) as [r1 s1] eqn:Ep.
  destruct (pool_publish_keeps h O s key ptr size r1 s1 Hc Hsize Hin Ep) as (Hc1 & Hs1 & Hr1).
  destruct r1 as [[addr|]|e]; [|by apply Hgo|intros [= <- <-]; by split].
  unfold disk_put. rewrite (lc_disk _ _ _ Hc1). destruct (Hr1 addr eq_refl) as [p Hp].
  destruct (lcoh_key_len h O s1 (od_set (t_key_len (l_tier s1)) key size) Hc1) as [Hc2 Hs2]. simpl. rewrite Hp.
  apply Hgo; [done|by eapply same_node_trans|]. apply entries_ok_set; [done|].
  rewrite (sm_ident _ _ Hs1). apply resident_entry_ok; [apply Hc|].
  rewrite <-(Hsz _ _ Hin). by rewrite zlength_mem_read.
Qed.

(** ** Reconciliation *)

(** The pool holds the same pages at the same places. *)
Definition same_pool (s s' : local) : Prop :=
  ∀ p, t_pool (l_tier s) = Some p → ∃ p', t_pool (l_tier s') = Some p' ∧ p_base p' = p_base p ∧
    ∀ k, od_get (p_entries p') k = od_get (p_entries p) k.

Lemma same_pool_refl s : same_pool s s.
Proof. intros p Hp. eauto. Qed.

Lemma same_pool_trans s1 s2 s3 : same_pool s1 s2 → same_pool s2 s3 → same_pool s1 s3.
Proof.
  intros H1 H2 p Hp. destruct (H1 p Hp) as (p1 & Hp1 & Hb1 & Hk1). destruct (H2 p1 Hp1) as (p2 & Hp2 & Hb2 & Hk2).
  exists p2. split; [done|]. split; [congruence|]. intros k. by rewrite Hk2.
Qed.

Lemma loc_right_same me O s s' k l :
  same_pool s s' → loc_right me O (t_pool (l_tier s)) k l → loc_right me O (t_pool (l_tier s')) k l.
Proof.
  intros Hs. apply loc_right_pool. intros q Hq. destruct (Hs q Hq) as (q' & H1 & H2 & H3). exists q'.
  split; [done|]. split; [done|]. intros b. by rewrite H3.
Qed.

Lemma reconcile_one_keeps h O s entries key entries' s' :
  sized h → lcoh h O s → entries_ok (t_ident (l_tier s)) entries →
  reconcile_one (entries, s) key = (entries', s') →
  lcoh h O s' ∧ same_node s s' ∧ l_mem s' = l_mem s ∧ l_dir s' = l_dir s ∧
  same_pool s s' ∧
  entries_ok (t_ident (l_tier s)) entries' ∧
  (∀ k, k ≠ key → od_get entries' k = od_get entries k) ∧
  (∀ l, od_get entries' key = Some l → loc_right (i_id (t_ident (l_tier s))) O (t_pool (l_tier s)) key l).
Proof.
  intros Hsz Hc He. unfold reconcile_one. destruct (od_get entries key) as [loc|] eqn:Eg.
  2:{ intros [= <- <-]. split; [done|]. split; [apply same_node_refl|]. split; [done|]. split; [done|].
      split; [apply same_pool_refl|]. split; [done|]. split; [done|]. rewrite Eg. done. }
  destruct (pool_address s key) as [al s1] eqn:Ea.
  destruct (pool_address_keeps h O s key al s1 Hc Ea) as (Hc1 & Hs1 & Hm1 & Hd1 & Hal & Hp1).
  assert (∀ l, entry_ok (t_ident (l_tier s)) key l →
    loc_right (i_id (t_ident (l_tier s))) O (t_pool (l_tier s)) key l → (od_set entries key l, s1) = (entries', s') →
    lcoh h O s' ∧ same_node s s' ∧ l_mem s' = l_mem s ∧ l_dir s' = l_dir s ∧
    same_pool s s' ∧
    entries_ok (t_ident (l_tier s)) entries' ∧
    (∀ k, k ≠ key → od_get entries' k = od_get entries k) ∧
    (∀ l, od_get entries' key = Some l → loc_right (i_id (t_ident (l_tier s))) O (t_pool (l_tier s)) key l)) as Hset.
  { intros l H1 H2 [= <- <-]. split; [done|]. split; [done|]. split; [done|]. split; [done|]. split; [done|].
    split; [by apply entries_ok_set|]. split; [intros k Hk; by rewrite od_get_set_ne|].
    intros l'. rewrite od_get_set_eq. by intros [= <-]. }
  destruct al as [[addr n]|]; [|apply Hset; done].
  pose proof (proj2 He key loc Eg) as Hok. destruct (Hal addr n eq_refl) as (p & Hp & Hpage).
  apply Hset.
  - intros Hres. exact (Hok Hres).
  - intros Hres. simpl in Hres. destruct (Hok Hres) as (Hid & Hr & Hlen). simpl. rewrite Hid.
    split; [exact Hr|]. rewrite decide_True by done. exists p. split; [done|].
    destruct Hpage as (b & Hb & Ha & Hn). exists b. split; [done|]. split; [done|].
    destruct (lc_pool _ _ _ Hc p Hp) as [Hinv Hpub]. rewrite Hlen, <-(Hsz _ _ (Hpub key b Hb)).
    unfold page_bytes. apply zlength_mem_read. by apply (pool_inv_bounds _ _ _ Hinv Hb).
Qed.

Lemma reconcile_fold_keeps h O keys : ∀ s entries entries' s',
  sized h → lcoh h O s → entries_ok (t_ident (l_tier s)) entries →
  foldl reconcile_one (entries, s) keys = (entries', s') →
  lcoh h O s' ∧ same_node s s' ∧ same_pool s s' ∧ entries_ok (t_ident (l_tier s)) entries' ∧
  (∀ k, k ∉ keys → od_get entries' k = od_get entries k) ∧
  (∀ k l, k ∈ keys → od_get entries' k = Some l →
     loc_right (i_id (t_ident (l_tier s))) O (t_pool (l_tier s')) k l).
Proof.
  induction keys as [|key keys IH]; intros s entries entries' s' Hsz Hc He; cbn [foldl].
  { intros [= <- <-]. split; [done|]. split; [apply same_node_refl|]. split; [apply same_pool_refl|]. split; [done|].
    split; [done|]. by intros ?? ?%not_elem_of_nil. }
  destruct (reconcile_one (entries, s) key) as [e1 s1] eqn:E1. intros Hf.
  destruct (reconcile_one_keeps h O s entries key e1 s1 Hsz Hc He E1) as (Hc1 & Hs1 & _ & _ & Hp1 & He1 & Hne1 & Hr1).
  rewrite <-(sm_ident _ _ Hs1) in He1.
  destruct (IH s1 e1 entries' s' Hsz Hc1 He1 Hf) as (Hc2 & Hs2 & Hp2 & He2 & Hne2 & Hr2).
  rewrite (sm_ident _ _ Hs1) in He2, Hr2.
  split; [done|]. split; [by eapply same_node_trans|]. split; [by eapply same_pool_trans|]. split; [done|]. split.
  - intros k Hk. rewrite Hne2 by set_solver. apply Hne1. set_solver.
  - intros k l Hk Hl. destruct (decide (k ∈ keys)) as [Hin|Hnin]; [by eapply Hr2|].
    assert (k = key) as -> by set_solver. rewrite Hne2 in Hl by done.
    eapply loc_right_same; [exact (same_pool_trans _ _ _ Hp1 Hp2)|]. by apply Hr1.
Qed.

(** ** Writing the entries *)

Lemma put_coh me O p d entries :
  dir_coh me O p d → NoDup (od_keys entries) → (∀ k l, od_get entries k = Some l → loc_right me O p k l) →
  dir_coh me O p (Directory.put dc d entries).
Proof.
  intros [D1 D2 D3] Hnd Hl. split.
  - by apply put_wf.
  - intros ep Hep. pose proof (proj1 (put_spec dc d entries "" "" Hnd)) as Hnet.
    rewrite (Directory.same_net_takes _ _ _ Hnet). apply D2. by apply Hnet.
  - intros ep k l Hs. unfold stored_loc in Hs. rewrite (proj2 (put_spec dc d entries ep k Hnd)) in Hs.
    destruct (od_get entries k) as [loc|] eqn:Ek; [|by apply D3].
    destruct (takes d ep && owned_at dc k ep) eqn:Et; [|by apply D3]. simpl in Hs.
    rewrite loc_from_to_dict in Hs. injection Hs as <-. apply andb_true_iff in Et as [_ ?]. split; [done|by apply Hl].
Qed.

Lemma directory_put_keeps h O s entries :
  lcoh h O s → NoDup (od_keys entries) →
  (∀ k l, od_get entries k = Some l → loc_right (i_id (t_ident (l_tier s))) O (t_pool (l_tier s)) k l) →
  lcoh h O (directory_put s entries) ∧ same_node s (directory_put s entries).
Proof.
  intros [A1 A2 A3 A4 A5] Hnd Hl. split; [|by split]. split; try done. simpl. rewrite A1. by apply put_coh.
Qed.

Lemma publish_p2p_keeps h O s keys ptrs sizes upd seconds r s' :
  sized h → lcoh h O s →
  (∀ i k p n, keys !! i = Some k → ptrs !! i = Some p → sizes !! i = Some n →
     0 ≤ n ∧ apart_pool s p n ∧ (k, mem_read (l_mem s) p n) ∈ h) →
  _publish_p2p s keys ptrs sizes upd seconds = (r, s') → lcoh h O s' ∧ same_node s s'.
Proof.
  intros Hsz Hc Hitems. unfold _publish_p2p. rewrite Directory.exists_spec.
  set (items := zip (zip (zip keys ptrs) sizes) _).
  assert (set_dir s (l_dir s) = s) as -> by by destruct s.
  assert (Forall (item_ok h s) items) as Hf.
  { apply Forall_forall. intros [[[k p] n] ex] (i & Hi)%list_elem_of_lookup_1.
    apply lookup_zip_with_Some in Hi as (x & y & [= <- <-] & Hx & _).
    apply lookup_zip_with_Some in Hx as (x & y & [= <- <-] & Hx & Hn).
    apply lookup_zip_with_Some in Hx as (? & ? & [= <- <-] & Hk & Hp). by eapply Hitems. }
  destruct (publish_pages s items [] [] 0) as [r1 s1] eqn:Ep.
  destruct (publish_pages_keeps h O items s [] [] 0 r1 s1 Hsz Hc Hf) as (Hc1 & Hs1 & He1);
    [split; [constructor|done]|exact Ep|].
  destruct r1 as [[[entries results] bytes]|e]; [|intros [= <- <-]; by split].
  unfold reconcile. destruct (foldl reconcile_one (entries, s1) (od_keys entries)) as [entries' s2] eqn:Er.
  pose proof (He1 _ _ _ eq_refl) as He. rewrite <-(sm_ident _ _ Hs1) in He.
  destruct (reconcile_fold_keeps h O (od_keys entries) s1 entries entries' s2 Hsz Hc1 He Er)
    as (Hc2 & Hs2 & _ & He2 & Hout & Hin).
  assert (same_node s s2) as Hs02 by by eapply same_node_trans.
  set (s3 := match entries' with [] => s2 | _ => if upd then directory_put s2 entries' else s2 end).
  assert (lcoh h O s3 ∧ same_node s s3) as [Hc3 Hs3].
  { destruct (directory_put_keeps h O s2 entries' Hc2 (proj1 He2)) as [Hc3 Hs3].
    - intros k l Hl. rewrite (sm_ident _ _ Hs2). apply Hin; [|done].
      destruct (decide (k ∈ od_keys entries)) as [|Hn]; [done|]. rewrite (Hout k Hn) in Hl.
      apply od_get_is_Some. eauto.
    - subst s3. destruct entries'; [done|]. destruct upd; [|done]. split; [done|by eapply same_node_trans]. }
  intros [= <- <-]. destruct (lcoh_metrics h O s3 (record_write (t_metrics (l_tier s3)) bytes seconds) Hc3) as [H1 H2].
  split; [done|by eapply same_node_trans].
Qed.

(** ** Promotion without a disk *)

Lemma resident_right i O p k addr n :
  ident_ok i → pool_page p k addr n → loc_right (i_id i) O (Some p) k (_resident_location i p addr n).
Proof.
  intros Hi Hp _. destruct (resident_entry_ok i p k addr (key_len k) Hi eq_refl eq_refl) as (_ & Hr & _).
  simpl. split; [exact Hr|]. rewrite decide_True by done. eauto.
Qed.

(** Pages that are in the pool are found, others are not. *)
Lemma ensure_fold_keeps h O keys : ∀ s out out' promoted s',
  lcoh h O s → foldl ensure_one (out, [], s) keys = (out', promoted, s') →
  promoted = [] ∧ lcoh h O s' ∧ same_node s s' ∧ same_pool s s' ∧ l_mem s' = l_mem s ∧
  ∃ new, out' = out ++ new ∧ length new = length keys ∧
    ∀ i k l, keys !! i = Some k → new !! i = Some (Some l) →
      loc_right (i_id (t_ident (l_tier s))) O (t_pool (l_tier s)) k l.
Proof.
  induction keys as [|k keys IH]; intros s out out' promoted s' Hc; cbn [foldl].
  { intros [= <- <- <-]. split; [done|]. split; [done|]. split; [apply same_node_refl|].
    split; [apply same_pool_refl|]. split; [done|]. exists []. rewrite app_nil_r. split; [done|]. done. }
  destruct (ensure_one (out, [], s) k) as [[out1 pr1] s1] eqn:E1. intros Hf.
  assert (pr1 = [] ∧ lcoh h O s1 ∧ same_node s s1 ∧ same_pool s s1 ∧ l_mem s1 = l_mem s ∧
    ∃ o, out1 = out ++ [o] ∧ ∀ l, o = Some l → loc_right (i_id (t_ident (l_tier s))) O (t_pool (l_tier s)) k l)
    as (-> & Hc1 & Hs1 & Hp1 & Hm1 & o & -> & Ho).
  { unfold ensure_one in E1. destruct (t_pool (l_tier s)) as [p|] eqn:Ep.
    2:{ injection E1 as <- <- <-. split; [done|]. split; [done|]. split; [apply same_node_refl|].
        split; [apply same_pool_refl|]. split; [done|]. by exists None. }
    destruct (pool_address s k) as [al s2] eqn:Ea.
    destruct (pool_address_keeps h O s k al s2 Hc Ea) as (Hc2 & Hs2 & Hm2 & _ & Hal & Hp2).
    destruct al as [[addr n]|].
    - injection E1 as <- <- <-. split; [done|]. split; [done|]. split; [done|]. split; [exact Hp2|]. split; [done|].
      eexists. split; [done|]. intros l [= <-]. apply resident_right; [apply Hc|].
      destruct (Hal addr n eq_refl) as (p' & Hp' & Hpg). rewrite Ep in Hp'. by injection Hp' as <-.
    - unfold disk_get in E1. rewrite (lc_disk _ _ _ Hc2) in E1. injection E1 as <- <- <-.
      split; [done|]. split; [done|]. split; [done|]. split; [exact Hp2|]. split; [done|]. by exists None. }
  destruct (IH s1 (out ++ [o]) out' promoted s' Hc1 Hf) as (-> & Hc2 & Hs2 & Hp2 & Hm2 & new & -> & Hlen & Hnew).
  split; [done|]. split; [done|]. split; [by eapply same_node_trans|]. split; [by eapply same_pool_trans|].
  split; [congruence|]. exists (o :: new). split; [by rewrite <-app_assoc|]. split; [by simpl; rewrite Hlen|].
  intros [|i] k' l; simpl.
  - intros [= <-] [= ->]. by apply Ho.
  - intros Hk Hl. pose proof (Hnew i k' l Hk Hl) as Hr. rewrite (sm_ident _ _ Hs1) in Hr.
    intros Hres. destruct (Hr Hres) as [H1 H2]. split; [done|]. case_decide; [|done].
    destruct H2 as (p1 & Hpp & b & Hb & Ha & Hn).
    destruct (t_pool (l_tier s)) as [p|] eqn:Ep.
    + destruct (Hp1 p Ep) as (p1' & Hp1' & Hbase & Hent). rewrite Hpp in Hp1'. injection Hp1' as <-.
      exists p. split; [done|]. exists b. rewrite <-Hent, <-Hbase. done.
    + destruct Hs1 as [_ _ Hpl _]. rewrite Hpp, Ep in Hpl. done.
Qed.

Lemma ensure_resident_keeps h O s keys out s' :
  lcoh h O s → _ensure_resident s keys = (out, s') →
  lcoh h O s' ∧ same_node s s' ∧ same_pool s s' ∧ l_mem s' = l_mem s ∧ length out = length keys ∧
  ∀ i k l, keys !! i = Some k → out !! i = Some (Some l) →
    loc_right (i_id (t_ident (l_tier s))) O (t_pool (l_tier s)) k l.
Proof.
  intros Hc. unfold _ensure_resident. destruct (foldl ensure_one ([], [], s) keys) as [[out' promoted] s1] eqn:Ef.
  destruct (ensure_fold_keeps h O keys s [] out' promoted s1 Hc Ef) as (-> & H1 & H2 & H3 & H4 & new & -> & H5 & H6).
  intros [= <- <-]. done.
Qed.

Lemma on_data_promote_keeps h O s keys r s' :
  lcoh h O s → _on_data_promote s (VDict [("keys", VList (VStr <$> keys))]) = (r, s') →
  lcoh h O s' ∧ same_node s s' ∧ same_pool s s' ∧ l_mem s' = l_mem s ∧
  ∃ out, r = Ret (VDict [("locations", VList (opt_loc_dict <$> out))]) ∧ length out = length keys ∧
    ∀ i k l, keys !! i = Some k → out !! i = Some (Some l) →
      loc_right (i_id (t_ident (l_tier s))) O (t_pool (l_tier s)) k l.
Proof.
  intros Hc. unfold _on_data_promote. simpl. rewrite (py_mapM_ret as_str VStr) by done. simpl.
  destruct (_ensure_resident s keys) as [out s1] eqn:E.
  destruct (ensure_resident_keeps h O s keys out s1 Hc E) as (Hc1 & Hs1 & Hp1 & Hm1 & Hlen & Hout).
  intros [= <- <-].
  set (s2 := match missing keys out with [] => s1 | misses => directory_delete s1 misses end).
  assert (lcoh h O s2 ∧ same_node s1 s2 ∧ same_pool s1 s2 ∧ l_mem s2 = l_mem s1) as (H1 & H2 & H3 & H4).
  { subst s2. destruct (missing keys out) as [|k0 ks] eqn:Em.
    - split; [done|]. split; [apply same_node_refl|]. split; [apply same_pool_refl|done].
    - split; [|split; [by split|split; [intros p Hp; by exists p|done]]].
      destruct Hc1 as [A1 A2 A3 A4 A5]. split; try done. simpl. rewrite A1.
      eapply delete_coh; [exact A5|]. intros q Hq. exists q. done. }
  split; [done|]. split; [by eapply same_node_trans|]. split; [by eapply same_pool_trans|]. split; [congruence|].
  exists out. done.
Qed.
End coherence.
