(* ===== verification/StorageServer.v ===== *)
(** The storage server of [storage_server.py]: a dedicated node that keeps the
    pages inference nodes push to it.

    A writer reserves pool slots ([data_prepare_writes]), writes the bytes into
    them with the data plane, and commits them ([data_commit_writes]); when the
    data plane fails it sends the bytes by RPC ([data_ingest]).  The handlers
    work on the [local] of [Tier.v]; the operations the server shares with
    [PeerCacheStore] are the ones of that file. *)
From S2P Require Import Prelude Bytes Hashlib HashRing Types Rpc Directory Pool DiskStore Metrics Tier.

Section storage.
Context {RH : RingHash} {SI : SetIter} {HL : Hashlib}.

(** ** The operations shared with the store

    The source repeats them; its server always has a pool. *)

Definition storage_resident_location := Tier._resident_location.
Definition storage_on_pool_evict := Tier._on_pool_evict.
Definition storage_on_disk_evict := Tier._on_disk_evict.
Definition storage_ensure_resident := Tier._ensure_resident.
Definition storage_on_data_promote := Tier._on_data_promote.
Definition storage_republish_directory := Tier._republish_directory.

(** ** Requests *)

(** [p.get("key")], [None] when it is absent or empty. *)
Definition page_key (p : pyval) : pyres (option string) :=
  v ← py_get p "key" VNone; if py_truthy v then s ← as_str v; Ret (Some s) else Ret None.

(** [args.get(name) or []], as a list. *)
Definition list_arg (args : pyval) (name : string) : pyres (list pyval) :=
  v ← py_get args name VNone; py_list (py_or v (VList [])).

(** The pages of a request, and the keys they name. *)
Definition request_pages (args : pyval) : pyres (list pyval * list string) :=
  pages ← list_arg args "pages"; keys ← py_mapM page_key pages; Ret (pages, omap (M:=list) id keys).

(** [dict(zip(keys, self.runtime.directory.exists(keys) if keys else []))] *)
Definition exist_map (s : local) (keys : list string) : list (string * bool) * local :=
  match keys with
  | [] => ([], s)
  | _ => let '(existing, dir) := Directory.dir_exists (t_dc (l_tier s)) (l_dir s) keys in
         (assign [] keys existing, set_dir s dir)
  end.

Definition _slot_dict (i : ident) (p : PublishedPool) (key : string) (remote_addr length : Z) : pyval :=
  VDict [("key", VStr key); ("node_id", VStr (i_id i)); ("rdma_endpoint", VStr (i_endpoint i));
         ("remote_addr", VInt remote_addr); ("rkey", VInt (p_rkey p));
         ("rail_endpoints", VList (VStr <$> i_rails i)); ("rail_rkeys", VList (VInt <$> p_rkeys p));
         ("length", VInt length)].

(** ** Zero-copy writes *)

(** The body of the loop of [_on_data_prepare_writes]. *)
Definition prepare_one (s : local) (exists_of : list (string * bool)) (p : pyval) : pyres pyval * local :=
  match key ← page_key p; n ← py_get p "length" VNone; length ← py_int (py_or n (VInt 0)); Ret (key, length) with
  | Raise e => (Raise e, s)
  | Ret (None, _) => (Ret VNone, s)
  | Ret (Some key, length) =>
      if length <=? 0 then (Ret VNone, s)
      else
        let i := t_ident (l_tier s) in
        let resident :=
          if default false (od_get exists_of key) then pool_address s key else (None, s) in
        match resident, t_pool (l_tier s) with
        | (Some (addr, ln), s), Some pool => (Ret (_slot_dict i pool key addr ln), s)
        | (_, s), Some pool =>
            match pool_reserve s key length with
            | (Ret (Some addr), s) => (Ret (_slot_dict i pool key addr length), s)
            | (Ret None, s) => (Ret VNone, s)
            | (Raise e, s) => (Raise e, s)
            end
        | (_, s), None => (Raise AttributeError, s)
        end
  end.

(** A loop over the pages of a request; an exception ends it half-way. *)
Fixpoint each_page (f : local → pyval → pyres pyval * local) (s : local) (pages : list pyval) :
    pyres (list pyval) * local :=
  match pages with
  | [] => (Ret [], s)
  | p :: pages' =>
      match f s p with
      | (Raise e, s) => (Raise e, s)
      | (Ret v, s) =>
          match each_page f s pages' with
          | (Ret vs, s) => (Ret (v :: vs), s)
          | (Raise e, s) => (Raise e, s)
          end
      end
  end.

Definition _on_data_prepare_writes (s : local) (args : pyval) : pyres pyval * local :=
  match request_pages args with
  | Raise e => (Raise e, s)
  | Ret (pages, keys) =>
      let '(exists_of, s) := exist_map s keys in
      match each_page (λ s p, prepare_one s exists_of p) s pages with
      | (Ret slots, s) => (Ret (VDict [("slots", VList slots)]), s)
      | (Raise e, s) => (Raise e, s)
      end
  end.

(** The body of the loop of [_on_data_commit_writes]. *)
Definition commit_one (st : list (string * DataLocation) * list bool * local) (key : string) :
    list (string * DataLocation) * list bool * local :=
  let '(entries, results, s) := st in
  match t_pool (l_tier s), pool_address s key with
  | Some pool, (Some (addr, length), s) =>
      let entries := od_set entries key (_resident_location (t_ident (l_tier s)) pool addr length) in
      let s := set_key_len s (od_set (t_key_len (l_tier s)) key length) in
      (entries, results ++ [true], disk_put s key (mem_read (l_mem s) addr length))
  | _, (_, s) => (entries, results ++ [false], s)
  end.

Definition _on_data_commit_writes (s : local) (args : pyval) : pyres pyval * local :=
  match l ← list_arg args "keys"; py_mapM as_str l with
  | Raise e => (Raise e, s)
  | Ret keys =>
      let '(entries, results, s) := foldl commit_one ([], [], s) keys in
      let s :=
        match entries with
        | [] => s
        | _ => let s := directory_put s entries in
               set_metrics s (record_write (t_metrics (l_tier s)) (sumZ ((λ e, l_length e.2) <$> entries)) 0)
        end in
      (Ret (VDict [("ok", VList (VBool <$> results))]), s)
  end.

(** ** Pages sent by RPC *)

(** [bytes(data)] of the accepted types: [Ret None] rejects the page. *)
Definition page_data (data : pyval) : pyres (option (list Z)) :=
  match data with
  | VBytes bs => Ret (Some bs)
  | VList l =>
      bs ← py_mapM py_int l;
      if forallb (λ b, (0 <=? b) && (b <? 256)) bs then Ret (Some bs) else Raise ValueError
  | _ => Ret None
  end.

(** The loop of [_on_data_ingest]. *)
Fixpoint ingest_pages (s : local) (exists_of : list (string * bool)) (pages : list pyval)
    (entries : list (string * DataLocation)) (results : list bool) (bytes : Z) :
    pyres (list (string * DataLocation) * list bool * Z) * local :=
  match pages with
  | [] => (Ret (entries, results, bytes), s)
  | p :: pages' =>
      match key ← page_key p; data ← py_get p "data" VNone; Ret (key, data) with
      | Raise e => (Raise e, s)
      | Ret (None, _) | Ret (_, VNone) => ingest_pages s exists_of pages' entries (results ++ [false]) bytes
      | Ret (Some key, data) =>
          if default false (od_get exists_of key)
          then ingest_pages s exists_of pages' entries (results ++ [true]) bytes
          else
            match page_data data with
            | Raise e => (Raise e, s)
            | Ret None => ingest_pages s exists_of pages' entries (results ++ [false]) bytes
            | Ret (Some data) =>
                let i := t_ident (l_tier s) in
                let s := set_mem s (mem_write (l_mem s) (i_scratch i) data) in
                match pool_publish s key (i_scratch i) (zlength data) with
                | (Raise e, s) => (Raise e, s)
                | (Ret None, s) => ingest_pages s exists_of pages' entries (results ++ [false]) bytes
                | (Ret (Some addr), s) =>
                    let s := disk_put s key data in
                    let s := set_key_len s (od_set (t_key_len (l_tier s)) key (zlength data)) in
                    match t_pool (l_tier s) with
                    | None => (Raise AttributeError, s)
                    | Some pool =>
                        ingest_pages s exists_of pages'
                          (od_set entries key (_resident_location i pool addr (zlength data)))
                          (results ++ [true]) (bytes + zlength data)
                    end
                end
            end
      end
  end.

Definition _on_data_ingest (s : local) (args : pyval) (seconds : Z) : pyres pyval * local :=
  match request_pages args with
  | Raise e => (Raise e, s)
  | Ret (pages, keys) =>
      let '(exists_of, s) := exist_map s keys in
      match ingest_pages s exists_of pages [] [] 0 with
      | (Raise e, s) => (Raise e, s)
      | (Ret (entries, results, bytes), s) =>
          let '(entries, s) := reconcile s entries in
          let s := match entries with [] => s | _ => directory_put s entries end in
          let s := set_metrics s (record_write (t_metrics (l_tier s)) bytes seconds) in
          (Ret (VDict [("ok", VList (VBool <$> results))]), s)
      end
  end.

(** The handlers a storage server registers; an ingest takes [seconds]. *)
Definition storage_service (seconds : Z) : Service local :=
  register (register (register (register (λ _, None)
    "data_prepare_writes" _on_data_prepare_writes)
    "data_commit_writes" _on_data_commit_writes)
    "data_ingest" (λ s args, _on_data_ingest s args seconds))
    "data_promote" storage_on_data_promote.
End storage.
