(* ===== verification/Lifecycle.v ===== *)
(** Starting, running and stopping a node: the embedded discovery master and
    the constructor of [NodeRuntime] ([server.py]), the registration loop of
    [DiscoveryClient.start] ([discovery.py]), the state [PeerCacheStore] and
    [StorageServer] begin with, and how they are closed.

    What the operating system answers is an argument: which control port was
    bound, which endpoint the transport listens on, what the disk directory
    holds.  The rest of the cluster moves between two passes of a loop by an
    arbitrary function on the discovery network. *)
From S2P Require Import Prelude Bytes Hashlib HashRing Types Rpc Directory Discovery Runtime Pool DiskStore Config Metrics Tier Coherence StorageServer.

(** ** Waiting for a master *)

(** One pass of the loop of [_register_blocking]: whether [stop] has not been
    called yet, the masters' clocks, and what the others did since the last pass. *)
Record poll := mk_poll {
  po_running : bool;
  po_now : clock;
  po_env : dnet → dnet
}.

Inductive boot :=
  | Registered (attempts : nat) (c : DiscoveryClient) (members : list NodeInfo)
  | Stopped
  | Waiting.

Fixpoint register_loop (attempt : nat) (c : DiscoveryClient) (polls : list poll) (w : dnet) : boot * dnet :=
  match polls with
  | [] => (Waiting, w)
  | p :: polls' =>
      let w := po_env p w in
      if po_running p then
        match client_register (po_now p) c w with
        | (Ret (c', ms), w) => (Registered (S attempt) c' ms, w)
        | (Raise _, w) => register_loop (S attempt) c polls' w
        end
      else (Stopped, w)
  end.

(** [_register_blocking]; [Waiting] when the passes given are used up. *)
Definition _register_blocking (c : DiscoveryClient) (polls : list poll) (w : dnet) : boot * dnet :=
  register_loop 0 c polls w.

(** Passes that found the node running and every target silent, and the
    network after them. *)
Fixpoint unanswered (c : DiscoveryClient) (polls : list poll) (w : dnet) : bool :=
  match polls with
  | [] => true
  | p :: polls' =>
      po_running p && negb (existsb (live_ep (po_env p w)) (_targets c)) &&
      unanswered c polls' (client_register (po_now p) c (po_env p w)).2
  end.
Definition net_after (c : DiscoveryClient) (polls : list poll) (w : dnet) : dnet :=
  foldl (λ w p, (client_register (po_now p) c (po_env p w)).2) w polls.

(** The others keep the registries well formed. *)
Definition fair_env (T : Z) (p : poll) : Prop := ∀ w, servers (registry_ok T) w → servers (registry_ok T) (po_env p w).

Lemma reached_live (c : DiscoveryClient) (w : dnet) (reached : Z) :
  0 ≤ reached → (reached = 0 ↔ ∀ ep, ep ∈ _targets c → live_ep w ep = false) →
  (reached =? 0) = negb (existsb (live_ep w) (_targets c)).
Proof.
  intros H0 Hz. apply eq_bool_prop_intro. rewrite !Is_true_true, Z.eqb_eq, negb_true_iff, <-not_true_iff_false, Hz.
  rewrite existsb_exists. split.
  - intros Ha (ep & Hin%list_elem_of_In & Hl). rewrite (Ha ep Hin) in Hl. done.
  - intros Hn ep Hin%list_elem_of_In. apply not_true_iff_false. intros Hl. apply Hn. eauto.
Qed.

Lemma node_from_dict_id m v nid n :
  py_getitem m "node_id" = Ret v → as_id v = Ret nid → node_from_dict m = Ret n → n_node_id n = nid.
Proof.
  intros Hv Hid. unfold node_from_dict. rewrite Hv. destruct v; try done. injection Hid as ->. simpl.
  repeat (match goal with |- context [mbind (M:=pyres) _ ?r] => destruct r; simpl; [|done] end). by intros [= <-].
Qed.

(** The members a client has installed, by id. *)
Definition members_ok (ms : list (string * NodeInfo)) : Prop :=
  NoDup (od_keys ms) ∧ ∀ k n, od_get ms k = Some n → n_node_id n = k.

Lemma parse_members_ok raw : ∀ acc r, members_ok acc → parse_members raw acc = Ret r → members_ok r.
Proof.
  induction raw as [|m raw IH]; intros acc r Hok; simpl; [by intros [= <-]|].
  destruct (py_getitem m "node_id") as [v|] eqn:Ev; simpl; [|done].
  destruct (as_id v) as [nid|] eqn:Eid; simpl; [|done].
  destruct (node_from_dict m) as [n|] eqn:En; simpl; [|done]. apply IH. destruct Hok as [Hnd Hg].
  split; [by apply od_keys_set_nodup|]. intros k n'. rewrite od_get_set. case_decide as Hk; [|by apply Hg].
  intros [= <-]. subst. by eapply node_from_dict_id.
Qed.

Lemma apply_members_ok c raw c' ms :
  _apply_members c raw = Ret (c', ms) → ms = (k_members c').*2 ∧ members_ok (k_members c').
Proof.
  unfold _apply_members. destruct (parse_members raw []) as [r|] eqn:Er; simpl; [|done]. intros [= <- <-].
  split; [done|]. eapply parse_members_ok; [|done]. split; [constructor|done].
Qed.

(** What one registration does. *)
Lemma client_register_spec T now c w :
  servers (registry_ok T) w →
  ∃ r w', client_register now c w = (r, w') ∧ servers (registry_ok T) w' ∧ (∀ ep, live_ep w' ep = live_ep w ep) ∧
  if existsb (live_ep w) (_targets c)
  then ∃ c', r = Ret (c', (k_members c').*2) ∧ k_self c' = k_self c ∧ members_ok (k_members c') ∧
         is_Some (od_get (k_members c') (n_node_id (k_self c)))
  else r = Raise ConnectionError.
Proof.
  intros Hw. unfold client_register.
  destruct (register_all_spec now c (_targets c) w Hw) as (reached & merged & w' & -> & Hw' & Hl & Hm & H0 & Hz & Hj).
  rewrite (reached_live c w reached H0 Hz). destruct (existsb _ _) eqn:E; simpl; [|by eauto 10].
  destruct (apply_merged c merged Hm) as (c' & Ha & Hself & Hs). rewrite Ha.
  destruct (apply_members_ok _ _ _ _ Ha) as [_ Hok]. eexists _, w'. split; [reflexivity|]. split; [done|].
  split; [done|]. exists c'. split; [done|]. split; [done|]. split; [done|]. apply Hs, Hj.
  assert ((reached =? 0) = false) as ?%Z.eqb_neq by (rewrite (reached_live c w reached H0 Hz); by rewrite E). lia.
Qed.

(** The loop passes over the silent passes and acts on the next one. *)
Lemma register_loop_spec T c polls : Forall (fair_env T) polls → ∀ w attempt, servers (registry_ok T) w →
  ∃ pre rest, polls = pre ++ rest ∧ unanswered c pre w = true ∧
  let w1 := net_after c pre w in
  match rest with
  | [] => register_loop attempt c polls w = (Waiting, w1)
  | p :: _ =>
      let w2 := po_env p w1 in
      if po_running p then
        existsb (live_ep w2) (_targets c) = true ∧
        ∃ c' w', register_loop attempt c polls w = (Registered (S (attempt + length pre)) c' (k_members c').*2, w') ∧
          servers (registry_ok T) w' ∧ k_self c' = k_self c ∧ members_ok (k_members c') ∧
          is_Some (od_get (k_members c') (n_node_id (k_self c)))
      else register_loop attempt c polls w = (Stopped, w2)
  end.
Proof.
  induction 1 as [|p polls Hp Henv IH]; intros w attempt Hw; [by exists [], []|].
  cbn [register_loop]. destruct (po_running p) eqn:Er.
  2:{ exists [], (p :: polls). simpl. rewrite Er. done. }
  destruct (client_register_spec T (po_now p) c (po_env p w) (Hp w Hw)) as (r & w' & Hreg & Hw' & _ & Hlive).
  rewrite Hreg. destruct (existsb _ _) eqn:El.
  - destruct Hlive as (c' & -> & Hlive). exists [], (p :: polls). simpl. rewrite Er, Nat.add_0_r. eauto 10.
  - subst r. destruct (IH w' (S attempt) Hw') as (pre & rest & -> & Hun & Hrest). exists (p :: pre), rest.
    split; [done|]. simpl. rewrite Er, El, Hreg. simpl. split; [done|].
    rewrite Nat.add_succ_r, <-Nat.add_succ_l. exact Hrest.
Qed.

(** C25: a node waits for a master and joins through the first one that answers.
    Whatever the rest of the cluster does between the passes, as long as
    registries stay well formed, the loop of [_register_blocking] raises
    nothing; it passes over exactly the leading passes in which every target is
    silent, changing nothing in the client; and the next pass, if the node is
    still running, registers: the node's own id is in the membership it
    installs.  If [stop] came first, the loop ends there. *)
Theorem register_blocking_joins (c : DiscoveryClient) (polls : list poll) (w : dnet)
  (Hw : servers (registry_ok 0) w) (Henv : Forall (fair_env 0) polls) :
  ∃ pre rest, polls = pre ++ rest ∧ unanswered c pre w = true ∧
  let w1 := net_after c pre w in
  match rest with
  | [] => _register_blocking c polls w = (Waiting, w1)
  | p :: _ =>
      let w2 := po_env p w1 in
      if po_running p then
        existsb (live_ep w2) (_targets c) = true ∧
        ∃ c' w', _register_blocking c polls w = (Registered (S (length pre)) c' (k_members c').*2, w') ∧
          servers (registry_ok 0) w' ∧ k_self c' = k_self c ∧
          is_Some (od_get (k_members c') (n_node_id (k_self c)))
      else _register_blocking c polls w = (Stopped, w2)
  end.
Proof.
  destruct (register_loop_spec 0 c polls Henv w 0 Hw) as (pre & rest & Hp & Hun & Hr). exists pre, rest.
  split; [done|]. split; [done|]. destruct rest as [|p rest]; [done|]. cbv zeta in *.
  destruct (po_running p); [|done]. destruct Hr as (? & c' & w' & ? & ? & ? & _ & ?). eauto 10.
Qed.

(** ** The node *)

(** A [NodeRuntime] with what its constructor sets up around the rings: the
    node's descriptor, its discovery client, and whether its process hosts the
    discovery master of the host. *)
Record rnode := mk_rnode {
  rn_info : NodeInfo;
  rn_disc : DiscoveryClient;
  rn_rt : NodeRuntime;
  rn_meta : bool
}.

(** Where the master of [host] listens. *)
Definition meta_ep (host : string) (port : Z) : string := host +:+ ":" +:+ pretty port.

(** The [try] of the constructor: the port is free and a registry is started,
    or it is bound and a co-located rank already hosts one. *)
Definition start_meta (ep : string) (ttl : Z) (w : dnet) : bool * dnet :=
  match c_shards w !! ep with
  | Some _ => (false, w)
  | None => (true, mk_cluster (<[ep := new_disc ttl]> (c_shards w)) (c_link w))
  end.

(** [NodeInfo(...)] of the endpoint the transport listens on. *)
Definition node_info (cfg : PeerCacheConfig) (local_endpoint : string) (control_port : Z) : pyres NodeInfo :=
  node_id ← as_str (field cfg "node_id"); host ← as_str (field cfg "local_hostname");
  match rsplit1 colon local_endpoint with
  | None => Raise ValueError
  | Some (rdma_host, p) =>
      rdma_port ← py_int (VStr p);
      Ret (mk_node node_id host control_port rdma_host rdma_port (effective_role cfg false))
  end.

Section node.
Context {RH : RingHash} {SI : SetIter}.

(** The resolver of the directory client is the bound method
    [self.discovery.control_of], which reads the current members. *)
Definition with_resolve (rt : NodeRuntime) (resolve : string → option string) : NodeRuntime :=
  mk_runtime (rt_ring rt) (rt_data_ring rt)
    (mk_dclient (dc_ring (rt_directory rt)) resolve (dc_replicas (rt_directory rt))) (rt_stopped rt).

(** [NodeRuntime.__init__]; [transport] and [control_port] are what creating the
    transport and binding the control port gave, [ttl] is [config.member_ttl]
    in units of the clock. *)
Definition runtime_init (cfg : PeerCacheConfig) (ttl : Z) (transport : pyres string) (control_port : pyres Z)
    (w : dnet) : pyres rnode * dnet :=
  match port ← meta_port cfg; host ← as_str (field cfg "local_hostname"); Ret (port, host) with
  | Raise e => (Raise e, w)
  | Ret (port, host) =>
      let '(meta, w) := start_meta (meta_ep host port) ttl w in
      (ep ← transport; cp ← control_port; info ← node_info cfg ep cp;
       vnodes ← py_int (field cfg "vnodes"); addr ← as_str (field cfg "discovery_addr");
       max_masters ← py_int (field cfg "max_masters");
       disc ← new_dcli addr info (Some port) max_masters;
       replicas ← py_int (field cfg "directory_replicas");
       Ret (mk_rnode info disc (new_runtime vnodes (control_of disc) replicas) meta), w)
  end.

(** What the callback of a new membership leaves, and whether the listeners
    are called. *)
Definition install (n : rnode) (c : DiscoveryClient) (members : list NodeInfo) : rnode * bool :=
  let '(rt, changed) := Runtime._on_members (rn_rt n) members in
  (mk_rnode (rn_info n) c (with_resolve rt (control_of c)) (rn_meta n), changed).

(** [NodeRuntime.start] and one turn of the heartbeat thread. *)
Definition node_start (n : rnode) (polls : list poll) (w : dnet) : bool * rnode * dnet :=
  match _register_blocking (rn_disc n) polls w with
  | (Registered _ c ms, w) => (true, (install n c ms).1, w)
  | (_, w) => (false, n, w)
  end.
Definition node_beat (now : clock) (n : rnode) (w : dnet) : rnode * dnet :=
  match heartbeat_round now (rn_disc n) w with
  | (Ret (Some (c, ms)), w) => ((install n c ms).1, w)
  | (_, w) => (n, w)
  end.

(** [NodeRuntime.stop]: deregister, then take the embedded master down. *)
Definition node_stop (now : clock) (n : rnode) (w : dnet) : rnode * dnet :=
  let '(first, rt) := Runtime.stop (rn_rt n) in
  let n' := mk_rnode (rn_info n) (rn_disc n) rt (rn_meta n) in
  if first then
    let w := client_stop now (rn_disc n) w in
    (n', if rn_meta n
         then mk_cluster (delete (meta_ep (n_control_host (rn_info n)) (k_meta_port (rn_disc n))) (c_shards w)) (c_link w)
         else w)
  else (n', w).

(** [PeerCacheStore.check_server]: [NodeRuntime] has no attribute [started], so
    the probe is the length of the ring. *)
Definition check_server (n : rnode) : bool := negb (Z.of_nat (size (r_nodes (rt_ring (rn_rt n)))) <? 1).

(** ** Routing follows the membership *)

(** The rings and the resolver of a node agree with the members its client has. *)
Record routed (n : rnode) : Prop := {
  rd_ring : r_nodes (rt_ring (rn_rt n)) = list_to_set (od_keys (k_members (rn_disc n)));
  rd_data : ∀ id, id ∈ r_nodes (rt_data_ring (rn_rt n)) ↔
    ∃ i, od_get (k_members (rn_disc n)) id = Some i ∧ n_role i = "storage"%string;
  rd_dir : dc_ring (rt_directory (rn_rt n)) = rt_ring (rn_rt n);
  rd_resolve : ∀ id, id ∈ r_nodes (rt_ring (rn_rt n)) → is_Some (dc_resolve (rt_directory (rn_rt n)) id)
}.

(** The node is on its own ring. *)
Definition on_ring (n : rnode) : Prop := n_node_id (k_self (rn_disc n)) ∈ r_nodes (rt_ring (rn_rt n)).

Lemma members_ids ms : members_ok ms → n_node_id <$> ms.*2 = od_keys ms.
Proof.
  intros [Hnd Hg]. unfold od_keys. rewrite <-list_fmap_compose. apply list_fmap_ext. intros i [k n] Hi. simpl.
  apply Hg. apply od_elem_get; [done|]. by eapply list_elem_of_lookup_2.
Qed.

Lemma members_storage ms id : members_ok ms →
  id ∈ storage_ids ms.*2 ↔ ∃ i, od_get ms id = Some i ∧ n_role i = "storage"%string.
Proof.
  intros [Hnd Hg]. unfold storage_ids. rewrite list_elem_of_fmap. setoid_rewrite list_elem_of_filter.
  setoid_rewrite list_elem_of_fmap. split.
  - intros (i & -> & Hr & [k i'] & -> & Hin). simpl in *. exists i'. split; [|done].
    apply od_elem_get in Hin; [|done]. by rewrite (Hg _ _ Hin).
  - intros (i & Hi & Hr). exists i. split; [by rewrite (Hg _ _ Hi)|]. split; [done|].
    exists (id, i). split; [done|]. by apply od_get_elem.
Qed.

Lemma install_routed n c : members_ok (k_members c) →
  routed (install n c (k_members c).*2).1 ∧
  (is_Some (od_get (k_members c) (n_node_id (k_self c))) → on_ring (install n c (k_members c).*2).1).
Proof.
  intros Hok. unfold install, Runtime._on_members. split; [split; cbn|].
  - by rewrite nodes_set_nodes, members_ids.
  - intros id. rewrite nodes_set_nodes, elem_of_list_to_set. by apply members_storage.
  - done.
  - intros id. rewrite nodes_set_nodes, members_ids, elem_of_list_to_set by done.
    rewrite <-od_get_is_Some. unfold control_of. by rewrite fmap_is_Some.
  - intros Hself. unfold on_ring. cbn. rewrite nodes_set_nodes, members_ids, elem_of_list_to_set by done. by apply od_get_is_Some.
Qed.

Lemma check_server_on_ring n : on_ring n → check_server n = true.
Proof.
  intros Hs. unfold check_server. apply negb_true_iff, Z.ltb_ge.
  assert (size (r_nodes (rt_ring (rn_rt n))) ≠ 0%nat) by (intros ?%size_empty_inv; unfold on_ring in Hs; set_solver). lia.
Qed.

Lemma heartbeat_round_spec T now c w :
  servers (registry_ok T) w →
  ∃ r w', heartbeat_round now c w = (Ret r, w') ∧ servers (registry_ok T) w' ∧
  match r with
  | None => True
  | Some (c', ms) => ms = (k_members c').*2 ∧ k_self c' = k_self c ∧ members_ok (k_members c') ∧
      (prompt T now → is_Some (od_get (k_members c') (n_node_id (k_self c))))
  end.
Proof.
  intros Hw. unfold heartbeat_round.
  destruct (beat_all_spec now c (_targets c) w Hw) as (reached & merged & w' & -> & Hw' & _ & Hm & H0 & _ & Hj).
  destruct (reached =? 0) eqn:E0; [by exists None, w'|]. apply Z.eqb_neq in E0.
  destruct merged as [|e merged]; [by exists None, w'|].
  destruct (apply_merged c (e :: merged) Hm) as (c' & Ha & Hself & Hs). rewrite Ha.
  destruct (apply_members_ok _ _ _ _ Ha) as [_ Hok]. eexists (Some _), w'. split; [reflexivity|]. split; [done|].
  split; [done|]. split; [done|]. split; [done|]. intros Hp. apply Hs, Hj; [done|lia].
Qed.

(** The heartbeat thread over a list of turns, the others moving in between. *)
Definition node_beats (n : rnode) (turns : list poll) (w : dnet) : rnode * dnet :=
  foldl (λ st p, node_beat (po_now p) st.1 (po_env p st.2)) (n, w) turns.

Lemma node_beat_routed T now n w :
  servers (registry_ok T) w → routed n →
  servers (registry_ok T) (node_beat now n w).2 ∧ routed (node_beat now n w).1 ∧
  (prompt T now → on_ring n → on_ring (node_beat now n w).1).
Proof.
  intros Hw Hr. unfold node_beat. destruct (heartbeat_round_spec T now (rn_disc n) w Hw) as (r & w' & -> & Hw' & Hs).
  destruct r as [[c' ms]|]; [|by split]. destruct Hs as (-> & Hself & Hok & Hin). split; [done|].
  destruct (install_routed n c' Hok) as [H1 H2]. split; [done|]. intros Hp _. apply H2. rewrite Hself. by apply Hin.
Qed.

Lemma node_start_routed T n polls w n' w' :
  servers (registry_ok T) w → Forall (fair_env T) polls → node_start n polls w = (true, n', w') →
  servers (registry_ok T) w' ∧ routed n' ∧ on_ring n'.
Proof.
  intros Hw Henv. unfold node_start, _register_blocking.
  destruct (register_loop_spec T (rn_disc n) polls Henv w 0 Hw) as (pre & [|p rest] & _ & _ & Hr); cbv zeta in Hr.
  - by rewrite Hr.
  - destruct (po_running p); [|by rewrite Hr].
    destruct Hr as (_ & c' & w1 & -> & Hw1 & Hself & Hok & Hin). intros [= <- <-]. split; [done|].
    destruct (install_routed n c' Hok) as [H1 H2]. split; [done|]. apply H2. by rewrite Hself.
Qed.

(** C26: the rings follow the membership.  Once a node has started, after any
    number of heartbeat turns, whichever masters answer, whatever their clocks
    show and whatever the rest of the cluster does in between: its ring holds
    exactly the members its discovery client has installed and its data ring
    exactly those with the storage role, the directory client routes on that
    ring and every node on it resolves to a control endpoint.  If moreover
    every master is asked for its members at most [T] after it took the
    heartbeat, where [T] is no more than a lease lasts, the node itself is on
    the ring and the readiness probe answers [true], reachable masters or not;
    [slow_members_drops_self] shows the node off its ring otherwise. *)
Theorem node_routing_follows_members (T : Z) (n n1 n2 : rnode) (polls turns : list poll) (w w1 w2 : dnet)
  (Hw : servers (registry_ok T) w) (Hpolls : Forall (fair_env T) polls) (Hturns : Forall (fair_env T) turns)
  (Hstart : node_start n polls w = (true, n1, w1)) (Hbeats : node_beats n1 turns w1 = (n2, w2)) :
  routed n2 ∧ (Forall (λ p, prompt T (po_now p)) turns → on_ring n2 ∧ check_server n2 = true).
Proof.
  destruct (node_start_routed T n polls w n1 w1 Hw Hpolls Hstart) as (Hw1 & Hr1 & Ho1).
  assert (routed n2 ∧ (on_ring n1 → Forall (λ p, prompt T (po_now p)) turns → on_ring n2)) as [Hr2 Ho2].
  2:{ split; [done|]. intros Hp. split; [by apply Ho2|]. by apply check_server_on_ring, Ho2. }
  clear Hstart Ho1. revert n1 w1 Hw1 Hr1 Hbeats. unfold node_beats.
  induction Hturns as [|p turns Hp Ht IH]; intros n1 w1 Hw1 Hr1; cbn [foldl]; [by intros [= <- <-]|].
  destruct (node_beat_routed T (po_now p) n1 (po_env p w1) (Hp w1 Hw1) Hr1) as (Hw' & Hr' & Ho').
  cbn [fst snd]. destruct (node_beat _ _ _) as [n' w']. intros Hb.
  destruct (IH n' w' Hw' Hr' Hb) as [H1 H2]. split; [done|]. intros Ho [Hpp Hps]%Forall_cons. by apply H2, Hps; apply Ho'.
Qed.

(** ** The master of a host *)

(** Ranks come up and go down, on any hosts. *)
Inductive host_event :=
  | Boot (cfg : PeerCacheConfig) (ttl : Z) (transport : pyres string) (control_port : pyres Z)
  | Halt (now : clock) (i : nat).

Definition host_step (st : list rnode * dnet) (ev : host_event) : list rnode * dnet :=
  match ev with
  | Boot cfg ttl transport control_port =>
      match runtime_init cfg ttl transport control_port st.2 with
      | (Ret n, w) => (st.1 ++ [n], w)
      | (Raise _, w) => (st.1, w)
      end
  | Halt now i =>
      match st.1 !! i with
      | None => st
      | Some n => let '(n', w) := node_stop now n st.2 in (<[i := n']> st.1, w)
      end
  end.

(** The endpoint of the master of a rank's host, the one a [Boot] would bind,
    and the ranks that serve theirs. *)
Definition node_ep (n : rnode) : string := meta_ep (n_control_host (rn_info n)) (k_meta_port (rn_disc n)).
Definition boot_ep (cfg : PeerCacheConfig) : option string :=
  match port ← meta_port cfg; host ← as_str (field cfg "local_hostname"); Ret (meta_ep host port) with
  | Ret ep => Some ep
  | Raise _ => None
  end.
Definition hosting (n : rnode) : bool := rn_meta n && negb (rt_stopped (rn_rt n)).

Record masters_inv (st : list rnode * dnet) : Prop := {
  mi_one : ∀ i j ni nj, st.1 !! i = Some ni → st.1 !! j = Some nj → hosting ni = true → hosting nj = true →
    node_ep ni = node_ep nj → i = j;
  mi_served : ∀ i n, st.1 !! i = Some n → hosting n = true → is_Some (c_shards st.2 !! node_ep n)
}.

Lemma client_stop_served now c w ep : is_Some (c_shards (client_stop now c w) !! ep) ↔ is_Some (c_shards w !! ep).
Proof.
  unfold client_stop. revert w. induction (_targets c) as [|t ts IH]; intros w; [done|]. cbn [foldl]. rewrite IH.
  unfold net_call. destruct (c_shards w !! t) as [st|] eqn:Et; [|done].
  destruct (link_call _ _ _ _ _) as [r st']. simpl. rewrite lookup_insert_is_Some'.
  split; [|by right]. by intros [<-|?].
Qed.

(** A new rank serves its host exactly when nobody else does. *)
Lemma runtime_init_spec cfg ttl tp cp w r w' :
  runtime_init cfg ttl tp cp w = (r, w') →
  (∀ ep, is_Some (c_shards w' !! ep) ↔ is_Some (c_shards w !! ep) ∨ boot_ep cfg = Some ep) ∧
  ∀ n, r = Ret n → boot_ep cfg = Some (node_ep n) ∧ rt_stopped (rn_rt n) = false ∧
    (rn_meta n = true ↔ c_shards w !! node_ep n = None).
Proof.
  unfold runtime_init, boot_ep.
  destruct (meta_port cfg) as [port|]; simpl; [|intros [= <- <-]; naive_solver].
  destruct (as_str (field cfg "local_hostname")) as [host|] eqn:Eh; simpl; [|intros [= <- <-]; naive_solver].
  unfold start_meta. set (ep0 := meta_ep host port).
  destruct (c_shards w !! ep0) as [st|] eqn:Es; intros [= Hr <-]; (split; [|intros n ->]).
  1: { intros ep. split; [by left|]. intros [?|[= <-]]; eauto. }
  2: { intros ep. simpl. rewrite lookup_insert_is_Some'. naive_solver. }
  all: destruct tp as [tep|], cp as [port'|]; simpl in Hr; try done;
    unfold node_info in Hr; rewrite Eh in Hr;
    destruct (as_str (field cfg "node_id")), (rsplit1 colon tep) as [[rh rp]|]; simpl in Hr; try done;
    destruct (parse_int rp); simpl in Hr; try done;
    destruct (py_int (field cfg "vnodes")), (as_str (field cfg "discovery_addr")),
      (py_int (field cfg "max_masters")), (py_int (field cfg "directory_replicas")); simpl in Hr; try done;
    injection Hr as <-; (split; [reflexivity|]); (split; [reflexivity|]);
    change (node_ep _) with ep0; rewrite Es; cbn [rn_meta]; naive_solver.
Qed.

Lemma node_stop_spec now n w n' w' :
  node_stop now n w = (n', w') →
  node_ep n' = node_ep n ∧ hosting n' = false ∧
  ∀ ep, is_Some (c_shards w' !! ep) ↔ is_Some (c_shards w !! ep) ∧ (hosting n = true → ep ≠ node_ep n).
Proof.
  unfold node_stop, Runtime.stop, hosting. destruct (rt_stopped (rn_rt n)); simpl.
  - intros [= <- <-]. rewrite !andb_false_r. cbn. naive_solver.
  - destruct (rn_meta n) eqn:Em; intros [= <- <-]; simpl; rewrite ?Em; (split; [done|]); (split; [done|]); intros ep.
    + rewrite lookup_delete_is_Some, client_stop_served. unfold node_ep. naive_solver.
    + rewrite client_stop_served. naive_solver.
Qed.

Lemma masters_step st ev : masters_inv st → masters_inv (host_step st ev).
Proof.
  destruct st as [ns w]. intros [Hone Hserved]. simpl in *. destruct ev as [cfg ttl tp cp|now i]; simpl.
  - destruct (runtime_init cfg ttl tp cp w) as [r w'] eqn:Er. apply runtime_init_spec in Er as [Hdom Hn].
    destruct r as [n|e]; [|split; [done|]; intros; apply Hdom; left; by eapply Hserved].
    destruct (Hn n eq_refl) as (Hep & Hst & Hmeta). clear Hn.
    assert (∀ i ni, ns !! i = Some ni → hosting ni = true → hosting n = true → node_ep ni ≠ node_ep n) as Hnew.
    { intros i ni Hi Hh Hhn He. unfold hosting in Hhn. rewrite Hst, andb_true_r in Hhn. apply Hmeta in Hhn.
      destruct (Hserved i ni Hi Hh) as [? Hs]. rewrite He in Hs. congruence. }
    split; simpl.
    + intros i j ni nj [Hi|[Hi [Hi0 ->]%list_lookup_singleton_Some]]%lookup_app_Some
        [Hj|[Hj [Hj0 ->]%list_lookup_singleton_Some]]%lookup_app_Some Hhi Hhj He; [by eauto| | |lia].
      * by destruct (Hnew i ni).
      * by destruct (Hnew j nj).
    + intros i ni [Hi|[Hi [Hi0 ->]%list_lookup_singleton_Some]]%lookup_app_Some Hh; apply Hdom; [left; eauto|by right].
  - destruct (ns !! i) as [n|] eqn:Ei; [|done]. destruct (node_stop now n w) as [n' w'] eqn:Es.
    apply node_stop_spec in Es as (Hep & Hh' & Hdom).
    assert (∀ j nj, <[i:=n']> ns !! j = Some nj → hosting nj = true → ns !! j = Some nj ∧ i ≠ j) as Hold.
    { intros j nj Hj Hh. apply list_lookup_insert_Some in Hj as [(-> & <- & _)|[? ?]]; [congruence|done]. }
    split; simpl.
    + intros j k nj nk Hj Hk Hhj Hhk. destruct (Hold _ _ Hj Hhj), (Hold _ _ Hk Hhk). by eapply Hone.
    + intros j nj Hj Hh. destruct (Hold _ _ Hj Hh) as [Hj' Hij]. apply Hdom. split; [by eapply Hserved|].
      intros Hhn He. destruct Hij. symmetry. by eapply Hone.
Qed.

Lemma masters_run evs st : masters_inv st → masters_inv (foldl host_step st evs).
Proof. revert st. induction evs as [|ev evs IH]; intros st H; [done|]. simpl. by apply IH, masters_step. Qed.

(** Nobody but a rank booted on the host itself serves its endpoint again. *)
Definition boots_on (ep : string) (ev : host_event) : bool :=
  match ev with Boot cfg _ _ _ => bool_decide (boot_ep cfg = Some ep) | Halt _ _ => false end.

Lemma silent_stays evs : ∀ st ep, c_shards st.2 !! ep = None → existsb (boots_on ep) evs = false →
  c_shards (foldl host_step st evs).2 !! ep = None.
Proof.
  induction evs as [|ev evs IH]; intros [ns w] ep Hs; [done|]. cbn [existsb foldl]. intros [Hb Hbs]%orb_false_iff.
  apply IH; [|done]. rewrite eq_None_not_Some in Hs |- *. destruct ev as [cfg ttl tp cp|now i]; simpl in *.
  - destruct (runtime_init cfg ttl tp cp w) as [r w'] eqn:Er. apply runtime_init_spec in Er as [Hdom _].
    apply bool_decide_eq_false in Hb. destruct r; simpl; rewrite Hdom; naive_solver.
  - destruct (ns !! i) as [n|]; [|done]. destruct (node_stop now n w) as [n' w'] eqn:Es.
    apply node_stop_spec in Es as (_ & _ & Hdom). simpl. rewrite Hdom. naive_solver.
Qed.

(** One discovery master per host.  Over every sequence of ranks coming up
    on any hosts and going down again, starting from nothing: two ranks that
    both host a discovery master do so on different endpoints, and the
    endpoint of each of them is served.  A rank that starts while its host's
    meta port is bound is a client only, and one that finds it free hosts the
    master. *)
Theorem one_master_per_host (link : string → attempt * attempt) (evs : list host_event) :
  let st := foldl host_step ([], mk_cluster ∅ link) evs in
  masters_inv st ∧
  ∀ cfg ttl tp cp n w, runtime_init cfg ttl tp cp st.2 = (Ret n, w) →
    is_Some (c_shards w !! node_ep n) ∧ (rn_meta n = true ↔ c_shards st.2 !! node_ep n = None).
Proof.
  intros st. split.
  - apply masters_run. split; simpl; intros; by rewrite lookup_nil in *.
  - intros cfg ttl tp cp n w [Hdom Hn]%runtime_init_spec. destruct (Hn n eq_refl) as (Hep & _ & Hm).
    split; [|done]. apply Hdom. by right.
Qed.

(** A master that goes down is not replaced on its host.  When the rank that
    hosts the master of a host stops, the endpoint falls silent although other
    ranks of the same host may be running, and stays silent through any later
    events until a new rank is started on that very host.  In that time a
    client whose only target is this endpoint, such as a new node that has it
    as its seed, cannot register, and its heartbeats reach nobody. *)
Theorem halted_master_not_replaced (link : string → attempt * attempt) (evs later : list host_event) (now : clock)
  (i : nat) (n : rnode) :
  let st := foldl host_step ([], mk_cluster ∅ link) evs in
  st.1 !! i = Some n → hosting n = true → existsb (boots_on (node_ep n)) later = false →
  let w := (foldl host_step (host_step st (Halt now i)) later).2 in
  c_shards w !! node_ep n = None ∧
  ∀ c now', _targets c = [node_ep n] →
    (client_register now' c w).1 = Raise ConnectionError ∧ (heartbeat_round now' c w).1 = Ret None.
Proof.
  intros st Hi Hh Hlater w.
  assert (c_shards w !! node_ep n = None) as Hnone.
  { apply silent_stays; [|done]. destruct st as [ns w0]. simpl in *. rewrite Hi.
    destruct (node_stop now n w0) as [n' w'] eqn:Es. apply node_stop_spec in Es as (_ & _ & Hdom). simpl.
    apply eq_None_not_Some. rewrite Hdom. naive_solver. }
  split; [done|]. intros c now' Ht. unfold client_register, register_all, heartbeat_round. rewrite Ht. cbn [foldl].
  unfold register_step, _register_one, beat_one, net_call. rewrite Hnone. done.
Qed.
End node.

(** ** The tier of a new process *)

Section tiers.
Context {RH : RingHash} {SI : SetIter} {HL : Hashlib}.

(** The disk tier of [PeerCacheStore.__init__] and [StorageServer.__init__]:
    [dir] is what the directory holds, or why it cannot be used; only an
    [OSError] disables the tier. *)
Definition init_disk (cfg : PeerCacheConfig) (dir : pyres disk) : pyres (option DiskStore) :=
  if py_truthy (field cfg "disk_enabled") then
    match dir with
    | Ret d => max ← py_int (field cfg "disk_size"); Ret (Some (open_store d max))
    | Raise OSError => Ret None
    | Raise e => Raise e
    end
  else Ret None.

(** The state [PeerCacheStore.__init__] leaves: no pool before registration,
    no lengths known, the disk as the directory has it. *)
Definition store_init (cfg : PeerCacheConfig) (i : ident) (rt : NodeRuntime) (dir : pyres disk) : pyres tier :=
  d ← init_disk cfg dir; Ret (mk_tier i rt None d [] (new_metrics (Z.to_nat 8192))).

(** The role check at the head of [StorageServer.__init__]. *)
Definition storage_config (cfg : PeerCacheConfig) : pyres PeerCacheConfig :=
  if one_of (field cfg "role") ["auto"] then Ret (set_field cfg "role" (VStr "storage"))
  else if negb (String.eqb (effective_role cfg false) "storage") then Raise ValueError
  else Ret cfg.

(** [StorageServer._ensure_pool]; the buffer is allocated at [base_addr] and
    its registration gives [rkey] and [rkeys]. *)
Definition _ensure_pool (t : tier) (global_segment_size base_addr rkey : Z) (rkeys : list Z) : tier :=
  match t_pool t with
  | Some _ => t
  | None =>
      mk_tier (t_ident t) (t_rt t) (Some (new_pool base_addr (Z.max 1 global_segment_size) rkey (Some rkeys)))
        (t_disk t) (t_key_len t) (t_metrics t)
  end.

(** [StorageServer.__init__] after its runtime is up. *)
Definition storage_init (cfg : PeerCacheConfig) (i : ident) (rt : NodeRuntime) (dir : pyres disk)
    (base_addr rkey : Z) (rkeys : list Z) : pyres tier :=
  t ← store_init cfg i rt dir; seg ← py_int (field cfg "global_segment_size");
  Ret (_ensure_pool t seg base_addr rkey rkeys).

(** [StorageServer.stop] and the part of [PeerCacheStore.close] that concerns
    the tier: flush the disk, stop the runtime; a second call does nothing. *)
Definition tier_close (closed : bool) (t : tier) : bool * tier :=
  if closed then (true, t)
  else (true, mk_tier (t_ident t) (Runtime.stop (t_rt t)).2 (t_pool t) (DiskStore.close <$> t_disk t) (t_key_len t)
                (t_metrics t)).

(** A tier whose process has not published anything yet. *)
Definition unpublished (t : tier) : Prop :=
  t_key_len t = [] ∧ match t_pool t with None => True | Some p => p_entries p = [] end.

Lemma store_init_unpublished cfg i rt dir t : store_init cfg i rt dir = Ret t → unpublished t.
Proof. unfold store_init. destruct (init_disk cfg dir); simpl; [|done]. by intros [= <-]. Qed.

Lemma storage_init_unpublished cfg i rt dir base rkey rkeys t :
  storage_init cfg i rt dir base rkey rkeys = Ret t → unpublished t.
Proof.
  unfold storage_init, store_init. destruct (init_disk cfg dir); simpl; [|done].
  destruct (py_int _); simpl; [|done]. by intros [= <-].
Qed.

(** A validated configuration passes the role check unless it says
    [inference], and the runtime then advertises the storage role. *)
Lemma storage_config_spec cfg r : field cfg "role" = VStr r → r ∈ ["auto"; "inference"; "storage"] →
  match storage_config cfg with
  | Ret cfg' => r ≠ "inference"%string ∧ effective_role cfg' false = "storage"%string
  | Raise e => r = "inference"%string ∧ e = ValueError
  end.
Proof.
  intros Hr Hin. unfold storage_config, effective_role. rewrite Hr.
  repeat (apply elem_of_cons in Hin as [->|Hin]); [| | |by apply not_elem_of_nil in Hin].
  - simpl. split; [done|]. unfold field, set_field, attr. simpl. by rewrite od_get_set_eq.
  - by vm_compute.
  - simpl. rewrite Hr. by vm_compute.
Qed.

Lemma republish_unpublished s : unpublished (l_tier s) → _republish_directory s = s.
Proof.
  intros [Hk Hp]. unfold _republish_directory. destruct (t_pool (l_tier s)) as [p|]; [|done].
  unfold republish_entries, Pool.snapshot. rewrite Hp, Hk. simpl. by destruct (t_disk (l_tier s)).
Qed.

Lemma on_members_unpublished s ms : unpublished (l_tier s) →
  let s' := tier_on_members s ms in
  unpublished (l_tier s') ∧ l_dir s' = l_dir s ∧ t_disk (l_tier s') = t_disk (l_tier s).
Proof.
  intros Hu. cbv zeta. unfold tier_on_members. destruct (Runtime._on_members _ _) as [rt changed].
  destruct changed; [rewrite republish_unpublished|]; done.
Qed.

Lemma updates_unpublished updates : ∀ s, unpublished (l_tier s) →
  let s' := foldl tier_on_members s updates in
  unpublished (l_tier s') ∧ l_dir s' = l_dir s ∧ t_disk (l_tier s') = t_disk (l_tier s).
Proof.
  induction updates as [|ms updates IH]; intros s H0; [done|]. cbn [foldl].
  destruct (on_members_unpublished s ms H0) as (H1 & <- & <-). by apply IH.
Qed.

Lemma clear_unpublished s : unpublished (l_tier s) → l_dir (clear s) = l_dir s ∧ t_disk (l_tier (clear s)) = t_disk (l_tier s).
Proof.
  intros [Hk Hp]. unfold clear. rewrite Hk.
  assert (set_iter (list_to_set (od_keys []) ∪ match t_pool (l_tier s) with
    | Some p => list_to_set (od_keys (p_entries p)) | None => ∅ end) = []) as ->; [|done].
  apply Permutation_nil_r. rewrite set_iter_perm. apply Permutation_nil_r, elements_empty_iff.
  destruct (t_pool (l_tier s)) as [p|]; [rewrite Hp|]; set_solver.
Qed.

(** After a restart the recovered disk pages are never listed.  A store or a
    storage server opened on a directory with pages indexes them and can read
    them back, but its map of known lengths starts empty, so no membership
    change makes it publish a location for any of them (the directory is left
    exactly as it was), and [clear] neither deletes their entries nor removes
    their files. *)
Theorem restart_leaves_disk_unlisted (cfg : PeerCacheConfig) (i : ident) (rt : NodeRuntime) (d : disk)
  (base_addr rkey : Z) (rkeys : list Z) (t : tier) (dir : cluster shard) (m : mem)
  (updates : list (list NodeInfo))
  (Ht : store_init cfg i rt (Ret d) = Ret t ∨ storage_init cfg i rt (Ret d) base_addr rkey rkeys = Ret t) :
  let s := foldl tier_on_members (mk_local t dir m) updates in
  l_dir s = dir ∧ l_dir (clear s) = dir ∧
  t_disk (l_tier s) = t_disk t ∧ t_disk (l_tier (clear s)) = t_disk t ∧
  ∀ max, py_truthy (field cfg "disk_enabled") = true → py_int (field cfg "disk_size") = Ret max →
    t_disk t = Some (open_store d max).
Proof.
  assert (unpublished t) as Hu
    by (destruct Ht as [?%store_init_unpublished|?%storage_init_unpublished]; done).
  cbv zeta. set (s := foldl _ _ _).
  assert (unpublished (l_tier s) ∧ l_dir s = dir ∧ t_disk (l_tier s) = t_disk t) as (Hus & Hd & Hdisk).
  { by apply (updates_unpublished updates (mk_local t dir m)). }
  destruct (clear_unpublished s Hus) as [-> ->]. do 4 (split; [done|]). intros max He Hm.
  destruct Ht as [Ht|Ht]; revert Ht; unfold storage_init, store_init, init_disk; rewrite He, Hm; simpl.
  - by intros [= <-].
  - destruct (py_int (field cfg "global_segment_size")); simpl; [|done]. by intros [= <-].
Qed.
End tiers.

(** ** Concrete instances *)

Module LifecycleExamples.
Import RingExamples.

Definition cfg_of (host node_id : string) : PeerCacheConfig :=
  mk_config (od_set (od_set (("discovery_addr", VStr "h1:31998") :: field_defaults)
    "local_hostname" (VStr host)) "node_id" (VStr node_id)) [].
Definition up (host node_id : string) : host_event := Boot (cfg_of host node_id) 6 (Ret "h1:7000") (Ret 9000).
Definition good_link : string → attempt * attempt := λ _, (AReply, AReply).

(** Two ranks of host [h1]: the first hosts the master. *)
Definition two_ranks : list rnode * dnet := foldl host_step ([], mk_cluster ∅ good_link) [up "h1" "a"; up "h1" "b"].

(** All clocks show [t]. *)
Definition at_ (t : Z) : clock := λ _ _, t.

Example two_ranks_roles : rn_meta <$> two_ranks.1 = [true; false].
Proof. vm_compute. reflexivity. Qed.

(** When the first rank stops, the second one reaches no master, nor does a
    node that joins on another host with [h1] as its seed. *)
Lemma halted_master_not_replaced_witness :
  ∃ n, two_ranks.1 !! 1%nat = Some n ∧ hosting n = false ∧
    (heartbeat_round (at_ 3) (rn_disc n) (foldl host_step (host_step two_ranks (Halt (at_ 2) 0)) [up "h2" "c"]).2).1 = Ret None.
Proof.
  destruct (two_ranks.1 !! 1%nat) as [n|] eqn:En; [|by vm_compute in En].
  exists n. split; [reflexivity|]. split; [by vm_compute in En; injection En as <-|].
  destruct (two_ranks.1 !! 0%nat) as [n0|] eqn:E0; [|by vm_compute in E0].
  assert (_targets (rn_disc n) = [node_ep n0]) as Ht
    by (vm_compute in En, E0; injection En as <-; injection E0 as <-; vm_compute; reflexivity).
  refine (proj2 (proj2 (halted_master_not_replaced good_link [up "h1" "a"; up "h1" "b"] [up "h2" "c"] (at_ 2) 0 n0 E0 _ _)
    (rn_disc n) (at_ 3) Ht)).
  - vm_compute in E0. injection E0 as <-. vm_compute. reflexivity.
  - vm_compute in E0. injection E0 as <-. vm_compute. reflexivity.
Defined.

(** A client whose seed comes up after two silent passes. *)
Definition cli : DiscoveryClient := DiscoveryExamples.cli0.
Definition quiet_net : dnet := mk_cluster ∅ good_link.
Definition seed_up : dnet → dnet := λ w, mk_cluster (<["h1:31998"%string := new_disc 6]> (c_shards w)) (c_link w).
Definition passes : list poll := [mk_poll true (at_ 1) id; mk_poll true (at_ 3) id; mk_poll true (at_ 5) seed_up].

Lemma quiet_ok T : servers (registry_ok T) quiet_net.
Proof. intros ep st. unfold quiet_net. cbn [c_shards]. by rewrite lookup_empty. Qed.

Lemma passes_fair T : 0 ≤ T ≤ 6 → Forall (fair_env T) passes.
Proof.
  intros HT. apply Forall_cons; split; [intros w Hw; exact Hw|]. apply Forall_cons; split; [intros w Hw; exact Hw|].
  apply Forall_singleton. intros w Hw ep st. unfold seed_up. cbn [c_shards po_env].
  rewrite lookup_insert_Some. intros [[_ <-]|[_ Hs]]; [|by apply (Hw ep)].
  split; [constructor|]. split; [done|]. by intros.
Qed.

Example third_pass : ∃ c ms w, _register_blocking cli passes quiet_net = (Registered 3 c ms, w).
Proof. eexists _, _, _. vm_compute. reflexivity. Qed.

Lemma register_blocking_joins_witness :
  ∃ pre rest, passes = pre ++ rest ∧ unanswered cli pre quiet_net = true ∧ length pre = 2%nat ∧ length rest = 1%nat.
Proof.
  destruct (register_blocking_joins cli passes quiet_net (quiet_ok 0) (passes_fair 0 ltac:(lia))) as (pre & rest & Hp & Hu & Hr).
  exists pre, rest. split; [exact Hp|]. split; [exact Hu|]. unfold passes in Hp.
  destruct pre as [|p1 [|p2 [|p3 [|p4 pre]]]]; try discriminate Hp.
  - cbn [app] in Hp. subst rest. destruct Hr as [Hr _]. vm_compute in Hr. discriminate Hr.
  - injection Hp as <- <-. destruct Hr as [Hr _]. vm_compute in Hr. discriminate Hr.
  - injection Hp as <- <- <-. split; reflexivity.
  - injection Hp as <- <- <- <-. vm_compute in Hu. discriminate Hu.
Defined.

(** The node of rank [a] starts and beats once. *)
Definition node_a : rnode := mk_rnode (k_self cli) cli (new_runtime 3 (control_of cli) 2) false.
Definition started : bool * rnode * dnet := Eval vm_compute in node_start node_a passes quiet_net.
Definition beaten : rnode * dnet := node_beats started.1.2 [mk_poll true (at_ 7) id] started.2.

Lemma node_routing_follows_members_witness : routed beaten.1 ∧ check_server beaten.1 = true.
Proof.
  destruct (node_routing_follows_members 6 node_a started.1.2 beaten.1 passes [mk_poll true (at_ 7) id] quiet_net started.2 beaten.2
    (quiet_ok 6) (passes_fair 6 ltac:(lia))) as [Hr Ho].
  - constructor; [intros w Hw; exact Hw|constructor].
  - vm_compute. reflexivity.
  - symmetry. apply surjective_pairing.
  - split; [exact Hr|]. apply Ho. constructor; [intros ep; vm_compute; discriminate|constructor].
Defined.

(** A disk with one page, opened again: the page is there and is not listed. *)
Import ExampleHash.
Definition old_disk : disk := s_disk (DiskStore.close (DiskStore.put (open_store empty_disk 100) "k1" [1; 2; 3])).
Definition empty_shards : cluster shard := mk_cluster ∅ good_link.
Definition reborn : tier :=
  mk_tier (mk_ident "a" "h1:7000" ["h1:7000"] 0) (new_runtime 3 (λ _, None) 2) None
    (Some (open_store old_disk (100 * 2 ^ 30))) [] (new_metrics (Z.to_nat 8192)).

Example page_recovered : (DiskStore.get (open_store old_disk (100 * 2 ^ 30)) "k1").1 = Some [1; 2; 3].
Proof. vm_compute. reflexivity. Qed.

Lemma restart_leaves_disk_unlisted_witness :
  l_dir (foldl tier_on_members (mk_local reborn empty_shards (λ _, 0)) [[k_self cli]]) = empty_shards.
Proof.
  refine (proj1 (restart_leaves_disk_unlisted (cfg_of "h1" "a") (t_ident reborn) (t_rt reborn) old_disk 0 0 []
    reborn empty_shards (λ _, 0) [[k_self cli]] (or_introl _))).
  reflexivity.
Defined.

Lemma one_master_per_host_witness : masters_inv two_ranks.
Proof. exact (proj1 (one_master_per_host good_link [up "h1" "a"; up "h1" "b"])). Defined.
End LifecycleExamples.
