(* ===== verification/Exposition.v ===== *)
(** What a node shows of itself: the gauges of [_register_gauges] ([store.py]
    and [storage_server.py]), the Prometheus exposition of
    [Metrics.render_prometheus] and the routes of [MetricsServer] ([metrics.py]).

    An exposition is a list of lines; a sample keeps its value as the number
    the source formats, so the decimal digits of floats are not modelled.  The
    source iterates dictionaries in insertion order, the model in the order of
    the finite map. *)
From S2P Require Import Prelude Bytes Types Config HashRing Runtime Pool DiskStore Metrics Keys Tier.

(** ** Gauges *)

(** [bool(self._pool)]: a pool object has a length, so an empty one is false. *)
Definition pool_truthy (po : option PublishedPool) : bool :=
  match po with Some p => negb (bool_decide (p_entries p = [])) | None => false end.

(** [... if self._pool else 0] and [... if self._disk else 0] *)
Definition pool_gauge (t : tier) (f : PublishedPool → Z) : Z :=
  match t_pool t with Some p => if pool_truthy (t_pool t) then f p else 0 | None => 0 end.
Definition disk_gauge (t : tier) (f : DiskStore → Z) : Z := match t_disk t with Some d => f d | None => 0 end.

(** The gauges a store and a storage server share; [members] is the number of
    members the discovery client knows. *)
Definition tier_gauges (t : tier) (disk_size members : Z) : list (string * option Z) :=
  [ ("pool_bytes_used", Some (pool_gauge t p_used));
    ("pool_capacity_bytes", Some (pool_gauge t p_capacity));
    ("pool_keys", Some (pool_gauge t (λ p, zlength (p_entries p))));
    ("disk_bytes_used", Some (disk_gauge t (λ d, (DiskStore.stats d).1)));
    ("disk_capacity_bytes", Some (disk_gauge t (λ _, disk_size)));
    ("disk_keys", Some (disk_gauge t (λ d, Z.of_nat (DiskStore.stats d).2)));
    ("members", Some members);
    ("storage_nodes", Some (zlength (storage_nodes (t_rt t)))) ].

(** [_tstat]: a statistic of the transport, 0 when it has none or raises. *)
Definition _tstat (stats : pyres (list (string * Z))) (key : string) : Z :=
  match stats with Ret st => default 0 (od_get st key) | Raise _ => 0 end.

Definition transport_gauges : list (string * string) :=
  [ ("rdma_rails", "rails"); ("rdma_read_timeouts", "read_timeouts");
    ("rdma_channel_discards", "channel_discards"); ("rdma_read_wc_errors", "read_wc_errors");
    ("rdma_last_wc_status", "last_wc_status"); ("rdma_local_reg_misses", "local_reg_misses");
    ("rdma_post_failures", "post_failures"); ("rdma_lease_failures", "lease_failures");
    ("rdma_lazy_local_mrs", "lazy_local_mrs"); ("rdma_write_wc_errors", "write_wc_errors");
    ("rdma_write_timeouts", "write_timeouts") ].

Definition store_gauges (t : tier) (disk_size members : Z) (stats : pyres (list (string * Z))) :
    list (string * option Z) :=
  tier_gauges t disk_size members ++ ((λ g, (g.1, Some (_tstat stats g.2))) <$> transport_gauges).

(** [_register_gauges]; the providers are read when a snapshot is taken, so the
    gauges of a metrics object are the ones of the tier at that moment. *)
Definition _register_gauges (m : Metrics) (gauges : list (string * option Z)) : Metrics :=
  foldl (λ m g, set_gauge_provider m g.1 g.2) m gauges.

(** ** The exposition *)

(** A value as the source formats it: an integer, an integral float, a double
    to some decimals, a number of clock ticks, an average of ticks. *)
Inductive sval :=
  | SInt (n : Z)
  | SFloat (n : Z)
  | SDouble (d : Z * Z)
  | STicks (n : Z)
  | SMean (sum : Z) (count : nat).

Inductive line :=
  | LHelp (metric text : string)
  | LType (metric mtype : string)
  | LSample (metric : string) (labels : list (string * string)) (v : sval).

Section render.
Context (node_id : string).

(** [lbl] *)
Definition lbl : list (string * string) := if String.eqb node_id "" then [] else [("node", node_id)].

(** [emit] *)
Definition emit (metric : string) (v : sval) (mtype help_text : string) : list line :=
  [ LHelp ("peercache_" +:+ metric) help_text; LType ("peercache_" +:+ metric) mtype;
    LSample ("peercache_" +:+ metric) lbl v ].

Definition quantile_names : list string := ["0.5"; "0.9"; "0.99"].

(** The lines of one operation's latencies [vals]. *)
Definition latency_lines (op : string) (vals : list Z) : list line :=
  let st := latency_stats vals in
  let base := [("node", node_id); ("op", op)] in
  concat (zip_with (λ q v,
    [ LType "peercache_op_latency_seconds" "summary";
      LSample "peercache_op_latency_seconds" (base ++ [("quantile", q)]) (STicks v) ])
    quantile_names (ls_quantiles st)) ++
  [ LSample "peercache_op_latency_seconds_avg" base (SMean (sumZ vals) (length vals));
    LSample "peercache_op_latency_seconds_count" base (SInt (Z.of_nat (ls_count st))) ].

Definition render_prometheus (m : Metrics) (uptime : Z) : list line :=
  let s := snapshot m in
  mbind (λ c : string * Z, emit (c.1 +:+ "_total") (SInt c.2) "counter" ("PeerCache " +:+ c.1))
    (map_to_list (sn_counters s)) ++
  mbind (λ g : string * Z, emit g.1 (SFloat g.2) "gauge" ("PeerCache " +:+ g.1)) (sn_gauges s) ++
  emit "read_hit_rate" (SDouble (sn_hit_rate s)) "gauge" "Read hit rate (hits / requests)" ++
  emit "uptime_seconds" (STicks uptime) "gauge" "Process uptime" ++
  mbind (λ l : string * list Z, latency_lines l.1 l.2) (map_to_list (m_lat m)).

(** The series of an exposition: metric name and labels, with the value. *)
Definition series (ls : list line) : list (string * list (string * string) * sval) :=
  omap (λ l, match l with LSample metric labels v => Some (metric, labels, v) | _ => None end) ls.

(** What a scrape reads for a series. *)
Definition scrape (ls : list line) (metric : string) (labels : list (string * string)) : option sval :=
  od_get (series ls) (metric, labels).

(** ** The server *)

Inductive body := BMetrics (ls : list line) | BText (s : string) | BDashboard.

(** [do_GET]: status, body and content type. *)
Definition do_GET (dashboard : bool) (m : Metrics) (uptime : Z) (path : string) : Z * body * string :=
  if String.prefix "/metrics" path then
    (200, BMetrics (render_prometheus m uptime), "text/plain; version=0.0.4; charset=utf-8")
  else if String.prefix "/healthz" path then (200, BText "ok", "text/plain")
  else if dashboard && bool_decide (path ∈ ["/"; "/dashboard"; "/index.html"]) then
    (200, BDashboard, "text/html; charset=utf-8")
  else (404, BText "not found", "text/plain").
End render.

(** [MetricsServer.start]: a port that cannot be bound disables the server on
    this node and nothing else. *)
Definition metrics_start (bound : pyres Z) : pyres (option Z) :=
  match bound with Ret port => Ret (Some port) | Raise OSError => Ret None | Raise e => Raise e end.

(** ** Every series once *)

Section facts.
Context (node_id : string).

Lemma series_app l1 l2 : series (l1 ++ l2) = series l1 ++ series l2.
Proof. unfold series. by rewrite omap_app. Qed.

Lemma series_emits {A} (name : A → string) (v : A → sval) (mt : string) (help : A → string) (l : list A) :
  series (mbind (λ x, emit node_id (name x) (v x) mt (help x)) l) =
  (λ x, ("peercache_" +:+ name x, lbl node_id, v x)) <$> l.
Proof. induction l as [|x l IH]; [done|]. rewrite bind_cons, series_app, IH. done. Qed.

Definition latency_series (op : string) (vals : list Z) : list (string * list (string * string) * sval) :=
  let base := [("node", node_id); ("op", op)] in
  zip_with (λ q v, ("peercache_op_latency_seconds", base ++ [("quantile", q)], STicks v)) quantile_names
    (ls_quantiles (latency_stats vals)) ++
  [("peercache_op_latency_seconds_avg", base, SMean (sumZ vals) (length vals));
   ("peercache_op_latency_seconds_count", base, SInt (Z.of_nat (ls_count (latency_stats vals))))].

Lemma series_latency op vals : series (latency_lines node_id op vals) = latency_series op vals.
Proof. done. Qed.

Lemma series_render m uptime :
  series (render_prometheus node_id m uptime) =
  ((λ c : string * Z, ("peercache_" +:+ c.1 +:+ "_total", lbl node_id, SInt c.2)) <$> map_to_list (m_counters m)) ++
  ((λ g : string * option Z, ("peercache_" +:+ g.1, lbl node_id, SFloat (default 0 g.2))) <$> m_gauges m) ++
  [("peercache_read_hit_rate", lbl node_id, SDouble (sn_hit_rate (snapshot m)));
   ("peercache_uptime_seconds", lbl node_id, STicks uptime)] ++
  mbind (λ l : string * list Z, latency_series l.1 l.2) (map_to_list (m_lat m)).
Proof.
  unfold render_prometheus. rewrite !series_app.
  rewrite (series_emits (λ c : string * Z, c.1 +:+ "_total") (λ c, SInt c.2)).
  rewrite (series_emits (λ g : string * Z, g.1) (λ g, SFloat g.2)). cbn [snapshot sn_counters sn_gauges].
  rewrite <-list_fmap_compose. do 2 f_equal. cbn [series emit omap list_omap app]. do 2 f_equal.
  induction (map_to_list (m_lat m)) as [|[op vals] l IH]; [done|]. rewrite !bind_cons, series_app, IH. done.
Qed.

(** Gauge names that cannot be taken for a counter or a fixed metric. *)
Definition fixed_metrics : list string :=
  ["read_hit_rate"; "uptime_seconds"; "op_latency_seconds"; "op_latency_seconds_avg"; "op_latency_seconds_count"].
Definition gauge_name_ok (g : string) : bool :=
  negb (String.prefix (str_rev "_total") (str_rev g)) && negb (bool_decide (g ∈ fixed_metrics)).

Lemma total_name c g : "peercache_" +:+ c +:+ "_total" = "peercache_" +:+ g →
  String.prefix (str_rev "_total") (str_rev g) = true.
Proof. intros <-%str_app_inj_l. rewrite str_rev_concat. apply prefix_concat. Qed.

Definition latency_keys (op : string) : list (string * list (string * string)) :=
  let base := [("node", node_id); ("op", op)] in
  ((λ q, ("peercache_op_latency_seconds", base ++ [("quantile", q)])) <$> quantile_names) ++
  [("peercache_op_latency_seconds_avg", base); ("peercache_op_latency_seconds_count", base)].

Lemma latency_keys_ok op vals : (latency_series op vals).*1 = latency_keys op.
Proof. done. Qed.

Lemma latency_keys_op op k : k ∈ latency_keys op →
  k.2 !! 1%nat = Some ("op"%string, op) ∧ ∃ f, k.1 = "peercache_" +:+ f ∧ f ∈ drop 2 fixed_metrics.
Proof.
  unfold latency_keys. cbn [fmap list_fmap quantile_names app].
  intros Hk. repeat (apply elem_of_cons in Hk as [->|Hk]; [split; [done|eexists; split; [reflexivity|set_solver]]|]).
  by apply not_elem_of_nil in Hk.
Qed.

Lemma latency_keys_nodup ops : NoDup ops → NoDup (mbind latency_keys ops).
Proof.
  induction 1 as [|op ops Hop _ IH]; [constructor|]. rewrite bind_cons. apply NoDup_app. split; [|split; [|done]].
  - unfold latency_keys. cbn [fmap list_fmap quantile_names app].
    repeat (apply NoDup_cons; split; [intros Hk; repeat (apply elem_of_cons in Hk as [[=]|Hk]);
      by apply not_elem_of_nil in Hk|]). constructor.
  - intros k [Hk _]%latency_keys_op (op' & Hk' & Hin)%list_elem_of_bind. apply latency_keys_op in Hk' as [Hk' _].
    rewrite Hk in Hk'. injection Hk' as ->. done.
Qed.

Lemma render_keys m uptime :
  (series (render_prometheus node_id m uptime)).*1 =
  ((λ c, ("peercache_" +:+ c +:+ "_total", lbl node_id)) <$> (map_to_list (m_counters m)).*1) ++
  ((λ g, ("peercache_" +:+ g, lbl node_id)) <$> (m_gauges m).*1) ++
  ((λ f, ("peercache_" +:+ f, lbl node_id)) <$> take 2 fixed_metrics) ++
  mbind latency_keys (map_to_list (m_lat m)).*1.
Proof.
  rewrite series_render, !fmap_app, <-!list_fmap_compose. do 3 f_equal.
  induction (map_to_list (m_lat m)) as [|[op vals] l IH]; [done|]. rewrite bind_cons, fmap_app, IH. done.
Qed.

Lemma prefixed_inj (labels : list (string * string)) : Inj (=) (=) (λ g : string, ("peercache_" +:+ g, labels)).
Proof. intros a b Hab. eapply str_app_inj_l. exact (f_equal fst Hab). Qed.

Lemma gauge_name_ok_spec g : gauge_name_ok g = true →
  String.prefix (str_rev "_total") (str_rev g) = false ∧ g ∉ fixed_metrics.
Proof.
  unfold gauge_name_ok. intros [H1%negb_true_iff H2%negb_true_iff]%andb_true_iff.
  split; [done|by apply bool_decide_eq_false in H2].
Qed.

Lemma total_not_fixed c f : "peercache_" +:+ c +:+ "_total" = "peercache_" +:+ f → f ∉ fixed_metrics.
Proof.
  intros Hc%total_name Hin.
  repeat (apply elem_of_cons in Hin as [->|Hin]; [by vm_compute in Hc|]). by apply not_elem_of_nil in Hin.
Qed.

(** The gauges, the two fixed gauges and the latencies have different keys. *)
Lemma gauge_keys_nodup (gs ops : list string) :
  NoDup gs → Forall (λ g, gauge_name_ok g = true) gs → NoDup ops →
  NoDup (((λ g, ("peercache_" +:+ g, lbl node_id)) <$> gs) ++
    ((λ f, ("peercache_" +:+ f, lbl node_id)) <$> take 2 fixed_metrics) ++ mbind latency_keys ops).
Proof.
  intros Hnd Hok Hops. apply NoDup_app. split; [by apply NoDup_fmap_2; [apply prefixed_inj|]|]. split.
  - intros k (g & -> & Hin)%list_elem_of_fmap [Hf|Hf]%elem_of_app;
      destruct (gauge_name_ok_spec g (proj1 (Forall_forall _ _) Hok g Hin)) as [_ Hn]; apply Hn.
    + apply list_elem_of_fmap in Hf as (f & Hf & Hin'). apply prefixed_inj in Hf as ->. set_solver.
    + apply list_elem_of_bind in Hf as (op & Hf & _). apply latency_keys_op in Hf as [_ (f & Hf & Hin')].
      apply str_app_inj_l in Hf as ->. set_solver.
  - apply NoDup_app. split; [apply NoDup_fmap_2; [apply prefixed_inj|]; decide_vm|]. split.
    + intros k (f & -> & Hin)%list_elem_of_fmap (op & Hf & _)%list_elem_of_bind.
      apply latency_keys_op in Hf as [_ (f' & Hf & Hin')]. apply str_app_inj_l in Hf as ->. set_solver.
    + by apply latency_keys_nodup.
Qed.

Lemma render_nodup m uptime :
  NoDup (m_gauges m).*1 → Forall (λ g, gauge_name_ok g = true) (m_gauges m).*1 →
  NoDup (series (render_prometheus node_id m uptime)).*1.
Proof.
  intros Hnd Hok. rewrite render_keys. apply NoDup_app. split; [|split].
  - apply NoDup_fmap_2; [|apply NoDup_fst_map_to_list]. intros a b Hab%(f_equal fst)%str_app_inj_l.
    by apply str_app_inj_r in Hab.
  - intros k (c & -> & _)%list_elem_of_fmap Hin. rewrite !elem_of_app in Hin. destruct Hin as [Hin|[Hin|Hin]].
    + apply list_elem_of_fmap in Hin as (g & Hc%(f_equal fst)%total_name & Hin).
      destruct (gauge_name_ok_spec g (proj1 (Forall_forall _ _) Hok g Hin)). congruence.
    + apply list_elem_of_fmap in Hin as (f & Hc%(f_equal fst)%total_not_fixed & Hin). set_solver.
    + apply list_elem_of_bind in Hin as (op & Hin & _). apply latency_keys_op in Hin as [_ (f & Hf & Hin)].
      apply total_not_fixed in Hf. set_solver.
  - apply gauge_keys_nodup; [done|done|]. apply NoDup_fst_map_to_list.
Qed.

(** The exposition names every series once.  For metrics whose gauge names
    are distinct, do not end in [_total] and are none of the fixed metric
    names (the gauges of a store and of a storage server are such): no two
    samples of an exposition have the same metric name and labels, so a scrape
    is unambiguous, and it reads back every counter and every gauge. *)
Theorem exposition_series_once (m : Metrics) (uptime : Z)
  (Hnd : NoDup (m_gauges m).*1) (Hok : Forall (λ g, gauge_name_ok g = true) (m_gauges m).*1) :
  let ls := render_prometheus node_id m uptime in
  NoDup (series ls).*1 ∧
  (∀ c n, m_counters m !! c = Some n → scrape ls ("peercache_" +:+ c +:+ "_total") (lbl node_id) = Some (SInt n)) ∧
  (∀ g v, od_get (m_gauges m) g = Some v →
    scrape ls ("peercache_" +:+ g) (lbl node_id) = Some (SFloat (default 0 v))).
Proof.
  intros ls.
  assert (NoDup (series ls).*1) as Hnodup by by apply render_nodup.
  split; [done|]. unfold scrape. split; intros x n Hx; (apply od_elem_get; [done|]); subst ls; rewrite series_render.
  - apply elem_of_app. left. apply list_elem_of_fmap. exists (x, n). split; [done|]. by apply elem_of_map_to_list.
  - apply elem_of_app. right. apply elem_of_app. left. apply list_elem_of_fmap. exists (x, n).
    split; [done|]. by apply od_get_elem.
Qed.
End facts.

(** ** The gauges of a node *)

Lemma register_gauges_fresh m gauges : m_gauges m = [] → NoDup gauges.*1 →
  m_gauges (_register_gauges m gauges) = gauges ∧ m_counters (_register_gauges m gauges) = m_counters m.
Proof.
  intros Hm Hnd. unfold _register_gauges.
  assert (∀ pre m, m_gauges m = pre → NoDup ((pre ++ gauges).*1) →
    let m' := foldl (λ m g, set_gauge_provider m g.1 g.2) m gauges in
    m_gauges m' = pre ++ gauges ∧ m_counters m' = m_counters m) as H; [|by apply (H [] m)].
  clear m Hm Hnd. induction gauges as [|[k v] gs IH]; intros pre m Hm Hnd; cbn [foldl fst snd]; [by rewrite app_nil_r|].
  rewrite fmap_app in Hnd. apply NoDup_app in Hnd as (Hp & Hd & Hg).
  assert (od_get pre k = None) as Hk.
  { apply od_get_None. intros Hin. apply (Hd k Hin). csimpl. apply elem_of_cons. by left. }
  destruct (IH (pre ++ [(k, v)]) (set_gauge_provider m k v)) as [H1 H2].
  - simpl. rewrite Hm. by apply od_set_fresh.
  - rewrite <-app_assoc, fmap_app. by apply NoDup_app.
  - split; [|done]. rewrite H1. by rewrite <-app_assoc.
Qed.

(** The gauge names of a store do not depend on its state. *)
Lemma store_gauges_names t size members stats :
  (store_gauges t size members stats).*1 = (store_gauges t 0 0 (Ret [])).*1 ∧
  NoDup (store_gauges t size members stats).*1 ∧
  Forall (λ g, gauge_name_ok g = true) (store_gauges t size members stats).*1.
Proof.
  assert (∀ l : list string, l = (store_gauges t 0 0 (Ret [])).*1 → NoDup l ∧ Forall (λ g, gauge_name_ok g = true) l)
    as H by (intros l ->; cbn [store_gauges tier_gauges app fmap list_fmap transport_gauges fst];
             split; [decide_vm|repeat constructor]).
  split; [done|]. by apply H.
Qed.

(** The capacity gauge of an empty pool.  What a scrape of a store reads as
    [pool_capacity_bytes] is the capacity of its published pool only while the
    pool holds a page: a node whose pool is registered and still empty (or was
    emptied) reports 0, exactly as a node that has no pool. *)
Theorem capacity_gauge_needs_pages (node_id : string) (m : Metrics) (uptime : Z) (t : tier) (size members : Z)
  (stats : pyres (list (string * Z))) (Hm : m_gauges m = []) :
  scrape (render_prometheus node_id (_register_gauges m (store_gauges t size members stats)) uptime)
    "peercache_pool_capacity_bytes" (lbl node_id) =
  Some (SFloat (match t_pool t with
                | Some p => if bool_decide (p_entries p = []) then 0 else p_capacity p
                | None => 0
                end)).
Proof.
  destruct (store_gauges_names t size members stats) as (_ & Hnd & Hok).
  destruct (register_gauges_fresh m (store_gauges t size members stats) Hm Hnd) as [Hg _].
  unfold scrape. apply od_elem_get; [apply render_nodup; by rewrite Hg|].
  rewrite series_render, Hg. apply elem_of_app. right. apply elem_of_app. left. apply list_elem_of_fmap.
  exists ("pool_capacity_bytes"%string, Some (pool_gauge t p_capacity)).
  split; [|unfold store_gauges, tier_gauges; set_solver].
  unfold pool_gauge, pool_truthy. destruct (t_pool t) as [p|]; [|done]. by case_bool_decide.
Qed.

(** ** Concrete instances *)

Module ExpositionExamples.
Definition tier_of (po : option PublishedPool) : tier :=
  mk_tier (mk_ident "a" "h:7" ["h:7"] 0) (new_runtime 3 (λ _, None) 2) po None [] (new_metrics 8).
Definition full_pool : PublishedPool := mk_pool 0 100 0 [0] 8 ∅ [("k", (0, 8))] 8.

Lemma capacity_gauge_needs_pages_witness :
  scrape (render_prometheus "a" (_register_gauges (new_metrics 8) (store_gauges (tier_of (Some (new_pool 0 100 0 None))) 0 1 (Ret []))) 5)
    "peercache_pool_capacity_bytes" (lbl "a") = Some (SFloat 0) ∧
  scrape (render_prometheus "a" (_register_gauges (new_metrics 8) (store_gauges (tier_of (Some full_pool)) 0 1 (Ret []))) 5)
    "peercache_pool_capacity_bytes" (lbl "a") = Some (SFloat 100).
Proof.
  split.
  - exact (capacity_gauge_needs_pages "a" (new_metrics 8) 5 (tier_of (Some (new_pool 0 100 0 None))) 0 1 (Ret []) eq_refl).
  - exact (capacity_gauge_needs_pages "a" (new_metrics 8) 5 (tier_of (Some full_pool)) 0 1 (Ret []) eq_refl).
Defined.

Lemma exposition_series_once_witness :
  scrape (render_prometheus "a" (inc (new_metrics 8) "evictions" 3) 5) "peercache_evictions_total" (lbl "a") = Some (SInt 3).
Proof.
  refine (proj1 (proj2 (exposition_series_once "a" (inc (new_metrics 8) "evictions" 3) 5 _ _)) "evictions"%string 3 _).
  - constructor.
  - constructor.
  - reflexivity.
Defined.

(** One metric name, six [TYPE] lines: one for each quantile of each operation. *)
Example type_lines_repeat :
  length (List.filter (λ l, match l with LType n _ => String.eqb n "peercache_op_latency_seconds" | _ => false end)
    (render_prometheus "a" (new_metrics 8) 0)) = 6%nat.
Proof. vm_compute. reflexivity. Qed.
End ExpositionExamples.
