(* ===== verification/Bench.v ===== *)
(** The measuring side of [peercache.bench]: the latency histogram and the
    result counters of [bench/common.py], the workers and their aggregation of
    [bench/hicache.py] and [bench/dist.py], and the stand-in host pool of
    [bench/sglang_sim.py] that drives the store.

    Latencies are whole nanoseconds, as [Histogram.record] computes them; the
    clock and the store are arguments of a worker.  Building clusters, printing
    and the command line are not modelled. *)
From S2P Require Import Prelude Bytes Types Config Metrics Keys.

(** ** Histograms *)

(** [int(math.floor(math.log10(ns)))]: the number of digits less one, for
    latencies under 10^15 ns (eleven days), where the double of the logarithm
    does not round up to the next integer. *)
Class Log10 := {
  ilog10 : Z → Z;
  ilog10_spec ns : 1 ≤ ns < 10 ^ 15 → 0 ≤ ilog10 ns ∧ 10 ^ ilog10 ns ≤ ns < 10 ^ (ilog10 ns + 1)
}.

Record Histogram := mk_hist {
  h_sig : Z;
  h_counts : gmap Z Z;
  h_n : Z;
  h_sum_ns : Z;
  h_max_ns : Z;
  h_min_ns : Z
}.

(** [Histogram.__init__] *)
Definition new_hist (sig : Z) : Histogram := mk_hist sig ∅ 0 0 0 0.

Section histogram.
Context {LG : Log10}.
Implicit Types (h : Histogram).

Definition _bucket (sig ns : Z) : Z :=
  if ns <=? 0 then 0
  else
    let digits := sig - 1 - ilog10 ns in
    if 0 <=? digits then ns
    else let f := 10 ^ (- digits) in (ns / f) * f.

(** [record] of the nanoseconds [int(seconds * 1e9)]. *)
Definition record h (ns : Z) : Histogram :=
  let ns := if ns <? 1 then 1 else ns in
  let b := _bucket (h_sig h) ns in
  mk_hist (h_sig h) (<[b := default 0 (h_counts h !! b) + 1]> (h_counts h)) (h_n h + 1) (h_sum_ns h + ns)
    (if h_max_ns h <? ns then ns else h_max_ns h)
    (if (h_min_ns h =? 0) || (ns <? h_min_ns h) then ns else h_min_ns h).

Definition merge h (o : Histogram) : Histogram :=
  mk_hist (h_sig h) (map_fold (λ k v m, <[k := default 0 (m !! k) + v]> m) (h_counts h) (h_counts o))
    (h_n h + h_n o) (h_sum_ns h + h_sum_ns o) (Z.max (h_max_ns h) (h_max_ns o))
    (if negb (h_min_ns o =? 0) && ((h_min_ns h =? 0) || (h_min_ns o <? h_min_ns h)) then h_min_ns o else h_min_ns h).

(** [acc >= target] for the double [target = tm * 2 ^ tk]. *)
Definition reaches (acc : Z) (target : Z * Z) : bool :=
  target.1 * 2 ^ Z.max 0 target.2 <=? acc * 2 ^ Z.max 0 (- target.2).

(** [p / 100.0 * self.n] for the double [p = pm * 2 ^ pk]. *)
Definition rank_target (p : Z * Z) (n : Z) : Z * Z :=
  let q := round_double (p.1 * 2 ^ Z.max 0 p.2) (100 * 2 ^ Z.max 0 (- p.2)) in
  round_double (q.1 * n * 2 ^ Z.max 0 q.2) (2 ^ Z.max 0 (- q.2)).

(** The loop of [percentile_us] over the sorted buckets. *)
Fixpoint percentile_loop (counts : gmap Z Z) (ks : list Z) (acc : Z) (target : Z * Z) : option Z :=
  match ks with
  | [] => None
  | k :: ks' =>
      let acc := acc + default 0 (counts !! k) in
      if reaches acc target then Some k else percentile_loop counts ks' acc target
  end.

(** [percentile_us], in nanoseconds; [None] for [nan]. *)
Definition percentile h (p : Z * Z) : option Z :=
  if h_n h =? 0 then None
  else Some (default (h_max_ns h)
    (percentile_loop (h_counts h) (merge_sort Z.le (elements (dom (h_counts h)))) 0 (rank_target p (h_n h)))).

(** [mean_us], [max_us] and [min_us] *)
Definition mean h : option (Z * Z) := if h_n h =? 0 then None else Some (h_sum_ns h, h_n h).
Definition max_ns h : option Z := if h_n h =? 0 then None else Some (h_max_ns h).
Definition min_ns h : option Z := if h_n h =? 0 then None else Some (h_min_ns h).

(** [_hist_to_wire] and [_hist_from_wire] of [dist.py]. *)
Definition _hist_to_wire h : gmap Z Z * Z * Z * Z * Z := (h_counts h, h_n h, h_sum_ns h, h_max_ns h, h_min_ns h).
Definition _hist_from_wire (w : gmap Z Z * Z * Z * Z * Z) : Histogram :=
  let '(counts, n, sum_ns, max_ns, min_ns) := w in mk_hist 3 counts n sum_ns max_ns min_ns.

(** ** A histogram is what was recorded *)

(** The latencies of [l], in any order, put into one histogram. *)
Definition hist_of (sig : Z) (l : list Z) : Histogram := foldl record (new_hist sig) l.
Definition clamp (ns : Z) : Z := if ns <? 1 then 1 else ns.
Definition below (sig : Z) (P : Z → bool) (l : list Z) : Z := zlength (List.filter (λ ns, P (_bucket sig (clamp ns))) l).

(** The extreme value of a list, 0 when it is empty. *)
Definition extreme (le : Z → Z → Prop) (m : Z) (l : list Z) : Prop :=
  if bool_decide (l = []) then m = 0 else m ∈ l ∧ Forall (le m) l.

(** Its abstract content. *)
Record hist_is (sig : Z) (l : list Z) h : Prop := {
  hi_sig : h_sig h = sig;
  hi_counts : ∀ b, default 0 (h_counts h !! b) = below sig (λ x, x =? b) l;
  hi_dom : ∀ b, is_Some (h_counts h !! b) ↔ ∃ ns, ns ∈ l ∧ _bucket sig (clamp ns) = b;
  hi_n : h_n h = zlength l;
  hi_sum : h_sum_ns h = sumZ (clamp <$> l);
  hi_max : extreme Z.ge (h_max_ns h) (clamp <$> l);
  hi_min : extreme Z.le (h_min_ns h) (clamp <$> l)
}.

Lemma clamp_pos ns : 1 ≤ clamp ns.
Proof. unfold clamp. destruct (ns <? 1) eqn:E; lia. Qed.

Lemma below_app sig P l1 l2 : below sig P (l1 ++ l2) = below sig P l1 + below sig P l2.
Proof. unfold below, zlength. rewrite List.filter_app, length_app. lia. Qed.

Lemma extreme_unique le m1 m2 l : (∀ x y, le x y → le y x → x = y) → extreme le m1 l → extreme le m2 l → m1 = m2.
Proof.
  intros Ha. unfold extreme. case_bool_decide; [congruence|]. rewrite !Forall_forall. intros [H1 H2] [H3 H4].
  apply Ha; auto.
Qed.

Lemma hist_is_unique sig l h1 h2 : hist_is sig l h1 → hist_is sig l h2 → h1 = h2.
Proof.
  intros [A1 A2 A3 A4 A5 A6 A7] [B1 B2 B3 B4 B5 B6 B7].
  assert (h_counts h1 = h_counts h2) as Hc.
  { apply map_eq. intros b. pose proof (A2 b) as H1. rewrite <-B2 in H1. pose proof (A3 b) as H2. rewrite <-B3 in H2.
    destruct (h_counts h1 !! b), (h_counts h2 !! b); simpl in *; [congruence| | |done].
    - destruct (proj1 H2 ltac:(eauto)); done.
    - destruct (proj2 H2 ltac:(eauto)); done. }
  assert (h_max_ns h1 = h_max_ns h2) by (eapply (extreme_unique Z.ge); [lia|done|done]).
  assert (h_min_ns h1 = h_min_ns h2) by (eapply (extreme_unique Z.le); [lia|done|done]).
  destruct h1, h2; simpl in *. congruence.
Qed.

Lemma extreme_singleton (le : Z → Z → Prop) x : le x x → extreme le x [x].
Proof.
  intros Hx. unfold extreme. rewrite bool_decide_eq_false_2 by done. split; [by apply list_elem_of_singleton|].
  by apply Forall_singleton.
Qed.

Lemma extreme_app (le : Z → Z → Prop) m1 m2 m l1 l2 :
  (∀ x, le x x) → (∀ x y z, le x y → le y z → le x z) →
  extreme le m1 l1 → extreme le m2 l2 →
  (l1 = [] → m = m2) → (l2 = [] → m = m1) →
  (l1 ≠ [] → l2 ≠ [] → (m = m1 ∧ le m1 m2) ∨ (m = m2 ∧ le m2 m1)) → extreme le m (l1 ++ l2).
Proof.
  intros Hr Ht H1 H2 Hm2 Hm1 Hm. destruct l1 as [|x1 l1]; [by rewrite (Hm2 eq_refl)|].
  destruct l2 as [|x2 l2]; [by rewrite app_nil_r, (Hm1 eq_refl)|].
  unfold extreme in *. rewrite !bool_decide_eq_false_2 in * by done. rewrite !Forall_forall in *.
  setoid_rewrite elem_of_app. destruct H1, H2, (Hm ltac:(done) ltac:(done)) as [[-> ?]|[-> ?]]; naive_solver.
Qed.

Lemma hist_is_new sig : hist_is sig [] (new_hist sig).
Proof.
  split; simpl; try done. intros b. rewrite lookup_empty. split; [by intros []|].
  intros (ns & Hin & _). by apply not_elem_of_nil in Hin.
Qed.

Lemma hist_is_record sig l h ns : hist_is sig l h → hist_is sig (l ++ [ns]) (record h ns).
Proof.
  intros [A1 A2 A3 A4 A5 A6 A7]. unfold record. fold (clamp ns).
  pose proof (extreme_singleton Z.le (clamp ns) ltac:(lia)) as Hle.
  pose proof (extreme_singleton Z.ge (clamp ns) ltac:(lia)) as Hge.
  split; simpl; rewrite ?fmap_app; simpl.
  - done.
  - intros b. rewrite A1, below_app, <-A2. unfold below, zlength. simpl.
    destruct (decide (_bucket sig (clamp ns) = b)) as [<-|Hb].
    + rewrite lookup_insert_eq, Z.eqb_refl. done.
    + rewrite lookup_insert_ne by done. rewrite (proj2 (Z.eqb_neq _ _) Hb). simpl. lia.
  - intros b. rewrite A1, lookup_insert_is_Some', A3. setoid_rewrite elem_of_app. setoid_rewrite list_elem_of_singleton.
    naive_solver.
  - rewrite A4. unfold zlength. rewrite length_app. simpl. lia.
  - rewrite A5, sumZ_app. simpl. lia.
  - apply (extreme_app Z.ge (h_max_ns h) (clamp ns)); [lia|lia|done|done| |done|].
    + intros ->%fmap_nil_inv. unfold extreme in A6. simpl in A6. rewrite A6.
      by rewrite (proj2 (Z.ltb_lt 0 (clamp ns))) by (pose proof (clamp_pos ns); lia).
    + intros _ _. destruct (h_max_ns h <? clamp ns) eqn:E; [right|left]; lia.
  - apply (extreme_app Z.le (h_min_ns h) (clamp ns)); [lia|lia|done|done| |done|].
    + intros ->%fmap_nil_inv. unfold extreme in A7. simpl in A7. by rewrite A7.
    + intros Hne _. unfold extreme in A7. rewrite bool_decide_eq_false_2 in A7 by done. destruct A7 as [Hin _].
      apply list_elem_of_fmap in Hin as (x & Hx & _). pose proof (clamp_pos x).
      rewrite (proj2 (Z.eqb_neq (h_min_ns h) 0)) by lia. simpl.
      destruct (clamp ns <? h_min_ns h) eqn:E; [right|left]; lia.
Qed.

Lemma hist_of_is sig l : hist_is sig l (hist_of sig l).
Proof.
  unfold hist_of. induction l as [|ns l IH] using rev_ind; [apply hist_is_new|].
  rewrite foldl_snoc. by apply hist_is_record.
Qed.

Lemma merge_counts (m1 m2 : gmap Z Z) b :
  map_fold (λ k v m, <[k := default 0 (m !! k) + v]> m) m1 m2 !! b =
  match m2 !! b with Some v => Some (default 0 (m1 !! b) + v) | None => m1 !! b end.
Proof.
  revert b. apply (map_fold_weak_ind (λ r m, ∀ b, r !! b =
    match m !! b with Some v => Some (default 0 (m1 !! b) + v) | None => m1 !! b end)); [done|].
  intros k v m r Hk IH b. destruct (decide (k = b)) as [<-|Hb].
  - rewrite !lookup_insert_eq, IH, Hk. done.
  - rewrite !lookup_insert_ne by done. apply IH.
Qed.

Lemma extreme_pos (le : Z → Z → Prop) m l : extreme le m (clamp <$> l) → m = 0 ∧ l = [] ∨ 1 ≤ m ∧ l ≠ [].
Proof.
  unfold extreme. case_bool_decide as Hn; [apply fmap_nil_inv in Hn; naive_solver|].
  intros [(x & -> & _)%list_elem_of_fmap _]. pose proof (clamp_pos x). right. split; [done|]. by intros ->.
Qed.

Lemma hist_is_merge sig l1 l2 h1 h2 : hist_is sig l1 h1 → hist_is sig l2 h2 → hist_is sig (l1 ++ l2) (merge h1 h2).
Proof.
  intros [A1 A2 A3 A4 A5 A6 A7] [B1 B2 B3 B4 B5 B6 B7]. split; simpl; rewrite ?fmap_app.
  - done.
  - intros b. rewrite merge_counts, below_app, <-A2, <-B2. destruct (h_counts h2 !! b); simpl; lia.
  - intros b. rewrite merge_counts. setoid_rewrite elem_of_app.
    transitivity (is_Some (h_counts h1 !! b) ∨ is_Some (h_counts h2 !! b)); [|rewrite A3, B3; naive_solver].
    destruct (h_counts h2 !! b); [|naive_solver]. split; [naive_solver|]. by eauto.
  - rewrite A4, B4. unfold zlength. rewrite length_app. lia.
  - rewrite A5, B5, sumZ_app. done.
  - destruct (extreme_pos _ _ _ A6) as [[? ->]|[? ?]], (extreme_pos _ _ _ B6) as [[? ->]|[? ?]];
      (apply (extreme_app Z.ge (h_max_ns h1) (h_max_ns h2)); [lia|lia|done|done|..]); intros;
      repeat match goal with H : _ <$> _ = [] |- _ => apply fmap_nil_inv in H end; first [done|lia].
  - destruct (extreme_pos _ _ _ A7) as [[? ->]|[? ?]], (extreme_pos _ _ _ B7) as [[? ->]|[? ?]];
      (apply (extreme_app Z.le (h_min_ns h1) (h_min_ns h2)); [lia|lia|done|done|..]); intros;
      repeat match goal with H : _ <$> _ = [] |- _ => apply fmap_nil_inv in H end; try done;
      destruct (h_min_ns h2 =? 0) eqn:?, (h_min_ns h1 =? 0) eqn:?, (h_min_ns h2 <? h_min_ns h1) eqn:?; simpl; lia.
Qed.

Lemma merged_parts sig (parts : list (list Z)) :
  foldl merge (new_hist sig) (hist_of sig <$> parts) = hist_of sig (concat parts).
Proof.
  apply (hist_is_unique sig (concat parts)); [|apply hist_of_is].
  induction parts as [|l parts IH] using rev_ind; [apply hist_is_new|].
  rewrite fmap_app, foldl_app, concat_app. cbn [fmap list_fmap foldl concat]. rewrite app_nil_r.
  apply hist_is_merge; [done|apply hist_of_is].
Qed.

Lemma wire_roundtrip l : _hist_from_wire (_hist_to_wire (hist_of 3 l)) = hist_of 3 l.
Proof. pose proof (hi_sig _ _ _ (hist_of_is 3 l)) as Hs. destruct (hist_of 3 l). simpl in *. congruence. Qed.

(** Merging histograms is recording everything in one.  However the samples
    were split over threads and processes, and through the wire form they
    cross processes in, merging the parts into a fresh histogram gives the very
    histogram that recording all samples in one place gives: the same buckets,
    count, sum, maximum and minimum, hence the same percentiles. *)
Theorem merged_histograms_exact (parts : list (list Z)) :
  foldl merge (new_hist 3) ((λ l, _hist_from_wire (_hist_to_wire (hist_of 3 l))) <$> parts) = hist_of 3 (concat parts).
Proof.
  rewrite <-(merged_parts 3). f_equal. apply list_fmap_ext. intros ? l _. apply wire_roundtrip.
Qed.

(** ** Precision and size *)

(** A bucket is the latency rounded down to [sig] significant digits. *)
Lemma bucket_spec sig ns : 1 ≤ sig → 1 ≤ ns < 10 ^ 15 →
  ∃ q j, 0 ≤ j ≤ 15 ∧ 1 ≤ q < 10 ^ sig ∧ _bucket sig ns = q * 10 ^ j ∧
    _bucket sig ns ≤ ns ∧ (ns - _bucket sig ns) * 10 ^ (sig - 1) < ns.
Proof.
  intros Hs Hn. unfold _bucket. rewrite (proj2 (Z.leb_gt ns 0)) by lia.
  destruct (ilog10_spec ns Hn) as (H0 & Hlo & Hhi). set (e := ilog10 ns) in *. clearbody e.
  assert (e < 15) as He by (apply (Z.pow_lt_mono_r_iff 10); lia).
  destruct (0 <=? sig - 1 - e) eqn:E; [apply Z.leb_le in E|apply Z.leb_gt in E].
  - exists ns, 0. split; [lia|]. split; [|split; [lia|split; [done|]]].
    + split; [lia|]. eapply Z.lt_le_trans; [exact Hhi|]. apply Z.pow_le_mono_r; lia.
    + rewrite Z.sub_diag, Z.mul_0_l. lia.
  - replace (- (sig - 1 - e)) with (e + 1 - sig) by lia. set (f := 10 ^ (e + 1 - sig)).
    assert (0 < f) as Hf by (apply Z.pow_pos_nonneg; lia).
    assert (f * 10 ^ (sig - 1) = 10 ^ e) as Hfe by (unfold f; rewrite <-Z.pow_add_r by lia; f_equal; lia).
    pose proof (Z.mod_pos_bound ns f Hf). pose proof (Z.div_mod ns f ltac:(lia)) as Hdm.
    exists (ns / f), (e + 1 - sig). split; [lia|]. split; [|split; [done|split; [nia|]]].
    + split.
      * apply Z.div_le_lower_bound; [lia|]. rewrite Z.mul_1_r. unfold f. etransitivity; [|exact Hlo].
        apply Z.pow_le_mono_r; lia.
      * apply Z.div_lt_upper_bound; [lia|]. unfold f. rewrite <-Z.pow_add_r by lia.
        replace (e + 1 - sig + sig) with (e + 1) by lia. done.
    + replace (ns - ns / f * f) with (ns mod f) by lia.
      apply Z.lt_le_trans with (f * 10 ^ (sig - 1)); [|lia]. apply Z.mul_lt_mono_pos_r; [|lia].
      apply Z.pow_pos_nonneg; lia.
Qed.

Lemma size_list_to_set_le (l : list Z) : (size (list_to_set l : gset Z) ≤ length l)%nat.
Proof.
  induction l as [|x l IH]; [done|]. cbn [list_to_set length]. rewrite size_union_alt, size_singleton.
  pose proof (subseteq_size (list_to_set l ∖ {[x]} : gset Z) (list_to_set l) ltac:(set_solver)). lia.
Qed.

Lemma length_bind_const {A B} (f : A → list B) (l : list A) n :
  (∀ x, length (f x) = n) → length (l ≫= f) = (length l * n)%nat.
Proof. intros Hf. induction l as [|x l IH]; [done|]. rewrite bind_cons, length_app, Hf, IH. done. Qed.

(** The buckets there can be for latencies under 10^15 ns. *)
Definition all_buckets (sig : Z) : gset Z :=
  list_to_set (j ← seqZ 0 16; (λ q, q * 10 ^ j) <$> seqZ 0 (10 ^ sig)).

Lemma size_all_buckets sig : 0 ≤ sig → Z.of_nat (size (all_buckets sig)) ≤ 16 * 10 ^ sig.
Proof.
  intros Hs. unfold all_buckets.
  pose proof (size_list_to_set_le (j ← seqZ 0 16; (λ q, q * 10 ^ j) <$> seqZ 0 (10 ^ sig))) as Hsz.
  rewrite (length_bind_const _ _ (Z.to_nat (10 ^ sig))), length_seqZ in Hsz
    by (intros; by rewrite length_fmap, length_seqZ).
  pose proof (Z.pow_nonneg 10 sig). lia.
Qed.

(** Precision and memory of a histogram.  For latencies under 10^15 ns and
    [sig] significant digits: the bucket of a latency is at most the latency
    and less than one part in 10^(sig-1) below it (one percent for the default
    of three digits), and however many samples are recorded the histogram
    keeps at most [16 * 10^sig] buckets. *)
Theorem histogram_precision_bounded (sig : Z) (l : list Z) (Hsig : 1 ≤ sig) (Hl : Forall (λ ns, ns < 10 ^ 15) l) :
  (∀ ns, 1 ≤ ns < 10 ^ 15 → _bucket sig ns ≤ ns ∧ (ns - _bucket sig ns) * 10 ^ (sig - 1) < ns) ∧
  Z.of_nat (size (dom (h_counts (hist_of sig l)))) ≤ 16 * 10 ^ sig.
Proof.
  split; [intros ns Hn; destruct (bucket_spec sig ns Hsig Hn) as (q & j & _ & _ & _ & ? & ?); done|].
  etransitivity; [|apply size_all_buckets; lia]. apply inj_le, subseteq_size. intros b [c Hb]%elem_of_dom.
  destruct (proj1 (hi_dom _ _ _ (hist_of_is sig l) b) ltac:(eauto)) as (ns & Hin & <-).
  pose proof (proj1 (Forall_forall _ _) Hl ns Hin) as Hlt. pose proof (clamp_pos ns) as Hc.
  assert (1 ≤ clamp ns < 10 ^ 15) as Hr by (unfold clamp in *; destruct (ns <? 1); lia).
  destruct (bucket_spec sig (clamp ns) Hsig Hr) as (q & j & Hj & Hq & -> & _).
  unfold all_buckets. apply elem_of_list_to_set, list_elem_of_bind. exists j. split; [|apply elem_of_seqZ; lia].
  apply list_elem_of_fmap. exists q. split; [done|]. apply elem_of_seqZ. lia.
Qed.

(** ** Percentiles *)

(** How many samples fall into the buckets up to [k]. *)
Definition up_to (sig : Z) (l : list Z) (k : Z) : Z := below sig (λ x, x <=? k) l.
Definition among (sig : Z) (l : list Z) (ks : list Z) : Z := below sig (λ x, bool_decide (x ∈ ks)) l.

Lemma below_ext sig P Q l : (∀ ns, ns ∈ l → P (_bucket sig (clamp ns)) = Q (_bucket sig (clamp ns))) →
  below sig P l = below sig Q l.
Proof.
  intros He. unfold below. f_equal. apply List.filter_ext_in. intros ns Hin%list_elem_of_In. by apply He.
Qed.

Lemma among_snoc sig l ks k : k ∉ ks → among sig l (ks ++ [k]) = among sig l ks + below sig (λ x, x =? k) l.
Proof.
  intros Hk. unfold among, below, zlength. induction l as [|ns l IH]; [done|]. cbn [List.filter].
  set (b := _bucket sig (clamp ns)) in *. destruct (b =? k) eqn:E.
  - apply Z.eqb_eq in E. rewrite E. rewrite (bool_decide_eq_false_2 (k ∈ ks)) by done.
    rewrite bool_decide_eq_true_2 by set_solver. cbn [length]. lia.
  - apply Z.eqb_neq in E.
    rewrite (bool_decide_ext (b ∈ ks ++ [k]) (b ∈ ks)) by (rewrite elem_of_app, list_elem_of_singleton; naive_solver).
    case_bool_decide; cbn [length]; lia.
Qed.

(** The loop from the bucket after [pre]. *)
Lemma percentile_loop_spec sig l counts target post : ∀ pre,
  (∀ b, default 0 (counts !! b) = below sig (λ x, x =? b) l) → NoDup (pre ++ post) →
  match percentile_loop counts post (among sig l pre) target with
  | Some k => ∃ mid rest, post = mid ++ k :: rest ∧ reaches (among sig l (pre ++ mid ++ [k])) target = true ∧
      ∀ m1 x m2, mid = m1 ++ x :: m2 → reaches (among sig l (pre ++ m1 ++ [x])) target = false
  | None => post = [] ∨ reaches (among sig l (pre ++ post)) target = false
  end.
Proof.
  induction post as [|k post IH]; intros pre Hc Hnd; cbn [percentile_loop]; [by left|].
  assert (k ∉ pre) as Hk by (intros ?; apply NoDup_app in Hnd as (_ & Hd & _); eapply Hd; set_solver).
  rewrite Hc, <-among_snoc by done. destruct (reaches (among sig l (pre ++ [k])) target) eqn:Er.
  - exists [], post. split; [done|]. split; [done|]. intros [|? ?] x m2; done.
  - rewrite cons_middle, app_assoc in Hnd. specialize (IH (pre ++ [k]) Hc Hnd).
    destruct (percentile_loop _ _ _ _) as [k'|].
    + destruct IH as (mid & rest & -> & Hr & Hm). exists (k :: mid), rest. split; [done|].
      rewrite <-!app_assoc in Hr. split; [done|]. intros [|y m1] x m2 [= ??]; subst; [done|].
      specialize (Hm m1 x m2 eq_refl). by rewrite <-!app_assoc in Hm.
    + right. destruct IH as [->|IH]; [done|]. by rewrite <-app_assoc in IH.
Qed.

Lemma below_false sig l : below sig (λ _, false) l = 0.
Proof. unfold below. by induction l. Qed.

Lemma among_all sig l ks : (∀ ns, ns ∈ l → _bucket sig (clamp ns) ∈ ks) → among sig l ks = zlength l.
Proof.
  intros Hall. unfold among. rewrite (below_ext sig _ (λ _, true)).
  - unfold below. f_equal. clear Hall. induction l as [|x l IH]; [done|]. simpl. by rewrite IH.
  - intros ns Hin. by apply bool_decide_eq_true_2, Hall.
Qed.

(** In sorted buckets, those up to [k] are the ones before it and itself. *)
Lemma among_up_to sig l ks pre k rest :
  StronglySorted Z.le ks → NoDup ks → (∀ ns, ns ∈ l → _bucket sig (clamp ns) ∈ ks) → ks = pre ++ k :: rest →
  among sig l (pre ++ [k]) = up_to sig l k.
Proof.
  intros Hso Hnd Hall ->. apply below_ext. intros ns Hin%Hall. set (b := _bucket sig (clamp ns)) in *.
  apply eq_bool_prop_intro. rewrite !Is_true_true, bool_decide_eq_true, Z.leb_le.
  rewrite cons_middle, app_assoc in Hso, Hnd, Hin. split.
  - intros [Hb| ->%list_elem_of_singleton]%elem_of_app; [|lia].
    rewrite <-app_assoc in Hso. eapply (StronglySorted_app_1_elem_of Z.le pre ([k] ++ rest)); [done|done|set_solver].
  - intros Hle. apply elem_of_app in Hin as [?|Hin]; [done|exfalso].
    assert (k ≤ b) by (eapply (StronglySorted_app_1_elem_of Z.le (pre ++ [k]) rest); [done|set_solver|done]).
    assert (b = k) as -> by lia. apply NoDup_app in Hnd as (_ & Hd & _). apply (Hd k); [set_solver|done].
Qed.

Lemma reaches_mono a b target : a ≤ b → reaches a target = true → reaches b target = true.
Proof.
  intros Hab. unfold reaches. rewrite !Z.leb_le. intros H. etransitivity; [done|].
  apply Z.mul_le_mono_nonneg_r; [|done]. apply Z.pow_nonneg. lia.
Qed.

(** A percentile is the nearest rank over the buckets.  For a histogram of
    any non-empty list of samples: if the rank [p / 100 * n] (as the code
    computes it, in doubles) is within the count, the result is the least
    recorded bucket up to which at least that many samples fall; otherwise it
    is the maximum. *)
Theorem percentile_nearest_rank (sig : Z) (l : list Z) (p : Z * Z) (Hl : l ≠ []) :
  let h := hist_of sig l in let target := rank_target p (zlength l) in
  ∃ k, percentile h p = Some k ∧
  if reaches (zlength l) target
  then is_Some (h_counts h !! k) ∧ reaches (up_to sig l k) target = true ∧
       ∀ k', is_Some (h_counts h !! k') → k' < k → reaches (up_to sig l k') target = false
  else k = h_max_ns h.
Proof.
  intros h target. pose proof (hist_of_is sig l) as Hh. fold h in Hh. destruct Hh as [_ Hc Hd Hn _ _ _].
  unfold percentile. rewrite Hn. rewrite (proj2 (Z.eqb_neq _ 0)) by (destruct l; [done|unfold zlength; simpl; lia]).
  fold target. set (ks := merge_sort Z.le (elements (dom (h_counts h)))).
  assert (∀ b, b ∈ ks ↔ is_Some (h_counts h !! b)) as Hks
    by (intros b; unfold ks; by rewrite merge_sort_Permutation, elem_of_elements, elem_of_dom).
  assert (NoDup ks) as Hnd by (unfold ks; rewrite merge_sort_Permutation; apply NoDup_elements).
  assert (StronglySorted Z.le ks) as Hso by (apply StronglySorted_merge_sort; apply _).
  assert (∀ ns, ns ∈ l → _bucket sig (clamp ns) ∈ ks) as Hall by (intros ns Hin; apply Hks, Hd; eauto).
  assert (among sig l ks = zlength l) as Htot by by apply among_all.
  pose proof (percentile_loop_spec sig l (h_counts h) target ks [] Hc Hnd) as Hloop.
  change (among sig l []) with (below sig (λ _, false) l) in Hloop. rewrite below_false in Hloop.
  destruct (percentile_loop _ _ _ _) as [k|]; simpl; eexists; (split; [reflexivity|]).
  - destruct Hloop as (mid & rest & Hk & Hr & Hm). cbn [app] in *.
    rewrite (among_up_to sig l ks mid k rest) in Hr by done.
    rewrite <-Htot. rewrite (reaches_mono (up_to sig l k)).
    2:{ rewrite Htot. unfold up_to, below, zlength. pose proof (List.filter_length_le (λ ns, _bucket sig (clamp ns) <=? k) l). lia. }
    2:{ done. }
    split; [apply Hks; rewrite Hk; set_solver|]. split; [done|]. intros k' Hin Hlt. apply Hks in Hin.
    pose proof Hso as Hso'. rewrite Hk in Hin, Hso'. apply elem_of_app in Hin as [Hin|Hin].
    + apply list_elem_of_split in Hin as (m1 & m2 & ->). rewrite <-(among_up_to sig l ks m1 k' (m2 ++ k :: rest));
        [by eapply Hm|done|done|done|]. rewrite Hk. by rewrite <-app_assoc.
    + apply elem_of_cons in Hin as [->|Hin]; [lia|].
      assert (k ≤ k') by (eapply (StronglySorted_app_1_elem_of Z.le (mid ++ [k]) rest); [by rewrite <-app_assoc|set_solver|done]).
      lia.
  - destruct Hloop as [Hks0|Hloop]; [|cbn [app] in Hloop; by rewrite Htot in Hloop; rewrite Hloop].
    exfalso. destruct l as [|ns l']; [done|]. specialize (Hall ns ltac:(set_solver)). rewrite Hks0 in Hall.
    by apply not_elem_of_nil in Hall.
Qed.
End histogram.

(** ** The stand-in host pool *)

Record HostKVPool := mk_hkp {
  hk_page_bytes : Z;
  hk_num_slots : Z;
  hk_mla : bool;
  hk_base : Z
}.

Definition comps (hk : HostKVPool) : Z := if hk_mla hk then 1 else 2.
Definition hk_stride (hk : HostKVPool) : Z := hk_page_bytes hk * comps hk.
(** [kv_buffer.numel() * kv_buffer.element_size()] *)
Definition hk_bytes (hk : HostKVPool) : Z := hk_stride hk * hk_num_slots hk.

Definition get_page_buffer_meta (hk : HostKVPool) (host_indices : list Z) : list Z * list Z :=
  let bufs := i ← host_indices;
    (λ c, (hk_base hk + i * hk_stride hk + c * hk_page_bytes hk, hk_page_bytes hk)) <$> seqZ 0 (comps hk) in
  (bufs.*1, bufs.*2).

(** [_fill_template_buf]: byte [k] is [k % 251]. *)
Definition fill_template (stride : Z) : list Z := (λ k, k mod 251) <$> seqZ 0 (stride + 251).

(** [fill_slot]: one copy out of the template. *)
Definition fill_slot (m : mem) (hk : HostKVPool) (idx byte_val : Z) : mem :=
  let stride := hk_stride hk in
  mem_write m (hk_base hk + idx * stride)
    (take (Z.to_nat stride) (drop (Z.to_nat (byte_val mod 251)) (fill_template stride))).

(** The ramp a slot is filled with. *)
Definition ramp (stride byte_val : Z) : list Z := (λ j, (byte_val + j) mod 251) <$> seqZ 0 stride.

Lemma fill_template_ramp stride v : 0 ≤ stride →
  take (Z.to_nat stride) (drop (Z.to_nat (v mod 251)) (fill_template stride)) = ramp stride v.
Proof.
  intros Hs. pose proof (Z.mod_pos_bound v 251 ltac:(lia)) as Hv. apply list_eq. intros i.
  unfold fill_template, ramp. rewrite list_lookup_fmap. destruct (decide (i < Z.to_nat stride)%nat) as [Hi|Hi].
  - rewrite lookup_take_lt, lookup_drop, list_lookup_fmap, !lookup_seqZ_lt by lia. simpl. f_equal.
    replace (0 + Z.of_nat (Z.to_nat (v mod 251) + i)) with (v mod 251 + Z.of_nat i) by lia.
    by rewrite Z.add_mod_idemp_l.
  - rewrite lookup_take_ge by lia. by rewrite lookup_seqZ_ge by lia.
Qed.

(** The page-sized blocks of the buffer the given slots consist of. *)
Definition blocks (hk : HostKVPool) (idxs : list Z) : list Z :=
  i ← idxs; (λ c, i * comps hk + c) <$> seqZ 0 (comps hk).

Lemma meta_blocks hk idxs :
  get_page_buffer_meta hk idxs =
  ((λ n, hk_base hk + n * hk_page_bytes hk) <$> blocks hk idxs, replicate (length (blocks hk idxs)) (hk_page_bytes hk)).
Proof.
  unfold get_page_buffer_meta, blocks. cbv zeta.
  induction idxs as [|i idxs IH]; [done|]. rewrite !bind_cons, !fmap_app. injection IH as IH1 IH2.
  rewrite IH1, IH2, length_app, replicate_add. f_equal; f_equal; cbv beta.
  - rewrite <-!list_fmap_compose. apply list_fmap_ext. intros ? c _. unfold hk_stride. simpl. lia.
  - rewrite <-list_fmap_compose, length_fmap. generalize (seqZ 0 (comps hk)). induction l; csimpl; by f_equal.
Qed.

Lemma elem_of_blocks hk idxs n : n ∈ blocks hk idxs ↔ n / comps hk ∈ idxs.
Proof.
  unfold blocks. rewrite list_elem_of_bind. setoid_rewrite list_elem_of_fmap. setoid_rewrite elem_of_seqZ.
  assert (0 < comps hk) as Hc by (unfold comps; destruct (hk_mla hk); lia). split.
  - intros (i & (c & -> & Hb) & Hin). rewrite Z.div_add_l, Z.div_small, Z.add_0_r by lia. done.
  - intros Hin. exists (n / comps hk). split; [|done]. exists (n mod comps hk).
    pose proof (Z.div_mod n (comps hk)). pose proof (Z.mod_pos_bound n (comps hk)). lia.
Qed.

Lemma blocks_nodup hk idxs : NoDup idxs → NoDup (blocks hk idxs).
Proof.
  assert (0 < comps hk) as Hc by (unfold comps; destruct (hk_mla hk); lia).
  induction 1 as [|i idxs Hi Hnd IH]; [constructor|]. unfold blocks. rewrite bind_cons. fold (blocks hk idxs).
  apply NoDup_app. split; [apply NoDup_fmap_2; [intros ???; lia|apply NoDup_seqZ]|]. split; [|done].
  intros n (c & -> & Hb%elem_of_seqZ)%list_elem_of_fmap. rewrite elem_of_blocks.
  by rewrite Z.div_add_l, Z.div_small, Z.add_0_r by lia.
Qed.

Lemma length_blocks hk idxs : length (blocks hk idxs) = (length idxs * (if hk_mla hk then 1 else 2))%nat.
Proof.
  unfold blocks. apply length_bind_const. intros i. rewrite length_fmap, length_seqZ. unfold comps. by destruct (hk_mla hk).
Qed.

Lemma length_component_keys nm keys :
  length (_component_keys nm keys).1 = (length keys * (if nm_is_mla nm then 1 else 2))%nat.
Proof.
  unfold _component_keys. assert (length (_tag_keys nm keys) = length keys) as Ht
    by (unfold _tag_keys; destruct (String.eqb _ _); [done|apply length_fmap]).
  destruct (nm_is_mla nm); simpl; [by rewrite length_fmap, Ht, Nat.mul_1_r|].
  by rewrite (length_bind_const _ _ 2), Ht.
Qed.

(** The buffers the benchmark hands to the store.  For distinct slots inside
    the pool, [get_page_buffer_meta] gives as many buffers as the store derives
    component keys for the same number of pages of the same layout; every
    buffer lies inside the registered host buffer; no two of them overlap; and
    filling one slot leaves the ramp pattern in it and every other byte alone. *)
Theorem page_buffers_aligned (hk : HostKVPool) (nm : naming) (keys : list string) (idxs : list Z) (m : mem) (v : Z)
  (Hpb : 0 < hk_page_bytes hk) (Hnd : NoDup idxs) (Hin : Forall (λ i, 0 ≤ i < hk_num_slots hk) idxs)
  (Hlen : length keys = length idxs) (Hmla : nm_is_mla nm = hk_mla hk) :
  let '(ptrs, sizes) := get_page_buffer_meta hk idxs in
  length ptrs = length (_component_keys nm keys).1 ∧ length sizes = length ptrs ∧
  (∀ j p, ptrs !! j = Some p → sizes !! j = Some (hk_page_bytes hk) ∧
    hk_base hk ≤ p ∧ p + hk_page_bytes hk ≤ hk_base hk + hk_bytes hk) ∧
  (∀ j j' p p', ptrs !! j = Some p → ptrs !! j' = Some p' → j ≠ j' →
    ranges_disjoint p (hk_page_bytes hk) p' (hk_page_bytes hk)) ∧
  ∀ i, i ∈ idxs →
    let a := hk_base hk + i * hk_stride hk in
    mem_read (fill_slot m hk i v) a (hk_stride hk) = ramp (hk_stride hk) v ∧
    ∀ x, ¬ (a ≤ x < a + hk_stride hk) → fill_slot m hk i v x = m x.
Proof.
  rewrite meta_blocks. rewrite length_fmap, length_replicate, length_component_keys, length_blocks, Hlen, Hmla.
  assert (0 < comps hk) as Hc by (unfold comps; destruct (hk_mla hk); lia).
  assert (0 < hk_stride hk) as Hst by (unfold hk_stride; nia).
  split; [done|]. split; [done|]. split; [|split].
  - intros j p. rewrite list_lookup_fmap. destruct (blocks hk idxs !! j) as [n|] eqn:Ej; [|done]. intros [= <-].
    split; [apply lookup_replicate_2; rewrite <-length_blocks; by eapply lookup_lt_Some|].
    apply list_elem_of_lookup_2, elem_of_blocks in Ej. apply (proj1 (Forall_forall _ _) Hin) in Ej.
    pose proof (Z.div_mod n (comps hk) ltac:(lia)). pose proof (Z.mod_pos_bound n (comps hk) Hc).
    assert (0 ≤ n ∧ n + 1 ≤ comps hk * hk_num_slots hk) as [Hn0 Hn1] by nia.
    apply (Z.mul_le_mono_nonneg_r _ _ (hk_page_bytes hk)) in Hn1; [|lia]. unfold hk_bytes, hk_stride. nia.
  - intros j j' p p'. rewrite !list_lookup_fmap. destruct (blocks hk idxs !! j) as [n|] eqn:Ej; [|done].
    destruct (blocks hk idxs !! j') as [n'|] eqn:Ej'; [|done]. intros [= <-] [= <-] Hne. unfold ranges_disjoint.
    assert (n ≠ n') by (intros ->; apply Hne; eapply NoDup_lookup; [by apply (blocks_nodup hk)|done|done]). nia.
  - intros i Hi a. unfold fill_slot. rewrite fill_template_ramp by lia.
    assert (zlength (ramp (hk_stride hk) v) = hk_stride hk) as Hz
      by (unfold ramp, zlength; rewrite length_fmap, length_seqZ; lia).
    split.
    { pose proof (mem_read_write_same m a (ramp (hk_stride hk) v)) as Hr. by rewrite Hz in Hr. }
    intros x Hx. apply mem_write_out. by rewrite Hz.
Qed.

(** ** Workers *)

Section workers.
Context {LG : Log10}.

(** What a worker meets in one turn of its loop: the clock when the turn
    starts, the store's answer, and how long the call took. *)
Record turn := mk_turn {
  tn_now : Z;
  tn_answer : list string → list bool;
  tn_ns : Z
}.

(** [ops, by, pages, hits, calls, hist], the turn number and [measuring]. *)
Record tally := mk_tally {
  ta_ops : Z;
  ta_by : Z;
  ta_pages : Z;
  ta_hits : Z;
  ta_calls : Z;
  ta_hist : Histogram;
  ta_r : Z;
  ta_measuring : bool
}.
Definition new_tally : tally := mk_tally 0 0 0 0 0 (new_hist 3) 0 false.

(** The keys of turn [r] of thread [tid]: a window of the working set. *)
Definition turn_keys (keys : list string) (tid r bs : Z) : list string :=
  let ws := zlength keys in
  let kstart := (tid * 7919 + r * bs) mod ws in
  omap (λ j, keys !! Z.to_nat ((kstart + j) mod ws)) (seqZ 0 bs).

(** One turn of the get worker of [_make_worker] and [run_get]. *)
Definition get_turn (keys : list string) (tid bs component_count page_total warm_end : Z) (t : tally) (x : turn) : tally :=
  let measuring := ta_measuring t || (warm_end <=? tn_now x) in
  let n := zlength (List.filter id (tn_answer x (turn_keys keys tid (ta_r t) bs))) in
  if measuring then
    mk_tally (ta_ops t + n * component_count) (ta_by t + n * page_total) (ta_pages t + n) (ta_hits t + n)
      (ta_calls t + 1) (record (ta_hist t) (tn_ns x)) (ta_r t + 1) true
  else mk_tally (ta_ops t) (ta_by t) (ta_pages t) (ta_hits t) (ta_calls t) (ta_hist t) (ta_r t + 1) false.

(** The loop: it ends at the first turn that starts at [end_] or later. *)
Fixpoint get_worker (keys : list string) (tid bs component_count page_total warm_end end_ : Z) (t : tally)
    (turns : list turn) : tally :=
  match turns with
  | [] => t
  | x :: turns' =>
      if end_ <=? tn_now x then t
      else get_worker keys tid bs component_count page_total warm_end end_
             (get_turn keys tid bs component_count page_total warm_end t x) turns'
  end.

(** The sums and the merged histogram of [_drive]. *)
Definition drive (results : list tally) : Z * Z * Z * Z * Z * Histogram :=
  (sumZ (ta_ops <$> results), sumZ (ta_by <$> results), sumZ (ta_pages <$> results), sumZ (ta_hits <$> results),
   sumZ (ta_calls <$> results), foldl merge (new_hist 3) (ta_hist <$> results)).

(** A store answers one flag per key. *)
Definition answers (x : turn) : Prop := ∀ ks, length (tn_answer x ks) = length ks.

(** What a worker's counters say about each other and about the samples. *)
Record tally_ok (bs component_count page_total : Z) (t : tally) (samples : list Z) : Prop := {
  to_ops : ta_ops t = ta_hits t * component_count;
  to_by : ta_by t = ta_hits t * page_total;
  to_pages : ta_pages t = ta_hits t;
  to_hits : 0 ≤ ta_hits t ≤ ta_calls t * bs;
  to_calls : ta_calls t = zlength samples;
  to_hist : ta_hist t = hist_of 3 samples
}.

Lemma length_omap_le {A B} (f : A → option B) (l : list A) : (length (omap f l) ≤ length l)%nat.
Proof. induction l as [|x l IH]; [done|]. csimpl. destruct (f x); simpl; lia. Qed.

Lemma get_turn_ok keys tid bs cc pt warm t x samples : 0 ≤ bs → answers x →
  tally_ok bs cc pt t samples →
  tally_ok bs cc pt (get_turn keys tid bs cc pt warm t x)
    (if ta_measuring t || (warm <=? tn_now x) then samples ++ [tn_ns x] else samples).
Proof.
  intros Hbs Hx [H1 H2 H3 H4 H5 H6]. unfold get_turn. destruct (ta_measuring t || (warm <=? tn_now x)); [|by split].
  set (ks := turn_keys keys tid (ta_r t) bs). set (n := zlength (List.filter id (tn_answer x ks))).
  assert (0 ≤ n ≤ bs) as Hn.
  { unfold n, zlength. pose proof (List.filter_length_le id (tn_answer x ks)) as Hf. rewrite Hx in Hf.
    assert (length ks ≤ Z.to_nat bs)%nat as Hk
      by (unfold ks, turn_keys; etransitivity; [apply length_omap_le|by rewrite length_seqZ]). lia. }
  split; simpl; try lia.
  - unfold zlength in *. rewrite length_app. simpl. lia.
  - unfold hist_of in *. rewrite foldl_snoc. by f_equal.
Qed.

Lemma get_worker_ok keys tid bs cc pt warm end_ turns : 0 ≤ bs → Forall answers turns → ∀ t samples,
  tally_ok bs cc pt t samples → ∃ samples', tally_ok bs cc pt (get_worker keys tid bs cc pt warm end_ t turns) samples'.
Proof.
  intros Hbs. induction 1 as [|x turns Hx _ IH]; intros t samples Ht; simpl; [by eauto|].
  destruct (end_ <=? tn_now x); [by eauto|]. eapply IH. by apply get_turn_ok.
Qed.

Lemma tallies_sum bs cc pt ts parts : Forall2 (tally_ok bs cc pt) ts parts →
  let hits := sumZ (ta_hits <$> ts) in let calls := sumZ (ta_calls <$> ts) in
  sumZ (ta_ops <$> ts) = hits * cc ∧ sumZ (ta_by <$> ts) = hits * pt ∧ sumZ (ta_pages <$> ts) = hits ∧
  0 ≤ hits ≤ calls * bs ∧ zlength (concat parts) = calls ∧ ta_hist <$> ts = hist_of 3 <$> parts.
Proof.
  cbv zeta. induction 1 as [|t s ts ss [H1 H2 H3 H4 H5 H6] _ (IH1 & IH2 & IH3 & IH4 & IH5 & IH6)]; [by split_and!|].
  csimpl. rewrite IH6, H6. unfold zlength in *. rewrite length_app.
  split; [lia|]. split; [lia|]. split; [lia|]. split; [lia|]. split; [lia|done].
Qed.

(** The benchmark's books balance.  For any number of get workers on a store
    that answers one flag per key, whatever the clock does: the totals of a run
    satisfy [ops = hits * components] and [bytes = hits * page size], the hits
    are at most [calls * batch size] (so the hit rate is a ratio in [0, 1]), and
    the merged histogram holds exactly one sample per measured call. *)
Theorem drive_books_balance (keys : list string) (bs cc pt warm end_ : Z) (runs : list (Z * list turn))
  (Hbs : 0 ≤ bs) (Hx : Forall (λ r, Forall answers r.2) runs) :
  let '(ops, by_, pages, hits, calls, hist) :=
    drive ((λ r, get_worker keys r.1 bs cc pt warm end_ new_tally r.2) <$> runs) in
  ops = hits * cc ∧ by_ = hits * pt ∧ pages = hits ∧ 0 ≤ hits ≤ calls * bs ∧ h_n hist = calls ∧
  ∃ samples, hist = hist_of 3 samples.
Proof.
  unfold drive.
  assert (∃ parts, Forall2 (tally_ok bs cc pt)
    ((λ r, get_worker keys r.1 bs cc pt warm end_ new_tally r.2) <$> runs) parts) as [parts Hp].
  { induction Hx as [|[tid turns] runs Ht _ [parts IH]]; [by exists []|].
    destruct (get_worker_ok keys tid bs cc pt warm end_ turns Hbs Ht new_tally [] ltac:(split; simpl; lia || done)) as [s Hs].
    exists (s :: parts). by constructor. }
  destruct (tallies_sum bs cc pt _ parts Hp) as (H1 & H2 & H3 & H4 & H5 & ->).
  rewrite merged_parts, (hi_n _ _ _ (hist_of_is 3 (concat parts))). eauto 10.
Qed.
End workers.

(** ** Sweeps over several processes *)

(** One sweep point: [(conc, ops, bytes, pages, hits, calls, hist, elapsed)]. *)
Record sweep_point := mk_point {
  sp_conc : Z;
  sp_ops : Z;
  sp_bytes : Z;
  sp_pages : Z;
  sp_hits : Z;
  sp_calls : Z;
  sp_hist : Histogram;
  sp_elapsed : Z
}.

Section sweeps.
Context {LG : Log10}.

(** The body of the outer loop of [_merge_points]. *)
Definition merge_point (ps : list sweep_point) : sweep_point :=
  foldl (λ a p, mk_point (sp_conc a + sp_conc p) (sp_ops a + sp_ops p) (sp_bytes a + sp_bytes p)
      (sp_pages a + sp_pages p) (sp_hits a + sp_hits p) (sp_calls a + sp_calls p) (merge (sp_hist a) (sp_hist p))
      (Z.max (sp_elapsed a) (sp_elapsed p)))
    (mk_point 0 0 0 0 0 0 (new_hist 3) 0) ps.

(** [_merge_points]: as many points as the first process has; a process with
    fewer raises. *)
Definition _merge_points (per_proc : list (list sweep_point)) : pyres (list sweep_point) :=
  match per_proc with
  | [] => Raise IndexError
  | p0 :: _ =>
      py_mapM (λ i, ps ← py_mapM (λ proc : list sweep_point,
                 match proc !! i with Some p => Ret p | None => Raise IndexError end) per_proc;
               Ret (merge_point ps)) (seq 0 (length p0))
  end.

(** Every counter of a merged point is the sum over the processes, the
    histogram the one of all their samples. *)
Lemma merge_point_sums (ps : list sweep_point) (parts : list (list Z)) :
  sp_hist <$> ps = hist_of 3 <$> parts →
  let m := merge_point ps in
  sp_conc m = sumZ (sp_conc <$> ps) ∧ sp_ops m = sumZ (sp_ops <$> ps) ∧ sp_bytes m = sumZ (sp_bytes <$> ps) ∧
  sp_pages m = sumZ (sp_pages <$> ps) ∧ sp_hits m = sumZ (sp_hits <$> ps) ∧ sp_calls m = sumZ (sp_calls <$> ps) ∧
  sp_hist m = hist_of 3 (concat parts).
Proof.
  intros Hh. cbv zeta. rewrite <-merged_parts, <-Hh. clear Hh parts. unfold merge_point.
  induction ps as [|p ps IH] using rev_ind; [done|].
  rewrite !fmap_app, !foldl_app, !sumZ_app. cbn. destruct IH as (H1 & H2 & H3 & H4 & H5 & H6 & H7).
  rewrite H1, H2, H3, H4, H5, H6, H7. repeat (split; [lia|]). done.
Qed.
End sweeps.

(** ** Concrete instances *)

Module BenchExamples.
Fixpoint log10_fuel (fuel : nat) (ns : Z) : Z :=
  match fuel with O => 0 | S f => if ns <? 10 then 0 else 1 + log10_fuel f (ns / 10) end.

Lemma log10_fuel_spec fuel : ∀ ns, 1 ≤ ns < 10 ^ Z.of_nat fuel →
  0 ≤ log10_fuel fuel ns ∧ 10 ^ log10_fuel fuel ns ≤ ns < 10 ^ (log10_fuel fuel ns + 1).
Proof.
  induction fuel as [|f IH]; intros ns Hn; [simpl in Hn; lia|]. cbn [log10_fuel].
  destruct (ns <? 10) eqn:E; [apply Z.ltb_lt in E; simpl; lia|]. apply Z.ltb_ge in E.
  rewrite Nat2Z.inj_succ, Z.pow_succ_r in Hn by lia.
  destruct (IH (ns / 10)) as (H0 & H1 & H2).
  { split; [apply Z.div_le_lower_bound; lia|apply Z.div_lt_upper_bound; lia]. }
  pose proof (Z.div_mod ns 10 ltac:(lia)). pose proof (Z.mod_pos_bound ns 10 ltac:(lia)).
  rewrite <-!Z.add_assoc, !(Z.add_comm 1), !Z.pow_add_r in * by lia. lia.
Qed.

#[export, refine] Instance exact_log10 : Log10 := {| ilog10 := log10_fuel 15 |}.
Proof. intros ns Hn. by apply log10_fuel_spec. Defined.

(** Three significant digits lose close to one percent just above a power of
    ten. *)
Example bucket_1009 : _bucket 3 1009 = 1000.
Proof. vm_compute. reflexivity. Qed.

Lemma histogram_precision_bounded_witness :
  (1009 - _bucket 3 1009) * 100 < 1009 ∧ Z.of_nat (size (dom (h_counts (hist_of 3 [1009; 1001; 70])))) ≤ 16 * 10 ^ 3.
Proof.
  destruct (histogram_precision_bounded 3 [1009; 1001; 70] ltac:(lia) ltac:(repeat constructor; lia)) as [H1 H2].
  split; [exact (proj2 (H1 1009 ltac:(lia)))|exact H2].
Defined.

Lemma percentile_nearest_rank_witness : percentile (hist_of 3 [5; 1009; 70]) (50, 0) = Some 70.
Proof.
  destruct (percentile_nearest_rank 3 [5; 1009; 70] (50, 0) ltac:(discriminate)) as (k & Hk & _).
  rewrite Hk. revert Hk. vm_compute. intros Hk. exact (eq_sym Hk).
Defined.

Lemma page_buffers_aligned_witness :
  length (get_page_buffer_meta (mk_hkp 16 4 false 4096) [2; 0]).1 = 4%nat.
Proof.
  pose proof (page_buffers_aligned (mk_hkp 16 4 false 4096) (mk_naming "" false "0" "") ["p"; "q"] [2; 0] (λ _, 0) 7
    ltac:(simpl; lia) ltac:(decide_vm) ltac:(repeat constructor; simpl; lia) eq_refl eq_refl) as H.
  destruct (get_page_buffer_meta (mk_hkp 16 4 false 4096) [2; 0]) as [ptrs sizes]. exact (proj1 H).
Defined.

Definition all_hit (now ns : Z) : turn := mk_turn now (λ ks, replicate (length ks) true) ns.

Lemma drive_books_balance_witness :
  (let '(ops, by_, pages, hits, calls, hist) :=
     drive ((λ r, get_worker ["a"; "b"; "c"] r.1 2 1 16 10 20 new_tally r.2) <$>
       [(0, [all_hit 5 100; all_hit 12 200; all_hit 25 300])]) in
   ops = hits * 1 ∧ hits ≤ calls * 2 ∧ h_n hist = calls).
Proof.
  pose proof (drive_books_balance ["a"; "b"; "c"] 2 1 16 10 20 [(0, [all_hit 5 100; all_hit 12 200; all_hit 25 300])]
    ltac:(lia)) as H.
  specialize (H ltac:(repeat constructor; intros ks; apply length_replicate)).
  destruct (drive _) as [[[[[ops by_] pages] hits] calls] hist].
  destruct H as (H1 & _ & _ & H2 & H3 & _). split; [exact H1|]. split; [exact (proj2 H2)|exact H3].
Defined.
End BenchExamples.
