(* ===== verification/World.v ===== *)
(** The cluster: every node's tier and client state, the directory shards, the
    memories, and the RPCs between nodes.

    A [world] is the state the nodes share.  An inference node ([PeerCacheStore])
    has a [tier] and a [client]; a storage server has a tier only.  The links of
    an operation are part of the world: [w_link] says how the RPC connection to
    a control endpoint fares, the directory has its own in [w_dir], and data
    transfers take theirs as an argument. *)
From S2P Require Import Prelude Bytes Hashlib HashRing Types Rpc Directory Runtime SlotMap Transport Config Keys Tier StorageServer.

(** A peer's slot region as a reader addresses it. *)
Record layout := mk_layout {
  ly_base : Z;
  ly_rkeys : list Z;
  ly_rails : list string;
  ly_geom : SlotGeometry
}.

(** The client side of [PeerCacheStore]: its configuration and key naming, its
    two location caches with their lifetimes, which keyspace it believes the
    producers use, its slot region with the region's keys, and the layouts of
    its peers. *)
Record client := mk_client {
  c_cfg : PeerCacheConfig;
  c_naming : naming;
  c_dir_cache_ttl : Z;
  c_dir_cache : gmap string (DataLocation * Z);
  c_primed : gmap string (DataLocation * Z);
  c_primed_ttl : Z;
  c_primed_cap : nat;
  c_raw_keys : bool;
  c_keyspace_detected : bool;
  c_slot : option (SlotRegion * list Z);
  c_peer_layouts : gmap string layout
}.

Record world := mk_world {
  w_tiers : gmap string tier;
  w_clients : gmap string client;
  w_dir : cluster shard;
  w_fab : fabric;
  w_control : string → option string;
  w_node_at : string → option string;
  w_link : string → attempt * attempt
}.

Definition set_client (w : world) (me : string) (c : client) : world :=
  mk_world (w_tiers w) (<[me := c]> (w_clients w)) (w_dir w) (w_fab w) (w_control w) (w_node_at w) (w_link w).
Definition set_fab (w : world) (f : fabric) : world :=
  mk_world (w_tiers w) (w_clients w) (w_dir w) f (w_control w) (w_node_at w) (w_link w).
Definition set_wdir (w : world) (d : cluster shard) : world :=
  mk_world (w_tiers w) (w_clients w) d (w_fab w) (w_control w) (w_node_at w) (w_link w).

(** ** The node's own view *)

Definition local_of (w : world) (me : string) : option local :=
  t ← w_tiers w !! me; p ← f_procs (w_fab w) !! me; Some (mk_local t (w_dir w) (pr_mem p)).

Definition put_local (w : world) (me : string) (s : local) : world :=
  let f := match f_procs (w_fab w) !! me with
           | Some p => set_proc (w_fab w) me (mk_proc (l_mem s) (pr_regions p))
           | None => w_fab w
           end in
  mk_world (<[me := l_tier s]> (w_tiers w)) (w_clients w) (l_dir s) f (w_control w) (w_node_at w) (w_link w).

(** Run an operation of the node's tier; [dflt] when there is no such node. *)
Definition run_local {A} (w : world) (me : string) (dflt : A) (f : local → A * local) : A * world :=
  match local_of w me with
  | None => (dflt, w)
  | Some s => let '(a, s) := f s in (a, put_local w me s)
  end.

Section world.
Context {RH : RingHash} {SI : SetIter} {HL : Hashlib}.

(** ** RPCs between nodes *)

(** [_on_slot_layout] *)
Definition _on_slot_layout (w : world) (me : string) : pyval :=
  match w_clients w !! me ≫= c_slot, w_tiers w !! me with
  | Some (region, rkeys), Some t =>
      let g := sr_geom region in
      VDict [("ok", VBool true); ("base_addr", VInt (sr_base region)); ("rkeys", VList (VInt <$> rkeys));
             ("rail_endpoints", VList (VStr <$> i_rails (t_ident t))); ("max_payload", VInt (max_payload g));
             ("num_buckets", VInt (num_buckets g)); ("ways", VInt (ways g)); ("slot_stride", VInt (slot_stride g))]
  | _, _ => VDict [("ok", VBool false)]
  end.

(** A handler of node [n]'s tier. *)
Definition on_node (n : string) (h : local → pyval → pyres pyval * local) (w : world) (args : pyval) :
    pyres pyval * world :=
  run_local w n (Raise RuntimeError) (λ s, h s args).

(** What the control RPC server of node [n] answers to the store's calls. *)
Definition data_service (w0 : world) (n : string) : Service world :=
  match w_clients w0 !! n with
  | None => λ method, on_node n <$> storage_service 0 method
  | Some _ =>
      register (register (λ _, None) "data_promote" (on_node n _on_data_promote))
        "slot_layout" (λ w _, (Ret (_on_slot_layout w n), w))
  end.

(** [self._data_rpc.call(endpoint, method, args)] *)
Definition data_call (w : world) (endpoint method : string) (args : pyval) : pyres pyval * world :=
  match w_node_at w endpoint with
  | None => (Raise OSError, w)
  | Some n => link_call (data_service w n) w method args (w_link w endpoint)
  end.
End world.
