(* ===== verification/SlotStore.v ===== *)
(** The slot-map mode of [store.py]: directory-free publish, fetch and exists.

    A key is owned by a ring node and lives in one bucket of that node's slot
    region.  Own keys go through [SlotRegion]; for a remote key the writer reads
    the bucket, picks a way and writes header and payload in one transfer, and
    a reader reads the whole bucket and checks the headers.  Scratch buffers
    are laid out one after the other from the node's [i_scratch]; [ctypes]
    zero-fills them, which no code depends on: a buffer is read only after a
    transfer filled it. *)
From S2P Require Import Prelude Bytes Hashlib HashRing Types Rpc Directory Runtime SlotMap Transport Config Metrics Keys Tier StorageServer World.

Section slotstore.
Context {RH : RingHash} {SI : SetIter} {HL : Hashlib}.

(** ** The node's own region *)

Definition with_slot (c : client) (slot : option (SlotRegion * list Z)) : client :=
  mk_client (c_cfg c) (c_naming c) (c_dir_cache_ttl c) (c_dir_cache c) (c_primed c) (c_primed_ttl c)
    (c_primed_cap c) (c_raw_keys c) (c_keyspace_detected c) slot (c_peer_layouts c).

Definition with_layouts (c : client) (ls : gmap string layout) : client :=
  mk_client (c_cfg c) (c_naming c) (c_dir_cache_ttl c) (c_dir_cache c) (c_primed c) (c_primed_ttl c)
    (c_primed_cap c) (c_raw_keys c) (c_keyspace_detected c) (c_slot c) ls.

Definition int_of (c : PeerCacheConfig) (name : string) : Z :=
  match py_int (field c name) with Ret z => z | Raise _ => 0 end.

(** The geometry [_ensure_slot_region] derives from the configuration. *)
Definition slot_geometry (c : PeerCacheConfig) (tp_size : Z) : SlotGeometry :=
  let payload := int_of c "slot_max_page_bytes" in
  let w := Z.max 1 (int_of c "slot_ways") in
  let stride := slot_stride (new_geometry payload 1 w) in
  let n := int_of c "slot_num_buckets" in
  let n := if n <=? 0
           then Z.max 1 (Z.max 1 (int_of c "global_segment_size" / tp_size) / (stride * w)) else n in
  new_geometry payload n w.

(** [_ensure_slot_region]; the buffer is allocated at [base_addr]. *)
Definition _ensure_slot_region (w : world) (me : string) (tp_size base_addr : Z) : world :=
  match w_clients w !! me, f_procs (w_fab w) !! me with
  | Some c, Some p =>
      match c_slot c with
      | Some _ => w
      | None =>
          let g := slot_geometry (c_cfg c) tp_size in
          let '(mr, p) := register_mr p base_addr (capacity g) in
          set_client (set_fab w (set_proc (w_fab w) me p)) me (with_slot c (Some (new_region base_addr g, mr_rkeys mr)))
      end
  | _, _ => w
  end.

(** [self.runtime.data_owner_all(key)] *)
Definition owner_of (w : world) (me key : string) : option string :=
  t ← w_tiers w !! me; data_owner_all (t_rt t) key.

Definition mem_of (w : world) (me : string) : mem :=
  match f_procs (w_fab w) !! me with Some p => pr_mem p | None => λ _, 0 end.

Definition set_mem_of (w : world) (me : string) (m : mem) : world :=
  match f_procs (w_fab w) !! me with
  | Some p => set_fab w (set_proc (w_fab w) me (mk_proc m (pr_regions p)))
  | None => w
  end.

Definition slot_of (w : world) (me : string) : option (SlotRegion * list Z) :=
  c ← w_clients w !! me; c_slot c.

(** [self._slot_region.write_local(...)] *)
Definition own_write (w : world) (me key : string) (ptr length : Z) : pyres (option Z) * world :=
  match w_clients w !! me, slot_of w me with
  | Some c, Some (region, rkeys) =>
      let '(r, region, m) := write_local region (mem_of w me) key ptr length in
      (r, set_client (set_mem_of w me m) me (with_slot c (Some (region, rkeys))))
  | _, _ => (Ret None, w)
  end.

Definition own_read (w : world) (me key : string) (ptr length : Z) : bool * world :=
  match slot_of w me with
  | Some (region, _) =>
      let '(ok, m) := read_local region (mem_of w me) key ptr length in (ok, set_mem_of w me m)
  | None => (false, w)
  end.

Definition own_exists (w : world) (me key : string) : bool :=
  match slot_of w me with
  | Some (region, _) => bool_decide (is_Some (exists_local region (mem_of w me) key))
  | None => false
  end.

(** ** Peer layouts *)

(** Reading the reply of [slot_layout]; [Ret None] when the peer has no region.
    The source keeps the reply and reads its fields when it needs them; a reply
    of [_on_slot_layout] has them all ([layout_reply_complete]). *)
Definition layout_of (resp : pyval) : pyres (option layout) :=
  ok ← py_get resp "ok" VNone;
  if negb (py_truthy ok) then Ret None
  else
    payload ← py_getitem resp "max_payload"; payload ← py_int payload;
    buckets ← py_getitem resp "num_buckets"; buckets ← py_int buckets;
    w ← py_getitem resp "ways"; w ← py_int w;
    base ← py_getitem resp "base_addr"; base ← py_int base;
    rkeys ← py_getitem resp "rkeys"; rkeys ← py_list rkeys; rkeys ← py_mapM py_int rkeys;
    rails ← py_getitem resp "rail_endpoints"; rails ← py_list rails; rails ← py_mapM as_str rails;
    match rails with
    | [] => Raise IndexError
    | _ => Ret (Some (mk_layout base rkeys rails (new_geometry payload buckets w)))
    end.

Definition cached_layout (w : world) (me node_id : string) : option layout :=
  c ← w_clients w !! me; c_peer_layouts c !! node_id.

Definition cache_layout (w : world) (me node_id : string) (l : layout) : world :=
  match w_clients w !! me with
  | Some c => set_client w me (with_layouts c (<[node_id := l]> (c_peer_layouts c)))
  | None => w
  end.

Definition _peer_layout (w : world) (me node_id : string) : pyres (option layout) * world :=
  match cached_layout w me node_id with
  | Some l => (Ret (Some l), w)
  | None =>
      if String.eqb node_id me && bool_decide (is_Some (slot_of w me)) then
        match layout_of (_on_slot_layout w me) with
        | Ret (Some l) => (Ret (Some l), cache_layout w me node_id l)
        | r => (r, w)
        end
      else
        match w_control w node_id with
        | None => (Ret None, w)
        | Some endpoint =>
            match data_call w endpoint "slot_layout" (VDict []) with
            | (Raise _, w) => (Ret None, w)
            | (Ret resp, w) =>
                match layout_of resp with
                | Ret (Some l) => (Ret (Some l), cache_layout w me node_id l)
                | r => (r, w)
                end
            end
        end
  end.

Definition _invalidate_peer_layouts (c : client) : client := with_layouts c ∅.

(** [NodeRuntime._on_members] on a slot-map node: when the membership changed,
    [_on_membership_change] drops the cached layouts. *)
Definition slot_on_members (w : world) (me : string) (members : list NodeInfo) : world :=
  match w_tiers w !! me with
  | None => w
  | Some t =>
      let '(rt, changed) := _on_members (t_rt t) members in
      let t := mk_tier (t_ident t) rt (t_pool t) (t_disk t) (t_key_len t) (t_metrics t) in
      let w := mk_world (<[me := t]> (w_tiers w)) (w_clients w) (w_dir w) (w_fab w) (w_control w) (w_node_at w)
                 (w_link w) in
      match changed, w_clients w !! me with
      | true, Some c => set_client w me (_invalidate_peer_layouts c)
      | _, _ => w
      end
  end.

(** ** Transfers *)

(** A remote key of a batch: its index, key, owner, length and the owner's
    layout. *)
Record rem := mk_rem {
  rm_idx : nat;
  rm_key : string;
  rm_owner : string;
  rm_len : Z;
  rm_lay : layout
}.

(** [lay["rail_endpoints"][0]], which identifies the owner in a transfer. *)
Definition rail0 (l : layout) : string := default ""%string (head (ly_rails l)).

(** [if nk not in rail_eps: rail_eps[nk] = ...] *)
Definition rail_step (acc : gmap string (list string) * gmap string (list Z)) (l : layout) :
    gmap string (list string) * gmap string (list Z) :=
  let '(eps, ks) := acc in
  match eps !! rail0 l with
  | Some _ => (eps, ks)
  | None => (<[rail0 l := ly_rails l]> eps, <[rail0 l := ly_rkeys l]> ks)
  end.

(** The per-node rail maps of a batch. *)
Definition rail_maps (ls : list layout) : gmap string (list string) * gmap string (list Z) :=
  foldl rail_step (∅, ∅) ls.

(** Addresses of consecutive buffers of the given sizes. *)
Fixpoint place_from (a : Z) (sizes : list Z) : list Z :=
  match sizes with [] => [] | n :: sizes' => a :: place_from (a + n) sizes' end.

Definition scratch_of (w : world) (me : string) : Z :=
  match w_tiers w !! me with Some t => i_scratch (t_ident t) | None => 0 end.

Definition n_rails_of (w : world) (me : string) : Z :=
  match w_tiers w !! me with Some t => zlength (i_rails (t_ident t)) | None => 1 end.

(** The bucket a remote key reads, into the buffer at [scratch]. *)
Definition bucket_read (r : rem) (scratch : Z) : MultiOp :=
  let g := ly_geom (rm_lay r) in
  mk_multiop (rail0 (rm_lay r)) scratch (ly_base (rm_lay r) + bucket_index g (rm_key r) * bucket_stride g)
    (bucket_stride g).

(** One batched READ of the keys' buckets: the buffers, the outcomes and the
    new world. *)
Definition read_buckets (w : world) (me : string) (rs : list rem) (link : nat → attempt) :
    list Z * list bool * world :=
  let bufs := place_from (scratch_of w me) ((λ r, bucket_stride (ly_geom (rm_lay r))) <$> rs) in
  let '(eps, ks) := rail_maps (rm_lay <$> rs) in
  let '(oks, f) := batch_read_multi (w_fab w) me (n_rails_of w me) (zip_with bucket_read rs bufs) eps ks link in
  (bufs, oks, set_fab w f).

(** ** Publish *)

(** The first loop of [_publish_slotmap]: own keys are written, remote keys
    collected. *)
Fixpoint publish_local (w : world) (me : string) (i : nat) (items : list (string * Z * Z))
    (results : list bool) (bytes : Z) (remote : list rem) :
    pyres (list bool * Z * list rem) * world :=
  match items with
  | [] => (Ret (results, bytes, remote), w)
  | (key, ptr, length) :: items' =>
      match owner_of w me key with
      | None => publish_local w me (S i) items' results bytes remote
      | Some owner =>
          if String.eqb owner me then
            match own_write w me key ptr length with
            | (Raise e, w) => (Raise e, w)
            | (Ret (Some _), w) => publish_local w me (S i) items' (<[i := true]> results) (bytes + length) remote
            | (Ret None, w) => publish_local w me (S i) items' results bytes remote
            end
          else
            match _peer_layout w me owner with
            | (Raise e, w) => (Raise e, w)
            | (Ret None, w) => publish_local w me (S i) items' results bytes remote
            | (Ret (Some lay), w) =>
                if length >? max_payload (ly_geom lay)
                then publish_local w me (S i) items' results bytes remote
                else publish_local w me (S i) items' results bytes (remote ++ [mk_rem i key owner length lay])
            end
      end
  end.

(** [snap[off:off + HEADER_SIZE] = hdr] *)
Definition splice (l : list Z) (off : Z) (bs : list Z) : list Z :=
  take (Z.to_nat off) l ++ bs ++ drop (Z.to_nat off + length bs) l.

(** [_pack_slot]: the [header|payload] buffer at [buf]. *)
Definition _pack_slot (m : mem) (buf : Z) (hdr : list Z) (src_ptr length : Z) : mem :=
  memmove (mem_write m buf hdr) (buf + HEADER_SIZE) src_ptr length.

(** The ways this batch already claimed, per owner and bucket. *)
Abbreviation claims := (list ((string * Z) * list (Z * list Z))).

(** The bucket as the way chooser sees it. *)
Definition claimed_view (g : SlotGeometry) (snap : list Z) (ws : list (Z * list Z)) : list Z :=
  foldl (λ s e, splice s (e.1 * slot_stride g) e.2) snap ws.

(** Phase B of [_publish_slotmap_remote] over [(key, snapshot, source)] with
    the next free buffer [buf]: the WRITE operations with their indices. *)
Fixpoint pack_writes (m : mem) (buf : Z) (claimed : claims) (items : list (rem * list Z * Z)) :
    pyres (list (nat * MultiOp)) * mem :=
  match items with
  | [] => (Ret [], m)
  | (r, snap, src) :: items' =>
      let lay := rm_lay r in
      let g := ly_geom lay in
      let bucket := bucket_index g (rm_key r) in
      let ck := (rm_owner r, bucket) in
      let ws := default [] (od_get claimed ck) in
      let '(way, new_seq) := pick_way_from_bucket (claimed_view g snap ws) g (rm_key r) in
      match encode_header (rm_key r) (rm_len r) new_seq with
      | None => (Raise StructError, m)
      | Some hdr =>
          let m := _pack_slot m buf hdr src (rm_len r) in
          let op := mk_multiop (rail0 lay) buf (ly_base lay + slot_offset g bucket way) (HEADER_SIZE + rm_len r) in
          match pack_writes m (buf + HEADER_SIZE + rm_len r) (od_set claimed ck (od_set ws way hdr)) items' with
          | (Ret ops, m) => (Ret ((rm_idx r, op) :: ops), m)
          | (Raise e, m) => (Raise e, m)
          end
      end
  end.

(** The bucket bytes a key saw: zeros when its READ failed. *)
Definition snapshot_of (m : mem) (r : rem) (buf : Z) (ok : bool) : list Z :=
  let n := bucket_stride (ly_geom (rm_lay r)) in
  if ok then mem_read m buf n else replicate (Z.to_nat n) 0.

(** [_publish_slotmap_remote]: the updated results and the bytes published. *)
Definition _publish_slotmap_remote (w : world) (me : string) (remote : list rem) (ptrs : list Z)
    (results : list bool) (link_r link_w : nat → attempt) : pyres (list bool * Z) * world :=
  match remote with
  | [] => (Ret (results, 0), w)
  | _ =>
      let '(bufs, rd_ok, w) := read_buckets w me remote link_r in
      let m := mem_of w me in
      let snaps := zip_with (λ r '(buf, ok), snapshot_of m r buf ok) remote (zip bufs rd_ok) in
      let srcs := (λ r, default 0 (ptrs !! rm_idx r)) <$> remote in
      let buf := scratch_of w me + sumZ ((λ r, bucket_stride (ly_geom (rm_lay r))) <$> remote) in
      match pack_writes m buf [] (zip (zip remote snaps) srcs) with
      | (Raise e, m) => (Raise e, set_mem_of w me m)
      | (Ret ops, m) =>
          let w := set_mem_of w me m in
          let '(eps, ks) := rail_maps (rm_lay <$> remote) in
          let '(oks, f) := batch_write_multi (w_fab w) me (n_rails_of w me) ops.*2 eps ks link_w in
          let done_ := filter (λ x : nat * MultiOp * bool, x.2 = true) (zip ops oks) in
          (Ret (foldl (λ res x, <[x.1.1 := true]> res) results done_,
                sumZ ((λ x, mo_length x.1.2 - HEADER_SIZE) <$> done_)),
           set_fab w f)
      end
  end.

(** Counting on the node's metrics. *)
Definition meter (w : world) (me : string) (f : Metrics → Metrics) : world :=
  (run_local w me tt (λ s, (tt, set_metrics s (f (t_metrics (l_tier s)))))).2.

Definition _publish_slotmap (w : world) (me : string) (comp_keys : list string) (ptrs sizes : list Z)
    (seconds : Z) (link_r link_w : nat → attempt) : pyres (list bool) * world :=
  match publish_local w me 0 (zip (zip comp_keys ptrs) sizes) (replicate (length comp_keys) false) 0 [] with
  | (Raise e, w) => (Raise e, w)
  | (Ret (results, bytes, remote), w) =>
      match _publish_slotmap_remote w me remote ptrs results link_r link_w with
      | (Raise e, w) => (Raise e, w)
      | (Ret (results, n), w) => (Ret results, meter w me (λ mt, record_write mt (bytes + n) seconds))
      end
  end.

(** ** Fetch and exists *)

(** The first loop of [_fetch_slotmap]. *)
Fixpoint fetch_local (w : world) (me : string) (i : nat) (items : list (string * Z * Z))
    (results : list bool) (remote : list rem) : pyres (list bool * list rem) * world :=
  match items with
  | [] => (Ret (results, remote), w)
  | (key, ptr, length) :: items' =>
      match owner_of w me key with
      | None => fetch_local w me (S i) items' results remote
      | Some owner =>
          if String.eqb owner me then
            let '(ok, w) := own_read w me key ptr length in
            fetch_local w me (S i) items' (if (ok : bool) then <[i := true]> results else results) remote
          else
            match _peer_layout w me owner with
            | (Raise e, w) => (Raise e, w)
            | (Ret None, w) => fetch_local w me (S i) items' results remote
            | (Ret (Some lay), w) =>
                if length >? max_payload (ly_geom lay)
                then fetch_local w me (S i) items' results remote
                else fetch_local w me (S i) items' results (remote ++ [mk_rem i key owner length lay])
            end
      end
  end.

(** The first way of the bucket at [buf] whose header satisfies [P]. *)
Fixpoint scan_ways (m : mem) (buf : Z) (g : SlotGeometry) (P : list Z → bool) (ws : list Z) : option Z :=
  match ws with
  | [] => None
  | way :: ws' =>
      let off := way * slot_stride g in
      if P (slice (mem_read m buf (bucket_stride g)) off (off + HEADER_SIZE)) then Some off
      else scan_ways m buf g P ws'
  end.

(** The loop over the buckets that arrived. *)
Fixpoint accept_hits (m : mem) (ptrs : list Z) (items : list (rem * Z * bool)) (results : list bool) :
    list bool * mem :=
  match items with
  | [] => (results, m)
  | (r, buf, false) :: items' => accept_hits m ptrs items' results
  | (r, buf, true) :: items' =>
      let g := ly_geom (rm_lay r) in
      match scan_ways m buf g (λ hdr, slot_matches hdr (rm_key r) (rm_len r)) (seqZ 0 (ways g)) with
      | Some off =>
          let dst := default 0 (ptrs !! rm_idx r) in
          accept_hits (memmove m dst (buf + off + HEADER_SIZE) (rm_len r)) ptrs items' (<[rm_idx r := true]> results)
      | None => accept_hits m ptrs items' results
      end
  end.

(** The metrics calls at the end: every hit is recorded as local. *)
Definition record_hits (mt : Metrics) (results : list bool) (sizes : list Z) (seconds : Z) : Metrics :=
  foldl (λ mt '(ok, size), record_read mt ok (if (ok : bool) then size else 0) seconds
                            (Some (if ok then "local" else "remote")%string)) mt (zip results sizes).

Definition _fetch_slotmap (w : world) (me : string) (comp_keys : list string) (ptrs sizes : list Z)
    (seconds : Z) (link : nat → attempt) : pyres (list bool) * world :=
  match fetch_local w me 0 (zip (zip comp_keys ptrs) sizes) (replicate (length comp_keys) false) [] with
  | (Raise e, w) => (Raise e, w)
  | (Ret (results, remote), w) =>
      let '(bufs, oks, w) := read_buckets w me remote link in
      let '(results, m) := accept_hits (mem_of w me) ptrs (zip (zip remote bufs) oks) results in
      let w := set_mem_of w me m in
      (Ret results, meter w me (λ mt, record_hits mt results sizes seconds))
  end.

(** The first loop of [_exists_slotmap]. *)
Fixpoint exists_local_keys (w : world) (me : string) (i : nat) (keys : list string)
    (present : list bool) (remote : list rem) : pyres (list bool * list rem) * world :=
  match keys with
  | [] => (Ret (present, remote), w)
  | key :: keys' =>
      match owner_of w me key with
      | None => exists_local_keys w me (S i) keys' present remote
      | Some owner =>
          if String.eqb owner me then
            exists_local_keys w me (S i) keys' (if own_exists w me key then <[i := true]> present else present) remote
          else
            match _peer_layout w me owner with
            | (Raise e, w) => (Raise e, w)
            | (Ret None, w) => exists_local_keys w me (S i) keys' present remote
            | (Ret (Some lay), w) =>
                exists_local_keys w me (S i) keys' present (remote ++ [mk_rem i key owner 0 lay])
            end
      end
  end.

Definition _exists_slotmap (w : world) (me : string) (comp_keys : list string) (link : nat → attempt) :
    pyres (list bool) * world :=
  match exists_local_keys w me 0 comp_keys (replicate (length comp_keys) false) [] with
  | (Raise e, w) => (Raise e, w)
  | (Ret (present, remote), w) =>
      let '(bufs, oks, w) := read_buckets w me remote link in
      let m := mem_of w me in
      let present :=
        foldl (λ pr '(r, buf, ok),
                 if (ok : bool) && bool_decide (is_Some (scan_ways m buf (ly_geom (rm_lay r))
                      (λ hdr, bool_decide (is_Some (slot_present hdr (rm_key r))))
                      (seqZ 0 (ways (ly_geom (rm_lay r))))))
                 then <[rm_idx r := true]> pr else pr) present (zip (zip remote bufs) oks) in
      (Ret present, w)
  end.
End slotstore.

(** ** Geometry *)

Lemma slot_geometry_ok c tp :
  0 ≤ int_of c "slot_max_page_bytes" →
  geom_ok (slot_geometry c tp) ∧
  slot_geometry c tp = new_geometry (max_payload (slot_geometry c tp)) (num_buckets (slot_geometry c tp))
                         (ways (slot_geometry c tp)).
Proof.
  intros Hp. unfold slot_geometry. set (n := if _ <=? 0 then _ else _). split; [|done].
  apply new_geometry_ok; [done| |lia]. subst n. destruct (_ <=? 0) eqn:E; bool_cases; lia.
Qed.

(** C28: the slot region's bounds.  For every configuration with a payload
    class of at least zero bytes, the region [_ensure_slot_region] lays out
    has at least one bucket and one way; slot strides are multiples of 64,
    hold a header and a full payload and waste less than 64 bytes; every slot
    of every key's bucket lies inside the region; different slots share no
    byte; and a bucket count derived from the segment size keeps the region
    within the segment's share of one rank, unless one bucket alone is
    larger. *)
Theorem slot_region_bounds {HL : Hashlib} (c : PeerCacheConfig) (tp : Z)
  (Hpay : 0 ≤ int_of c "slot_max_page_bytes") :
  let g := slot_geometry c tp in
  0 < num_buckets g ∧ 0 < ways g ∧
  slot_stride g mod 64 = 0 ∧
  HEADER_SIZE + max_payload g ≤ slot_stride g < HEADER_SIZE + max_payload g + 64 ∧
  (∀ key way, 0 ≤ way < ways g →
    0 ≤ slot_offset g (bucket_index g key) way ∧
    slot_offset g (bucket_index g key) way + slot_stride g ≤ capacity g) ∧
  (∀ b way b' way', slot_in_range g b way → slot_in_range g b' way' → (b, way) ≠ (b', way') →
    ranges_disjoint (slot_offset g b way) (slot_stride g) (slot_offset g b' way') (slot_stride g)) ∧
  (int_of c "slot_num_buckets" ≤ 0 →
    capacity g ≤ Z.max (Z.max 1 (int_of c "global_segment_size" / tp)) (bucket_stride g)).
Proof.
  intros g. destruct (slot_geometry_ok c tp Hpay) as [Hg He]. fold g in Hg, He.
  pose proof (_align_spec (HEADER_SIZE + max_payload g) 64 ltac:(lia)) as [Ha Hm].
  assert (slot_stride g = _align (HEADER_SIZE + max_payload g) 64) as Hs by (rewrite He at 1; done).
  rewrite Hs. split; [apply Hg|]. split; [apply Hg|]. split; [exact Hm|]. split; [exact Ha|]. rewrite <-Hs. split.
  { intros key way Hw. apply slot_offset_bounds; [done|]. split; [by apply bucket_index_range|done]. }
  split; [intros; by apply slot_offset_disjoint|].
  intros Hn. unfold capacity. replace (num_buckets g) with
    (Z.max 1 (Z.max 1 (int_of c "global_segment_size" / tp) / bucket_stride g)).
  2:{ subst g. unfold slot_geometry. by rewrite (proj2 (Z.leb_le _ _) Hn). }
  destruct Hg as (H0 & _ & Hw & Hst & Hb). unfold HEADER_SIZE in *.
  assert (0 < bucket_stride g) by nia. set (cap := Z.max 1 (int_of c "global_segment_size" / tp)).
  pose proof (Z.mul_div_le cap (bucket_stride g) ltac:(lia)). destruct (Z.max_spec 1 (cap / bucket_stride g)) as [[_ ->]|[_ ->]]; lia.
Qed.

Module SlotStoreExamples.
Import ExampleHash.

(** The default page class of 256 KiB in four ways, in a 4 MiB segment over two ranks. *)
Lemma slot_region_bounds_witness :
  capacity (slot_geometry (mk_config [("slot_max_page_bytes", VInt 262144); ("slot_ways", VInt 4);
    ("slot_num_buckets", VInt 0); ("global_segment_size", VInt 4194304)] []) 2) ≤ 2097152.
Proof.
  destruct (slot_region_bounds (mk_config [("slot_max_page_bytes", VInt 262144); ("slot_ways", VInt 4);
    ("slot_num_buckets", VInt 0); ("global_segment_size", VInt 4194304)] []) 2 ltac:(vm_compute; discriminate))
    as (_ & _ & _ & _ & _ & _ & H).
  refine (Z.le_trans _ _ _ (H ltac:(vm_compute; discriminate)) _). vm_compute. discriminate.
Defined.
End SlotStoreExamples.
