(* ===== verification/SlotSafety.v ===== *)
(** No dirty hits in the slot-map mode.

    The slot-map mode has no directory and no locks: writers overwrite slots of
    other nodes with one-sided writes, readers copy a bucket and trust a header.
    [slot_inv] says that every slot region of the cluster represents a cache
    whose pages were all published, and that cached layouts are those of the
    regions.  Every operation of [SlotStore.v] keeps it, for any behaviour of
    the links, and a fetch reports a hit only for bytes published under the
    key. *)
From S2P Require Import Prelude Bytes Hashlib HashRing Types Rpc Directory Runtime SlotMap Transport Config Metrics Keys Tier StorageServer World SlotStore.

Section safety.
Context {RH : RingHash} {SI : SetIter} {HL : Hashlib}.

(** What was published: keys with the source bytes, in order. *)
Abbreviation history := (list (string * list Z)).

(** Base address and geometry of a node's region. *)
Definition shape (w : world) (n : string) : option (Z * SlotGeometry) :=
  (λ x : SlotRegion * list Z, (sr_base x.1, sr_geom x.1)) <$> slot_of w n.

(** The layout is that of node [n]'s region, and its rails lead to [n]. *)
Definition layout_ok (w : world) (n : string) (l : layout) : Prop :=
  shape w n = Some (ly_base l, ly_geom l) ∧ ly_rails l ≠ [] ∧
  Forall (λ e, f_host (w_fab w) e = Some n) (ly_rails l).

(** Bytes published under a key of this hash. *)
Definition published (h : history) (kh : Z * Z) (data : list Z) : Prop :=
  ∃ k, key_hash128 k = kh ∧ (k, data) ∈ h.

Definition pages_from (h : history) (c : gmap (Z * Z) page) : Prop :=
  ∀ i pg, c !! i = Some pg → published h (pg_hash pg) (pg_data pg).

Record slot_inv (h : history) (w : world) : Prop := {
  si_region n r ks : slot_of w n = Some (r, ks) → ∃ c, region_rep r (mem_of w n) c ∧ pages_from h c;
  si_shape n b g : shape w n = Some (b, g) →
    g = new_geometry (max_payload g) (num_buckets g) (ways g) ∧ b + capacity g ≤ scratch_of w n;
  si_reg n b g : shape w n = Some (b, g) → 0 < b ∧ b + capacity g ≤ 2 ^ 64 ∧
    ∃ rs, pr_regions <$> f_procs (w_fab w) !! n = Some rs ∧ (b, capacity g) ∈ rs;
  si_proc n : is_Some (w_clients w !! n) → is_Some (f_procs (w_fab w) !! n);
  si_layout me n l : cached_layout w me n = Some l → layout_ok w n l;
  si_rails n t : w_tiers w !! n = Some t → Forall (λ e, f_host (w_fab w) e = Some n) (i_rails (t_ident t));
  si_control id ep n : w_control w id = Some ep → w_node_at w ep = Some n → n = id
}.

(** What no operation changes: names, addresses and region shapes. *)
Record same_net (w w' : world) : Prop := {
  sn_host : f_host (w_fab w') = f_host (w_fab w);
  sn_control : w_control w' = w_control w;
  sn_node_at : w_node_at w' = w_node_at w;
  sn_ident n : t_ident <$> w_tiers w' !! n = t_ident <$> w_tiers w !! n;
  sn_shape n : shape w' n = shape w n;
  sn_client n : is_Some (w_clients w' !! n) ↔ is_Some (w_clients w !! n);
  sn_regs n : pr_regions <$> f_procs (w_fab w') !! n = pr_regions <$> f_procs (w_fab w) !! n
}.

Lemma sn_proc w w' n :
  same_net w w' → is_Some (f_procs (w_fab w') !! n) ↔ is_Some (f_procs (w_fab w) !! n).
Proof. intros H. by rewrite <-!(fmap_is_Some pr_regions), (sn_regs _ _ H). Qed.

Lemma same_net_refl w : same_net w w.
Proof. by split. Qed.

Lemma slot_net_trans w1 w2 w3 : same_net w1 w2 → same_net w2 w3 → same_net w1 w3.
Proof.
  intros [] []. split; try congruence.
  - intros n. by rewrite sn_client1.
Qed.

Lemma scratch_of_ident w n :
  scratch_of w n = default 0 (i_scratch <$> (t_ident <$> w_tiers w !! n)).
Proof. unfold scratch_of. by destruct (w_tiers w !! n). Qed.

Lemma same_net_scratch w w' n : same_net w w' → scratch_of w' n = scratch_of w n.
Proof. intros H. by rewrite !scratch_of_ident, (sn_ident _ _ H). Qed.

Lemma same_net_layout w w' n l : same_net w w' → layout_ok w' n l ↔ layout_ok w n l.
Proof. intros H. unfold layout_ok. by rewrite (sn_shape _ _ H), (sn_host _ _ H). Qed.

Lemma slot_inv_intro h h' w w' :
  slot_inv h w → same_net w w' →
  (∀ me n l, cached_layout w' me n = Some l → layout_ok w n l) →
  (∀ n r ks, slot_of w' n = Some (r, ks) → ∃ c, region_rep r (mem_of w' n) c ∧ pages_from h' c) →
  slot_inv h' w'.
Proof.
  intros Hi Hs Hl Hr. split.
  - exact Hr.
  - intros n b g. rewrite (sn_shape _ _ Hs), (same_net_scratch _ _ _ Hs). apply Hi.
  - intros n b g. rewrite (sn_shape _ _ Hs), (sn_regs _ _ Hs). apply Hi.
  - intros n. rewrite (sn_client _ _ Hs), (sn_proc _ _ _ Hs). apply Hi.
  - intros me n l Hc. rewrite (same_net_layout _ _ _ _ Hs). by eapply Hl.
  - intros n t Ht. rewrite (sn_host _ _ Hs). pose proof (sn_ident _ _ Hs n) as Hid. rewrite Ht in Hid.
    destruct (w_tiers w !! n) as [t0|] eqn:E0; [|done]. simpl in Hid. injection Hid as ->.
    by apply (si_rails _ _ Hi).
  - intros id ep n. rewrite (sn_control _ _ Hs), (sn_node_at _ _ Hs). apply Hi.
Qed.

Lemma published_mono h h' kh d : (∀ x, x ∈ h → x ∈ h') → published h kh d → published h' kh d.
Proof. intros Hs (k & ? & ?). exists k. auto. Qed.

Lemma slot_inv_mono h h' w : (∀ x, x ∈ h → x ∈ h') → slot_inv h w → slot_inv h' w.
Proof.
  intros Hs Hi. eapply slot_inv_intro; [done|apply same_net_refl|apply Hi|].
  intros n r ks Hn. destruct (si_region _ _ Hi n r ks Hn) as (c & Hr & Hp). exists c. split; [done|].
  intros i pg Hc. eapply published_mono; [done|]. by eapply Hp.
Qed.

(** ** Memory changes *)

Lemma set_mem_of_fields w me m :
  w_tiers (set_mem_of w me m) = w_tiers w ∧ w_clients (set_mem_of w me m) = w_clients w ∧
  w_dir (set_mem_of w me m) = w_dir w ∧ w_control (set_mem_of w me m) = w_control w ∧
  w_node_at (set_mem_of w me m) = w_node_at w ∧ w_link (set_mem_of w me m) = w_link w ∧
  f_host (w_fab (set_mem_of w me m)) = f_host (w_fab w).
Proof. unfold set_mem_of. by destruct (f_procs (w_fab w) !! me). Qed.

Lemma mem_of_set_mem w me m n :
  mem_of (set_mem_of w me m) n =
    if bool_decide (n = me ∧ is_Some (f_procs (w_fab w) !! me)) then m else mem_of w n.
Proof.
  unfold set_mem_of, mem_of. destruct (f_procs (w_fab w) !! me) as [p|] eqn:E.
  - simpl. case_bool_decide as Hd.
    + destruct Hd as [-> _]. by rewrite lookup_insert_eq.
    + rewrite lookup_insert_ne; [done|]. intros ->. apply Hd. eauto.
  - rewrite bool_decide_eq_false_2; [done|]. intros [_ []]. done.
Qed.

Lemma mem_of_set_mem_eq w me m :
  is_Some (f_procs (w_fab w) !! me) → mem_of (set_mem_of w me m) me = m.
Proof. intros H. rewrite mem_of_set_mem. by rewrite bool_decide_eq_true_2. Qed.

Lemma mem_of_set_mem_ne w me m n : n ≠ me → mem_of (set_mem_of w me m) n = mem_of w n.
Proof. intros H. rewrite mem_of_set_mem. rewrite bool_decide_eq_false_2; [done|]. naive_solver. Qed.

Lemma slot_of_set_mem w me m n : slot_of (set_mem_of w me m) n = slot_of w n.
Proof. unfold slot_of. by destruct (set_mem_of_fields w me m) as (_ & -> & _). Qed.

Lemma set_mem_of_net w me m : same_net w (set_mem_of w me m).
Proof.
  destruct (set_mem_of_fields w me m) as (H1 & H2 & _ & H3 & H4 & _ & H5). split; try done.
  - intros n. by rewrite H1.
  - intros n. unfold shape. by rewrite slot_of_set_mem.
  - intros n. by rewrite H2.
  - intros n. unfold set_mem_of. destruct (f_procs (w_fab w) !! me) as [p|] eqn:E; [|done]. simpl.
    destruct (decide (n = me)) as [->|Hne]; [by rewrite lookup_insert_eq, E|by rewrite lookup_insert_ne].
Qed.

(** A change of one node's memory that keeps its region a cache of published
    pages. *)
Lemma set_mem_of_inv h w n m :
  slot_inv h w →
  (∀ r ks, slot_of w n = Some (r, ks) → ∃ c, region_rep r m c ∧ pages_from h c) →
  slot_inv h (set_mem_of w n m).
Proof.
  intros Hi Hn. eapply slot_inv_intro; [exact Hi|apply set_mem_of_net| |].
  - intros me n' l. unfold cached_layout. destruct (set_mem_of_fields w n m) as (_ & -> & _). apply (si_layout _ _ Hi).
  - intros n' r ks. rewrite slot_of_set_mem, mem_of_set_mem. intros Hs. case_bool_decide as Hd; [|by eapply Hi].
    destruct Hd as [-> _]. by eapply Hn.
Qed.

(** Memory that the node's region does not occupy and temporary buffers do
    not use. *)
Definition private (w : world) (me : string) (x : Z) : Prop :=
  x < scratch_of w me ∧ ∀ b g, shape w me = Some (b, g) → ¬ (b ≤ x < b + capacity g).

(** A buffer of the application. *)
Definition buffer_ok (w : world) (me : string) (p n : Z) : Prop :=
  p + n ≤ scratch_of w me ∧ ∀ b g, shape w me = Some (b, g) → ranges_disjoint b (capacity g) p n.

Lemma buffer_private w me p n x : buffer_ok w me p n → p ≤ x < p + n → private w me x.
Proof.
  intros [H1 H2] Hx. split; [lia|]. intros b g Hs. specialize (H2 b g Hs). unfold ranges_disjoint in H2. lia.
Qed.

Lemma same_net_buffer w w' me p n : same_net w w' → buffer_ok w' me p n ↔ buffer_ok w me p n.
Proof.
  intros H. unfold buffer_ok. rewrite (same_net_scratch _ _ _ H). by setoid_rewrite (sn_shape _ _ H).
Qed.

Lemma same_net_private w w' me x : same_net w w' → private w' me x ↔ private w me x.
Proof.
  intros H. unfold private. rewrite (same_net_scratch _ _ _ H). by setoid_rewrite (sn_shape _ _ H).
Qed.

(** The application's memory is not touched. *)
Definition quiet (me : string) (w w' : world) : Prop :=
  ∀ x, private w me x → mem_of w' me x = mem_of w me x.

Lemma quiet_trans me w1 w2 w3 : same_net w1 w2 → quiet me w1 w2 → quiet me w2 w3 → quiet me w1 w3.
Proof. intros Hs H1 H2 x Hx. rewrite H2; [by apply H1|]. by rewrite (same_net_private _ _ _ _ Hs). Qed.

Lemma quiet_read me w w' p n :
  quiet me w w' → buffer_ok w me p n → mem_read (mem_of w' me) p n = mem_read (mem_of w me) p n.
Proof. intros Hq Hb. apply mem_read_ext. intros x Hx. apply Hq. by eapply buffer_private. Qed.

(** What an operation that leaves the application's memory alone guarantees. *)
Definition keeps (h : history) (me : string) (w w' : world) : Prop :=
  slot_inv h w' ∧ same_net w w' ∧ quiet me w w'.

Lemma keeps_refl h me w : slot_inv h w → keeps h me w w.
Proof. intros Hi. split; [done|]. split; [apply same_net_refl|]. by intros x ?. Qed.

Lemma keeps_trans h me w1 w2 w3 : keeps h me w1 w2 → keeps h me w2 w3 → keeps h me w1 w3.
Proof.
  intros (_ & S1 & Q1) (I2 & S2 & Q2). split; [done|]. split; [by eapply slot_net_trans|by eapply quiet_trans].
Qed.

(** Changing temporary buffers only. *)
Lemma scratch_keeps h w me m :
  slot_inv h w → (∀ x, x < scratch_of w me → m x = mem_of w me x) → keeps h me w (set_mem_of w me m).
Proof.
  intros Hi Hx. split; [|split; [apply set_mem_of_net|]].
  - apply set_mem_of_inv; [done|]. intros r ks Hs. destruct (si_region _ _ Hi me r ks Hs) as (c & Hr & Hp).
    exists c. split; [|done]. eapply region_rep_frame; [|exact Hr]. intros x Hin. apply Hx.
    destruct (si_shape _ _ Hi me (sr_base r) (sr_geom r)) as [_ Hsc]; [unfold shape; by rewrite Hs|lia].
  - intros x [Hlt _]. rewrite mem_of_set_mem. case_bool_decide; [by apply Hx|done].
Qed.

(** ** Own keys *)

Lemma slot_of_client w me r ks :
  slot_of w me = Some (r, ks) → ∃ c, w_clients w !! me = Some c ∧ c_slot c = Some (r, ks).
Proof. unfold slot_of. destruct (w_clients w !! me) as [c|]; [|done]. simpl. eauto. Qed.

Lemma outside_buffer w me r ks p n :
  slot_of w me = Some (r, ks) → buffer_ok w me p n → outside r p n.
Proof. intros Hs [_ Hb]. apply (Hb (sr_base r) (sr_geom r)). unfold shape. by rewrite Hs. Qed.

(** The node's own region is replaced. *)
Lemma set_slot_spec w me c r ks m r' :
  w_clients w !! me = Some c → c_slot c = Some (r, ks) → sr_base r' = sr_base r → sr_geom r' = sr_geom r →
  let w' := set_client (set_mem_of w me m) me (with_slot c (Some (r', ks))) in
  same_net w w' ∧ (∀ n, slot_of w' n = if bool_decide (n = me) then Some (r', ks) else slot_of w n) ∧
  (∀ n, mem_of w' n = mem_of (set_mem_of w me m) n) ∧ (∀ n k, cached_layout w' n k = cached_layout w n k).
Proof.
  intros Hc Hslot Hb Hg w'.
  assert (∀ n, slot_of w' n = if bool_decide (n = me) then Some (r', ks) else slot_of w n) as Hslots.
  { intros n. unfold slot_of, w'. simpl. case_bool_decide as Hd.
    - subst n. by rewrite lookup_insert_eq.
    - rewrite lookup_insert_ne by done. by destruct (set_mem_of_fields w me m) as (_ & -> & _). }
  split; [|split; [done|split; [done|]]].
  - destruct (set_mem_of_net w me m) as [S1 S2 S3 S4 S5 S6 S7]. split; try done.
    + intros n. unfold shape. rewrite Hslots. case_bool_decide; [|done]. subst n. unfold slot_of. rewrite Hc. simpl.
      rewrite Hslot. simpl. by rewrite Hb, Hg.
    + intros n. unfold w'. simpl. destruct (decide (n = me)) as [->|Hne].
      * rewrite lookup_insert_eq, Hc. split; eauto.
      * rewrite lookup_insert_ne by done. apply S6.
  - intros n k. unfold cached_layout, w'. simpl. destruct (decide (n = me)) as [->|Hne].
    + by rewrite lookup_insert_eq, Hc.
    + rewrite lookup_insert_ne by done. by destruct (set_mem_of_fields w me m) as (_ & -> & _).
Qed.

Lemma pages_from_insert h c i pg :
  pages_from h c → published h (pg_hash pg) (pg_data pg) → pages_from h (<[i := pg]> c).
Proof. intros Hp Hn j pg'. rewrite lookup_insert_Some. intros [[_ <-]|[_ Hc]]; [done|by eapply Hp]. Qed.

Lemma own_write_keeps h w me key ptr len res w' :
  slot_inv h w → is_Some (w_clients w !! me) → buffer_ok w me ptr len →
  (key, mem_read (mem_of w me) ptr len) ∈ h →
  own_write w me key ptr len = (res, w') → keeps h me w w'.
Proof.
  intros Hi [c Hc] Hb Hh. unfold own_write. rewrite Hc.
  destruct (slot_of w me) as [[r ks]|] eqn:Es; [|intros [= <- <-]; by apply keeps_refl].
  destruct (slot_of_client _ _ _ _ Es) as (c' & Hc' & Hslot). rewrite Hc in Hc'. injection Hc' as <-.
  destruct (write_local r (mem_of w me) key ptr len) as [[res' r'] m'] eqn:Ew. intros [= <- <-].
  destruct (si_region _ _ Hi me r ks Es) as (ca & Hr & Hp).
  assert (∃ ca', region_rep r' m' ca' ∧ pages_from h ca' ∧ sr_base r' = sr_base r ∧ sr_geom r' = sr_geom r ∧
    ∀ x, ¬ (sr_base r ≤ x < sr_base r + capacity (sr_geom r)) → m' x = mem_of w me x)
    as (ca' & Hr' & Hp' & Hbase & Hgeom & Hfr).
  { destruct (write_local_cases r _ ca key ptr len _ _ _ Hr (outside_buffer _ _ _ _ _ _ Es Hb) Ew)
      as [(-> & -> & _)|(w0 & seq & H1 & H2 & _ & H3 & H4)].
    - exists ca. done.
    - eexists. split; [exact H3|]. split; [|done]. apply pages_from_insert; [done|]. by exists key. }
  destruct (set_slot_spec w me c r ks m' r' Hc Hslot Hbase Hgeom) as (Hnet & Hslots & Hmem & Hlay).
  split; [|split; [done|]].
  - eapply slot_inv_intro; [exact Hi|exact Hnet| |].
    + intros n k l. rewrite Hlay. apply (si_layout _ _ Hi).
    + intros n r0 ks0. rewrite Hslots, Hmem. case_bool_decide as Hd.
      * intros [= <- <-]. subst n. rewrite mem_of_set_mem_eq; [eauto|]. apply (si_proc _ _ Hi). eauto.
      * rewrite mem_of_set_mem_ne by done. apply (si_region _ _ Hi).
  - intros x [_ Hx]. rewrite Hmem, mem_of_set_mem. case_bool_decide; [|done]. apply Hfr.
    apply Hx. unfold shape. by rewrite Es.
Qed.

Lemma own_read_spec h w me key ptr len ok w' :
  slot_inv h w → is_Some (w_clients w !! me) → buffer_ok w me ptr len →
  own_read w me key ptr len = (ok, w') →
  slot_inv h w' ∧ same_net w w' ∧
  (∀ x, ¬ (ptr ≤ x < ptr + len) → mem_of w' me x = mem_of w me x) ∧
  (ok = true → published h (key_hash128 key) (mem_read (mem_of w' me) ptr len)) ∧
  (ok = false → mem_of w' me = mem_of w me).
Proof.
  intros Hi Hc Hb. unfold own_read.
  destruct (slot_of w me) as [[r ks]|] eqn:Es.
  2:{ intros [= <- <-]. split; [done|]. split; [apply same_net_refl|]. done. }
  destruct (si_region _ _ Hi me r ks Es) as (c & Hr & Hp).
  pose proof (read_local_rep r (mem_of w me) c key ptr len Hr) as Hrd. cbv zeta in Hrd.
  destruct (read_local r (mem_of w me) key ptr len) as [ok' m']. intros [= <- <-].
  pose proof (si_proc _ _ Hi me Hc) as Hproc.
  pose proof (outside_buffer _ _ _ _ _ _ Es Hb) as Hout. unfold outside, ranges_disjoint in Hout.
  assert (∀ x, ¬ (ptr ≤ x < ptr + len) → m' x = mem_of w me x) as Hfr.
  { destruct ok'; [destruct Hrd as (? & ? & _ & _ & _ & _ & Hx); done|by destruct Hrd as [-> _]]. }
  split; [|split; [apply set_mem_of_net|]].
  - apply set_mem_of_inv; [done|]. rewrite Es. intros r0 ks0 [= <- <-]. exists c. split; [|done].
    eapply region_rep_frame; [|exact Hr]. intros x Hx. apply Hfr. lia.
  - rewrite !mem_of_set_mem_eq by done. split; [done|]. split; intros ->.
    + destruct Hrd as (w0 & pg & Hcw & Hh & Hl & -> & _). rewrite <-Hh. by eapply Hp.
    + by destruct Hrd.
Qed.

(** ** Peer layouts *)

(** Caching a layout changes nothing else. *)
Lemma cache_layout_keeps h w me n l :
  slot_inv h w → layout_ok w n l →
  keeps h me w (cache_layout w me n l) ∧ (∀ k, mem_of (cache_layout w me n l) k = mem_of w k).
Proof.
  intros Hi Hl. unfold cache_layout. destruct (w_clients w !! me) as [c|] eqn:Hc; [|by split; [apply keeps_refl|]].
  set (w' := set_client w me _).
  assert (∀ k, slot_of w' k = slot_of w k) as Hslot.
  { intros k. unfold slot_of, w'. simpl. destruct (decide (k = me)) as [->|Hne].
    - by rewrite lookup_insert_eq, Hc.
    - by rewrite lookup_insert_ne. }
  assert (same_net w w') as Hnet.
  { split; try done.
    - intros k. unfold shape. by rewrite Hslot.
    - intros k. unfold w'. simpl. destruct (decide (k = me)) as [->|Hne].
      + rewrite lookup_insert_eq, Hc. split; eauto.
      + by rewrite lookup_insert_ne. }
  split; [|done]. split; [|split; [done|by intros x _]].
  eapply slot_inv_intro; [exact Hi|exact Hnet| |].
  - intros me' k l'. unfold cached_layout, w'. simpl. destruct (decide (me' = me)) as [->|Hne].
    + rewrite lookup_insert_eq. simpl. rewrite lookup_insert_Some. intros [[<- <-]|[_ H]]; [done|].
      apply (si_layout _ _ Hi me). unfold cached_layout. by rewrite Hc.
    + rewrite lookup_insert_ne by done. apply (si_layout _ _ Hi me').
  - intros k r ks. rewrite Hslot. apply Hi.
Qed.

(** The reply of a node describes its region. *)
Lemma layout_of_reply h w n l :
  slot_inv h w → layout_of (_on_slot_layout w n) = Ret (Some l) → layout_ok w n l.
Proof.
  intros Hi. unfold _on_slot_layout. change (w_clients w !! n ≫= c_slot) with (slot_of w n).
  destruct (slot_of w n) as [[r ks]|] eqn:Es; [|done].
  destruct (w_tiers w !! n) as [t|] eqn:Et; [|done].
  unfold layout_of. simpl.
  rewrite (py_mapM_ret py_int VInt) by done. simpl.
  rewrite (py_mapM_ret as_str VStr) by done. simpl.
  pose proof (si_rails _ _ Hi n t Et) as Hrails.
  destruct (i_rails (t_ident t)) as [|e es] eqn:Er; [done|]. intros [= <-]. simpl.
  destruct (si_shape _ _ Hi n (sr_base r) (sr_geom r)) as [Hg _]; [unfold shape; by rewrite Es|].
  split; [|done]. unfold shape. rewrite Es. simpl. by rewrite <-Hg.
Qed.

(** The fields of a reply are read at once here, and by the source when each is
    first used; no reply of a node with a rail makes a difference. *)
Lemma layout_reply_complete w n :
  (∀ t, w_tiers w !! n = Some t → i_rails (t_ident t) ≠ []) → ∃ o, layout_of (_on_slot_layout w n) = Ret o.
Proof.
  intros Hrails. unfold _on_slot_layout. change (w_clients w !! n ≫= c_slot) with (slot_of w n).
  destruct (slot_of w n) as [[r ks]|] eqn:Es; [|by eexists].
  destruct (w_tiers w !! n) as [t|] eqn:Et; [|by eexists].
  unfold layout_of. simpl. rewrite (py_mapM_ret py_int VInt) by done. simpl.
  rewrite (py_mapM_ret as_str VStr) by done. simpl.
  specialize (Hrails t eq_refl). destruct (i_rails (t_ident t)) as [|e es]; [done|by eexists].
Qed.

Lemma data_call_layout w ep n :
  w_node_at w ep = Some n →
  ∃ r, data_call w ep "slot_layout" (VDict []) = (r, w) ∧
    ∀ v, r = Ret v → v = _on_slot_layout w n.
Proof.
  intros Hn. unfold data_call. rewrite Hn.
  assert (∀ w0, ∃ r, invoke (data_service w n) w0 "slot_layout" (VDict []) = (r, w0) ∧
    ∀ v, r = Ret v → v = _on_slot_layout w0 n) as Hinv.
  { intros w0. unfold invoke, data_service. destruct (w_clients w !! n) as [c|].
    - unfold register. rewrite decide_True by done. eexists. split; [reflexivity|]. by intros v [= <-].
    - simpl. eexists. split; [reflexivity|]. done. }
  rewrite link_call_readonly by (intros st; by destruct (Hinv st) as (? & -> & _)).
  destruct (Hinv w) as (r & -> & Hr). simpl. destruct (replies _); eexists; (split; [reflexivity|]); done.
Qed.

Lemma peer_layout_spec h w me n res w' :
  slot_inv h w → _peer_layout w me n = (res, w') →
  keeps h me w w' ∧ (∀ k, mem_of w' k = mem_of w k) ∧ (∀ l, res = Ret (Some l) → layout_ok w n l).
Proof.
  intros Hi. unfold _peer_layout.
  destruct (cached_layout w me n) as [l|] eqn:Ec.
  { intros [= <- <-]. split; [by apply keeps_refl|]. split; [done|]. intros l' [= <-]. by eapply Hi. }
  assert (∀ v, v = _on_slot_layout w n →
    (match layout_of v with
     | Ret (Some l) => (Ret (Some l), cache_layout w me n l)
     | r => (r, w) end) = (res, w') →
    keeps h me w w' ∧ (∀ k, mem_of w' k = mem_of w k) ∧ (∀ l, res = Ret (Some l) → layout_ok w n l)) as Hgot.
  { intros v ->. destruct (layout_of (_on_slot_layout w n)) as [[l|]|] eqn:El; intros [= <- <-].
    2,3: by split; [apply keeps_refl|].
    pose proof (layout_of_reply _ _ _ _ Hi El) as Hok.
    destruct (cache_layout_keeps h w me n l Hi Hok) as [H1 H2]. split; [done|]. split; [done|]. by intros ? [= <-]. }
  destruct (String.eqb n me && _) eqn:Eown.
  { apply andb_true_iff in Eown as [->%String.eqb_eq _]. by apply Hgot. }
  destruct (w_control w n) as [ep|] eqn:Ecl; [|intros [= <- <-]; by split; [apply keeps_refl|]].
  destruct (w_node_at w ep) as [n'|] eqn:En.
  - pose proof (si_control _ _ Hi n ep n' Ecl En) as ->.
    destruct (data_call_layout w ep n En) as (r & -> & Hr). destruct r as [v|e].
    + apply Hgot. by apply Hr.
    + intros [= <- <-]. by split; [apply keeps_refl|].
  - unfold data_call. rewrite En. intros [= <- <-]. by split; [apply keeps_refl|].
Qed.

(** ** Rails *)

Lemma pick_rail_elem {A} (n i : Z) (xs : list A) :
  0 ≤ i → xs ≠ [] → ∃ x, pick_rail n i xs = Some x ∧ x ∈ xs.
Proof.
  intros Hi Hne. unfold pick_rail.
  assert (0 ≤ i mod Z.max 1 n) as Hm by (apply Z.mod_pos_bound; lia).
  destruct (lookup_lt_is_Some_2 xs (Z.to_nat (if i mod Z.max 1 n <? zlength xs then i mod Z.max 1 n else 0)))
    as [x Hx].
  { destruct (_ <? _) eqn:E; bool_cases; unfold zlength in *; [lia|]. destruct xs; [done|simpl; lia]. }
  exists x. split; [done|]. by eapply list_elem_of_lookup_2.
Qed.

(** All rails recorded for a node lead where its first one does. *)
Definition rails_agree (w : world) (eps : gmap string (list string)) : Prop :=
  ∀ nk rails, eps !! nk = Some rails →
    rails ≠ [] ∧ Forall (λ e, f_host (w_fab w) e = f_host (w_fab w) nk) rails.

Lemma rail0_host w n l : layout_ok w n l → f_host (w_fab w) (rail0 l) = Some n.
Proof.
  intros (_ & Hne & Hf). unfold rail0. destruct (ly_rails l) as [|e es]; [done|]. simpl.
  by apply Forall_cons in Hf as [? _].
Qed.

Lemma rail_maps_agree w ls acc :
  (∀ l, l ∈ ls → ∃ n, layout_ok w n l) → rails_agree w acc.1 →
  let eps := (foldl rail_step acc ls).1 in
  rails_agree w eps ∧ (∀ l, l ∈ ls → is_Some (eps !! rail0 l)) ∧
  (∀ nk, is_Some (acc.1 !! nk) → is_Some (eps !! nk)).
Proof.
  revert acc. induction ls as [|l ls IH]; intros [eps ks] Hls Ha; simpl in *.
  { split; [done|]. split; [by intros ? ?%not_elem_of_nil|done]. }
  destruct (Hls l) as [n Hn]; [apply elem_of_cons; by left|].
  assert (rails_agree w (rail_step (eps, ks) l).1 ∧ is_Some ((rail_step (eps, ks) l).1 !! rail0 l) ∧
    ∀ nk, is_Some (eps !! nk) → is_Some ((rail_step (eps, ks) l).1 !! nk)) as (H1 & H2 & H3).
  { simpl. destruct (eps !! rail0 l) as [rs|] eqn:E; simpl; [by rewrite E; eauto|].
    split; [|split].
    - intros nk rails. rewrite lookup_insert_Some. intros [[<- <-]|[_ H]]; [|by eapply Ha].
      rewrite (rail0_host _ _ _ Hn). split; apply Hn.
    - rewrite lookup_insert_eq. eauto.
    - intros nk Hk. apply lookup_insert_is_Some'. by right. }
  destruct (IH (rail_step (eps, ks) l)) as (I1 & I2 & I3); [|done|].
  { intros l' Hl'. apply Hls. apply elem_of_cons. by right. }
  simpl in *. split; [done|]. split; [|by auto].
  intros l' [->|Hl']%elem_of_cons; auto.
Qed.

(** Whichever rail an operation takes, it reaches the owner. *)
Lemma rail_maps_host w ls n l (i : Z) (n_rails : Z) :
  (∀ l, l ∈ ls → ∃ n, layout_ok w n l) → l ∈ ls → layout_ok w n l → 0 ≤ i →
  f_host (w_fab w) (rail_endpoint n_rails i (rail_maps ls).1 (rail0 l)) = Some n.
Proof.
  intros Hls Hin Hl Hi.
  destruct (rail_maps_agree w ls (∅, ∅) Hls) as (H1 & H2 & _).
  { intros nk rails. simpl. by rewrite lookup_empty. }
  fold (rail_maps ls) in *. destruct (H2 l Hin) as [rails Hr].
  unfold rail_endpoint. rewrite Hr. simpl. destruct (H1 _ _ Hr) as [Hne Hf].
  destruct (pick_rail_elem n_rails i rails Hi Hne) as (e & -> & He). simpl.
  rewrite Forall_forall in Hf. rewrite (Hf e He). by apply rail0_host.
Qed.

(** ** Temporary buffers *)

Lemma place_from_app a l1 l2 : place_from a (l1 ++ l2) = place_from a l1 ++ place_from (a + sumZ l1) l2.
Proof.
  revert a. induction l1 as [|n l1 IH]; intros a; simpl; [by rewrite Z.add_0_r|]. f_equal. rewrite IH.
  f_equal. f_equal. unfold sumZ. simpl. lia.
Qed.

Lemma length_place_from a sizes : length (place_from a sizes) = length sizes.
Proof. revert a. induction sizes as [|n sizes IH]; intros a; simpl; auto. Qed.

Lemma place_from_ge a sizes j b :
  Forall (λ n, 0 ≤ n) sizes → place_from a sizes !! j = Some b → a ≤ b.
Proof.
  revert a j. induction sizes as [|n sizes IH]; intros a j Hf Hj; [done|].
  apply Forall_cons in Hf as [Hn Hf]. destruct j as [|j]; simpl in Hj; [injection Hj as <-; lia|].
  specialize (IH _ _ Hf Hj). lia.
Qed.

Lemma place_from_order a sizes i j n bi bj :
  Forall (λ n, 0 ≤ n) sizes → (i < j)%nat → sizes !! i = Some n →
  place_from a sizes !! i = Some bi → place_from a sizes !! j = Some bj → bi + n ≤ bj.
Proof.
  revert a i j. induction sizes as [|n' sizes IH]; intros a i j Hf Hij Hn Hi Hj; [done|].
  apply Forall_cons in Hf as [Hn' Hf]. destruct j as [|j]; [lia|]. destruct i as [|i]; simpl in *.
  - injection Hi as <-. injection Hn as <-. by eapply place_from_ge.
  - eapply (IH (a + n') i j); try done. lia.
Qed.

Lemma ForallOrdPairs_lookup {A} (R : A → A → Prop) (l : list A) :
  (∀ i j x y, (i < j)%nat → l !! i = Some x → l !! j = Some y → R x y) → ForallOrdPairs R l.
Proof.
  induction l as [|x l IH]; intros H; constructor.
  - apply Forall_forall. intros y (j & Hj)%list_elem_of_lookup_1. by apply (H 0%nat (S j)); [lia|..].
  - apply IH. intros i j y z Hij Hi Hj. by apply (H (S i) (S j)); [lia|..].
Qed.

Lemma ForallOrdPairs_nth {A} (R : A → A → Prop) (l : list A) i j x y :
  ForallOrdPairs R l → (i < j)%nat → l !! i = Some x → l !! j = Some y → R x y.
Proof.
  intros Hl. revert i j. induction Hl as [|z l Hz _ IH]; intros i j Hij Hi Hj; [done|].
  destruct j as [|j]; [lia|]. destruct i as [|i]; simpl in *.
  - injection Hi as ->. rewrite Forall_forall in Hz. by eapply Hz, list_elem_of_lookup_2.
  - apply (IH i j); [lia|done..].
Qed.

(** ** Reading buckets *)

Lemma shape_region h w n b g :
  slot_inv h w → shape w n = Some (b, g) →
  ∃ r c, sr_base r = b ∧ sr_geom r = g ∧ region_rep r (mem_of w n) c ∧ pages_from h c ∧ geom_ok g.
Proof.
  intros Hi. unfold shape. destruct (slot_of w n) as [[r ks]|] eqn:Es; [|done]. intros [= <- <-].
  destruct (si_region _ _ Hi n r ks Es) as (c & Hr & Hp). exists r, c.
  split; [done|]. split; [done|]. split; [done|]. split; [done|]. apply Hr.
Qed.

(** A remote key of a batch names a region of another node. *)
Definition rem_ok (w : world) (me : string) (r : rem) : Prop :=
  rm_owner r ≠ me ∧ layout_ok w (rm_owner r) (rm_lay r).

Lemma rem_ok_net w w' me r : same_net w w' → rem_ok w' me r ↔ rem_ok w me r.
Proof. intros H. unfold rem_ok. by rewrite (same_net_layout _ _ _ _ H). Qed.

Lemma rem_ok_geom h w me r : slot_inv h w → rem_ok w me r → geom_ok (ly_geom (rm_lay r)).
Proof.
  intros Hi [_ [Hs _]]. by destruct (shape_region _ _ _ _ _ Hi Hs) as (? & ? & _ & _ & _ & _ & ?).
Qed.

Lemma geom_stride g : geom_ok g → 0 < slot_stride g ∧ 0 < bucket_stride g.
Proof. intros (? & ? & ? & ? & ->). unfold HEADER_SIZE in *. nia. Qed.

Lemma rems_layouts w me rs :
  Forall (rem_ok w me) rs → ∀ l, l ∈ rm_lay <$> rs → ∃ n, layout_ok w n l.
Proof.
  intros Hf l (r & -> & Hr)%list_elem_of_fmap. rewrite Forall_forall in Hf. destruct (Hf r Hr) as [_ ?]. eauto.
Qed.

(** [m] at [buf] holds a copy of the key's bucket. *)
Definition bucket_copy (h : history) (m : mem) (buf : Z) (g : SlotGeometry) (key : string) : Prop :=
  ∃ r mo c, region_rep r mo c ∧ pages_from h c ∧ sr_geom r = g ∧
    mem_read m buf (bucket_stride g) = bucket_view r mo (bucket_index g key).

Lemma only_memory_set_proc me f f' p0 p' :
  only_memory me f f' → f_procs f !! me = Some p0 → f_procs f' !! me = Some p' →
  f' = set_proc f me (mk_proc (pr_mem p') (pr_regions p0)).
Proof.
  intros (Hh & Hn & Hr) H0 H'. rewrite H0, H' in Hr. simpl in Hr. injection Hr as Hr.
  destruct f' as [procs host]. unfold set_proc. simpl in *. f_equal; [|done].
  apply map_eq. intros k. destruct (decide (k = me)) as [->|Hne].
  - rewrite lookup_insert_eq, H'. destruct p'. simpl in *. by subst.
  - rewrite lookup_insert_ne by done. by apply Hn.
Qed.

(** The data a successful operation reads is the memory of the node behind
    its endpoint. *)
Lemma remote_bytes_mem w op n data :
  f_host (w_fab w) (ro_endpoint op) = Some n → remote_bytes (w_fab w) op = Some data →
  data = mem_read (mem_of w n) (ro_remote op) (ro_length op).
Proof.
  intros Hh. unfold remote_bytes, target, remote_process. rewrite Hh. simpl. unfold mem_of.
  destruct (f_procs (w_fab w) !! n) as [p|]; [|done]. simpl. destruct (_ && _); [|done]. by intros [= <-].
Qed.

(** The single-rail operations of a bucket read. *)
Lemma bucket_ops_lookup w me rs bufs j op :
  Forall (rem_ok w me) rs →
  stripe (n_rails_of w me) (rail_maps (rm_lay <$> rs)).1 (rail_maps (rm_lay <$> rs)).2
    (zip_with bucket_read rs bufs) !! j = Some op →
  ∃ r buf, rs !! j = Some r ∧ bufs !! j = Some buf ∧ f_host (w_fab w) (ro_endpoint op) = Some (rm_owner r) ∧
    ro_local op = buf ∧ ro_length op = bucket_stride (ly_geom (rm_lay r)) ∧
    ro_remote op = ly_base (rm_lay r) + bucket_index (ly_geom (rm_lay r)) (rm_key r) * bucket_stride (ly_geom (rm_lay r)).
Proof.
  intros Hrs. unfold stripe. rewrite list_lookup_imap. intros (mo & Hmo & Hop)%fmap_Some.
  apply lookup_zip_with_Some in Hmo as (r & buf & -> & Hr & Hb). exists r, buf. subst op. simpl.
  split; [done|]. split; [done|]. split; [|done].
  assert (r ∈ rs) as Hin by by eapply list_elem_of_lookup_2.
  apply rail_maps_host; [by eapply rems_layouts| | |lia].
  - apply list_elem_of_fmap. eauto.
  - rewrite Forall_forall in Hrs. by apply Hrs.
Qed.

(** The buffer holds the bytes of the key's bucket at its owner. *)
Definition owner_view (w : world) (m : mem) (r : rem) (buf : Z) : Prop :=
  let g := ly_geom (rm_lay r) in
  mem_read m buf (bucket_stride g) =
    mem_read (mem_of w (rm_owner r)) (ly_base (rm_lay r) + bucket_index g (rm_key r) * bucket_stride g) (bucket_stride g).

Lemma owner_view_copy h w me r m buf :
  slot_inv h w → rem_ok w me r → owner_view w m r buf → bucket_copy h m buf (ly_geom (rm_lay r)) (rm_key r).
Proof.
  intros Hi [_ [Hs _]] Hv. destruct (shape_region _ _ _ _ _ Hi Hs) as (ro & c & Hbase & Hgeom & Hrr & Hpf & _).
  exists ro, (mem_of w (rm_owner r)), c. split; [done|]. split; [done|]. split; [done|].
  rewrite Hv. unfold bucket_view. by rewrite Hbase, Hgeom.
Qed.

(** A bucket of a registered region can be read. *)
Lemma bucket_readable h w n l key op :
  slot_inv h w → layout_ok w n l → f_host (w_fab w) (ro_endpoint op) = Some n →
  ro_length op = bucket_stride (ly_geom l) →
  ro_remote op = ly_base l + bucket_index (ly_geom l) key * bucket_stride (ly_geom l) →
  is_Some (remote_bytes (w_fab w) op).
Proof.
  intros Hi [Hs _] Hh Hl Hrm. destruct (si_reg _ _ Hi _ _ _ Hs) as (Hpos & H64 & rs & Hp & Hin).
  destruct (shape_region _ _ _ _ _ Hi Hs) as (_ & _ & _ & _ & _ & _ & Hg).
  destruct (geom_stride _ Hg) as [_ Hst]. pose proof (bucket_index_range (ly_geom l) key Hg) as Hb.
  assert (0 ≤ bucket_index (ly_geom l) key * bucket_stride (ly_geom l) ∧
    bucket_index (ly_geom l) key * bucket_stride (ly_geom l) + bucket_stride (ly_geom l) ≤ capacity (ly_geom l)) as Hfit
    by (unfold capacity; nia).
  apply fmap_Some in Hp as (p & Hp & ->).
  unfold remote_bytes, target, remote_process. rewrite Hh. simpl. rewrite Hp. simpl.
  rewrite bool_decide_eq_true_2 by lia. replace (_covered p _ _) with true; [simpl; eauto|].
  symmetry. unfold _covered. apply existsb_exists. exists (ly_base l, capacity (ly_geom l)).
  split; [by apply list_elem_of_In|]. apply andb_true_iff. rewrite !Z.leb_le. lia.
Qed.

(** Operation [j] of a bucket read: the bucket of item [j], into its buffer. *)
Definition bucket_sizes (rs : list rem) : list Z := (λ r, bucket_stride (ly_geom (rm_lay r))) <$> rs.
Definition reads_bucket (w : world) (me : string) (rs : list rem) (j : nat) (op : ReadOp) : Prop :=
  ∃ r buf, rs !! j = Some r ∧
    place_from (scratch_of w me) (bucket_sizes rs) !! j = Some buf ∧
    f_host (w_fab w) (ro_endpoint op) = Some (rm_owner r) ∧ ro_local op = buf ∧
    ro_length op = bucket_stride (ly_geom (rm_lay r)) ∧
    ro_remote op = ly_base (rm_lay r) + bucket_index (ly_geom (rm_lay r)) (rm_key r) * bucket_stride (ly_geom (rm_lay r)).

Lemma bucket_sizes_nonneg h w me rs : slot_inv h w → Forall (rem_ok w me) rs → Forall (λ n, 0 ≤ n) (bucket_sizes rs).
Proof.
  intros Hi Hrs. apply Forall_forall. intros n (r & -> & Hr)%list_elem_of_fmap. rewrite Forall_forall in Hrs.
  pose proof (geom_stride _ (rem_ok_geom _ _ _ _ Hi (Hrs r Hr))). lia.
Qed.

(** They go to other processes and into disjoint buffers. *)
Lemma reads_bucket_apart h w me rs ops : slot_inv h w → Forall (rem_ok w me) rs →
  (∀ j op, ops !! j = Some op → reads_bucket w me rs j op) →
  remote_ops (w_fab w) me ops ∧ ForallOrdPairs local_disjoint ops.
Proof.
  intros Hi Hrs Hops. pose proof (bucket_sizes_nonneg h w me rs Hi Hrs) as Hsz. split.
  - apply Forall_forall. intros op (j & Hj)%list_elem_of_lookup_1. destruct (Hops j op Hj) as (r & buf & Hr & _ & -> & _).
    rewrite Forall_forall in Hrs. destruct (Hrs r (list_elem_of_lookup_2 _ _ _ Hr)) as [Hne _]. congruence.
  - apply ForallOrdPairs_lookup. intros i j x y Hij Hx Hy.
    destruct (Hops i x Hx) as (r & bi & Hr & Hbi & _ & <- & Hl & _).
    destruct (Hops j y Hy) as (r' & bj & Hr' & Hbj & _ & <- & _).
    left. rewrite Hl. eapply (place_from_order _ (bucket_sizes rs) i j); eauto.
    unfold bucket_sizes. by rewrite list_lookup_fmap, Hr.
Qed.

Lemma read_buckets_spec h w me rs link bufs oks w' :
  slot_inv h w → is_Some (w_clients w !! me) → Forall (rem_ok w me) rs →
  read_buckets w me rs link = (bufs, oks, w') →
  bufs = place_from (scratch_of w me) ((λ r, bucket_stride (ly_geom (rm_lay r))) <$> rs) ∧
  length oks = length rs ∧
  ∃ m, w' = set_mem_of w me m ∧ mem_of w' me = m ∧
    (∀ x, x < scratch_of w me → m x = mem_of w me x) ∧
    (∀ j r buf, rs !! j = Some r → bufs !! j = Some buf → oks !! j = Some true →
      bucket_copy h m buf (ly_geom (rm_lay r)) (rm_key r)) ∧
    (∀ j r buf, rs !! j = Some r → bufs !! j = Some buf → oks !! j = Some true → owner_view w m r buf) ∧
    (∀ j r, rs !! j = Some r → link j = AReply → oks !! j = Some true).
Proof.
  intros Hi Hc Hrs. unfold read_buckets. fold (bucket_sizes rs).
  destruct (rail_maps (rm_lay <$> rs)) as [eps ks] eqn:Erm.
  destruct (batch_read_multi _ _ _ _ _ _ _) as [oks' f'] eqn:Eb. intros [= <- <- <-].
  destruct (si_proc _ _ Hi me Hc) as [p0 Hp0]. unfold batch_read_multi in Eb.
  set (ops := stripe _ _ _ _) in Eb.
  assert (∀ j op, ops !! j = Some op → reads_bucket w me rs j op) as Hops
    by (intros j op Hj; apply (bucket_ops_lookup w me); [done|]; by rewrite Erm).
  pose proof (bucket_sizes_nonneg h w me rs Hi Hrs) as Hsz.
  destruct (reads_bucket_apart h w me rs ops Hi Hrs Hops) as [Hrem Hdis].
  pose proof (batch_read_from_spec 0 (w_fab w) me ops link p0 Hp0 Hrem Hdis) as Hspec.
  unfold batch_read in Eb. rewrite Eb in Hspec. destruct Hspec as (Hom & Hoks & p' & Hp' & Hdata & Hout).
  pose proof (only_memory_set_proc _ _ _ _ _ Hom Hp0 Hp') as Hf'.
  split; [done|].
  assert (length ops = length rs) as Hlen.
  { unfold ops, stripe. rewrite length_imap, length_zip_with, length_place_from. unfold bucket_sizes.
    rewrite length_fmap. lia. }
  split; [by rewrite Hoks, length_imap|]. exists (pr_mem p').
  assert (set_fab w f' = set_mem_of w me (pr_mem p')) as Hw' by (unfold set_mem_of; by rewrite Hp0, Hf').
  split; [done|]. split; [rewrite Hw'; apply mem_of_set_mem_eq; eauto|]. split.
  - intros x Hx. rewrite Hout; [unfold mem_of; by rewrite Hp0|]. intros j op Hj _ Hr.
    destruct (Hops j op Hj) as (r & buf & _ & Hb & _ & Hlo & _). apply place_from_ge in Hb; [lia|done].
  - assert (∀ j r buf, rs !! j = Some r → place_from (scratch_of w me) (bucket_sizes rs) !! j = Some buf → oks' !! j = Some true →
      owner_view w (pr_mem p') r buf) as Hview.
    { intros j r buf Hr Hb Hok.
      destruct (lookup_lt_is_Some_2 ops j) as [op Hop]; [rewrite Hlen; by eapply lookup_lt_Some|].
      destruct (Hops j op Hop) as (r' & buf' & Hr' & Hb' & Hh & Hlo & Hl & Hrm).
      rewrite Hr in Hr'. injection Hr' as <-. rewrite Hb in Hb'. injection Hb' as <-.
      rewrite Hoks, list_lookup_imap, Hop in Hok. simpl in Hok. injection Hok as Hok.
      apply read_ok_true in Hok as (data & Hd2 & [[H0 _]|Hd]).
      { rewrite Forall_forall in Hrs. pose proof (geom_stride _ (rem_ok_geom _ _ _ _ Hi (Hrs r (list_elem_of_lookup_2 _ _ _ Hr)))). lia. }
      pose proof (Hdata j op data Hop Hd2) as Hrd.
      apply (remote_bytes_mem w op (rm_owner r) data Hh) in Hd.
      unfold owner_view. cbv zeta. rewrite <-Hrm, <-Hl, <-Hlo. congruence. }
    split; [|split; [exact Hview|]].
    + intros j r buf Hr Hb Hok. apply (owner_view_copy h w me); [done| |by eapply Hview].
      rewrite Forall_forall in Hrs. by eapply Hrs, list_elem_of_lookup_2.
    + intros j r Hr Hl.
      destruct (lookup_lt_is_Some_2 ops j) as [op Hop]; [rewrite Hlen; by eapply lookup_lt_Some|].
      destruct (Hops j op Hop) as (r' & buf' & Hr' & _ & Hh & _ & Hln & Hrm). rewrite Hr in Hr'. injection Hr' as <-.
      rewrite Hoks, list_lookup_imap, Hop. simpl. f_equal. rewrite Hl.
      rewrite Forall_forall in Hrs. destruct (Hrs r (list_elem_of_lookup_2 _ _ _ Hr)) as [_ Hlay].
      edestruct bucket_readable as [data Hd]; [done..|]. by eapply read_ok_reply.
Qed.

(** A header that passes the gate leads to published bytes. *)
Lemma scan_ways_published h m buf g key n ws off :
  bucket_copy h m buf g key → Forall (λ w, 0 ≤ w < ways g) ws →
  scan_ways m buf g (λ hdr, slot_matches hdr key n) ws = Some off →
  0 ≤ off ∧ 0 ≤ n ∧ off + HEADER_SIZE + n ≤ bucket_stride g ∧
  published h (key_hash128 key) (mem_read m (buf + off + HEADER_SIZE) n).
Proof.
  intros (r & mo & c & Hr & Hp & Hg & Hv) Hws. pose proof (rr_geom _ _ _ Hr) as Hgo. rewrite Hg in Hgo.
  induction Hws as [|w ws Hw _ IH]; [done|]. cbn [scan_ways]. rewrite Hv.
  set (b := bucket_index g key) in *.
  assert (slot_in_range (sr_geom r) b w) as Hin.
  { rewrite Hg. split; [by apply bucket_index_range|done]. }
  destruct Hgo as (Hg1 & Hg2 & Hg3 & Hg4 & Hg5).
  assert (∀ i k, 0 ≤ i → 0 ≤ k → i + k ≤ slot_stride g →
    slice (bucket_view r mo b) (w * slot_stride g + i) (w * slot_stride g + i + k) =
      mem_read mo (sr_base r + slot_offset (sr_geom r) b w + i) k) as Hsl.
  { intros i k Hi Hk Hik. pose proof (bucket_view_slice r mo b w i k (rr_geom _ _ _ Hr) Hin Hi Hk) as H.
    rewrite Hg in H. rewrite H by done. by rewrite Hg. }
  unfold HEADER_SIZE in *.
  pose proof (Hsl 0 64 ltac:(lia) ltac:(lia) ltac:(lia)) as Hh. rewrite !Z.add_0_r in Hh. rewrite Hh.
  destruct (slot_matches _ key n) eqn:Em; [|exact IH]. intros [= <-].
  apply (slot_matches_rep r mo c b w key n Hr Hin) in Em as (pg & Hc & Hhash & Hlen).
  pose proof (rr_slots _ _ _ Hr b w Hin) as Hs. rewrite Hc in Hs. destruct Hs as (_ & _ & Hmax & Hbytes).
  rewrite Hg in Hmax. assert (0 ≤ n) by (unfold zlength in Hlen; lia).
  assert (w * slot_stride g + 64 + n ≤ bucket_stride g) as Hfit by (rewrite Hg5; nia).
  split; [nia|]. split; [done|]. split; [done|].
  replace (mem_read m (buf + w * slot_stride g + 64) n) with (pg_data pg); [rewrite <-Hhash; by eapply Hp|].
  rewrite <-Hbytes. unfold HEADER_SIZE. rewrite Hlen.
  rewrite <-Hsl by lia. rewrite <-Hv. rewrite slice_mem_read by nia. f_equal; lia.
Qed.

(** ** Publish *)

(** A remote key to publish: its page fits, and its source buffer holds bytes
    of the history. *)
Definition pub_ok (h : history) (w : world) (me : string) (ptrs : list Z) (r : rem) : Prop :=
  rem_ok w me r ∧ rm_len r ≤ max_payload (ly_geom (rm_lay r)) ∧
  ∃ src, ptrs !! rm_idx r = Some src ∧ buffer_ok w me src (rm_len r) ∧
    (rm_key r, mem_read (mem_of w me) src (rm_len r)) ∈ h.

Lemma pub_ok_keeps h w w' me ptrs r : keeps h me w w' → pub_ok h w me ptrs r → pub_ok h w' me ptrs r.
Proof.
  intros (_ & Hs & Hq) (Hr & Hl & src & Hp & Hb & Hh). split; [by rewrite (rem_ok_net _ _ _ _ Hs)|].
  split; [done|]. exists src. split; [done|]. split; [by rewrite (same_net_buffer _ _ _ _ _ Hs)|].
  by rewrite (quiet_read _ _ _ _ _ Hq Hb).
Qed.

(** The keys still to be handled, with their buffers. *)
Definition items_ok (h : history) (w : world) (me : string) (ptrs : list Z) (i : nat)
    (items : list (string * Z * Z)) : Prop :=
  ∀ j key ptr len, items !! j = Some (key, ptr, len) →
    ptrs !! (i + j)%nat = Some ptr ∧ buffer_ok w me ptr len ∧ (key, mem_read (mem_of w me) ptr len) ∈ h.

Lemma items_ok_tail h w w' me ptrs i it items :
  keeps h me w w' → items_ok h w me ptrs i (it :: items) → items_ok h w' me ptrs (S i) items.
Proof.
  intros (_ & Hs & Hq) Hi j key ptr len Hj. destruct (Hi (S j) key ptr len Hj) as (H1 & H2 & H3).
  split; [by replace (S i + j)%nat with (i + S j)%nat by lia|]. split; [by rewrite (same_net_buffer _ _ _ _ _ Hs)|].
  by rewrite (quiet_read _ _ _ _ _ Hq H2).
Qed.

Lemma keeps_client h me w w' n : keeps h me w w' → is_Some (w_clients w !! n) → is_Some (w_clients w' !! n).
Proof. intros (_ & Hs & _). by rewrite (sn_client _ _ Hs). Qed.

Lemma publish_local_keeps h me ptrs items : ∀ w i results bytes remote res w',
  slot_inv h w → is_Some (w_clients w !! me) → items_ok h w me ptrs i items →
  Forall (pub_ok h w me ptrs) remote →
  publish_local w me i items results bytes remote = (res, w') →
  keeps h me w w' ∧ (∀ results' bytes' remote', res = Ret (results', bytes', remote') →
    Forall (pub_ok h w' me ptrs) remote').
Proof.
  induction items as [|[[key ptr] len] items IH]; intros w i results bytes remote res w' Hi Hc Hit Hrem; simpl.
  { intros [= <- <-]. split; [by apply keeps_refl|]. by intros ??? [= <- <- <-]. }
  destruct (Hit 0%nat key ptr len eq_refl) as (Hp & Hb & Hh). rewrite Nat.add_0_r in Hp.
  assert (∀ w1 results bytes remote1, keeps h me w w1 → Forall (pub_ok h w1 me ptrs) remote1 →
    publish_local w1 me (S i) items results bytes remote1 = (res, w') →
    keeps h me w w' ∧ (∀ results' bytes' remote', res = Ret (results', bytes', remote') →
      Forall (pub_ok h w' me ptrs) remote')) as Hgo.
  { intros w1 results1 bytes1 remote1 Hk Hr1 Hpl.
    destruct (IH w1 (S i) results1 bytes1 remote1 res w') as [Hk2 Hres]; try done.
    - apply Hk.
    - by eapply keeps_client.
    - by eapply items_ok_tail.
    - split; [by eapply keeps_trans|done]. }
  assert (∀ w1, keeps h me w w1 → Forall (pub_ok h w1 me ptrs) remote) as Hmove.
  { intros w1 Hk. eapply Forall_impl; [exact Hrem|]. intros r. by apply pub_ok_keeps. }
  destruct (owner_of w me key) as [owner|]; [|by apply Hgo; [apply keeps_refl|]].
  destruct (String.eqb owner me) eqn:Eo.
  - destruct (own_write w me key ptr len) as [r w1] eqn:Ew.
    pose proof (own_write_keeps h w me key ptr len r w1 Hi Hc Hb Hh Ew) as Hk.
    destruct r as [[off|]|e]; [by apply Hgo; auto|by apply Hgo; auto|]. by intros [= <- <-].
  - apply String.eqb_neq in Eo. destruct (_peer_layout w me owner) as [r w1] eqn:El.
    destruct (peer_layout_spec h w me owner r w1 Hi El) as (Hk & _ & Hlay).
    destruct r as [[lay|]|e]; [|by apply Hgo; auto|by intros [= <- <-]].
    destruct (len >? max_payload (ly_geom lay)) eqn:Egt; bool_cases; [by apply Hgo; auto|].
    apply Hgo; [done|]. apply Forall_app. split; [by auto|]. constructor; [|done].
    apply (pub_ok_keeps h w); [done|]. split; [|split; [simpl; lia|by exists ptr]].
    split; [done|]. by apply Hlay.
Qed.

(** *** Packing the slots *)

(** A WRITE operation that stores a whole page of the history in a slot of
    the owner. *)
Definition write_ok (h : history) (m : mem) (r : rem) (op : MultiOp) : Prop :=
  let g := ly_geom (rm_lay r) in
  ∃ way seq hdr data, 0 ≤ way < ways g ∧ Z.land seq 1 = 0 ∧
    encode_header (rm_key r) (rm_len r) seq = Some hdr ∧ zlength data = rm_len r ∧
    mo_node op = rail0 (rm_lay r) ∧ mo_length op = HEADER_SIZE + rm_len r ∧
    mo_remote op = ly_base (rm_lay r) + slot_offset g (bucket_index g (rm_key r)) way ∧
    mem_read m (mo_local op) (mo_length op) = hdr ++ data ∧ (rm_key r, data) ∈ h.

Lemma pack_slot_spec m buf hdr src n :
  zlength hdr = HEADER_SIZE → 0 ≤ n → src + n ≤ buf →
  mem_read (_pack_slot m buf hdr src n) buf (HEADER_SIZE + n) = hdr ++ mem_read m src n ∧
  (∀ x, x < buf → _pack_slot m buf hdr src n x = m x).
Proof.
  intros Hh Hn Hsrc. unfold _pack_slot, HEADER_SIZE in *. split.
  - rewrite mem_read_app by lia. f_equal.
    + rewrite mem_read_memmove_disjoint by (unfold ranges_disjoint; lia).
      rewrite <-Hh. apply mem_read_write_same.
    + rewrite mem_read_memmove_same by done.
      apply mem_read_write_disjoint. unfold ranges_disjoint. lia.
  - intros x Hx. unfold memmove. rewrite mem_write_out by (rewrite zlength_mem_read; lia).
    apply mem_write_out. lia.
Qed.

(** What is needed of a page to pack: [lim] bounds the source buffers. *)
Definition pack_ok (h : history) (lim : Z) (m : mem) (x : rem * list Z * Z) : Prop :=
  let '(r, _, src) := x in
  0 < ways (ly_geom (rm_lay r)) ∧ src + rm_len r ≤ lim ∧ (rm_key r, mem_read m src (rm_len r)) ∈ h.

Lemma pack_writes_spec h lim items : ∀ m buf claimed res m',
  lim ≤ buf → Forall (pack_ok h lim m) items → pack_writes m buf claimed items = (res, m') →
  (∀ x, x < buf → m' x = m x) ∧
  (∀ ops, res = Ret ops → Forall (λ o, ∃ r, r ∈ items.*1.*1 ∧ o.1 = rm_idx r ∧ write_ok h m' r o.2) ops).
Proof.
  induction items as [|[[r snap] src] items IH]; intros m buf claimed res m' Hlim Hf; cbn [pack_writes].
  { intros [= <- <-]. split; [done|]. by intros ? [= <-]. }
  apply Forall_cons in Hf as [Hok Hf]. destruct Hok as (Hways & Hsrc & Hh).
  set (g := ly_geom (rm_lay r)) in *. cbv zeta. set (ws := default [] _).
  pose proof (pick_way_from_bucket_any (claimed_view g snap ws) g (rm_key r) Hways) as Hpick.
  destruct (pick_way_from_bucket _ g (rm_key r)) as [way seq]. destruct Hpick as [Hway Hseq].
  destruct (encode_header (rm_key r) (rm_len r) seq) as [hdr|] eqn:Ee; [|intros [= <- <-]; by split].
  pose proof (encode_header_range _ _ _ _ Ee) as [Hn _].
  assert (zlength hdr = HEADER_SIZE) as Hzl.
  { apply encode_header_spec in Ee as [Hl _]. unfold zlength. by rewrite Hl. }
  destruct (pack_slot_spec m buf hdr src (rm_len r) Hzl ltac:(lia) ltac:(lia)) as [Hrd Hlow].
  set (m1 := _pack_slot m buf hdr src (rm_len r)) in *.
  destruct (pack_writes m1 _ _ items) as [res1 m2] eqn:Ep.
  assert (Forall (pack_ok h lim m1) items) as Hf1.
  { eapply Forall_impl; [exact Hf|]. intros [[r1 snap1] src1] (H1 & H2 & H3). split; [done|]. split; [done|].
    erewrite mem_read_ext; [exact H3|]. intros x Hx. apply Hlow. lia. }
  destruct (IH m1 (buf + HEADER_SIZE + rm_len r) _ res1 m2 ltac:(unfold HEADER_SIZE; lia) Hf1 Ep) as [Hlow2 Hops].
  assert (∀ x, x < buf → m2 x = m x) as Hlow'.
  { intros x Hx. rewrite Hlow2 by (unfold HEADER_SIZE; lia). by apply Hlow. }
  destruct res1 as [ops|e]; intros [= <- <-]; (split; [done|]); [|done].
  intros ? [= <-]. constructor.
  - exists r. split; [apply elem_of_cons; by left|]. split; [done|].
    exists way, seq, hdr, (mem_read m src (rm_len r)). fold g. simpl.
    split; [done|]. split; [done|]. split; [done|]. split; [by apply zlength_mem_read; lia|].
    split; [done|]. split; [done|]. split; [done|]. split; [|done].
    rewrite <-Hrd. apply mem_read_ext. intros x Hx. apply Hlow2. lia.
  - eapply Forall_impl; [by apply Hops|]. intros o (r' & Hr' & Ho). exists r'. split; [|done].
    apply elem_of_cons. by right.
Qed.

(** *** Writing the slots *)

(** One single-rail WRITE of a page. *)
Definition store_ok (h : history) (w : world) (me : string) (op : ReadOp) : Prop :=
  ∃ n b g bucket way key len seq hdr data,
    n ≠ me ∧ f_host (w_fab w) (ro_endpoint op) = Some n ∧ shape w n = Some (b, g) ∧
    0 ≤ bucket < num_buckets g ∧ 0 ≤ way < ways g ∧ len ≤ max_payload g ∧ Z.land seq 1 = 0 ∧
    encode_header key len seq = Some hdr ∧ zlength data = len ∧
    ro_remote op = b + slot_offset g bucket way ∧
    mem_read (mem_of w me) (ro_local op) (ro_length op) = hdr ++ data ∧ (key, data) ∈ h.

Lemma write_one_keeps h w me op a :
  slot_inv h w → is_Some (w_clients w !! me) → store_ok h w me op →
  ∃ w', set_fab w (write_one (w_fab w) me op a).2 = w' ∧ slot_inv h w' ∧ same_net w w' ∧
    mem_of w' me = mem_of w me.
Proof.
  intros Hi Hc (n & b & g & bucket & way & key & len & seq & hdr & data & Hne & Hhost & Hsh & Hbu & Hway & Hlen &
    Hseq & He & Hd & Hrm & Hrd & Hh).
  destruct (si_proc _ _ Hi me Hc) as [p0 Hp0].
  eexists. split; [reflexivity|]. rewrite (write_one_spec _ _ _ _ _ Hp0).
  assert (slot_inv h (set_fab w (w_fab w)) ∧ same_net w (set_fab w (w_fab w)) ∧
    mem_of (set_fab w (w_fab w)) me = mem_of w me) as Hid.
  { replace (set_fab w (w_fab w)) with w by by destruct w. split; [done|]. split; [apply same_net_refl|done]. }
  unfold target, remote_process. rewrite Hhost. simpl.
  destruct (f_procs (w_fab w) !! n) as [p|] eqn:Ep; [|exact Hid]. simpl.
  destruct (_ && _); [|exact Hid]. destruct (runs a); [|exact Hid]. simpl.
  assert (pr_mem p0 = mem_of w me) as -> by (unfold mem_of; by rewrite Hp0). rewrite Hrd, Hrm.
  assert (pr_mem p = mem_of w n) as Hpm by (unfold mem_of; by rewrite Ep).
  set (m' := mem_write (pr_mem p) _ _).
  assert (set_fab w (set_proc (w_fab w) n (mk_proc m' (pr_regions p))) = set_mem_of w n m') as ->
    by (unfold set_mem_of; by rewrite Ep).
  split; [|split; [apply set_mem_of_net|by apply mem_of_set_mem_ne]].
  apply set_mem_of_inv; [done|]. intros r ks Hs. unfold shape in Hsh. rewrite Hs in Hsh. injection Hsh as <- <-.
  destruct (si_region _ _ Hi n r ks Hs) as (c & Hr & Hp).
  destruct (store_slot_rep r (mem_of w n) c bucket way key len seq hdr data) as [Hr' _]; [done..|].
  eexists. split; [unfold m'; rewrite Hpm; exact Hr'|]. apply pages_from_insert; [done|]. by exists key.
Qed.

Lemma store_ok_net h w w' me op :
  same_net w w' → mem_of w' me = mem_of w me → store_ok h w me op → store_ok h w' me op.
Proof.
  intros Hs Hm (n & b & g & H). exists n, b, g. rewrite Hm, (sn_host _ _ Hs), (sn_shape _ _ Hs). exact H.
Qed.

Lemma batch_write_keeps h me ops link : ∀ w i,
  slot_inv h w → is_Some (w_clients w !! me) → Forall (store_ok h w me) ops →
  let '(oks, f') := batch_write_from i (w_fab w) me ops link in
  slot_inv h (set_fab w f') ∧ same_net w (set_fab w f') ∧ mem_of (set_fab w f') me = mem_of w me.
Proof.
  induction ops as [|op ops IH]; intros w i Hi Hc Hf; cbn [batch_write_from].
  { replace (set_fab w (w_fab w)) with w by by destruct w. split; [done|]. split; [apply same_net_refl|done]. }
  apply Forall_cons in Hf as [Hop Hf].
  destruct (write_one_keeps h w me op (link i) Hi Hc Hop) as (w1 & Hw1 & Hi1 & Hs1 & Hm1).
  destruct (write_one (w_fab w) me op (link i)) as [ok f1]. simpl in Hw1.
  specialize (IH w1 (S i) Hi1).
  assert (w_fab w1 = f1) as Hf1 by by subst w1. rewrite Hf1 in IH.
  destruct (batch_write_from (S i) f1 me ops link) as [oks f2].
  destruct IH as (H1 & H2 & H3).
  - by rewrite (sn_client _ _ Hs1).
  - eapply Forall_impl; [exact Hf|]. intros op'. by apply store_ok_net.
  - assert (set_fab w1 f2 = set_fab w f2) as Heq by (subst w1; done). rewrite Heq in *.
    split; [done|]. split; [by eapply slot_net_trans|congruence].
Qed.

(** *** The whole publish *)

Lemma meter_mem w me f n : mem_of (meter w me f) n = mem_of w n.
Proof.
  unfold meter, run_local, local_of. destruct (w_tiers w !! me) as [t|]; [|done]. simpl.
  destruct (f_procs (w_fab w) !! me) as [p|] eqn:Ep; [|done]. simpl. unfold put_local. simpl. rewrite Ep.
  rewrite set_proc_id; [done|]. rewrite Ep. by destruct p.
Qed.

Lemma meter_keeps h w me f :
  slot_inv h w → keeps h me w (meter w me f) ∧ (∀ n, mem_of (meter w me f) n = mem_of w n).
Proof.
  intros Hi. unfold meter, run_local, local_of.
  destruct (w_tiers w !! me) as [t|] eqn:Et; [|by split; [apply keeps_refl|]]. simpl.
  destruct (f_procs (w_fab w) !! me) as [p|] eqn:Ep; [|by split; [apply keeps_refl|]]. simpl.
  unfold put_local. simpl. rewrite Ep.
  assert (set_proc (w_fab w) me (mk_proc (pr_mem p) (pr_regions p)) = w_fab w) as ->.
  { rewrite set_proc_id; [done|]. rewrite Ep. by destruct p. }
  set (w' := mk_world _ _ _ _ _ _ _).
  assert (same_net w w') as Hs.
  { split; try done. intros n. simpl. destruct (decide (n = me)) as [->|Hne].
    - by rewrite lookup_insert_eq, Et.
    - by rewrite lookup_insert_ne. }
  split; [|done]. split; [|split; [done|by intros x _]].
  eapply slot_inv_intro; [exact Hi|exact Hs|apply (si_layout _ _ Hi)|apply (si_region _ _ Hi)].
Qed.

Lemma stripe_lookup n_rails eps ks ops j op :
  stripe n_rails eps ks ops !! j = Some op →
  ∃ mo, ops !! j = Some mo ∧ ro_endpoint op = rail_endpoint n_rails (Z.of_nat j) eps (mo_node mo) ∧
    ro_local op = mo_local mo ∧ ro_remote op = mo_remote mo ∧ ro_length op = mo_length mo.
Proof. unfold stripe. rewrite list_lookup_imap. intros (mo & Hmo & ->)%fmap_Some. by exists mo. Qed.

Lemma write_ops_ok h w me ptrs remote ops :
  slot_inv h w → Forall (pub_ok h w me ptrs) remote →
  Forall (λ o, ∃ r, r ∈ remote ∧ o.1 = rm_idx r ∧ write_ok h (mem_of w me) r o.2) ops →
  Forall (store_ok h w me)
    (stripe (n_rails_of w me) (rail_maps (rm_lay <$> remote)).1 (rail_maps (rm_lay <$> remote)).2 ops.*2).
Proof.
  intros Hi Hrem Hops. apply Forall_forall. intros op (j & Hj)%list_elem_of_lookup_1.
  apply stripe_lookup in Hj as (mo & Hmo & He & Hl & Hr & Hn).
  rewrite list_lookup_fmap in Hmo. apply fmap_Some in Hmo as (o & Ho & ->).
  rewrite Forall_forall in Hops. destruct (Hops o (list_elem_of_lookup_2 _ _ _ Ho)) as (r & Hin & _ & Hw).
  destruct Hw as (way & seq & hdr & data & Hway & Hseq & Henc & Hd & Hnode & Hlen & Hrm & Hrd & Hh).
  assert (Forall (rem_ok w me) remote) as Hrok by (eapply Forall_impl; [exact Hrem|]; by intros ? [? _]).
  rewrite Forall_forall in Hrem. destruct (Hrem r Hin) as (Hrr & Hmax & _).
  pose proof (rem_ok_geom _ _ _ _ Hi Hrr) as Hg. destruct Hrr as [Hne Hlay].
  exists (rm_owner r), (ly_base (rm_lay r)), (ly_geom (rm_lay r)), (bucket_index (ly_geom (rm_lay r)) (rm_key r)),
    way, (rm_key r), (rm_len r), seq, hdr, data.
  split; [done|]. split.
  { rewrite He, Hnode. apply rail_maps_host; [by eapply rems_layouts| |done|lia].
    apply list_elem_of_fmap. eauto. }
  split; [by destruct Hlay|]. split; [by apply bucket_index_range|]. split; [done|]. split; [done|].
  split; [done|]. split; [done|]. split; [done|]. split; [by rewrite Hr|]. split; [by rewrite Hl, Hn|done].
Qed.

(** The first component of a three-way zip comes from the first list, the
    third from the same position of the third. *)
Lemma zip_zip_elem {A B C} (l : list A) (k : list B) (f : A → C) m x y z :
  (x, y, z) ∈ zip (zip l k) m → x ∈ l ∧ (m = f <$> l → z = f x).
Proof.
  intros (j & Hj)%list_elem_of_lookup_1. apply lookup_zip_with_Some in Hj as (xy & z' & [= <- <-] & Hxy & Hz).
  apply lookup_zip_with_Some in Hxy as (x' & y' & [= <- <-] & Hx & _).
  split; [by eapply list_elem_of_lookup_2|]. intros ->. rewrite list_lookup_fmap, Hx in Hz. by injection Hz.
Qed.

(** What a publish packs: every source lies below the scratch buffer and holds
    a value of the key's history. *)
Lemma remote_pack_ok h w me remote snaps ptrs :
  slot_inv h w → Forall (pub_ok h w me ptrs) remote →
  Forall (pack_ok h (scratch_of w me) (mem_of w me))
    (zip (zip remote snaps) ((λ r, default 0 (ptrs !! rm_idx r)) <$> remote)).
Proof.
  intros Hi Hrem. apply Forall_forall. intros [[r snap] src] Hin.
  destruct (zip_zip_elem _ _ (λ r, default 0 (ptrs !! rm_idx r)) _ _ _ _ Hin) as [Hr Hsrc]. rewrite (Hsrc eq_refl).
  rewrite Forall_forall in Hrem. destruct (Hrem r Hr) as (Hrr & _ & src' & Hp & [Hb _] & Hh).
  rewrite Hp. split; [apply (rem_ok_geom _ _ _ _ Hi Hrr)|]. by split.
Qed.

Lemma publish_remote_keeps h w me remote ptrs results link_r link_w res w' :
  slot_inv h w → is_Some (w_clients w !! me) → Forall (pub_ok h w me ptrs) remote →
  _publish_slotmap_remote w me remote ptrs results link_r link_w = (res, w') → keeps h me w w'.
Proof.
  intros Hi Hc Hrem. unfold _publish_slotmap_remote.
  destruct remote as [|r0 remote0]; [intros [= <- <-]; by apply keeps_refl|].
  set (remote := r0 :: remote0) in *.
  assert (Forall (rem_ok w me) remote) as Hrok by (eapply Forall_impl; [exact Hrem|]; by intros ? [? _]).
  destruct (read_buckets w me remote link_r) as [[bufs rd_ok] w1] eqn:Erd.
  destruct (read_buckets_spec h w me remote link_r bufs rd_ok w1 Hi Hc Hrok Erd)
    as (Hbufs & Hoks & m1 & Hw1 & Hm1 & Hlow1 & _).
  pose proof (scratch_keeps h w me m1 Hi Hlow1) as Hk1. rewrite <-Hw1 in Hk1.
  rewrite Hm1. set (snaps := zip_with (λ r '(buf, ok), snapshot_of m1 r buf ok) _ _).
  set (srcs := (λ r, default 0 (ptrs !! rm_idx r)) <$> remote). set (buf := scratch_of w1 me + _).
  assert (Forall (pub_ok h w1 me ptrs) remote) as Hrem1.
  { eapply Forall_impl; [exact Hrem|]. intros r. by apply pub_ok_keeps. }
  destruct Hk1 as (Hi1 & Hs1 & Hq1).
  assert (scratch_of w1 me ≤ buf) as Hbuf.
  { subst buf. apply Z.le_sub_le_add_l. rewrite Z.sub_diag.
    apply sumZ_nonneg. apply Forall_fmap. eapply Forall_impl; [exact Hrok|]. intros r Hr. simpl.
    pose proof (geom_stride _ (rem_ok_geom _ _ _ _ Hi Hr)). lia. }
  pose proof (remote_pack_ok h w1 me remote snaps ptrs Hi1 Hrem1) as Hpack. rewrite Hm1 in Hpack. fold srcs in Hpack.
  destruct (pack_writes m1 buf [] (zip (zip remote snaps) srcs)) as [pw m2] eqn:Epw.
  destruct (pack_writes_spec h (scratch_of w1 me) _ m1 buf [] pw m2 Hbuf Hpack Epw) as [Hlow2 Hops].
  assert (keeps h me w1 (set_mem_of w1 me m2)) as Hk2.
  { apply scratch_keeps; [done|]. intros x Hx. rewrite Hm1. apply Hlow2. lia. }
  assert (keeps h me w (set_mem_of w1 me m2)) as Hk02 by by eapply keeps_trans.
  destruct pw as [ops|e]; [|by intros [= <- <-]].
  set (w2 := set_mem_of w1 me m2) in *.
  assert (mem_of w2 me = m2) as Hm2.
  { apply mem_of_set_mem_eq. apply (si_proc _ _ Hi1). by rewrite (sn_client _ _ Hs1). }
  assert (Forall (store_ok h w2 me) (stripe (n_rails_of w2 me) (rail_maps (rm_lay <$> remote)).1
    (rail_maps (rm_lay <$> remote)).2 ops.*2)) as Hst.
  { apply (write_ops_ok h w2 me ptrs).
    - apply Hk2.
    - eapply Forall_impl; [exact Hrem1|]. intros r. by apply pub_ok_keeps.
    - rewrite Hm2. eapply Forall_impl; [by apply Hops|]. intros o (r & Hr & H1). exists r. split; [|done].
      apply list_elem_of_fmap in Hr as ([r' snap] & -> & Hr). apply list_elem_of_fmap in Hr as ([[r'' snap'] src] & [= -> ->] & Hr).
      by apply (zip_zip_elem _ _ (λ _, 0)) in Hr as [Hr _]. }
  destruct (rail_maps (rm_lay <$> remote)) as [eps ks]. simpl in Hst. unfold batch_write_multi, batch_write.
  pose proof (batch_write_keeps h me _ link_w w2 0 (proj1 Hk2) (keeps_client _ _ _ _ _ Hk02 Hc) Hst) as Hbw.
  destruct (batch_write_from _ _ _ _ _) as [oks f']. destruct Hbw as (H1 & H2 & H3).
  intros [= <- <-]. eapply keeps_trans; [exact Hk02|]. split; [done|]. split; [done|].
  intros x _. by rewrite H3.
Qed.

(** What a publish adds to the history. *)
Definition sources (w : world) (me : string) (keys : list string) (ptrs sizes : list Z) : history :=
  (λ it : string * Z * Z, (it.1.1, mem_read (mem_of w me) it.1.2 it.2)) <$> zip (zip keys ptrs) sizes.

Definition buffers_ok (w : world) (me : string) (ptrs sizes : list Z) : Prop :=
  ∀ i p n, ptrs !! i = Some p → sizes !! i = Some n → buffer_ok w me p n.

Lemma lookup_items (keys : list string) (ptrs sizes : list Z) i k p n :
  zip (zip keys ptrs) sizes !! i = Some (k, p, n) → keys !! i = Some k ∧ ptrs !! i = Some p ∧ sizes !! i = Some n.
Proof.
  intros Hj. apply lookup_zip_with_Some in Hj as (x & y & [= <- <-] & Hx & Hy).
  by apply lookup_zip_with_Some in Hx as (? & ? & [= <- <-] & ? & ?).
Qed.

Lemma publish_keeps h w me keys ptrs sizes seconds link_r link_w res w' :
  slot_inv h w → is_Some (w_clients w !! me) → buffers_ok w me ptrs sizes →
  _publish_slotmap w me keys ptrs sizes seconds link_r link_w = (res, w') →
  keeps (h ++ sources w me keys ptrs sizes) me w w'.
Proof.
  intros Hi Hc Hb. set (h' := h ++ _). unfold _publish_slotmap.
  assert (slot_inv h' w) as Hi' by (eapply slot_inv_mono; [|done]; intros x ?; apply elem_of_app; by left).
  destruct (publish_local w me 0 _ _ 0 []) as [r w1] eqn:Ep.
  assert (items_ok h' w me ptrs 0 (zip (zip keys ptrs) sizes)) as Hit.
  { intros j key ptr len Hj. destruct (lookup_items _ _ _ _ _ _ _ Hj) as (_ & Hp & Hs). split; [done|].
    split; [by eapply Hb|]. apply elem_of_app. right. unfold sources. apply list_elem_of_fmap.
    eexists. split; [|by eapply list_elem_of_lookup_2]. done. }
  destruct (publish_local_keeps h' me ptrs _ w 0 _ _ [] r w1 Hi' Hc Hit (Forall_nil_2 _) Ep) as [Hk Hrem].
  destruct r as [[[results bytes] remote]|e]; [|by intros [= <- <-]].
  destruct (_publish_slotmap_remote w1 me remote ptrs results link_r link_w) as [r2 w2] eqn:Er.
  assert (keeps h' me w1 w2) as Hk2.
  { eapply publish_remote_keeps; [apply Hk|by eapply keeps_client|by eapply Hrem|exact Er]. }
  assert (keeps h' me w w2) as Hk02 by by eapply keeps_trans.
  destruct r2 as [[results2 n]|e]; [|by intros [= <- <-]]. intros [= <- <-].
  eapply keeps_trans; [exact Hk02|]. by apply meter_keeps, Hk2.
Qed.

(** ** Fetch *)

(** The buffers of a fetch are the application's and do not overlap. *)
Definition targets_ok (w : world) (me : string) (ptrs sizes : list Z) : Prop :=
  buffers_ok w me ptrs sizes ∧
  ∀ i j p n p' n', i ≠ j → ptrs !! i = Some p → sizes !! i = Some n → ptrs !! j = Some p' →
    sizes !! j = Some n' → ranges_disjoint p n p' n'.

(** Every reported hit has its buffer filled with bytes published under the
    key's hash. *)
Definition delivered (h : history) (m : mem) (keys : list string) (ptrs sizes : list Z) (results : list bool) : Prop :=
  ∀ i, results !! i = Some true → ∃ k p n, keys !! i = Some k ∧ ptrs !! i = Some p ∧ sizes !! i = Some n ∧
    published h (key_hash128 k) (mem_read m p n).

(** Filling the buffer of key [i]. *)
Lemma delivered_fill h m m' keys ptrs sizes results i k p n w me :
  targets_ok w me ptrs sizes → delivered h m keys ptrs sizes results →
  keys !! i = Some k → ptrs !! i = Some p → sizes !! i = Some n →
  (∀ x, ¬ (p ≤ x < p + n) → m' x = m x) → published h (key_hash128 k) (mem_read m' p n) →
  delivered h m' keys ptrs sizes (<[i := true]> results).
Proof.
  intros [_ Hdis] Hd Hk Hp Hn Hx Hpub j Hj. destruct (decide (j = i)) as [->|Hne]; [by exists k, p, n|].
  rewrite list_lookup_insert_ne in Hj by done. destruct (Hd j Hj) as (k' & p' & n' & Hk' & Hp' & Hn' & Hpub').
  exists k', p', n'. split; [done|]. split; [done|]. split; [done|].
  erewrite mem_read_ext; [exact Hpub'|]. intros x Hxr. apply Hx.
  specialize (Hdis i j p n p' n' ltac:(done) Hp Hn Hp' Hn'). unfold ranges_disjoint in Hdis. lia.
Qed.

Lemma delivered_low h m m' keys ptrs sizes results w me :
  targets_ok w me ptrs sizes → (∀ x, x < scratch_of w me → m' x = m x) →
  delivered h m keys ptrs sizes results → delivered h m' keys ptrs sizes results.
Proof.
  intros [Hb _] Hx Hd i Hi. destruct (Hd i Hi) as (k & p & n & Hk & Hp & Hn & Hpub).
  exists k, p, n. split; [done|]. split; [done|]. split; [done|].
  erewrite mem_read_ext; [exact Hpub|]. intros x Hxr. apply Hx. destruct (Hb i p n Hp Hn) as [Hlt _]. lia.
Qed.

(** A remote key of a fetch, with its place in the batch. *)
Definition fetch_ok (w : world) (me : string) (keys : list string) (sizes : list Z) (r : rem) : Prop :=
  rem_ok w me r ∧ keys !! rm_idx r = Some (rm_key r) ∧ sizes !! rm_idx r = Some (rm_len r).

Lemma targets_ok_net w w' me ptrs sizes :
  same_net w w' → targets_ok w me ptrs sizes → targets_ok w' me ptrs sizes.
Proof.
  intros Hs [Hb Hd]. split; [|done]. intros i p n Hp Hn. rewrite (same_net_buffer _ _ _ _ _ Hs). by eapply Hb.
Qed.

Lemma fetch_local_spec h me keys ptrs sizes items : ∀ w i results remote res w',
  slot_inv h w → is_Some (w_clients w !! me) → targets_ok w me ptrs sizes →
  (∀ j k p n, items !! j = Some (k, p, n) →
     keys !! (i + j)%nat = Some k ∧ ptrs !! (i + j)%nat = Some p ∧ sizes !! (i + j)%nat = Some n) →
  Forall (fetch_ok w me keys sizes) remote → delivered h (mem_of w me) keys ptrs sizes results →
  fetch_local w me i items results remote = (res, w') →
  slot_inv h w' ∧ same_net w w' ∧ (∀ results' remote', res = Ret (results', remote') →
    Forall (fetch_ok w' me keys sizes) remote' ∧ delivered h (mem_of w' me) keys ptrs sizes results').
Proof.
  induction items as [|[[key ptr] len] items IH]; intros w i results remote res w' Hi Hc Ht Hit Hrem Hdel; simpl.
  { intros [= <- <-]. split; [done|]. split; [apply same_net_refl|]. by intros ?? [= <- <-]. }
  destruct (Hit 0%nat key ptr len eq_refl) as (Hk & Hp & Hn). rewrite Nat.add_0_r in Hk, Hp, Hn.
  assert (∀ w1 results1 remote1, slot_inv h w1 → same_net w w1 → Forall (fetch_ok w1 me keys sizes) remote1 →
    delivered h (mem_of w1 me) keys ptrs sizes results1 →
    fetch_local w1 me (S i) items results1 remote1 = (res, w') →
    slot_inv h w' ∧ same_net w w' ∧ (∀ results' remote', res = Ret (results', remote') →
      Forall (fetch_ok w' me keys sizes) remote' ∧ delivered h (mem_of w' me) keys ptrs sizes results')) as Hgo.
  { intros w1 results1 remote1 Hi1 Hs1 Hr1 Hd1 Hfl.
    destruct (IH w1 (S i) results1 remote1 res w') as (I1 & I2 & I3); try done.
    - by rewrite (sn_client _ _ Hs1).
    - by eapply targets_ok_net.
    - intros j k p n Hj. replace (S i + j)%nat with (i + S j)%nat by lia. by apply Hit.
    - split; [done|]. split; [by eapply slot_net_trans|done]. }
  assert (∀ w1, same_net w w1 → Forall (fetch_ok w1 me keys sizes) remote) as Hmove.
  { intros w1 Hs. eapply Forall_impl; [exact Hrem|]. intros r [H1 H2]. split; [by rewrite (rem_ok_net _ _ _ _ Hs)|done]. }
  destruct (owner_of w me key) as [owner|]; [|by apply Hgo; [|apply same_net_refl|..]].
  destruct (String.eqb owner me) eqn:Eo.
  - destruct (own_read w me key ptr len) as [ok w1] eqn:Er.
    destruct (own_read_spec h w me key ptr len ok w1 Hi Hc ltac:(by eapply Ht) Er) as (H1 & H2 & H3 & H4 & H5).
    apply Hgo; [done|done|by apply Hmove|]. destruct ok; [|by rewrite H5].
    eapply delivered_fill; eauto.
  - apply String.eqb_neq in Eo. destruct (_peer_layout w me owner) as [r w1] eqn:El.
    destruct (peer_layout_spec h w me owner r w1 Hi El) as ((Hi1 & Hs1 & _) & Hm & Hlay).
    assert (delivered h (mem_of w1 me) keys ptrs sizes results) as Hd1 by by rewrite Hm.
    destruct r as [[lay|]|e]; [|by apply Hgo; auto|by intros [= <- <-]].
    destruct (len >? max_payload (ly_geom lay)) eqn:Egt; [by apply Hgo; auto|].
    apply Hgo; [done|done| |done]. apply Forall_app. split; [by auto|]. constructor; [|done].
    split; [|done]. apply (rem_ok_net w w1); [done|]. split; [done|]. by apply Hlay.
Qed.

Lemma bucket_copy_frame h m m' buf g key :
  (∀ x, buf ≤ x < buf + bucket_stride g → m' x = m x) → bucket_copy h m buf g key → bucket_copy h m' buf g key.
Proof.
  intros Hx (r & mo & c & H1 & H2 & H3 & H4). exists r, mo, c. split; [done|]. split; [done|]. split; [done|].
  rewrite <-H4. by apply mem_read_ext.
Qed.

Lemma accept_hits_spec h w me keys ptrs sizes items : ∀ m results results' m',
  targets_ok w me ptrs sizes → length ptrs = length sizes → delivered h m keys ptrs sizes results →
  Forall (λ x, scratch_of w me ≤ x.1.2 ∧ keys !! rm_idx x.1.1 = Some (rm_key x.1.1) ∧
    sizes !! rm_idx x.1.1 = Some (rm_len x.1.1) ∧
    (x.2 = true → bucket_copy h m x.1.2 (ly_geom (rm_lay x.1.1)) (rm_key x.1.1))) items →
  accept_hits m ptrs items results = (results', m') →
  delivered h m' keys ptrs sizes results' ∧
  (∀ x, (∀ i p n, ptrs !! i = Some p → sizes !! i = Some n → ¬ (p ≤ x < p + n)) → m' x = m x).
Proof.
  induction items as [|[[r buf] ok] items IH]; intros m results results' m' Ht Hlen Hd Hf.
  { simpl. by intros [= <- <-]. }
  apply Forall_cons in Hf as [(Hbuf & Hk & Hn & Hbc) Hf]. simpl in Hbuf, Hk, Hn, Hbc. simpl.
  destruct ok; [|by apply IH].
  destruct (scan_ways m buf _ _ _) as [off|] eqn:Es; [|by apply IH].
  assert (∀ g, Forall (λ w, 0 ≤ w < ways g) (seqZ 0 (ways g))) as Hws by (intros g; apply Forall_seqZ; lia).
  destruct (scan_ways_published h m buf _ _ _ _ off (Hbc eq_refl) (Hws _) Es)
    as (Hoff & Hln & Hfit & Hpub).
  destruct (lookup_lt_is_Some_2 ptrs (rm_idx r)) as [p Hp]; [rewrite Hlen; by eapply lookup_lt_Some|].
  rewrite Hp. simpl. set (m1 := memmove m p _ _).
  assert (∀ x, ¬ (p ≤ x < p + rm_len r) → m1 x = m x) as Hfr.
  { intros x Hx. subst m1. unfold memmove. apply mem_write_out. rewrite zlength_mem_read; lia. }
  assert (p + rm_len r ≤ scratch_of w me) as Hps by (destruct Ht as [Hb _]; by destruct (Hb _ _ _ Hp Hn)).
  intros Ha. destruct (IH m1 (<[rm_idx r := true]> results) results' m' Ht Hlen) as [I1 I2]; [| |exact Ha|].
  - eapply delivered_fill; [done|done|done|done|done|done|]. subst m1. by rewrite mem_read_memmove_same.
  - eapply Forall_impl; [exact Hf|]. intros [[r' buf'] ok'] (H1 & H2 & H3 & H4). simpl in *.
    split; [done|]. split; [done|]. split; [done|]. intros ->. eapply bucket_copy_frame; [|by apply H4].
    intros x Hx. apply Hfr. lia.
  - split; [done|]. intros x Hx. rewrite I2 by done. apply Hfr. by eapply Hx.
Qed.

Lemma fetch_spec h w me keys ptrs sizes seconds link res w' :
  slot_inv h w → is_Some (w_clients w !! me) → targets_ok w me ptrs sizes → length ptrs = length sizes →
  _fetch_slotmap w me keys ptrs sizes seconds link = (res, w') →
  slot_inv h w' ∧ same_net w w' ∧
  (∀ results, res = Ret results → delivered h (mem_of w' me) keys ptrs sizes results).
Proof.
  intros Hi Hc Ht Hlen. unfold _fetch_slotmap.
  destruct (fetch_local w me 0 _ _ []) as [r w1] eqn:Ef.
  destruct (fetch_local_spec h me keys ptrs sizes (zip (zip keys ptrs) sizes) w 0 (replicate (length keys) false) []
    r w1 Hi Hc Ht) as (Hi1 & Hs1 & Hres); [| | |exact Ef|].
  { intros j k p n Hj. by apply lookup_items. }
  { done. }
  { intros i [Hf _]%lookup_replicate. done. }
  destruct r as [[results remote]|e]; [|intros [= <- <-]; by split].
  destruct (Hres results remote eq_refl) as [Hrem Hdel].
  destruct (read_buckets w1 me remote link) as [[bufs oks] w2] eqn:Er.
  assert (Forall (rem_ok w1 me) remote) as Hrok by (eapply Forall_impl; [exact Hrem|]; by intros ? [? _]).
  assert (is_Some (w_clients w1 !! me)) as Hc1 by by rewrite (sn_client _ _ Hs1).
  destruct (read_buckets_spec h w1 me remote link bufs oks w2 Hi1 Hc1 Hrok Er)
    as (Hbufs & Hoks & m2 & Hw2 & Hm2 & Hlow & Hcopy & _).
  pose proof (targets_ok_net _ _ _ _ _ Hs1 Ht) as Ht1.
  destruct (scratch_keeps h w1 me m2 Hi1 Hlow) as (Hi2 & Hs2 & _). rewrite <-Hw2 in Hi2, Hs2.
  destruct (accept_hits (mem_of w2 me) ptrs (zip (zip remote bufs) oks) results) as [results2 m3] eqn:Ea.
  rewrite Hm2 in Ea.
  destruct (accept_hits_spec h w1 me keys ptrs sizes (zip (zip remote bufs) oks) m2 results results2 m3 Ht1 Hlen)
    as [Hd3 Hfr]; [| |exact Ea|].
  { eapply delivered_low; eauto. }
  { apply Forall_forall. intros [[r buf] ok] (j & Hj)%list_elem_of_lookup_1. simpl.
    apply lookup_zip_with_Some in Hj as (x & y & [= <- <-] & Hx & Hy).
    apply lookup_zip_with_Some in Hx as (r' & buf' & [= <- <-] & Hr & Hb).
    rewrite Forall_forall in Hrem. destruct (Hrem r (list_elem_of_lookup_2 _ _ _ Hr)) as (_ & Hk & Hn).
    split; [|split; [done|split; [done|]]].
    - rewrite Hbufs in Hb. eapply place_from_ge; [|exact Hb]. apply Forall_fmap.
      eapply Forall_impl; [exact Hrok|]. intros x Hx. simpl.
      pose proof (geom_stride _ (rem_ok_geom _ _ _ _ Hi1 Hx)). lia.
    - intros ->. by eapply Hcopy. }
  assert (same_net w w2) as Hs02 by by eapply slot_net_trans.
  assert (is_Some (f_procs (w_fab w2) !! me)) as Hp2.
  { apply (si_proc _ _ Hi2). by rewrite (sn_client _ _ Hs02). }
  set (w3 := set_mem_of w2 me m3).
  assert (slot_inv h w3) as Hi3.
  { apply set_mem_of_inv; [done|]. intros r ks Hslot.
    destruct (si_region _ _ Hi2 me r ks Hslot) as (c & Hr & Hp). exists c. split; [|done].
    eapply region_rep_frame; [|exact Hr]. intros x Hx. rewrite Hm2. apply Hfr. intros i p n Hpi Hni Hxr.
    pose proof (proj1 (targets_ok_net _ _ _ _ _ Hs02 Ht) i p n Hpi Hni) as [_ Hb].
    specialize (Hb (sr_base r) (sr_geom r)). unfold shape in Hb. rewrite Hslot in Hb.
    specialize (Hb eq_refl). unfold ranges_disjoint in Hb. lia. }
  intros [= <- <-]. destruct (meter_keeps h w3 me (λ mt, record_hits mt results2 sizes seconds) Hi3) as [(Hi4 & Hs4 & _) Hm4].
  split; [done|]. split.
  - eapply slot_net_trans; [exact Hs02|]. eapply slot_net_trans; [apply set_mem_of_net|exact Hs4].
  - intros ? [= <-]. rewrite Hm4. unfold w3. rewrite mem_of_set_mem_eq by done. done.
Qed.

(** ** Exists *)

(** Every key reported present was published. *)
Definition claimed (h : history) (keys : list string) (present : list bool) : Prop :=
  ∀ i, present !! i = Some true → ∃ k data, keys !! i = Some k ∧ published h (key_hash128 k) data.

Lemma claimed_insert h keys present i k data :
  claimed h keys present → keys !! i = Some k → published h (key_hash128 k) data →
  claimed h keys (<[i := true]> present).
Proof.
  intros Hc Hk Hp j Hj. destruct (decide (j = i)) as [->|Hne]; [eauto|].
  rewrite list_lookup_insert_ne in Hj by done. by apply Hc.
Qed.

Lemma own_exists_published h w me key :
  slot_inv h w → own_exists w me key = true → ∃ data, published h (key_hash128 key) data.
Proof.
  intros Hi. unfold own_exists. destruct (slot_of w me) as [[r ks]|] eqn:Es; [|done].
  destruct (si_region _ _ Hi me r ks Es) as (c & Hr & Hp). intros [n Hn]%bool_decide_eq_true.
  unfold exists_local in Hn. apply (exists_local_loop_rep _ _ c) in Hn as (w0 & pg & _ & Hc & <- & _); [|done|].
  - exists (pg_data pg). by eapply Hp.
  - apply seqZ_in_range, bucket_index_range, Hr.
Qed.

Lemma scan_ways_present h m buf g key ws off :
  bucket_copy h m buf g key → Forall (λ w, 0 ≤ w < ways g) ws →
  scan_ways m buf g (λ hdr, bool_decide (is_Some (slot_present hdr key))) ws = Some off →
  ∃ data, published h (key_hash128 key) data.
Proof.
  intros (r & mo & c & Hr & Hp & Hg & Hv) Hws. pose proof (rr_geom _ _ _ Hr) as Hgo. rewrite Hg in Hgo.
  induction Hws as [|w ws Hw _ IH]; [done|]. cbn [scan_ways]. rewrite Hv.
  assert (slot_in_range (sr_geom r) (bucket_index g key) w) as Hin.
  { rewrite Hg. split; [by apply bucket_index_range|done]. }
  pose proof (bucket_view_slice r mo (bucket_index g key) w 0 HEADER_SIZE (rr_geom _ _ _ Hr) Hin) as Hsl.
  rewrite Hg, !Z.add_0_r in Hsl. destruct Hgo as (? & _ & _ & ? & _).
  rewrite Hsl by (unfold HEADER_SIZE in *; lia).
  case_bool_decide as Hs; [|exact IH]. destruct Hs as [n Hn]. rewrite <-Hg in Hn at 1.
  apply (slot_present_rep r mo c _ w key n Hr Hin) in Hn as (pg & Hc & <- & _).
  intros _. exists (pg_data pg). by eapply Hp.
Qed.

Definition probe_ok (w : world) (me : string) (keys : list string) (r : rem) : Prop :=
  rem_ok w me r ∧ keys !! rm_idx r = Some (rm_key r).

Lemma exists_local_keys_spec h me keys ks : ∀ w i present remote res w',
  slot_inv h w → (∀ j k, ks !! j = Some k → keys !! (i + j)%nat = Some k) →
  Forall (probe_ok w me keys) remote → claimed h keys present →
  exists_local_keys w me i ks present remote = (res, w') →
  keeps h me w w' ∧ (∀ present' remote', res = Ret (present', remote') →
    Forall (probe_ok w' me keys) remote' ∧ claimed h keys present').
Proof.
  induction ks as [|key ks IH]; intros w i present remote res w' Hi Hks Hrem Hcl; simpl.
  { intros [= <- <-]. split; [by apply keeps_refl|]. by intros ?? [= <- <-]. }
  pose proof (Hks 0%nat key eq_refl) as Hk. rewrite Nat.add_0_r in Hk.
  assert (∀ w1 present1 remote1, keeps h me w w1 → Forall (probe_ok w1 me keys) remote1 →
    claimed h keys present1 → exists_local_keys w1 me (S i) ks present1 remote1 = (res, w') →
    keeps h me w w' ∧ (∀ present' remote', res = Ret (present', remote') →
      Forall (probe_ok w' me keys) remote' ∧ claimed h keys present')) as Hgo.
  { intros w1 present1 remote1 Hk1 Hr1 Hc1 He.
    destruct (IH w1 (S i) present1 remote1 res w' (proj1 Hk1)) as [I1 I2]; try done.
    - intros j k Hj. replace (S i + j)%nat with (i + S j)%nat by lia. by apply Hks.
    - split; [by eapply keeps_trans|done]. }
  assert (∀ w1, keeps h me w w1 → Forall (probe_ok w1 me keys) remote) as Hmove.
  { intros w1 (_ & Hs & _). eapply Forall_impl; [exact Hrem|]. intros r [H1 H2].
    split; [by rewrite (rem_ok_net _ _ _ _ Hs)|done]. }
  destruct (owner_of w me key) as [owner|]; [|by apply Hgo; [apply keeps_refl|..]].
  destruct (String.eqb owner me) eqn:Eo.
  - apply Hgo; [by apply keeps_refl|done|]. destruct (own_exists w me key) eqn:Ee; [|done].
    destruct (own_exists_published h w me key Hi Ee) as [data Hd]. by eapply claimed_insert.
  - apply String.eqb_neq in Eo. destruct (_peer_layout w me owner) as [r w1] eqn:El.
    destruct (peer_layout_spec h w me owner r w1 Hi El) as (Hk1 & _ & Hlay).
    destruct r as [[lay|]|e]; [|by apply Hgo; auto|by intros [= <- <-]].
    apply Hgo; [done| |done]. apply Forall_app. split; [by auto|]. constructor; [|done].
    split; [|done]. apply (rem_ok_net w w1); [apply Hk1|]. split; [done|]. by apply Hlay.
Qed.

Lemma slot_exists_spec h w me keys link res w' :
  slot_inv h w → is_Some (w_clients w !! me) → _exists_slotmap w me keys link = (res, w') →
  keeps h me w w' ∧ (∀ present, res = Ret present → claimed h keys present).
Proof.
  intros Hi Hc. unfold _exists_slotmap.
  destruct (exists_local_keys w me 0 keys _ []) as [r w1] eqn:Ee.
  destruct (exists_local_keys_spec h me keys keys w 0 (replicate (length keys) false) [] r w1 Hi) as [Hk Hres];
    [done|done|by intros i [? _]%lookup_replicate|exact Ee|].
  destruct r as [[present remote]|e]; [|by intros [= <- <-]].
  destruct (Hres present remote eq_refl) as [Hrem Hcl]. destruct Hk as (Hi1 & Hs1 & Hq1).
  destruct (read_buckets w1 me remote link) as [[bufs oks] w2] eqn:Er.
  assert (Forall (rem_ok w1 me) remote) as Hrok by (eapply Forall_impl; [exact Hrem|]; by intros ? [? _]).
  destruct (read_buckets_spec h w1 me remote link bufs oks w2 Hi1) as (_ & _ & m2 & Hw2 & Hm2 & Hlow & Hcopy & _);
    [by rewrite (sn_client _ _ Hs1)|done|done|].
  pose proof (scratch_keeps h w1 me m2 Hi1 Hlow) as Hk2. rewrite <-Hw2 in Hk2.
  intros [= <- <-]. split; [by eapply keeps_trans; [|exact Hk2]|]. intros ? [= <-]. rewrite Hm2.
  assert (Forall (λ x : rem * Z * bool, keys !! rm_idx x.1.1 = Some (rm_key x.1.1) ∧
    (x.2 = true → bucket_copy h m2 x.1.2 (ly_geom (rm_lay x.1.1)) (rm_key x.1.1))) (zip (zip remote bufs) oks)) as Hall.
  { apply Forall_forall. intros [[r buf] ok] (j & Hj)%list_elem_of_lookup_1. simpl.
    apply lookup_zip_with_Some in Hj as (x & y & [= <- <-] & Hx & Hy).
    apply lookup_zip_with_Some in Hx as (r' & buf' & [= <- <-] & Hr & Hb).
    rewrite Forall_forall in Hrem. destruct (Hrem r (list_elem_of_lookup_2 _ _ _ Hr)) as [_ Hk].
    split; [done|]. intros ->. by eapply Hcopy. }
  clear -Hall Hcl. revert present Hcl. induction Hall as [|[[r buf] ok] l [Hk Hbc] _ IH]; intros present Hcl; [done|].
  simpl in *. apply IH. destruct ok; [|done]. simpl. case_bool_decide as Hs; [|done]. destruct Hs as [off Hoff].
  destruct (scan_ways_present h m2 buf _ _ (seqZ 0 (ways (ly_geom (rm_lay r)))) off (Hbc eq_refl)) as [data Hd];
    [apply Forall_seqZ; lia|done|]. by eapply claimed_insert.
Qed.
End safety.
