(* ===== verification/SlotSteps.v ===== *)
(** The slot-map cluster as a state machine.

    A state is the history of what was published and the world.  Nodes create
    their region, publish, fetch, probe, follow membership changes and use
    their own memory, in any order and with any behaviour of the links.
    Reachable states satisfy [slot_inv] of [SlotSafety.v], so no fetch ever
    delivers a byte that was not published under its key. *)
From S2P Require Import Prelude Bytes Hashlib HashRing Types Rpc Directory Runtime SlotMap Transport Config Metrics Keys Tier StorageServer World SlotStore SlotSafety.

Section steps.
Context {RH : RingHash} {SI : SetIter} {HL : Hashlib}.

(** What happens when the network behaves differently from now on. *)
Definition set_link (w : world) (link : string → attempt * attempt) : world :=
  mk_world (w_tiers w) (w_clients w) (w_dir w) (w_fab w) (w_control w) (w_node_at w) link.

(** The buffer the region gets: in the 64-bit address space, below the temporary
    buffers, with any content in which no slot begins with the tag of a written
    header.  The code neither clears the buffer nor checks this; a slot that
    still carries a header of an earlier region would be served. *)
Definition fresh_buffer (w : world) (me : string) (tp_size base : Z) : Prop :=
  ∀ c, w_clients w !! me = Some c →
    0 ≤ int_of (c_cfg c) "slot_max_page_bytes" ∧
    let n := capacity (slot_geometry (c_cfg c) tp_size) in
    0 < base ∧ base + n ≤ 2 ^ 64 ∧ base + n ≤ scratch_of w me ∧ blank_region (slot_geometry (c_cfg c) tp_size) base (mem_of w me).

Inductive slot_step : list (string * list Z) * world → list (string * list Z) * world → Prop :=
  | StepJoin h w me tp_size base :
      fresh_buffer w me tp_size base →
      slot_step (h, w) (h, _ensure_slot_region w me tp_size base)
  | StepPublish h w me keys ptrs sizes seconds link_r link_w res w' :
      is_Some (w_clients w !! me) → buffers_ok w me ptrs sizes →
      _publish_slotmap w me keys ptrs sizes seconds link_r link_w = (res, w') →
      slot_step (h, w) (h ++ sources w me keys ptrs sizes, w')
  | StepFetch h w me keys ptrs sizes seconds link res w' :
      is_Some (w_clients w !! me) → targets_ok w me ptrs sizes → length ptrs = length sizes →
      _fetch_slotmap w me keys ptrs sizes seconds link = (res, w') →
      slot_step (h, w) (h, w')
  | StepExists h w me keys link res w' :
      is_Some (w_clients w !! me) → _exists_slotmap w me keys link = (res, w') →
      slot_step (h, w) (h, w')
  | StepMembers h w me members : slot_step (h, w) (h, slot_on_members w me members)
  | StepApp h w me m :
      (∀ x, ¬ private w me x → m x = mem_of w me x) → slot_step (h, w) (h, set_mem_of w me m)
  | StepLinks h w link : slot_step (h, w) (h, set_link w link).

(** A cluster before any node has a region: clients have memory, rails and
    control endpoints lead to the nodes that advertise them. *)
Record fresh_cluster (w : world) : Prop := {
  fc_slot n : slot_of w n = None;
  fc_layouts me n : cached_layout w me n = None;
  fc_proc n : is_Some (w_clients w !! n) → is_Some (f_procs (w_fab w) !! n);
  fc_rails n t : w_tiers w !! n = Some t → Forall (λ e, f_host (w_fab w) e = Some n) (i_rails (t_ident t));
  fc_control id ep n : w_control w id = Some ep → w_node_at w ep = Some n → n = id
}.

Lemma fresh_cluster_inv w : fresh_cluster w → slot_inv [] w.
Proof.
  intros [H1 H2 H3 H4 H5]. split; [..|done|done].
  - intros n r ks. by rewrite H1.
  - intros n b g. unfold shape. by rewrite H1.
  - intros n b g. unfold shape. by rewrite H1.
  - done.
  - intros me n l. by rewrite H2.
Qed.

(** A node creates its region: no layout of it was known before. *)
Lemma join_inv h w me tp_size base :
  slot_inv h w → fresh_buffer w me tp_size base → slot_inv h (_ensure_slot_region w me tp_size base).
Proof.
  intros Hi Hf. unfold _ensure_slot_region. destruct (w_clients w !! me) as [c|] eqn:Hc; [|done].
  destruct (f_procs (w_fab w) !! me) as [p|] eqn:Hp; [|done].
  destruct (c_slot c) as [s|] eqn:Hs; [done|].
  destruct (Hf c Hc) as (Hpay & Hpos & H64 & Hscr & Hz). set (g := slot_geometry (c_cfg c) tp_size) in *.
  destruct (slot_geometry_ok (c_cfg c) tp_size Hpay) as [Hg Hgeq]. fold g in Hg, Hgeq. simpl.
  set (w' := set_client _ me _).
  assert (∀ n, slot_of w' n = if bool_decide (n = me) then Some (new_region base g, [0]) else slot_of w n) as Hslot.
  { intros n. unfold slot_of, w'. simpl. case_bool_decide as Hd; [subst n; by rewrite lookup_insert_eq|].
    by rewrite lookup_insert_ne. }
  assert (∀ n, mem_of w' n = mem_of w n) as Hmem.
  { intros n. unfold mem_of, w'. simpl. destruct (decide (n = me)) as [->|Hne].
    - by rewrite lookup_insert_eq, Hp.
    - by rewrite lookup_insert_ne. }
  assert (shape w me = None) as Hno by (unfold shape, slot_of; rewrite Hc; simpl; by rewrite Hs).
  assert (∀ n b g', shape w n = Some (b, g') → shape w' n = Some (b, g')) as Hsh.
  { intros n b g' H. unfold shape. rewrite Hslot. case_bool_decide; [congruence|done]. }
  split.
  - intros n r ks. rewrite Hslot, Hmem. case_bool_decide as Hd; [|apply Hi]. intros [= <- <-]. subst n.
    exists ∅. split; [|by intros i pg ?%lookup_empty_Some].
    by apply new_region_blank.
  - intros n b g'. unfold shape. rewrite Hslot. case_bool_decide as Hd.
    + intros [= <- <-]. subst n. done.
    + intros H. by apply (si_shape _ _ Hi).
  - intros n b g'. unfold shape. rewrite Hslot. unfold w'. simpl. case_bool_decide as Hd.
    + intros [= <- <-]. subst n. rewrite lookup_insert_eq. split; [done|]. split; [done|].
      eexists. split; [reflexivity|]. apply elem_of_app. right. apply list_elem_of_singleton. done.
    + intros H. rewrite lookup_insert_ne by done. by apply (si_reg _ _ Hi).
  - intros n Hn. unfold w'. simpl. apply lookup_insert_is_Some'. destruct (decide (n = me)) as [->|Hne]; [by left|].
    right. apply (si_proc _ _ Hi). unfold w' in Hn. simpl in Hn. by rewrite lookup_insert_ne in Hn.
  - intros me' n l Hl. destruct (si_layout _ _ Hi me' n l) as [Hl1 Hl2].
    + unfold cached_layout, w' in Hl. simpl in Hl. unfold cached_layout.
      destruct (decide (me' = me)) as [->|Hne]; [by rewrite Hc; rewrite lookup_insert_eq in Hl|].
      by rewrite lookup_insert_ne in Hl.
    + split; [by apply Hsh|done].
  - apply (si_rails _ _ Hi).
  - apply (si_control _ _ Hi).
Qed.

Lemma members_inv h w me members : slot_inv h w → slot_inv h (slot_on_members w me members).
Proof.
  intros Hi. unfold slot_on_members. destruct (w_tiers w !! me) as [t|] eqn:Et; [|done].
  destruct (_on_members (t_rt t) members) as [rt changed].
  set (w1 := mk_world _ _ _ _ _ _ _).
  assert (same_net w w1) as Hs1.
  { split; try done. intros n. simpl. destruct (decide (n = me)) as [->|Hne].
    - by rewrite lookup_insert_eq, Et.
    - by rewrite lookup_insert_ne. }
  assert (slot_inv h w1) as Hi1.
  { eapply slot_inv_intro; [exact Hi|exact Hs1|apply (si_layout _ _ Hi)|apply (si_region _ _ Hi)]. }
  destruct changed; [|done]. change (w_clients w1) with (w_clients w). destruct (w_clients w !! me) as [c|] eqn:Hc; [|done].
  set (w2 := set_client w1 me _).
  assert (∀ n, slot_of w2 n = slot_of w1 n) as Hslot.
  { intros n. unfold slot_of, w2. simpl. destruct (decide (n = me)) as [->|Hne].
    - by rewrite lookup_insert_eq, Hc.
    - by rewrite lookup_insert_ne. }
  eapply slot_inv_intro; [exact Hi1| | |].
  - split; try done.
    + intros n. unfold shape. by rewrite Hslot.
    + intros n. unfold w2. simpl. destruct (decide (n = me)) as [->|Hne].
      * rewrite lookup_insert_eq, Hc. split; eauto.
      * by rewrite lookup_insert_ne.
  - intros me' n l. unfold cached_layout, w2. simpl. destruct (decide (me' = me)) as [->|Hne].
    + rewrite lookup_insert_eq. simpl. by rewrite lookup_empty.
    + rewrite lookup_insert_ne by done. apply (si_layout _ _ Hi1 me').
  - intros n r ks. rewrite Hslot. apply (si_region _ _ Hi1).
Qed.

Lemma app_inv h w me m :
  slot_inv h w → (∀ x, ¬ private w me x → m x = mem_of w me x) → slot_inv h (set_mem_of w me m).
Proof.
  intros Hi Hx. apply set_mem_of_inv; [done|]. intros r ks Hs.
  destruct (si_region _ _ Hi me r ks Hs) as (c & Hr & Hp). exists c. split; [|done].
  eapply region_rep_frame; [|exact Hr]. intros x Hin. apply Hx. intros [_ Hno].
  apply (Hno (sr_base r) (sr_geom r)); [unfold shape; by rewrite Hs|done].
Qed.

(** The invariant holds in every reachable state. *)
Lemma slot_step_inv s s' : slot_step s s' → slot_inv s.1 s.2 → slot_inv s'.1 s'.2.
Proof.
  destruct 1 as [h w me tp base Hf|h w me keys ptrs sizes sec lr lw res w' Hc Hb Hp|
    h w me keys ptrs sizes sec link res w' Hc Ht Hl Hf|h w me keys link res w' Hc He|h w me members|
    h w me m Hx|h w link]; simpl; intros Hi.
  - by apply join_inv.
  - by eapply publish_keeps.
  - by destruct (fetch_spec _ _ _ _ _ _ _ _ _ _ Hi Hc Ht Hl Hf).
  - by destruct (slot_exists_spec _ _ _ _ _ _ _ Hi Hc He) as [[? _] _].
  - by apply members_inv.
  - by apply app_inv.
  - eapply slot_inv_intro; [exact Hi|by split|apply (si_layout _ _ Hi)|apply (si_region _ _ Hi)].
Qed.

Lemma slot_reachable_inv s s' : rtc slot_step s s' → slot_inv s.1 s.2 → slot_inv s'.1 s'.2.
Proof. induction 1 as [|s1 s2 s3 Hs _ IH]; [done|]. intros Hi. apply IH. by eapply slot_step_inv. Qed.

(** The 128-bit hashes of these keys differ. *)
Definition hash_distinct (ks : list string) : Prop :=
  ∀ k k', k ∈ ks → k' ∈ ks → key_hash128 k = key_hash128 k' → k = k'.

(** ** Properties *)

(** C1: the slot-map mode has no dirty hits.  In every state a cluster reaches
    by whole calls in any order, with regions created, pages published,
    overwritten and evicted by any nodes, links failing in any way, members
    coming and going: a fetch reports a hit only for a key whose buffer it
    filled, whole, with bytes published under that very key; a probe reports
    only keys that were published.  Two assumptions: the keys in use do not
    collide in all 128 bits of their hash, and the memory a new region gets
    holds no slot that begins with the tag of a written header (the buffer is
    not cleared, its content is otherwise arbitrary). *)
Theorem slotmap_no_dirty_hit (w0 w w' : world) (h : list (string * list Z)) (me : string) (keys : list string)
  (ptrs sizes : list Z) (seconds : Z) (link : nat → attempt) (results : list bool)
  (Hinit : fresh_cluster w0) (Hreach : rtc slot_step ([], w0) (h, w))
  (Hhash : hash_distinct (h.*1 ++ keys)) (Hme : is_Some (w_clients w !! me))
  (Hbuf : targets_ok w me ptrs sizes) (Hlen : length ptrs = length sizes)
  (Hfetch : _fetch_slotmap w me keys ptrs sizes seconds link = (Ret results, w')) :
  (∀ i, results !! i = Some true → ∃ k p n, keys !! i = Some k ∧ ptrs !! i = Some p ∧ sizes !! i = Some n ∧
     (k, mem_read (mem_of w' me) p n) ∈ h) ∧
  (∀ present w'', _exists_slotmap w me keys link = (Ret present, w'') →
     ∀ i, present !! i = Some true → ∃ k, keys !! i = Some k ∧ k ∈ h.*1).
Proof.
  pose proof (slot_reachable_inv _ _ Hreach (fresh_cluster_inv _ Hinit)) as Hi. simpl in Hi.
  assert (∀ i k data, keys !! i = Some k → published h (key_hash128 k) data → (k, data) ∈ h) as Hkey.
  { intros i k data Hk (k' & Hh & Hin). assert (k' = k) as ->; [|done]. apply Hhash; [| |done]; apply elem_of_app.
    - left. apply list_elem_of_fmap. by exists (k', data).
    - right. by eapply list_elem_of_lookup_2. }
  split.
  - destruct (fetch_spec _ _ _ _ _ _ _ _ _ _ Hi Hme Hbuf Hlen Hfetch) as (_ & _ & Hd).
    intros i Hr. destruct (Hd results eq_refl i Hr) as (k & p & n & Hk & Hp & Hn & Hpub).
    exists k, p, n. split; [done|]. split; [done|]. split; [done|]. by eapply Hkey.
  - intros present w'' He i Hpr. destruct (slot_exists_spec _ _ _ _ _ _ _ Hi Hme He) as [_ Hc].
    destruct (Hc present eq_refl i Hpr) as (k & data & Hk & Hpub). exists k. split; [done|].
    apply list_elem_of_fmap. exists (k, data). split; [done|]. by eapply Hkey.
Qed.
End steps.

(** ** A concrete cluster *)

Module SlotClusterExamples.
Import ExampleHash RingExamples RuntimeExamples.

(** Pages of two bytes, one bucket of one way per node. *)
Definition cfg : PeerCacheConfig :=
  mk_config [("mode", VStr "slotmap"); ("slot_max_page_bytes", VInt 2); ("slot_ways", VInt 1);
             ("slot_num_buckets", VInt 1); ("global_segment_size", VInt 4096)] [].

Definition rt : NodeRuntime := after rt0 [[node "a" "inference"; node "b" "inference"]].
Definition tier_of (n : string) : tier :=
  mk_tier (mk_ident n (n +:+ ":1") [n +:+ ":1"] 4096) rt None None [] (new_metrics 8).
Definition client0 : client := mk_client cfg (new_naming "" true 0 0 1) 0 ∅ ∅ 5 4096 true true None ∅.

Definition w0 : world :=
  mk_world {[ "a" := tier_of "a"; "b" := tier_of "b" ]} {[ "a" := client0; "b" := client0 ]}
    (mk_cluster ∅ (λ _, (AReply, AReply)))
    (mk_fabric {[ "a" := mk_proc (λ _, 0) []; "b" := mk_proc (λ _, 0) [] ]}
       (λ e, if String.eqb e "a:1" then Some "a" else if String.eqb e "b:1" then Some "b" else None)) Some Some (λ _, (AReply, AReply)).

Definition w1 : world := _ensure_slot_region (_ensure_slot_region w0 "a" 1 1024) "b" 1 1024.
(** The application of [a] puts a page at address 16. *)
Definition w2 : world := set_mem_of w1 "a" (mem_write (mem_of w1 "a") 16 [7; 9]).
Definition pub : pyres (list bool) * world :=
  _publish_slotmap w2 "a" ["k2"] [16] [2] 0 (λ _, AReply) (λ _, AReply).
Definition got : pyres (list bool) * world := _fetch_slotmap pub.2 "a" ["k2"] [20] [2] 0 (λ _, AReply).

Lemma w0_fresh : fresh_cluster w0.
Proof.
  assert (∀ n, w_clients w0 !! n = None ∨ w_clients w0 !! n = Some client0) as Hcl.
  { intros n. simpl. destruct (decide (n = "a")) as [->|]; [by right|].
    destruct (decide (n = "b")) as [->|]; [by right|]. left. by rewrite lookup_insert_ne, lookup_singleton_ne by done. }
  split.
  - intros n. unfold slot_of. by destruct (Hcl n) as [->| ->].
  - intros me n. unfold cached_layout. by destruct (Hcl me) as [->| ->].
  - intros n [c Hc]. destruct (decide (n = "a")) as [->|]; [by eexists|]. destruct (decide (n = "b")) as [->|]; [by eexists|].
    simpl in Hc. by rewrite lookup_insert_ne, lookup_singleton_ne in Hc by done.
  - intros n t Ht. simpl in Ht. apply lookup_insert_Some in Ht as [[<- <-]|[_ Ht]]; [by repeat constructor|].
    apply lookup_singleton_Some in Ht as [<- <-]. by repeat constructor.
  - intros id ep n. simpl. congruence.
Qed.

(** Region at 1024 of 128 bytes, temporary buffers from 4096. *)
Lemma w0_buffer w me :
  w_clients w !! me = Some client0 → scratch_of w me = 4096 → mem_of w me = (λ _, 0) → fresh_buffer w me 1 1024.
Proof.
  intros Hc Hs Hm c. rewrite Hc. intros [= <-]. split; [by vm_compute|]. rewrite Hs, Hm.
  split; [done|]. split; [by vm_compute|].
  split; [by vm_compute|]. apply zero_region_blank; [|done]. by apply slot_geometry_ok.
Qed.

Lemma w2_shape : shape w2 "a" = Some (1024, new_geometry 2 1 1) ∧ shape pub.2 "a" = Some (1024, new_geometry 2 1 1) ∧
  scratch_of w2 "a" = 4096 ∧ scratch_of pub.2 "a" = 4096.
Proof. split; [vm_compute; reflexivity|]. split; [vm_compute; reflexivity|]. split; vm_compute; reflexivity. Qed.

(** The source buffer of [a]. *)
Lemma w2_source : buffer_ok w2 "a" 16 2.
Proof.
  destruct w2_shape as (Hs & _ & Hsc & _). split; [rewrite Hsc; lia|].
  intros b g. rewrite Hs. intros [= <- <-]. right. lia.
Qed.

Lemma reach_w2 : rtc slot_step ([], w0) ([], w2).
Proof.
  apply (rtc_l _ _ ([], _ensure_slot_region w0 "a" 1 1024)); [apply (StepJoin _ _ "a" 1 1024); apply w0_buffer; vm_compute; reflexivity|].
  apply (rtc_l _ _ ([], w1)); [apply (StepJoin _ _ "b" 1 1024); apply w0_buffer; vm_compute; reflexivity|].
  apply rtc_once. apply (StepApp _ _ "a" (mem_write (mem_of w1 "a") 16 [7; 9])).
  intros x Hx. apply mem_write_out. intros Hr. apply Hx. change (zlength [7; 9]) with 2 in Hr. split.
  - assert (scratch_of w1 "a" = 4096) as -> by (vm_compute; reflexivity). lia.
  - intros b g. assert (shape w1 "a" = Some (1024, new_geometry 2 1 1)) as -> by (vm_compute; reflexivity).
    intros [= <- <-]. lia.
Qed.

Lemma reach : rtc slot_step ([], w0) (sources w2 "a" ["k2"] [16] [2], pub.2).
Proof.
  eapply rtc_r; [exact reach_w2|].
  apply (StepPublish [] w2 "a" ["k2"] [16] [2] 0 (λ _, AReply) (λ _, AReply) pub.1 pub.2).
  - by eexists.
  - intros [|i] p n; [|done]. intros [= <-] [= <-]. exact w2_source.
  - unfold pub. by destruct (_publish_slotmap w2 "a" _ _ _ _ _ _).
Qed.

Lemma one_key : hash_distinct ["k2"; "k2"].
Proof.
  assert (∀ k, k ∈ ["k2"; "k2"] → k = "k2") as Hk by set_solver.
  intros k k' H1%Hk H2%Hk _. congruence.
Qed.

Lemma got_targets : targets_ok pub.2 "a" [20] [2].
Proof.
  split.
  - intros [|i] p n; [|done]. intros [= <-] [= <-]. destruct w2_shape as (_ & Hs & _ & Hsc).
    split; [rewrite Hsc; lia|]. intros b g. rewrite Hs. intros [= <- <-]. right. lia.
  - intros [|i] [|j] p n p' n' Hij H1 H2 H3 H4; [done|discriminate H3|discriminate H1|discriminate H1].
Qed.

Lemma slotmap_no_dirty_hit_witness :
  got.1 = Ret [true] ∧ ("k2", mem_read (mem_of got.2 "a") 20 2) ∈ sources w2 "a" ["k2"] [16] [2].
Proof.
  assert (got.1 = Ret [true]) as Hg by (vm_compute; reflexivity). split; [exact Hg|].
  destruct (slotmap_no_dirty_hit w0 pub.2 got.2 (sources w2 "a" ["k2"] [16] [2]) "a" ["k2"] [20] [2] 0 (λ _, AReply) [true]
    w0_fresh reach) as [H _].
  - exact one_key.
  - vm_compute. eexists. reflexivity.
  - exact got_targets.
  - reflexivity.
  - rewrite <-Hg. unfold got. destruct (_fetch_slotmap pub.2 "a" _ _ _ _ _). reflexivity.
  - destruct (H 0%nat eq_refl) as (k & p & n & Hk & Hp & Hn & Hin). injection Hk as <-. injection Hp as <-.
    injection Hn as <-. exact Hin.
Defined.
End SlotClusterExamples.
