(* ===== verification/SlotVisible.v ===== *)
(** An acknowledged slot-map write is visible.

    A reader takes the first way of the bucket whose header matches, so a page
    is visible when no earlier way matches its key.  [visible] says this of a
    node's memory alone.  A publish that reports success makes its page visible
    at the owner, whether the owner is the publisher or another node and
    whether the bucket could be read first or not; and a node that routes the
    key to that owner, gets its layout and its read through, delivers exactly
    the published bytes.  The bucket must not already hold two copies of the
    key: [two_copies_hide_write] shows what happens then. *)
From S2P Require Import Prelude Bytes Hashlib HashRing Types Rpc Directory Runtime SlotMap Transport Config Metrics Keys Tier StorageServer World SlotStore SlotSafety SlotSteps.

Section visible.
Context {RH : RingHash} {SI : SetIter} {HL : Hashlib}.

(** The address of a way of the key's bucket. *)
Definition way_addr (b : Z) (g : SlotGeometry) (key : string) (way : Z) : Z :=
  b + slot_offset g (bucket_index g key) way.

Definition way_header (m : mem) (b : Z) (g : SlotGeometry) (key : string) (way : Z) : list Z :=
  mem_read m (way_addr b g key way) HEADER_SIZE.

(** Way [way] of the key's bucket at node [o] holds a stable page of the key. *)
Definition copy_at (w : world) (o key : string) (way : Z) : Prop :=
  ∃ b g, shape w o = Some (b, g) ∧ 0 ≤ way < ways g ∧ is_Some (slot_present (way_header (mem_of w o) b g key way) key).

Definition one_copy (w : world) (o key : string) : Prop :=
  ∀ way way', copy_at w o key way → copy_at w o key way' → way = way'.

(** The first matching way of the key's bucket at [o] holds [data]. *)
Definition visible (w : world) (o key : string) (data : list Z) : Prop :=
  ∃ b g way, shape w o = Some (b, g) ∧ 0 ≤ way < ways g ∧
    slot_matches (way_header (mem_of w o) b g key way) key (zlength data) = true ∧
    mem_read (mem_of w o) (way_addr b g key way + HEADER_SIZE) (zlength data) = data ∧
    ∀ way', 0 ≤ way' < way → slot_matches (way_header (mem_of w o) b g key way') key (zlength data) = false.

(** Visibility depends on the owner's shape and memory only. *)
Lemma visible_same w w' o key data :
  shape w' o = shape w o → mem_of w' o = mem_of w o → visible w o key data → visible w' o key data.
Proof. intros Hs Hm (b & g & way & H). exists b, g, way. by rewrite Hs, Hm. Qed.

(** ** Publishing *)

Lemma region_visible w o r c key way pg :
  shape w o = Some (sr_base r, sr_geom r) → region_rep r (mem_of w o) c →
  slot_in_range (sr_geom r) (bucket_index (sr_geom r) key) way →
  c !! (bucket_index (sr_geom r) key, way) = Some pg → pg_hash pg = key_hash128 key →
  (∀ way', 0 ≤ way' < way → ¬ holds c (bucket_index (sr_geom r) key) (key_hash128 key) way') →
  visible w o key (pg_data pg).
Proof.
  intros Hs Hr Hin Hc Hh Hno. exists (sr_base r), (sr_geom r), way. split; [done|]. split; [apply Hin|].
  unfold way_header, way_addr. split; [apply (slot_matches_rep r _ c _ _ _ _ Hr Hin); eauto|]. split.
  - pose proof (rr_slots _ _ _ Hr _ _ Hin) as Hsl. rewrite Hc in Hsl. by destruct Hsl as (_ & _ & _ & ->).
  - intros way' Hw'. apply not_true_iff_false. intros Hm.
    apply (slot_matches_rep r _ c _ _ _ _ Hr) in Hm as (pg' & Hc' & Hh' & _); [|destruct Hin; split; lia].
    apply (Hno way' Hw'). unfold holds. by rewrite Hc', <-Hh'.
Qed.

(** The way a writer chooses becomes the first one that holds the key: it held
    the only copy, or no way did, or it is the first of all. *)
Lemma choice_first c b kh seq_of n way pg :
  (∀ w1 w2, holds c b kh w1 → holds c b kh w2 → w1 = w2) →
  way = 0 ∨ way_choice c b kh seq_of (seqZ 0 n) way →
  ∀ way', 0 ≤ way' < way → ¬ holds (<[(b, way) := pg]> c) b kh way'.
Proof.
  intros Hu Hc way' Hw' Hh. unfold holds in Hh. rewrite lookup_insert_ne in Hh by (intros [= ?]; lia).
  destruct Hc as [->|[Hin [Hold|[Hno _]]]]; [lia| |].
  - specialize (Hu way' way Hh Hold). lia.
  - apply (Hno way'); [|done]. apply elem_of_seqZ in Hin. apply elem_of_seqZ. lia.
Qed.

Lemma one_copy_holds w o key r c :
  one_copy w o key → shape w o = Some (sr_base r, sr_geom r) → region_rep r (mem_of w o) c →
  ∀ w1 w2, holds c (bucket_index (sr_geom r) key) (key_hash128 key) w1 →
    holds c (bucket_index (sr_geom r) key) (key_hash128 key) w2 → w1 = w2.
Proof.
  intros Hone Hs Hr w1 w2 H1 H2.
  assert (∀ way, holds c (bucket_index (sr_geom r) key) (key_hash128 key) way → copy_at w o key way) as Hcopy.
  { intros way (pg & Hc & Hh)%fmap_Some. exists (sr_base r), (sr_geom r).
    assert (slot_in_range (sr_geom r) (bucket_index (sr_geom r) key) way) as Hin by (apply (rr_dom _ _ _ Hr); eauto).
    split; [done|]. split; [apply Hin|]. exists (zlength (pg_data pg)).
    apply (slot_present_rep r _ c _ _ _ _ Hr Hin). eauto. }
  apply Hone; auto.
Qed.

Lemma own_write_visible h w me key ptr len off w' :
  slot_inv h w → is_Some (w_clients w !! me) → buffer_ok w me ptr len → one_copy w me key →
  own_write w me key ptr len = (Ret (Some off), w') → visible w' me key (mem_read (mem_of w me) ptr len).
Proof.
  intros Hi [c Hc] Hb Hone. unfold own_write. rewrite Hc.
  destruct (slot_of w me) as [[r ks]|] eqn:Es; [|done].
  destruct (slot_of_client _ _ _ _ Es) as (c' & Hc' & Hslot). rewrite Hc in Hc'. injection Hc' as <-.
  destruct (write_local r (mem_of w me) key ptr len) as [[res' r'] m'] eqn:Ew. intros [= -> <-].
  destruct (si_region _ _ Hi me r ks Es) as (ca & Hr & _).
  destruct (write_local_cases r _ ca key ptr len _ _ _ Hr (outside_buffer _ _ _ _ _ _ Es Hb) Ew)
    as [(_ & _ & Hno)|(way & seq & Hbase & Hgeom & [Hin Hwc] & Hr' & _)]; [by destruct (Hno off)|].
  destruct (set_slot_spec w me c r ks m' r' Hc Hslot Hbase Hgeom) as (_ & Hslots & Hmem & _).
  set (w' := set_client _ _ _) in *.
  assert (mem_of w' me = m') as Hm' by (rewrite Hmem; apply mem_of_set_mem_eq, (si_proc _ _ Hi); eauto).
  rewrite <-Hgeom in Hin, Hr'.
  eapply (region_visible w' me r' _ key way (mk_page _ seq _)); [..|done|].
  - unfold shape. rewrite Hslots, bool_decide_eq_true_2 by done. done.
  - by rewrite Hm'.
  - done.
  - by rewrite lookup_insert_eq.
  - rewrite Hgeom. eapply choice_first; [|by right].
    eapply one_copy_holds; [done| |done]. unfold shape. by rewrite Es.
Qed.
(** In a bucket of zeros (what a writer assumes when its read failed) the first
    way is chosen. *)
Lemma pick_zeroes n g key : 0 < ways g → (pick_way_from_bucket (replicate n 0) g key).1 = 0.
Proof.
  intros Hw. unfold pick_way_from_bucket. rewrite seqZ_cons by done. cbn [foldl].
  assert (∀ s way, (pick_scan_step (replicate n 0) g (key_hash128 key) s way).(ws_chosen) = ws_chosen s ∧
    (pick_scan_step (replicate n 0) g (key_hash128 key) s way).(ws_empty) = Some (default way (ws_empty s))) as Hstep.
  { intros s way. unfold pick_scan_step, slice. rewrite drop_replicate, take_replicate.
    set (k := Nat.min _ _). destruct (decide (hdr_size ≤ k)%nat) as [Hk|Hk].
    - rewrite decode_zeroes by done. destruct (scan_oldest s way 0). simpl. by destruct (ws_empty s).
    - unfold decode_header. rewrite decide_True by (rewrite length_replicate; lia).
      destruct (scan_oldest s way 0). simpl. by destruct (ws_empty s). }
  set (s0 := pick_scan_step _ _ _ _ _). destruct (Hstep (mk_scan None 0 None None) 0) as [H1 H2]. fold s0 in H1, H2.
  simpl in H1, H2. revert H1 H2. generalize s0. clear s0. generalize (seqZ (Z.succ 0) (Z.pred (ways g))). intros ws.
  induction ws as [|way ws IH]; intros s H1 H2; cbn [foldl].
  - rewrite H1, H2. by destruct (_ =? 0).
  - apply IH; destruct (Hstep s way) as [H3 H4]; [congruence|by rewrite H4, H2].
Qed.

(** The way chosen from what the bucket read brought. *)
Lemma remote_choice h w me r c r0 m buf ok :
  slot_inv h w → rem_ok w me r → (ok = true → owner_view w m r buf) →
  sr_base r0 = ly_base (rm_lay r) → sr_geom r0 = ly_geom (rm_lay r) → region_rep r0 (mem_of w (rm_owner r)) c →
  let '(way, _) := pick_way_from_bucket (snapshot_of m r buf ok) (ly_geom (rm_lay r)) (rm_key r) in
  let b := bucket_index (sr_geom r0) (rm_key r) in
  way = 0 ∨ way_choice c b (key_hash128 (rm_key r)) (page_seq c b) (seqZ 0 (ways (sr_geom r0))) way.
Proof.
  intros Hi Hr Hv Hb Hg Hrep. pose proof (rem_ok_geom _ _ _ _ Hi Hr) as (_ & _ & Hways & _).
  unfold snapshot_of. destruct ok.
  - rewrite (Hv eq_refl). destruct (pick_way_from_bucket_rep r0 _ c (rm_key r) Hrep) as (way & seq & Hp & _ & Hwc & _).
    unfold bucket_view in Hp. rewrite Hb, Hg in Hp. rewrite Hp. right. exact Hwc.
  - pose proof (pick_zeroes (Z.to_nat (bucket_stride (ly_geom (rm_lay r)))) (ly_geom (rm_lay r)) (rm_key r) Hways) as H.
    destruct (pick_way_from_bucket _ _ _) as [way seq]. by left.
Qed.
(** An acknowledged WRITE of header and payload at the chosen way. *)
Lemma write_slot_visible h w me r r0 c op a way seq hdr data f' :
  slot_inv h w → is_Some (w_clients w !! me) → rem_ok w me r →
  sr_base r0 = ly_base (rm_lay r) → sr_geom r0 = ly_geom (rm_lay r) → region_rep r0 (mem_of w (rm_owner r)) c →
  let b := bucket_index (sr_geom r0) (rm_key r) in
  0 ≤ way < ways (sr_geom r0) → Z.land seq 1 = 0 → rm_len r ≤ max_payload (sr_geom r0) →
  encode_header (rm_key r) (rm_len r) seq = Some hdr → zlength data = rm_len r →
  (∀ way', 0 ≤ way' < way → ¬ holds (<[(b, way) := mk_page (key_hash128 (rm_key r)) seq data]> c) b
                                 (key_hash128 (rm_key r)) way') →
  f_host (w_fab w) (ro_endpoint op) = Some (rm_owner r) →
  ro_remote op = sr_base r0 + slot_offset (sr_geom r0) b way →
  mem_read (mem_of w me) (ro_local op) (ro_length op) = hdr ++ data →
  write_one (w_fab w) me op a = (true, f') → visible (set_fab w f') (rm_owner r) (rm_key r) data.
Proof.
  intros Hi Hc [Hne [Hsh _]] Hb0 Hg0 Hrep b Hway Hseq Hlen Henc Hd Hfirst Hhost Hrm Hrd Hw.
  destruct (si_proc _ _ Hi me Hc) as [p0 Hp0]. rewrite (write_one_spec _ _ _ _ _ Hp0) in Hw.
  unfold target, remote_process in Hw. rewrite Hhost in Hw. simpl in Hw.
  destruct (f_procs (w_fab w) !! rm_owner r) as [p|] eqn:Ep; [|done]. simpl in Hw.
  destruct (_ && _); [|done]. injection Hw as Ha Hf. apply bool_decide_eq_true in Ha as ->. simpl in Hf.
  assert (pr_mem p0 = mem_of w me) as Hm0 by (unfold mem_of; by rewrite Hp0).
  assert (pr_mem p = mem_of w (rm_owner r)) as Hpm by (unfold mem_of; by rewrite Ep).
  rewrite Hm0, Hrd, Hpm, Hrm in Hf. subst f'. set (m' := mem_write _ _ _).
  assert (set_fab w (set_proc (w_fab w) (rm_owner r) (mk_proc m' (pr_regions p))) = set_mem_of w (rm_owner r) m') as ->
    by (unfold set_mem_of; by rewrite Ep).
  assert (geom_ok (sr_geom r0)) as Hgo by apply (rr_geom _ _ _ Hrep).
  assert (slot_in_range (sr_geom r0) b way) as Hin by (split; [by apply bucket_index_range|done]).
  destruct (store_slot_rep r0 (mem_of w (rm_owner r)) c b way (rm_key r) (rm_len r) seq hdr data) as [Hr' _]; [done..|].
  eapply (region_visible _ _ r0 _ (rm_key r) way (mk_page _ seq data)); [..|done|exact Hfirst].
  - rewrite (sn_shape _ _ (set_mem_of_net w (rm_owner r) m')). by rewrite Hb0, Hg0.
  - rewrite mem_of_set_mem_eq by eauto. exact Hr'.
  - done.
  - by rewrite lookup_insert_eq.
Qed.

(** Header and payload packed at [buf] of the scratch buffer, then written at
    the chosen way and acknowledged. *)
Lemma packed_slot_visible h w me r r0 c buf src op a way seq hdr f' :
  slot_inv h w → is_Some (w_clients w !! me) → rem_ok w me r →
  sr_base r0 = ly_base (rm_lay r) → sr_geom r0 = ly_geom (rm_lay r) → region_rep r0 (mem_of w (rm_owner r)) c →
  let b := bucket_index (sr_geom r0) (rm_key r) in
  0 ≤ way < ways (sr_geom r0) → Z.land seq 1 = 0 → rm_len r ≤ max_payload (sr_geom r0) →
  encode_header (rm_key r) (rm_len r) seq = Some hdr → scratch_of w me ≤ buf → src + rm_len r ≤ scratch_of w me →
  (∀ page way', 0 ≤ way' < way → ¬ holds (<[(b, way) := page]> c) b (key_hash128 (rm_key r)) way') →
  let w2 := set_mem_of w me (_pack_slot (mem_of w me) buf hdr src (rm_len r)) in
  f_host (w_fab w) (ro_endpoint op) = Some (rm_owner r) →
  ro_remote op = sr_base r0 + slot_offset (sr_geom r0) b way → ro_local op = buf →
  ro_length op = HEADER_SIZE + rm_len r →
  write_one (w_fab w2) me op a = (true, f') →
  visible (set_fab w2 f') (rm_owner r) (rm_key r) (mem_read (mem_of w me) src (rm_len r)).
Proof.
  intros Hi Hc Hr Hb0 Hg0 Hrep b Hway Hseq Hmax Henc Hbuf Hsrc Hfirst w2 Hhost Hrm Hlo Hln Hw.
  pose proof (encode_header_range _ _ _ _ Henc) as [Hlen _].
  assert (zlength hdr = HEADER_SIZE) as Hzl.
  { pose proof Henc as Hl. apply encode_header_spec in Hl as [Hl _]. unfold zlength. by rewrite Hl. }
  destruct (pack_slot_spec (mem_of w me) buf hdr src (rm_len r) Hzl ltac:(lia) ltac:(lia)) as [Hrd Hlow].
  assert (keeps h me w w2) as (Hi2 & Hs & _) by (apply scratch_keeps; [done|]; intros x Hx; apply Hlow; lia).
  eapply (write_slot_visible h w2 me r r0 c op a way seq hdr); [..|exact Hw]; try done.
  - by rewrite (sn_client _ _ Hs).
  - by rewrite (rem_ok_net _ _ _ _ Hs).
  - unfold w2. rewrite mem_of_set_mem_ne by (by destruct Hr). done.
  - apply zlength_mem_read. lia.
  - intros way' Hw'. by apply Hfirst.
  - by rewrite (sn_host _ _ Hs).
  - rewrite Hlo, Hln. unfold w2. rewrite mem_of_set_mem_eq by (by apply (si_proc _ _ Hi)). exact Hrd.
Qed.

(** One remote key: read, choose, pack, write. *)
Lemma publish_remote_visible h w me r ptrs src n link_r link_w w' :
  slot_inv h w → is_Some (w_clients w !! me) → pub_ok h w me ptrs r → rm_idx r = 0%nat → ptrs !! 0%nat = Some src →
  one_copy w (rm_owner r) (rm_key r) →
  _publish_slotmap_remote w me [r] ptrs [false] link_r link_w = (Ret ([true], n), w') →
  visible w' (rm_owner r) (rm_key r) (mem_read (mem_of w me) src (rm_len r)).
Proof.
  intros Hi Hc Hpub Hidx Hsrc Hone. destruct Hpub as (Hrok & Hmax & src' & Hsrc' & Hbuf & _).
  rewrite Hidx, Hsrc in Hsrc'. injection Hsrc' as <-.
  unfold _publish_slotmap_remote.
  destruct (read_buckets w me [r] link_r) as [[bufs rd_ok] w1] eqn:Erd.
  destruct (read_buckets_spec h w me [r] link_r bufs rd_ok w1 Hi Hc ltac:(by apply Forall_singleton) Erd)
    as (-> & Hoks & m1 & Hw1 & Hm1 & Hlow1 & _ & Hview & _).
  destruct rd_ok as [|ok [|]]; [done| |done].
  assert (ok = true → owner_view w m1 r (scratch_of w me)) as Hv by (intros ->; by apply (Hview 0%nat)).
  clear Hview Hoks Erd. rewrite Hm1. cbn [fmap list_fmap place_from zip zip_with]. rewrite Hidx, Hsrc. cbn [default].
  set (buf := scratch_of w1 me + _). cbn [pack_writes]. cbv zeta.
  change (claimed_view _ _ (default [] (od_get [] _))) with (snapshot_of m1 r (scratch_of w me) ok).
  pose proof (scratch_keeps h w me m1 Hi Hlow1) as Hk1. rewrite <-Hw1 in Hk1.
  destruct Hrok as [Hne [Hsh Hrails]]. destruct (shape_region _ _ _ _ _ Hi Hsh) as (r0 & c & Hb0 & Hg0 & Hrep & _ & Hgo).
  assert (rem_ok w me r) as Hrok by done.
  pose proof (remote_choice h w me r c r0 m1 _ ok Hi Hrok Hv Hb0 Hg0 Hrep) as Hchoice.
  pose proof (pick_way_from_bucket_any (snapshot_of m1 r (scratch_of w me) ok) _ (rm_key r) (proj1 (proj2 (proj2 Hgo)))) as Hany.
  destruct (pick_way_from_bucket _ _ _) as [way seq]. destruct Hany as [Hway Hseq].
  destruct (encode_header (rm_key r) (rm_len r) seq) as [hdr|] eqn:Ee; [|done].
  set (m2 := _pack_slot m1 buf hdr (id src) (rm_len r)). set (op := mk_multiop _ _ _ _). set (w2 := set_mem_of w1 me m2).
  pose proof (rail_maps_host w [rm_lay r] (rm_owner r) (rm_lay r) 0 (n_rails_of w2 me)) as Hhost.
  destruct (rail_maps [rm_lay r]) as [eps ks]. unfold batch_write_multi, batch_write, stripe.
  cbn [fmap list_fmap imap snd batch_write_from]. set (rop := mk_readop _ _ _ _ _).
  destruct (write_one (w_fab w2) me rop (link_w 0%nat)) as [okw f'] eqn:Ew. cbn [zip zip_with].
  destruct okw; [|done]. intros [= _ <-].
  destruct Hk1 as (Hi1 & Hs1 & Hq1). rewrite <-(quiet_read me w w1 _ _ Hq1 Hbuf), <-H0.
  unfold w2, m2, id. unfold w2, m2, id in Ew. rewrite <-Hm1 in Ew |- *.
  eapply (packed_slot_visible h w1 me r r0 c buf src rop (link_w 0%nat) way seq hdr); [..|exact Ew]; try done.
  - by rewrite (sn_client _ _ Hs1).
  - by rewrite (rem_ok_net _ _ _ _ Hs1).
  - rewrite Hw1, mem_of_set_mem_ne by done. exact Hrep.
  - by rewrite Hg0.
  - by rewrite Hg0.
  - unfold buf. destruct (geom_stride _ Hgo) as [_ Hst]. simpl. lia.
  - rewrite (same_net_scratch _ _ _ Hs1). apply Hbuf.
  - intros page. eapply choice_first; [|exact Hchoice]. eapply one_copy_holds; [exact Hone| |exact Hrep]. by rewrite Hb0, Hg0.
  - rewrite (sn_host _ _ Hs1). apply Hhost; [|by left|done|done].
    intros l ->%list_elem_of_singleton. by exists (rm_owner r).
  - by rewrite Hb0, Hg0.
Qed.
Lemma meter_visible h w me f o key data :
  slot_inv h w → visible w o key data → visible (meter w me f) o key data.
Proof.
  intros Hi. destruct (meter_keeps h w me f Hi) as [(_ & Hs & _) Hm]. apply visible_same; [apply Hs|apply Hm].
Qed.

(** A publish of one page that reports success. *)
Lemma publish_one_visible h w me key src len seconds link_r link_w o w' :
  slot_inv h w → is_Some (w_clients w !! me) → buffer_ok w me src len →
  owner_of w me key = Some o → one_copy w o key →
  _publish_slotmap w me [key] [src] [len] seconds link_r link_w = (Ret [true], w') →
  visible w' o key (mem_read (mem_of w me) src len).
Proof.
  intros Hi Hc Hb Ho Hone. unfold _publish_slotmap. cbn [zip zip_with length replicate publish_local]. rewrite Ho.
  set (h' := h ++ [(key, mem_read (mem_of w me) src len)]).
  assert (slot_inv h' w) as Hi' by (eapply slot_inv_mono; [|exact Hi]; intros x Hx; apply elem_of_app; by left).
  assert ((key, mem_read (mem_of w me) src len) ∈ h') as Hh by (apply elem_of_app; right; by left).
  destruct (String.eqb o me) eqn:Eo.
  - apply String.eqb_eq in Eo as ->. destruct (own_write w me key src len) as [[[off|]|e] w1] eqn:Ew; [|done..].
    cbn [_publish_slotmap_remote]. intros [= <-].
    destruct (own_write_keeps h' w me key src len _ _ Hi' Hc Hb Hh Ew) as (Hi1 & _).
    eapply meter_visible; [exact Hi1|]. by eapply own_write_visible.
  - apply String.eqb_neq in Eo. destruct (_peer_layout w me o) as [[[lay|]|e] w1] eqn:Ep; [|done..].
    destruct (peer_layout_spec h' w me o _ _ Hi' Ep) as (Hk1 & Hm1 & Hlay).
    destruct (len >? max_payload (ly_geom lay)) eqn:Egt; [done|]. bool_cases. cbn [app].
    destruct (_publish_slotmap_remote w1 me _ _ _ _ _) as [[[res n]|e] w2] eqn:Er; [|done]. intros [= -> <-].
    set (r := mk_rem 0 key o len lay) in *.
    assert (pub_ok h' w1 me [src] r) as Hpub.
    { eapply pub_ok_keeps; [exact Hk1|]. split; [split; [done|by apply Hlay]|]. split; [done|]. by exists src. }
    assert (is_Some (w_clients w1 !! me)) as Hc1 by by eapply keeps_client.
    destruct (publish_remote_keeps h' w1 me [r] [src] [false] link_r link_w (Ret ([true], n)) w2 (proj1 Hk1) Hc1)
      as (Hi2 & _); [by apply Forall_singleton|done|].
    eapply meter_visible; [exact Hi2|]. rewrite <-(Hm1 me).
    eapply (publish_remote_visible h' w1 me r [src]); [apply Hk1|done|exact Hpub|done|done| |exact Er].
    destruct Hk1 as (_ & Hs1 & _). intros way way' Hw Hw'. apply Hone; [destruct Hw as (b & g & H)|destruct Hw' as (b & g & H)];
      exists b, g; by rewrite (sn_shape _ _ Hs1), Hm1 in H.
Qed.
(** ** Fetching *)

Lemma seqZ_split n k : 0 ≤ k < n → seqZ 0 n = seqZ 0 k ++ k :: seqZ (Z.succ k) (Z.pred (n - k)).
Proof.
  intros Hk. replace n with (k + (n - k)) at 1 by lia. rewrite seqZ_app by lia. f_equal. by rewrite Z.add_0_l, seqZ_cons by lia.
Qed.

Lemma scan_ways_first m buf g P ws1 way ws2 :
  let view w := slice (mem_read m buf (bucket_stride g)) (w * slot_stride g) (w * slot_stride g + HEADER_SIZE) in
  (∀ w, w ∈ ws1 → P (view w) = false) → P (view way) = true →
  scan_ways m buf g P (ws1 ++ way :: ws2) = Some (way * slot_stride g).
Proof.
  intros view H1 H2. induction ws1 as [|w ws1 IH]; cbn [app scan_ways].
  - unfold view in H2. by rewrite H2.
  - pose proof (H1 w ltac:(by left)) as Hw. unfold view in Hw. rewrite Hw. apply IH. intros w' Hw'. apply H1. by right.
Qed.

Lemma read_local_first r m key b dst n ws1 way ws2 :
  let hdr w := mem_read m (sr_base r + slot_offset (sr_geom r) b w) HEADER_SIZE in
  (∀ w, w ∈ ws1 → slot_matches (hdr w) key n = false) → slot_matches (hdr way) key n = true →
  read_local_loop r m key b dst n (ws1 ++ way :: ws2) =
    (true, memmove m dst (sr_base r + slot_offset (sr_geom r) b way + HEADER_SIZE) n).
Proof.
  intros hdr H1 H2. induction ws1 as [|w ws1 IH]; cbn [app read_local_loop].
  - unfold hdr in H2. by rewrite H2.
  - pose proof (H1 w ltac:(by left)) as Hw. unfold hdr in Hw. rewrite Hw. apply IH. intros w' Hw'. apply H1. by right.
Qed.

(** The owner reads its own region. *)
Lemma own_read_visible w me key data dst :
  visible w me key data → is_Some (f_procs (w_fab w) !! me) →
  ∃ w', own_read w me key dst (zlength data) = (true, w') ∧ mem_read (mem_of w' me) dst (zlength data) = data.
Proof.
  intros (b & g & way & Hs & Hway & Hm & Hd & Hno) Hp. unfold shape in Hs. unfold own_read.
  destruct (slot_of w me) as [[r ks]|]; [|done]. injection Hs as <- <-. unfold read_local.
  rewrite (seqZ_split _ way Hway).
  rewrite read_local_first; [|intros w' [? ?]%elem_of_seqZ; apply Hno; lia|exact Hm].
  eexists. split; [reflexivity|]. rewrite mem_of_set_mem_eq by done.
  rewrite mem_read_memmove_same by (unfold zlength; lia). exact Hd.
Qed.

(** A bucket that was read from its owner, and a slot of it. *)
Lemma owner_view_slice w m r buf way i n :
  geom_ok (ly_geom (rm_lay r)) → owner_view w m r buf → 0 ≤ way < ways (ly_geom (rm_lay r)) →
  0 ≤ i → 0 ≤ n → i + n ≤ slot_stride (ly_geom (rm_lay r)) →
  mem_read m (buf + way * slot_stride (ly_geom (rm_lay r)) + i) n =
    mem_read (mem_of w (rm_owner r)) (way_addr (ly_base (rm_lay r)) (ly_geom (rm_lay r)) (rm_key r) way + i) n.
Proof.
  intros Hg Hv Hway Hi Hn Hin. unfold owner_view in Hv. cbv zeta in Hv. set (g := ly_geom (rm_lay r)) in *.
  destruct Hg as (_ & _ & _ & _ & Hbs). assert (way * slot_stride g + i + n ≤ bucket_stride g) as Hle by (rewrite Hbs; nia).
  pose proof (f_equal (λ l, slice l (way * slot_stride g + i) (way * slot_stride g + i + n)) Hv) as He. cbv beta in He.
  rewrite !slice_mem_read in He by nia. unfold way_addr, slot_offset.
  replace (way * slot_stride g + i + n - (way * slot_stride g + i)) with n in He by lia.
  replace (buf + way * slot_stride g + i) with (buf + (way * slot_stride g + i)) by lia. rewrite He. f_equal. lia.
Qed.

Lemma owner_view_scan w m r buf (data : list Z) b g way :
  geom_ok (ly_geom (rm_lay r)) → owner_view w m r buf → b = ly_base (rm_lay r) → g = ly_geom (rm_lay r) →
  0 ≤ way < ways g → rm_len r = zlength data →
  slot_matches (way_header (mem_of w (rm_owner r)) b g (rm_key r) way) (rm_key r) (zlength data) = true →
  (∀ way', 0 ≤ way' < way →
    slot_matches (way_header (mem_of w (rm_owner r)) b g (rm_key r) way') (rm_key r) (zlength data) = false) →
  scan_ways m buf g (λ hdr, slot_matches hdr (rm_key r) (rm_len r)) (seqZ 0 (ways g)) = Some (way * slot_stride g).
Proof.
  intros Hg Hv -> -> Hway Hlen Hm Hno. rewrite (seqZ_split _ way Hway). set (g := ly_geom (rm_lay r)) in *.
  assert (∀ w', 0 ≤ w' < ways g → slice (mem_read m buf (bucket_stride g)) (w' * slot_stride g) (w' * slot_stride g + HEADER_SIZE)
    = way_header (mem_of w (rm_owner r)) (ly_base (rm_lay r)) g (rm_key r) w') as Hs.
  { intros w' Hw'. pose proof Hg as (H1 & _ & _ & H2 & H3). unfold HEADER_SIZE in *.
    rewrite slice_mem_read by (rewrite ?H3; nia).
    pose proof (owner_view_slice w m r buf w' 0 64 Hg Hv Hw' ltac:(lia) ltac:(lia)) as He. fold g in He.
    rewrite !Z.add_0_r in He. unfold way_header, HEADER_SIZE. rewrite <-He by lia. f_equal; lia. }
  apply scan_ways_first; rewrite ?Hlen.
  - intros w' [? ?]%elem_of_seqZ. rewrite Hs by lia. apply Hno. lia.
  - by rewrite Hs.
Qed.
Lemma visible_fits h w o key data b g :
  slot_inv h w → visible w o key data → shape w o = Some (b, g) → zlength data ≤ max_payload g.
Proof.
  intros Hi (b' & g' & way & Hs & Hway & Hm & _) Hs'. rewrite Hs in Hs'. injection Hs' as -> ->.
  destruct (shape_region _ _ _ _ _ Hi Hs) as (r & c & Hb & Hg' & Hr & _ & Hg). subst b g.
  assert (slot_in_range (sr_geom r) (bucket_index (sr_geom r) key) way) as Hin by (split; [by apply bucket_index_range|done]).
  destruct (proj1 (slot_matches_rep r _ c _ _ key (zlength data) Hr Hin) Hm) as (pg & Hc & _ & <-).
  pose proof (rr_slots _ _ _ Hr _ _ Hin) as Hsl. rewrite Hc in Hsl. apply Hsl.
Qed.

Lemma fetch_own_hit h w me key data dst seconds link :
  slot_inv h w → is_Some (w_clients w !! me) → buffer_ok w me dst (zlength data) →
  owner_of w me key = Some me → visible w me key data →
  ∃ w', _fetch_slotmap w me [key] [dst] [zlength data] seconds link = (Ret [true], w') ∧
    mem_read (mem_of w' me) dst (zlength data) = data.
Proof.
  intros Hi Hc Hb Ho Hv. unfold _fetch_slotmap. cbn [zip zip_with length replicate fetch_local].
  rewrite Ho, String.eqb_refl.
  destruct (own_read_visible w me key data dst Hv (si_proc _ _ Hi me Hc)) as (w1 & Hr & Hd).
  destruct (own_read_spec h w me key dst _ _ _ Hi Hc Hb Hr) as (Hi1 & Hs1 & _).
  rewrite Hr. cbn [list_insert insert].
  destruct (read_buckets w1 me [] link) as [[bufs oks] w2] eqn:Erd.
  destruct (read_buckets_spec h w1 me [] link bufs oks w2 Hi1) as (-> & Hoks & m & Hw2 & Hm2 & Hlow & _);
    [by rewrite (sn_client _ _ Hs1)|done|done|].
  cbn [fmap list_fmap place_from zip zip_with accept_hits]. eexists. split; [reflexivity|].
  rewrite meter_mem, mem_of_set_mem_eq, Hm2.
  2:{ apply (sn_proc w1); [rewrite Hw2; apply set_mem_of_net|]. apply (si_proc _ _ Hi1). by rewrite (sn_client _ _ Hs1). }
  rewrite <-Hd at 2. apply mem_read_ext. intros x Hx. apply Hlow. rewrite (same_net_scratch _ _ _ Hs1).
  destruct Hb as [Hb _]. lia.
Qed.

Lemma fetch_remote_hit h w me o key data dst seconds link lay w1 :
  slot_inv h w → is_Some (w_clients w !! me) → owner_of w me key = Some o → o ≠ me → visible w o key data →
  _peer_layout w me o = (Ret (Some lay), w1) → link 0%nat = AReply →
  ∃ w', _fetch_slotmap w me [key] [dst] [zlength data] seconds link = (Ret [true], w') ∧
    mem_read (mem_of w' me) dst (zlength data) = data.
Proof.
  intros Hi Hc Ho Hne Hv Hp Hl. unfold _fetch_slotmap. cbn [zip zip_with length replicate fetch_local].
  rewrite Ho, (proj2 (String.eqb_neq o me) Hne), Hp.
  destruct (peer_layout_spec h w me o _ _ Hi Hp) as ((Hi1 & Hs1 & _) & Hm1 & Hlay). specialize (Hlay lay eq_refl).
  rewrite <-(same_net_layout _ _ _ _ Hs1) in Hlay. apply (visible_same w w1) in Hv; [|apply Hs1|apply Hm1].
  pose proof (visible_fits h w1 o key data _ _ Hi1 Hv (proj1 Hlay)) as Hfit.
  rewrite Z.gtb_ltb, (proj2 (Z.ltb_ge _ _) Hfit). cbn [app]. set (r := mk_rem 0 key o (zlength data) lay).
  assert (Forall (rem_ok w1 me) [r]) as Hrok by (apply Forall_singleton; by split).
  destruct (read_buckets w1 me [r] link) as [[bufs oks] w2] eqn:Erd.
  destruct (read_buckets_spec h w1 me [r] link bufs oks w2 Hi1) as (-> & Hoks & m & Hw2 & Hm2 & _ & _ & Hview & Hread);
    [by rewrite (sn_client _ _ Hs1)|done|done|].
  specialize (Hread 0%nat r eq_refl Hl). destruct oks as [|ok [|]]; [done| |done]. injection Hread as ->.
  specialize (Hview 0%nat r (scratch_of w1 me) eq_refl eq_refl eq_refl).
  pose proof (rem_ok_geom _ _ _ _ Hi1 (Forall_inv Hrok)) as Hg.
  destruct Hv as (b & g & way & Hsh & Hway & Hmt & Hd & Hno).
  destruct Hlay as [Hsh' _]. rewrite Hsh in Hsh'. injection Hsh' as -> ->.
  cbn [fmap list_fmap place_from zip zip_with accept_hits]. rewrite Hm2. cbv zeta.
  rewrite (owner_view_scan w1 m r _ data _ _ way Hg Hview eq_refl eq_refl Hway eq_refl Hmt Hno).
  eexists. split; [reflexivity|]. rewrite meter_mem, mem_of_set_mem_eq.
  2:{ apply (sn_proc w1); [rewrite Hw2; apply set_mem_of_net|]. apply (si_proc _ _ Hi1). by rewrite (sn_client _ _ Hs1). }
  change (default 0 ([dst] !! rm_idx r)) with dst. change (rm_len r) with (zlength data).
  destruct Hg as (Hg1 & Hg2 & Hg3 & Hg4 & Hg5).
  rewrite mem_read_memmove_same by (unfold zlength; lia). rewrite <-Hd at 2.
  apply (owner_view_slice w1 m r); [done|done|done|done|unfold zlength; lia|]. change (rm_lay r) with lay in *. lia.
Qed.

(** A node that can reach the owner fetches a visible page. *)
Lemma fetch_visible h w me o key data dst seconds link :
  slot_inv h w → is_Some (w_clients w !! me) → buffer_ok w me dst (zlength data) →
  owner_of w me key = Some o → visible w o key data →
  o = me ∨ (∃ lay w1, _peer_layout w me o = (Ret (Some lay), w1)) ∧ link 0%nat = AReply →
  ∃ w', _fetch_slotmap w me [key] [dst] [zlength data] seconds link = (Ret [true], w') ∧
    mem_read (mem_of w' me) dst (zlength data) = data.
Proof.
  intros Hi Hc Hb Ho Hv Hr. destruct (decide (o = me)) as [->|Hne]; [by eapply fetch_own_hit|].
  destruct Hr as [->|[(lay & w1 & Hp) Hl]]; [done|]. by eapply fetch_remote_hit.
Qed.

(** ** Properties *)

(** C3: an acknowledged slot-map write is visible, while its bucket holds one
    copy.  In any reachable state in which the owner's bucket holds at most one
    copy of the key ([one_copy]), when the publish of one page in a call of its
    own reports success, every node that routes the key to the same owner and
    whose layout request and bucket read get through fetches exactly the
    published bytes; the owner itself needs no network.  The condition cannot be
    dropped: a publish whose bucket read failed can leave a second copy, after
    which an acknowledged write stays invisible ([two_copies_hide_write]). *)
Theorem slotmap_write_visible (w0 w w1 : world) (h : list (string * list Z)) (me reader o key : string)
  (src dst len sec sec' : Z) (link_r link_w link : nat → attempt)
  (Hinit : fresh_cluster w0) (Hreach : rtc slot_step ([], w0) (h, w))
  (Hme : is_Some (w_clients w !! me)) (Hlen : 0 ≤ len) (Hsrc : buffer_ok w me src len)
  (Howner : owner_of w me key = Some o) (Hone : one_copy w o key)
  (Hpub : _publish_slotmap w me [key] [src] [len] sec link_r link_w = (Ret [true], w1))
  (Hreader : is_Some (w_clients w1 !! reader)) (Hdst : buffer_ok w1 reader dst len)
  (Hroute : owner_of w1 reader key = Some o)
  (Hpeer : o = reader ∨ (∃ lay w2, _peer_layout w1 reader o = (Ret (Some lay), w2)) ∧ link 0%nat = AReply) :
  ∃ w2, _fetch_slotmap w1 reader [key] [dst] [len] sec' link = (Ret [true], w2) ∧
    mem_read (mem_of w2 reader) dst len = mem_read (mem_of w me) src len.
Proof.
  pose proof (slot_reachable_inv _ _ Hreach (fresh_cluster_inv _ Hinit)) as Hi. simpl in Hi.
  pose proof (publish_one_visible h w me key src len sec link_r link_w o w1 Hi Hme Hsrc Howner Hone Hpub) as Hv.
  assert (zlength (mem_read (mem_of w me) src len) = len) as Hl.
  { by apply zlength_mem_read. }
  destruct (publish_keeps h w me [key] [src] [len] sec link_r link_w (Ret [true]) w1 Hi Hme) as (Hi1 & _); [|exact Hpub|].
  { intros [|i] p n; simpl; [by intros [= <-] [= <-]|done]. }
  rewrite <-Hl in Hdst.
  destruct (fetch_visible _ w1 reader o key _ dst sec' link Hi1 Hreader Hdst Hroute Hv Hpeer) as (w2 & Hf & Hd).
  exists w2. rewrite Hl in Hf, Hd. done.
Qed.
End visible.

(** ** Examples *)

Module SlotVisibleExamples.
Import ExampleHash RingExamples RuntimeExamples SlotClusterExamples.

(** [a] publishes to [b] although its bucket read fails, and [a] reads it back. *)
Definition acked : pyres (list bool) * world :=
  _publish_slotmap w2 "a" ["k2"] [16] [2] 0 (λ _, ANoConnect) (λ _, AReply).

Lemma acked_eq : _publish_slotmap w2 "a" ["k2"] [16] [2] 0 (λ _, ANoConnect) (λ _, AReply) = (Ret [true], acked.2).
Proof.
  assert (acked.1 = Ret [true]) as H by (vm_compute; reflexivity). rewrite <-H. unfold acked.
  by destruct (_publish_slotmap w2 "a" _ _ _ _ _ _).
Qed.

Lemma w2_one_copy : one_copy w2 "b" "k2".
Proof.
  assert (shape w2 "b" = Some (1024, new_geometry 2 1 1)) as Hs by (vm_compute; reflexivity).
  intros way way' (b & g & H1 & H2 & _) (b' & g' & H1' & H2' & _). rewrite Hs in H1, H1'.
  injection H1 as <- <-. injection H1' as <- <-. change (ways (new_geometry 2 1 1)) with 1 in *. lia.
Qed.

Lemma acked_target : buffer_ok acked.2 "a" 20 2.
Proof.
  assert (shape acked.2 "a" = Some (1024, new_geometry 2 1 1)) as Hs by (vm_compute; reflexivity).
  assert (scratch_of acked.2 "a" = 4096) as Hsc by (vm_compute; reflexivity).
  split; [rewrite Hsc; lia|]. intros b g. rewrite Hs. intros [= <- <-]. right. lia.
Qed.

Lemma acked_layout : ∃ lay w, _peer_layout acked.2 "a" "b" = (Ret (Some lay), w).
Proof.
  assert (∃ lay, (_peer_layout acked.2 "a" "b").1 = Ret (Some lay)) as [lay H] by (eexists; vm_compute; reflexivity).
  exists lay, (_peer_layout acked.2 "a" "b").2. rewrite <-H. by destruct (_peer_layout acked.2 "a" "b").
Qed.

Lemma slotmap_write_visible_witness :
  ∃ w', _fetch_slotmap acked.2 "a" ["k2"] [20] [2] 0 (λ _, AReply) = (Ret [true], w') ∧
    mem_read (mem_of w' "a") 20 2 = mem_read (mem_of w2 "a") 16 2.
Proof.
  refine (slotmap_write_visible w0 w2 acked.2 [] "a" "a" "b" "k2" 16 20 2 0 0 (λ _, ANoConnect) (λ _, AReply)
    (λ _, AReply) w0_fresh reach_w2 _ _ w2_source _ w2_one_copy acked_eq _ acked_target _ _).
  - vm_compute. eexists. reflexivity.
  - discriminate.
  - vm_compute. reflexivity.
  - vm_compute. eexists. reflexivity.
  - vm_compute. reflexivity.
  - right. split; [exact acked_layout|reflexivity].
Defined.

(** Two ways per bucket. *)
Definition cfg2 : PeerCacheConfig :=
  mk_config [("mode", VStr "slotmap"); ("slot_max_page_bytes", VInt 2); ("slot_ways", VInt 2);
             ("slot_num_buckets", VInt 1); ("global_segment_size", VInt 4096)] [].
Definition client2 : client := mk_client cfg2 (new_naming "" true 0 0 1) 0 ∅ ∅ 5 4096 true true None ∅.
Definition v0 : world :=
  mk_world (w_tiers w0) {[ "a" := client2; "b" := client2 ]} (w_dir w0) (w_fab w0) Some Some (λ _, (AReply, AReply)).
Definition v1 : world := _ensure_slot_region (_ensure_slot_region v0 "a" 1 1024) "b" 1 1024.

(** [a] publishes two bytes under a key. *)
Definition put_page (w : world) (key : string) (bytes : list Z) (read : attempt) : pyres (list bool) * world :=
  _publish_slotmap (set_mem_of w "a" (mem_write (mem_of w "a") 16 bytes)) "a" [key] [16] [2] 0 (λ _, read) (λ _, AReply).

(** Another key takes the first way and [k2] the second; a rewrite of [k2]
    whose bucket read fails takes the first way; the last rewrite reads the
    bucket and is acknowledged. *)
Definition v5 : world := (put_page (put_page (put_page v1 "k1" [1; 1] AReply).2 "k2" [2; 2] AReply).2 "k2" [3; 3] ANoConnect).2.
Definition last_write : pyres (list bool) * world := put_page v5 "k2" [4; 4] AReply.
Definition last_read : pyres (list bool) * world :=
  _fetch_slotmap last_write.2 "a" ["k2"] [20] [2] 0 (λ _, AReply).

(** With two copies of a key in its bucket an acknowledged overwrite stays
    invisible: the remote writer refreshes the last copy, readers take the
    first. *)
Theorem two_copies_hide_write :
  last_write.1 = Ret [true] ∧ last_read.1 = Ret [true] ∧ mem_read (mem_of last_read.2 "a") 20 2 = [3; 3].
Proof. vm_compute. auto. Qed.
End SlotVisibleExamples.
