(* ===== verification/SlotRace.v ===== *)
(** * Reads and writes that overlap in time

    [SlotMap] runs [write_local] and [read_local] as one step each.  Here
    the same code runs as threads: a local writer takes the region's lock for
    the way selection and again for its stores, which are the odd header, the
    payload byte after byte, and the even header; a local reader tests a
    header and then copies the payload byte after byte, with no lock and no
    second look at the header; a WRITE served for another node stores its
    bytes in order.  Headers (one aligned cache line) are stored and loaded in
    one piece.  A schedule picks which thread moves next.

    [gate_never_half_written] and [unchanged_header_read_sound] say what the
    header protocol gives; [torn_read_dirty_hit] and [served_write_dirty_hit]
    are schedules in which a read reports a hit with another key's bytes. *)
From S2P Require Import Prelude Bytes Hashlib SlotMap.

(** ** Threads *)

Inductive thread :=
  (** [write_local(key, src_ptr, length)], [data] the bytes at [src_ptr] *)
  | WPick (key : string) (data : list Z)
  (** the way is picked; [with self._lock] is next *)
  | WEnter (key : string) (data : list Z) (bucket way : Z)
  (** inside the lock, nothing stored *)
  | WMark (key : string) (data : list Z) (bucket way : Z)
  (** the odd header and [i] payload bytes are stored *)
  | WCopy (key : string) (data : list Z) (bucket way new_seq : Z) (i : nat)
  | WRet (res : pyres (option Z))
  (** [read_local(key, dst_ptr, length)]: the ways not yet tested *)
  | RScan (key : string) (length : Z) (ws : list Z)
  (** the header [hdr] of [way] matched; [acc] is what has been copied *)
  | RCopy (key : string) (length way : Z) (hdr acc : list Z)
  (** [False], or [True] with the bytes at [dst_ptr] *)
  | RRet (res : option (list Z))
  (** a served WRITE: the bytes still to store, and where *)
  | SWrite (addr : Z) (bytes : list Z).

Record rstate := mk_rstate {
  rs_mem : mem;
  rs_region : SlotRegion;
  rs_lock : option nat;
  rs_threads : list thread
}.

(** The thread is inside [with self._lock] of [write_local]. *)
Definition in_lock (t : thread) : bool :=
  match t with WMark _ _ _ _ | WCopy _ _ _ _ _ _ => true | _ => false end.

(** What remains of a WRITE that is being served. *)
Definition served (t : thread) : bool :=
  match t with SWrite _ _ => true | _ => false end.

Section race.
Context {HL : Hashlib}.
Implicit Types (m : mem) (r : SlotRegion) (lock : option nat).

(** The address of a slot. *)
Definition slot_at r (b w : Z) : Z := sr_base r + slot_offset (sr_geom r) b w.

(** One move of thread [id]; [None] when it waits for the lock or is done. *)
Definition tstep (id : nat) m r lock (t : thread) : option (mem * SlotRegion * option nat * thread) :=
  match t with
  | WPick key data =>
      if zlength data >? max_payload (sr_geom r) then Some (m, r, lock, WRet (Ret None))
      else match lock with
           | Some _ => None
           | None => let '(b, w) := pick_way r m key in Some (m, r, None, WEnter key data b w)
           end
  | WEnter key data b w =>
      match lock with
      | Some _ => None
      | None => Some (m, r, Some id, WMark key data b w)
      end
  | WMark key data b w =>
      let seq := default 0 (sr_seq r !! (b, w)) in
      let new_seq := if Z.land seq 1 =? 0 then seq + 2 else seq + 1 in
      match _mark_seq r m (slot_offset (sr_geom r) b w) (Z.lor new_seq 1) key (zlength data) with
      | None => Some (m, r, None, WRet (Raise StructError))
      | Some m' => Some (m', r, lock, WCopy key data b w new_seq 0)
      end
  | WCopy key data b w new_seq i =>
      match data !! i with
      | Some x =>
          Some (mem_write m (slot_at r b w + HEADER_SIZE + Z.of_nat i) [x], r, lock,
                WCopy key data b w new_seq (S i))
      | None =>
          let off := slot_offset (sr_geom r) b w in
          match _write_header r m off key (zlength data) new_seq with
          | None => Some (m, r, None, WRet (Raise StructError))
          | Some m' =>
              Some (m', mk_region (sr_base r) (sr_geom r) (<[(b, w) := new_seq]> (sr_seq r)),
                    None, WRet (Ret (Some off)))
          end
      end
  | RScan key n ws =>
      match ws with
      | [] => Some (m, r, lock, RRet None)
      | w :: ws' =>
          let hdr := mem_read m (slot_at r (bucket_index (sr_geom r) key) w) HEADER_SIZE in
          if slot_matches hdr key n then Some (m, r, lock, RCopy key n w hdr [])
          else Some (m, r, lock, RScan key n ws')
      end
  | RCopy key n w hdr acc =>
      if zlength acc <? n
      then let a := slot_at r (bucket_index (sr_geom r) key) w in
           Some (m, r, lock,
                 RCopy key n w hdr (acc ++ [m (a + HEADER_SIZE + zlength acc)]))
      else Some (m, r, lock, RRet (Some acc))
  | SWrite a bs =>
      match bs with
      | [] => None
      | x :: bs' => Some (mem_write m a [x], r, lock, SWrite (a + 1) bs')
      end
  | WRet _ | RRet _ => None
  end.

(** Thread [id] of the state moves; it stays put when it cannot. *)
Definition sched_step (st : rstate) (id : nat) : rstate :=
  match rs_threads st !! id with
  | None => st
  | Some t =>
      match tstep id (rs_mem st) (rs_region st) (rs_lock st) t with
      | None => st
      | Some (m', r', lock', t') => mk_rstate m' r' lock' (<[id := t']> (rs_threads st))
      end
  end.

(** A schedule: the thread to move, move after move. *)
Definition run (sched : list nat) (st : rstate) : rstate := foldl sched_step st sched.

Inductive race_step : rstate → rstate → Prop :=
  | RaceStep st id t m' r' lock' t' :
      rs_threads st !! id = Some t →
      tstep id (rs_mem st) (rs_region st) (rs_lock st) t = Some (m', r', lock', t') →
      race_step st (mk_rstate m' r' lock' (<[id := t']> (rs_threads st))).

Lemma run_steps sched st : rtc race_step st (run sched st).
Proof.
  unfold run. revert st. induction sched as [|id sched IH]; intros st; simpl; [done|].
  unfold sched_step at 2. destruct (rs_threads st !! id) as [t|] eqn:Et; [|apply IH].
  destruct (tstep _ _ _ _ _) as [[[[m' r'] lock'] t']|] eqn:Es; [|apply IH].
  eapply rtc_l; [by econstructor|apply IH].
Qed.
Lemma pick_way_loop_range r m kh b (Q : Z → Prop) ws : ∀ s,
  Forall Q ws → Q (ws_oldest_way s) → (∀ e, ws_empty s = Some e → Q e) →
  Q (pick_way_loop r m kh b ws s).
Proof.
  induction ws as [|w ws IH]; intros s Hq Ho He; simpl.
  - destruct (ws_empty s) as [e|]; [by apply He|done].
  - apply Forall_cons in Hq as [Hw Hq]. case_bool_decide; [done|].
    destruct (scan_oldest s w _) as [ow os] eqn:Es. apply IH; simpl; [done| |].
    + unfold scan_oldest in Es. destruct (ws_oldest_seq s) as [q|]; [destruct (_ <? q)|]; by simplify_eq.
    + intros e. destruct (_slot_key_hash r m b w), (ws_empty s); naive_solver.
Qed.

(** Whatever the headers hold, [pick_way] selects a slot of the key's bucket. *)
Lemma pick_way_in_range r m key b w :
  geom_ok (sr_geom r) → pick_way r m key = (b, w) → slot_in_range (sr_geom r) b w.
Proof.
  intros Hg [= <- <-]. split; [by apply bucket_index_range|].
  apply pick_way_loop_range; simpl; [|destruct Hg as (_ & _ & ? & _); lia|done].
  apply Forall_forall. intros w Hw. apply elem_of_seqZ in Hw. lia.
Qed.
End race.

(** ** The invariant *)

Section invariant.
Context {HL : Hashlib}.
(** Which bytes may be stored under which key hash. *)
Context (P : Z * Z → list Z → Prop).
Implicit Types (m : mem) (r : SlotRegion) (t : thread) (st : rstate).

Definition seq_of r (b w : Z) : Z := default 0 (sr_seq r !! (b, w)).

(** A slot between its odd and its even header. *)
Definition odd_slot m (a : Z) : Prop :=
  ∃ h, decode_header (mem_read m a HEADER_SIZE) = Some h ∧ Z.land (h_seq h) 1 ≠ 0.

(** A slot holds no page, a whole page, or is marked odd. *)
Definition slot_ok r m (b w : Z) : Prop :=
  odd_slot m (slot_at r b w) ∨
  ∃ o, slot_rep (sr_geom r) m (slot_at r b w) o ∧
    ∀ pg, o = Some pg → P (pg_hash pg) (pg_data pg) ∧ pg_seq pg ≤ seq_of r b w.

Definition thread_ok r m t : Prop :=
  let g := sr_geom r in
  match t with
  | WPick key data => P (key_hash128 key) data
  | WEnter key data b w | WMark key data b w =>
      P (key_hash128 key) data ∧ slot_in_range g b w ∧ zlength data ≤ max_payload g
  | WCopy key data b w new_seq i =>
      P (key_hash128 key) data ∧ slot_in_range g b w ∧ zlength data ≤ max_payload g ∧
      new_seq = seq_of r b w + 2 ∧ odd_slot m (slot_at r b w) ∧ (i ≤ length data)%nat ∧
      mem_read m (slot_at r b w + HEADER_SIZE) (Z.of_nat i) = take i data
  | RScan key n ws => Forall (slot_in_range g (bucket_index g key)) ws
  | RCopy key n w hdr acc =>
      let b := bucket_index g key in
      slot_in_range g b w ∧ zlength acc ≤ n ≤ max_payload g ∧
      (∃ seq, decode_header hdr =
          Some (mk_header true (key_hash128 key).1 (key_hash128 key).2 n seq) ∧
        Z.land seq 1 = 0 ∧ seq ≤ seq_of r b w) ∧
      (mem_read m (slot_at r b w) HEADER_SIZE = hdr →
       acc = mem_read m (slot_at r b w + HEADER_SIZE) (zlength acc))
  | WRet _ | RRet _ => True
  | SWrite _ _ => False
  end.

Record race_inv st : Prop := {
  ri_geom : geom_ok (sr_geom (rs_region st));
  ri_even b w s : sr_seq (rs_region st) !! (b, w) = Some s → 0 ≤ s ∧ Z.land s 1 = 0;
  ri_lock id t : rs_threads st !! id = Some t → in_lock t = true ↔ rs_lock st = Some id;
  ri_slots b w : slot_in_range (sr_geom (rs_region st)) b w →
    slot_ok (rs_region st) (rs_mem st) b w;
  ri_threads id t : rs_threads st !! id = Some t → thread_ok (rs_region st) (rs_mem st) t
}.

(** The memory of slot [(b, w)] is as before. *)
Definition same_slot r m m' (b w : Z) : Prop :=
  ∀ x, slot_at r b w ≤ x < slot_at r b w + slot_stride (sr_geom r) → m' x = m x.

(** Nothing but slot [(b, w)] has changed. *)
Definition only_slot r m m' (b w : Z) : Prop :=
  ∀ x, ¬ (slot_at r b w ≤ x < slot_at r b w + slot_stride (sr_geom r)) → m' x = m x.

Lemma only_slot_same r m m' b w b' w' :
  geom_ok (sr_geom r) → slot_in_range (sr_geom r) b w → slot_in_range (sr_geom r) b' w' →
  (b, w) ≠ (b', w') → only_slot r m m' b w → same_slot r m m' b' w'.
Proof.
  intros Hg H1 H2 Hne Ho x Hx. apply Ho. unfold slot_at in *.
  pose proof (slot_offset_disjoint _ _ _ _ _ Hg H1 H2 Hne) as Hd. unfold ranges_disjoint in Hd. lia.
Qed.

Lemma same_slot_header r m m' b w :
  geom_ok (sr_geom r) → same_slot r m m' b w →
  mem_read m' (slot_at r b w) HEADER_SIZE = mem_read m (slot_at r b w) HEADER_SIZE.
Proof.
  intros (Hp & _ & _ & Hs & _) Hm. apply mem_read_ext. intros x Hx. apply Hm.
  unfold HEADER_SIZE in *. lia.
Qed.

Lemma same_slot_payload r m m' b w n :
  geom_ok (sr_geom r) → same_slot r m m' b w → n ≤ max_payload (sr_geom r) →
  mem_read m' (slot_at r b w + HEADER_SIZE) n = mem_read m (slot_at r b w + HEADER_SIZE) n.
Proof.
  intros (Hp & _ & _ & Hs & _) Hm Hn. apply mem_read_ext. intros x Hx. apply Hm.
  unfold HEADER_SIZE in *. lia.
Qed.

Lemma same_slot_ok r m m' b w :
  geom_ok (sr_geom r) → same_slot r m m' b w → slot_ok r m b w → slot_ok r m' b w.
Proof.
  intros Hg Hm [Ho|(o & Ho & Hp)].
  - left. unfold odd_slot. by rewrite (same_slot_header r m).
  - right. exists o. split; [|done]. eapply slot_rep_frame; [apply Hg| |done].
    intros x Hx. apply Hm. destruct Hg as (_ & _ & _ & Hs & _). unfold HEADER_SIZE in *. lia.
Qed.


(** The header in slot [(b, w)] is odd or newer than [seq]. *)
Definition newer_header m (a seq : Z) : Prop := ∀ h,
  decode_header (mem_read m a HEADER_SIZE) = Some h → Z.land (h_seq h) 1 = 0 → seq < h_seq h.

Definition set_seqs r (s : gmap (Z * Z) Z) : SlotRegion := mk_region (sr_base r) (sr_geom r) s.

(** What a thread outside the lock relies on survives a store of the lock's
    holder. *)
Lemma thread_ok_store r s m m' b w t :
  geom_ok (sr_geom r) → slot_in_range (sr_geom r) b w → only_slot r m m' b w →
  newer_header m' (slot_at r b w) (seq_of r b w) →
  (∀ b' w', seq_of r b' w' ≤ seq_of (set_seqs r s) b' w') →
  in_lock t = false → thread_ok r m t → thread_ok (set_seqs r s) m' t.
Proof.
  intros Hg Hin Ho Hnew Hs Hl Ht. destruct t as [| | | | | |key n w' hdr acc| |]; simpl in *; try done.
  destruct Ht as (Hin' & Hn & (seq & Hd & He & Hle) & Hacc). split; [done|]. split; [done|].
  split; [exists seq; split; [done|split; [done|]]; by etrans; [|apply Hs]|].
  change (slot_at (set_seqs r s)) with (slot_at r).
  destruct (decide ((b, w) = (bucket_index (sr_geom r) key, w'))) as [Eq|Hne].
  - simplify_eq. intros Hh. rewrite <-Hh in Hd. specialize (Hnew _ Hd He). simpl in Hnew. lia.
  - pose proof (only_slot_same _ _ _ _ _ _ _ Hg Hin Hin' Hne Ho) as Hsame.
    rewrite (same_slot_header r m) by done. rewrite (same_slot_payload r m) by (done || lia). done.
Qed.

Lemma slot_ok_store r s m m' b w b' w' :
  geom_ok (sr_geom r) → slot_in_range (sr_geom r) b w → slot_in_range (sr_geom r) b' w' →
  (b, w) ≠ (b', w') → only_slot r m m' b w →
  (∀ b' w', seq_of r b' w' ≤ seq_of (set_seqs r s) b' w') →
  slot_ok r m b' w' → slot_ok (set_seqs r s) m' b' w'.
Proof.
  intros Hg Hin Hin' Hne Ho Hs Hok. eapply (same_slot_ok (set_seqs r s) m); [done| |].
  - change (same_slot r m m' b' w'). by apply (only_slot_same r m m' b w).
  - destruct Hok as [?|(o & Hr & Hp)]; [by left|right]. exists o. split; [done|].
    intros pg Hpg. destruct (Hp pg Hpg) as [? ?]. split; [done|]. by etrans; [|apply Hs].
Qed.

(** A move that stores nothing. *)
Lemma inv_keep st id t lock' t' :
  race_inv st → rs_threads st !! id = Some t →
  thread_ok (rs_region st) (rs_mem st) t' → (in_lock t' = true ↔ lock' = Some id) →
  (∀ j, j ≠ id → lock' = Some j ↔ rs_lock st = Some j) →
  race_inv (mk_rstate (rs_mem st) (rs_region st) lock' (<[id := t']> (rs_threads st))).
Proof.
  intros [H1 H2 H3 H4 H5] Ht Hok Hl Hj. split; simpl; [done|done| |done|].
  - intros j tj. rewrite list_lookup_insert_Some.
    intros [(-> & <- & _)|[Hne Hlk]]; [done|]. rewrite (H3 _ _ Hlk). by rewrite Hj.
  - intros j tj. rewrite list_lookup_insert_Some. intros [(-> & <- & _)|[_ Hlk]]; [done|by eapply H5].
Qed.

(** A store of the lock's holder. *)
Lemma inv_store st id t b w m' s lock' t' :
  let r := rs_region st in
  race_inv st → rs_threads st !! id = Some t → in_lock t = true →
  slot_in_range (sr_geom r) b w → only_slot r (rs_mem st) m' b w →
  newer_header m' (slot_at r b w) (seq_of r b w) →
  (∀ b' w', seq_of r b' w' ≤ seq_of (set_seqs r s) b' w') →
  (∀ b w x, s !! (b, w) = Some x → 0 ≤ x ∧ Z.land x 1 = 0) →
  slot_ok (set_seqs r s) m' b w → thread_ok (set_seqs r s) m' t' →
  lock' = (if in_lock t' then Some id else None) →
  race_inv (mk_rstate m' (set_seqs r s) lock' (<[id := t']> (rs_threads st))).
Proof.
  intros r [H1 H2 H3 H4 H5] Ht Hl Hin Ho Hnew Hs Heven Hok Hok' ->.
  pose proof (proj1 (H3 _ _ Ht) Hl) as Hlock.
  assert (∀ j tj, j ≠ id → rs_threads st !! j = Some tj → in_lock tj = false) as Hout.
  { intros j tj Hne Hj. destruct (in_lock tj) eqn:E; [|done]. apply (H3 _ _ Hj) in E. congruence. }
  split; simpl; [done|done| | |].
  - intros j tj. rewrite list_lookup_insert_Some. intros [(-> & <- & _)|[Hne Hlk]].
    + by destruct (in_lock t').
    + rewrite (Hout j tj) by done. destruct (in_lock t'); naive_solver.
  - intros b' w' Hin'. destruct (decide ((b, w) = (b', w'))) as [Eq|Hne]; [by simplify_eq|].
    apply (slot_ok_store r s (rs_mem st) m' b w); auto.
  - intros j tj. rewrite list_lookup_insert_Some. intros [(-> & <- & _)|[Hne Hlk]]; [done|].
    apply (thread_ok_store r s (rs_mem st) m' b w); eauto.
Qed.

(** *** The moves of the lock's holder *)

Lemma lor_1_odd n : Z.land (Z.lor n 1) 1 ≠ 0.
Proof.
  rewrite Z.land_lor_distr_l. change (Z.land 1 1) with 1.
  change 1 with (Z.ones 1) at 1. rewrite (Z.land_ones n 1) by lia. change (2 ^ 1) with 2.
  destruct (Z.mod_pos_bound n 2 ltac:(lia)) as [? ?].
  assert (n mod 2 = 0 ∨ n mod 2 = 1) as [-> | ->] by lia; done.
Qed.

Lemma odd_newer m a seq : odd_slot m a → newer_header m a seq.
Proof. intros (h & Hd & Ho) h' Hd' He. by simplify_eq. Qed.

Lemma set_seqs_id r : set_seqs r (sr_seq r) = r.
Proof. by destruct r. Qed.

Lemma only_slot_write r m b w i bs :
  0 ≤ i → i + zlength bs ≤ slot_stride (sr_geom r) →
  only_slot r m (mem_write m (slot_at r b w + i) bs) b w.
Proof. intros Hi Hb x Hx. apply mem_write_out. unfold zlength in *. lia. Qed.

Lemma mark_inv st id key data b w m' ns :
  race_inv st → rs_threads st !! id = Some (WMark key data b w) →
  ns = seq_of (rs_region st) b w + 2 →
  _mark_seq (rs_region st) (rs_mem st) (slot_offset (sr_geom (rs_region st)) b w)
    (Z.lor ns 1) key (zlength data) = Some m' →
  race_inv (mk_rstate m' (rs_region st) (rs_lock st)
    (<[id := WCopy key data b w ns 0]> (rs_threads st))).
Proof.
  intros Hinv Ht Hns Hm. pose proof (ri_geom _ Hinv) as Hg.
  pose proof (ri_threads _ Hinv _ _ Ht) as (HP & Hin & Hlen).
  unfold _mark_seq in Hm. destruct (encode_header _ _ _) as [hdr|] eqn:Eh; simplify_eq/=.
  apply encode_header_spec in Eh as [Hl Hd]. fold (slot_at (rs_region st) b w).
  set (r := rs_region st) in *. set (a := slot_at r b w).
  assert (zlength hdr = HEADER_SIZE) as Hz by (unfold zlength; rewrite Hl; done).
  assert (odd_slot (mem_write (rs_mem st) a hdr) a) as Hodd.
  { eexists. rewrite <-Hz, mem_read_write_same. split; [exact Hd|]. apply lor_1_odd. }
  assert (rs_lock st = Some id) as Hlk by by apply (ri_lock _ Hinv _ _ Ht).
  rewrite <-(set_seqs_id r). apply (inv_store st id _ b w _ _ _ _ Hinv Ht); [done|done| | |done| | | |].
  - replace a with (a + 0) by lia. apply only_slot_write; [lia|].
    destruct Hg as (? & _ & _ & ? & _). fold r. rewrite Hz. lia.
  - by apply odd_newer.
  - apply (ri_even _ Hinv).
  - by left.
  - split; [done|]. split; [done|]. split; [done|]. split; [done|]. split; [done|]. split; [lia|done].
  - done.
Qed.

Lemma copy_inv st id key data b w ns i x :
  race_inv st → rs_threads st !! id = Some (WCopy key data b w ns i) → data !! i = Some x →
  race_inv (mk_rstate
    (mem_write (rs_mem st) (slot_at (rs_region st) b w + HEADER_SIZE + Z.of_nat i) [x])
    (rs_region st) (rs_lock st) (<[id := WCopy key data b w ns (S i)]> (rs_threads st))).
Proof.
  intros Hinv Ht Hx. pose proof (ri_geom _ Hinv) as Hg.
  pose proof (ri_threads _ Hinv _ _ Ht) as (HP & Hin & Hlen & Hns & Hodd & Hi & Hpre).
  set (r := rs_region st) in *. set (a := slot_at r b w) in *.
  pose proof (lookup_lt_Some _ _ _ Hx) as Hlt.
  set (m' := mem_write _ _ _).
  assert (mem_read m' a HEADER_SIZE = mem_read (rs_mem st) a HEADER_SIZE) as Hh.
  { apply mem_read_write_disjoint. right. unfold HEADER_SIZE. lia. }
  assert (odd_slot m' a) as Hodd' by (unfold odd_slot; by rewrite Hh).
  assert (rs_lock st = Some id) as Hlk by by apply (ri_lock _ Hinv _ _ Ht).
  rewrite <-(set_seqs_id r). apply (inv_store st id _ b w _ _ _ _ Hinv Ht); [done|done| | |done| | | |].
  - subst m'. fold r a. rewrite <-Z.add_assoc. apply only_slot_write; [unfold HEADER_SIZE; lia|].
    change (zlength [x]) with 1. destruct Hg as (? & _ & _ & ? & _). unfold zlength in Hlen. fold r. lia.
  - by apply odd_newer.
  - apply (ri_even _ Hinv).
  - by left.
  - do 5 (split; [done|]). split; [lia|].
    change (slot_at (set_seqs r (sr_seq r)) b w) with a.
    rewrite (take_S_r _ _ _ Hx), Nat2Z.inj_succ, <-Z.add_1_r, mem_read_app by lia. f_equal.
    + rewrite <-Hpre. apply mem_read_write_disjoint. right. lia.
    + subst m'. change 1 with (zlength [x]). apply mem_read_write_same.
  - done.
Qed.

Lemma seq_of_insert r b w ns :
  seq_of r b w ≤ ns → ∀ b' w', seq_of r b' w' ≤ seq_of (set_seqs r (<[(b, w) := ns]> (sr_seq r))) b' w'.
Proof.
  intros Hle b' w'. unfold seq_of. simpl. destruct (decide ((b, w) = (b', w'))) as [Eq|Hne].
  - simplify_eq. by rewrite lookup_insert_eq.
  - by rewrite lookup_insert_ne.
Qed.

Lemma even_plus_2 s : Z.land s 1 = 0 → Z.land (s + 2) 1 = 0.
Proof. rewrite !land_even_1. intros H. rewrite <-(Z.mod_add s 1) in H by lia. done. Qed.

Lemma seq_of_even st b w : race_inv st → 0 ≤ seq_of (rs_region st) b w ∧ Z.land (seq_of (rs_region st) b w) 1 = 0.
Proof.
  intros Hinv. unfold seq_of. destruct (sr_seq _ !! _) as [s|] eqn:Es; simpl; [|done].
  by eapply ri_even.
Qed.

Lemma header_inv st id key data b w ns i m' res :
  race_inv st → rs_threads st !! id = Some (WCopy key data b w ns i) → data !! i = None →
  _write_header (rs_region st) (rs_mem st) (slot_offset (sr_geom (rs_region st)) b w)
    key (zlength data) ns = Some m' →
  race_inv (mk_rstate m' (set_seqs (rs_region st) (<[(b, w) := ns]> (sr_seq (rs_region st)))) None
    (<[id := WRet res]> (rs_threads st))).
Proof.
  intros Hinv Ht Hx Hm. pose proof (ri_geom _ Hinv) as Hg.
  pose proof (ri_threads _ Hinv _ _ Ht) as (HP & Hin & Hlen & Hns & _ & Hi & Hpre).
  destruct (seq_of_even st b w Hinv) as [Hs0 Hev].
  unfold _write_header, _mark_seq in Hm. destruct (encode_header _ _ _) as [hdr|] eqn:Eh; simplify_eq/=.
  apply encode_header_spec in Eh as [Hl Hd]. fold (slot_at (rs_region st) b w).
  set (r := rs_region st) in *. set (a := slot_at r b w) in *.
  assert (zlength hdr = HEADER_SIZE) as Hz by (unfold zlength; rewrite Hl; done).
  assert (i = length data) as -> by (apply lookup_ge_None_1 in Hx; lia).
  rewrite take_ge in Hpre by lia.
  pose proof (mem_read_write_same (rs_mem st) a hdr) as Hsame. rewrite Hz in Hsame.
  assert (Hle : seq_of r b w ≤ seq_of r b w + 2) by lia.
  apply (inv_store st id _ b w _ _ _ _ Hinv Ht); [done|done| | | | | |done|done].
  - replace a with (a + 0) by lia. apply only_slot_write; [lia|].
    destruct Hg as (? & _ & _ & ? & _). fold r. rewrite Hz. lia.
  - intros h. fold r a. rewrite Hsame, Hd. intros [= <-] _. simpl. lia.
  - by apply seq_of_insert.
  - intros b' w' x. rewrite lookup_insert_Some. intros [[_ <-]|[_ Hx']]; [|by eapply ri_even].
    split; [lia|by apply even_plus_2].
  - right. exists (Some (mk_page (key_hash128 key) (seq_of r b w + 2) data)). split.
    + unfold slot_rep. simpl. fold r. change (slot_at (set_seqs r _) b w) with a. rewrite Hsame.
      split; [done|]. split; [split; [lia|by apply even_plus_2]|]. split; [done|].
      rewrite mem_read_write_disjoint; [exact Hpre|left; rewrite Hz; lia].
    + intros pg [= <-]. split; [done|]. simpl. fold r. unfold seq_of. simpl. by rewrite lookup_insert_eq.
Qed.

(** *** Readers *)

(** A header that matches belongs to a whole page of its key. *)
Lemma matching_slot r m b w key n :
  slot_ok r m b w → slot_matches (mem_read m (slot_at r b w) HEADER_SIZE) key n = true →
  0 ≤ n ≤ max_payload (sr_geom r) ∧
  P (key_hash128 key) (mem_read m (slot_at r b w + HEADER_SIZE) n) ∧
  ∃ seq, decode_header (mem_read m (slot_at r b w) HEADER_SIZE) =
      Some (mk_header true (key_hash128 key).1 (key_hash128 key).2 n seq) ∧
    Z.land seq 1 = 0 ∧ seq ≤ seq_of r b w.
Proof.
  intros Hok Hm. apply slot_matches_true in Hm as (seq & Hd & He).
  destruct Hok as [(h & Hd' & Ho)|(o & Hr & Hp)]; [by simplify_eq/=|].
  destruct o as [pg|]; simpl in Hr; [|by destruct Hr as (h & ? & ?); simplify_eq/=].
  destruct (Hp pg eq_refl) as [HP Hle]. destruct Hr as (Hd' & _ & Hlen & Hb).
  rewrite Hd in Hd'. injection Hd' as Hh1 Hh2 Hn Hs.
  assert (key_hash128 key = pg_hash pg) as -> by (destruct (key_hash128 key), (pg_hash pg); simpl in *; congruence).
  rewrite Hn, Hb. split; [unfold zlength in *; lia|]. split; [done|].
  exists seq. rewrite Hd, Hn, Hh1, Hh2. split; [done|]. split; [done|]. by rewrite Hs.
Qed.

Lemma scan_inv st id key n w ws :
  race_inv st → rs_threads st !! id = Some (RScan key n (w :: ws)) →
  let hdr := mem_read (rs_mem st) (slot_at (rs_region st) (bucket_index (sr_geom (rs_region st)) key) w) HEADER_SIZE in
  race_inv (mk_rstate (rs_mem st) (rs_region st) (rs_lock st)
    (<[id := if slot_matches hdr key n then RCopy key n w hdr [] else RScan key n ws]> (rs_threads st))).
Proof.
  intros Hinv Ht hdr. pose proof (ri_threads _ Hinv _ _ Ht) as Hws. apply Forall_cons in Hws as [Hw Hws].
  pose proof (ri_lock _ Hinv _ _ Ht) as Hl. simpl in Hl.
  apply (inv_keep st id _ _ _ Hinv Ht); [|by destruct (slot_matches _ _ _)|done].
  destruct (slot_matches hdr key n) eqn:Em; [|done].
  destruct (matching_slot _ _ _ _ _ _ (ri_slots _ Hinv _ _ Hw) Em) as (Hn & _ & Hseq).
  simpl. change (zlength []) with 0. split; [done|]. split; [lia|]. split; [exact Hseq|done].
Qed.

Lemma load_inv st id key n w hdr acc :
  race_inv st → rs_threads st !! id = Some (RCopy key n w hdr acc) → zlength acc < n →
  let a := slot_at (rs_region st) (bucket_index (sr_geom (rs_region st)) key) w in
  race_inv (mk_rstate (rs_mem st) (rs_region st) (rs_lock st)
    (<[id := RCopy key n w hdr (acc ++ [rs_mem st (a + HEADER_SIZE + zlength acc)])]> (rs_threads st))).
Proof.
  intros Hinv Ht Hlt a. pose proof (ri_threads _ Hinv _ _ Ht) as (Hin & Hn & Hseq & Hacc).
  pose proof (ri_lock _ Hinv _ _ Ht) as Hl. simpl in Hl.
  apply (inv_keep st id _ _ _ Hinv Ht); [|done|done].
  assert (∀ x, zlength (acc ++ [x]) = zlength acc + 1) as Hz
    by (intros; unfold zlength; rewrite length_app; simpl; lia).
  simpl. rewrite Hz. split; [done|]. split; [lia|]. split; [done|]. intros Hh.
  rewrite mem_read_app by (unfold zlength; lia). f_equal; [by apply Hacc|].
  unfold mem_read. simpl. by rewrite Z.add_0_r.
Qed.

(** Every move keeps the invariant. *)
Lemma race_step_inv st st' : race_inv st → race_step st st' → race_inv st'.
Proof.
  intros Hinv Hstep. destruct Hstep as [st id t m' r' lock' t' Ht Hs].
  pose proof (ri_lock _ Hinv _ _ Ht) as Hl. pose proof (ri_threads _ Hinv _ _ Ht) as Hok.
  pose proof (ri_geom _ Hinv) as Hg.
  destruct t as [key data|key data b w|key data b w|key data b w ns i|res|key n ws|key n w hdr acc|res|a bs];
    simpl in Hs, Hl; [| | | |done| | |done|by destruct Hok].
  - destruct (zlength data >? _) eqn:El.
    + simplify_eq. apply (inv_keep st id _ _ _ Hinv Ht); [done..|]. done.
    + destruct (rs_lock st) as [j|] eqn:Elk; [done|].
      change (Some (let '(b, w) := pick_way (rs_region st) (rs_mem st) key in
        (rs_mem st, rs_region st, None, WEnter key data b w)) = Some (m', r', lock', t')) in Hs.
      destruct (pick_way (rs_region st) (rs_mem st) key) as [b w] eqn:Ep.
      simplify_eq. bool_cases. apply (inv_keep st id _ _ _ Hinv Ht); [|done|by rewrite Elk].
      split; [done|]. split; [|done]. by eapply pick_way_in_range.
  - destruct (rs_lock st) as [j|] eqn:Elk; [done|]. simplify_eq.
    apply (inv_keep st id _ _ _ Hinv Ht); [done|done|]. rewrite Elk. naive_solver.
  - assert ((if Z.land (default 0 (sr_seq (rs_region st) !! (b, w))) 1 =? 0
      then default 0 (sr_seq (rs_region st) !! (b, w)) + 2
      else default 0 (sr_seq (rs_region st) !! (b, w)) + 1) = seq_of (rs_region st) b w + 2) as Hns.
    { destruct (seq_of_even st b w Hinv) as [_ He]. unfold seq_of in *. by rewrite He. }
    rewrite Hns in Hs. destruct (_mark_seq _ _ _ _ _ _) as [m1|] eqn:Em; simplify_eq.
    + by eapply mark_inv.
    + apply (inv_keep st id _ _ _ Hinv Ht); [done|done|]. rewrite (proj1 Hl eq_refl). naive_solver.
  - destruct (data !! i) as [x|] eqn:Ex; [simplify_eq; by eapply copy_inv|].
    destruct (_write_header _ _ _ _ _ _) as [m1|] eqn:Em; simplify_eq.
    + by eapply header_inv.
    + apply (inv_keep st id _ _ _ Hinv Ht); [done|done|]. rewrite (proj1 Hl eq_refl). naive_solver.
  - destruct ws as [|w ws]; simplify_eq/=.
    + by apply (inv_keep st id _ _ _ Hinv Ht).
    + pose proof (scan_inv st id key n w ws Hinv Ht) as Hsc. simpl in Hsc.
      by destruct (slot_matches _ _ _); simplify_eq.
  - destruct (zlength acc <? n) eqn:En; bool_cases; simplify_eq; [by apply load_inv|].
    by apply (inv_keep st id _ _ _ Hinv Ht).
Qed.

Lemma race_steps_inv st st' : race_inv st → rtc race_step st st' → race_inv st'.
Proof. induction 2; eauto using race_step_inv. Qed.
End invariant.

(** ** A thread that is not interrupted *)

Section solo.
Context {HL : Hashlib}.
Implicit Types (m : mem) (r : SlotRegion) (t : thread) (st : rstate).

Lemma run_app s1 s2 st : run (s1 ++ s2) st = run s2 (run s1 st).
Proof. apply foldl_app. Qed.

Lemma run_cons id sched st : run (id :: sched) st = run sched (sched_step st id).
Proof. done. Qed.

Lemma sched_step_move st id t m' r' lock' t' :
  rs_threads st !! id = Some t →
  tstep id (rs_mem st) (rs_region st) (rs_lock st) t = Some (m', r', lock', t') →
  sched_step st id = mk_rstate m' r' lock' (<[id := t']> (rs_threads st)).
Proof. intros Ht Hs. unfold sched_step. by rewrite Ht, Hs. Qed.

(** A thread that has returned stays as it is. *)
Lemma run_stuck st id t k :
  rs_threads st !! id = Some t →
  tstep id (rs_mem st) (rs_region st) (rs_lock st) t = None → run (replicate k id) st = st.
Proof.
  intros Ht Hs. assert (sched_step st id = st) as Hst by (unfold sched_step; by rewrite Ht, Hs).
  induction k as [|k IH]; [done|]. by rewrite replicate_S, run_cons, Hst.
Qed.

Lemma mem_write_cons m a x bs y :
  mem_write (mem_write m a [x]) (a + 1) bs y = mem_write m a (x :: bs) y.
Proof.
  unfold mem_write. change (zlength [x]) with 1.
  assert (zlength (x :: bs) = zlength bs + 1) as -> by (unfold zlength; simpl length; lia).
  assert (0 ≤ zlength bs) by (unfold zlength; lia).
  destruct (decide (a + 1 ≤ y < a + 1 + zlength bs)) as [H1|H1].
  - assert ((a + 1 <=? y) && (y <? a + 1 + zlength bs) = true) as -> by (rewrite andb_true_iff, Z.leb_le, Z.ltb_lt; lia).
    assert ((a <=? y) && (y <? a + (zlength bs + 1)) = true) as -> by (rewrite andb_true_iff, Z.leb_le, Z.ltb_lt; lia).
    replace (Z.to_nat (y - a)) with (S (Z.to_nat (y - (a + 1)))) by lia. done.
  - assert ((a + 1 <=? y) && (y <? a + 1 + zlength bs) = false) as -> by (rewrite andb_false_iff, Z.leb_gt, Z.ltb_ge; lia).
    destruct (decide (y = a)) as [->|Hne].
    + rewrite Z.leb_refl. replace (a <? a + 1) with true by (symmetry; apply Z.ltb_lt; lia).
      replace (a <? a + (zlength bs + 1)) with true by (symmetry; apply Z.ltb_lt; lia).
      by rewrite Z.sub_diag.
    + assert ((a <=? y) && (y <? a + 1) = false) as -> by (rewrite andb_false_iff, Z.leb_gt, Z.ltb_ge; lia).
      assert ((a <=? y) && (y <? a + (zlength bs + 1)) = false) as -> by (rewrite andb_false_iff, Z.leb_gt, Z.ltb_ge; lia).
      done.
Qed.

(** The copy loop leaves the page as one [memmove] would. *)
Lemma copy_run id key data b w ns : ∀ k i m r lock ts,
  (i + k = length data)%nat → ts !! id = Some (WCopy key data b w ns i) →
  ∃ m', run (replicate k id) (mk_rstate m r lock ts) =
      mk_rstate m' r lock (<[id := WCopy key data b w ns (length data)]> ts) ∧
    ∀ x, m' x = mem_write m (slot_at r b w + HEADER_SIZE + Z.of_nat i) (drop i data) x.
Proof.
  induction k as [|k IH]; intros i m r lock ts Hi Ht.
  - exists m. assert (i = length data) as -> by lia. split; [simpl; by rewrite list_insert_id|].
    intros x. rewrite drop_all. unfold mem_write. change (zlength []) with 0.
    by destruct (_ && _) eqn:E; [bool_cases; lia|].
  - destruct (lookup_lt_is_Some_2 data i ltac:(lia)) as [y Hy]. rewrite replicate_S, run_cons.
    erewrite sched_step_move by (try exact Ht; simpl; rewrite Hy; done). simpl rs_threads.
    destruct (IH (S i) (mem_write m (slot_at r b w + HEADER_SIZE + Z.of_nat i) [y]) r lock
      (<[id := WCopy key data b w ns (S i)]> ts)) as (m' & -> & Hm'); [lia| |].
    { apply list_lookup_insert_eq. by eapply lookup_lt_Some. }
    exists m'. rewrite list_insert_insert_eq. split; [done|]. intros x. rewrite Hm'.
    rewrite (drop_S _ _ _ Hy), <-mem_write_cons. f_equal. lia.
Qed.

Lemma mem_write_ext m m' a bs x : (∀ y, m y = m' y) → mem_write m a bs x = mem_write m' a bs x.
Proof. intros H. unfold mem_write. by rewrite H. Qed.

(** From inside the lock to the return of [write_local]. *)
Lemma solo_stores id key data b w m r ts src :
  geom_ok (sr_geom r) → slot_in_range (sr_geom r) b w → outside r src (zlength data) →
  data = mem_read m src (zlength data) → ts !! id = Some (WMark key data b w) →
  let off := slot_offset (sr_geom r) b w in
  let seq := default 0 (sr_seq r !! (b, w)) in
  let ns := if Z.land seq 1 =? 0 then seq + 2 else seq + 1 in
  let st' := run (replicate (length data + 2) id) (mk_rstate m r (Some id) ts) in
  let '(res, r', m') :=
    match _mark_seq r m off (Z.lor ns 1) key (zlength data) with
    | None => (Raise StructError, r, m)
    | Some m1 =>
        let m2 := memmove m1 (sr_base r + off + HEADER_SIZE) src (zlength data) in
        match _write_header r m2 off key (zlength data) ns with
        | None => (Raise StructError, r, m2)
        | Some m3 => (Ret (Some off), mk_region (sr_base r) (sr_geom r) (<[(b, w) := ns]> (sr_seq r)), m3)
        end
    end in
  rs_threads st' !! id = Some (WRet res) ∧ rs_region st' = r' ∧ rs_lock st' = None ∧
  ∀ x, rs_mem st' x = m' x.
Proof.
  intros Hg Hin Hout Hdata Ht off seq ns. pose proof (lookup_lt_Some _ _ _ Ht) as Hlt.
  replace (length data + 2)%nat with (S (length data + 1)) by lia. rewrite replicate_S, run_cons.
  unfold _write_header, _mark_seq. destruct (encode_header key (zlength data) (Z.lor ns 1)) as [h1|] eqn:E1; simpl.
  2:{ erewrite sched_step_move by (try exact Ht; simpl; fold seq ns; unfold _mark_seq; rewrite E1; done).
    erewrite run_stuck; [|by apply list_lookup_insert_eq|done]. simpl.
    by rewrite list_lookup_insert_eq. }
  erewrite sched_step_move by (try exact Ht; simpl; fold seq ns; unfold _mark_seq; rewrite E1; done).
  simpl rs_threads. rewrite replicate_add, run_app.
  destruct (copy_run id key data b w ns (length data) 0 (mem_write m (slot_at r b w) h1) r (Some id)
    (<[id := WCopy key data b w ns 0]> ts)) as (m2 & Hrun & Hm2); [lia|by apply list_lookup_insert_eq|].
  unfold rs_lock, rs_region at 1. unfold slot_at in Hrun. rewrite Hrun. clear Hrun.
  rewrite list_insert_insert_eq, drop_0, Z.add_0_r in *.
  assert (mem_read (mem_write m (sr_base r + off) h1) src (zlength data) = data) as Hsrc.
  { rewrite Hdata at 2. apply mem_read_write_disjoint. apply encode_header_spec in E1 as [Hl _].
    pose proof (slot_offset_bounds _ b w Hg Hin) as Hb. unfold zlength at 1. rewrite Hl.
    destruct Hg as (? & _ & _ & ? & _). unfold outside, ranges_disjoint, HEADER_SIZE in *. fold off in Hb. lia. }
  unfold memmove. rewrite Hsrc.
  assert (data !! length data = None) as Hend by (apply lookup_ge_None_2; lia).
  change (replicate 1 id) with [id]. rewrite run_cons.
  destruct (encode_header key (zlength data) ns) as [h2|] eqn:E2; simpl.
  - erewrite sched_step_move; [|by apply list_lookup_insert_eq|].
    2:{ simpl. rewrite Hend. unfold _write_header, _mark_seq. rewrite E2. done. }
    unfold run. simpl. rewrite list_lookup_insert_eq by (by rewrite length_insert).
    split; [done|]. split; [done|]. split; [done|]. intros x. by apply mem_write_ext.
  - erewrite sched_step_move; [|by apply list_lookup_insert_eq|].
    2:{ simpl. rewrite Hend. unfold _write_header, _mark_seq. rewrite E2. done. }
    unfold run. simpl. by rewrite list_lookup_insert_eq by (by rewrite length_insert).
Qed.

(** [write_local] as a thread of its own: the sequential definition. *)
Lemma solo_write st id key src n :
  let r := rs_region st in
  let m := rs_mem st in
  geom_ok (sr_geom r) → 0 ≤ n → outside r src n → rs_lock st = None →
  rs_threads st !! id = Some (WPick key (mem_read m src n)) →
  let '(res, r', m') := write_local r m key src n in
  let st' := run (replicate (Z.to_nat n + 4) id) st in
  rs_threads st' !! id = Some (WRet res) ∧ rs_region st' = r' ∧ rs_lock st' = None ∧
  ∀ x, rs_mem st' x = m' x.
Proof.
  intros r m Hg Hn Hout Hlock Ht. pose proof (lookup_lt_Some _ _ _ Ht) as Hlt.
  assert (zlength (mem_read m src n) = n) as Hz by by apply zlength_mem_read.
  unfold write_local. replace (Z.to_nat n + 4)%nat with (S (S (Z.to_nat n + 2))) by lia.
  rewrite !replicate_S, run_cons. destruct (n >? max_payload (sr_geom r)) eqn:El.
  - erewrite sched_step_move by (try exact Ht; simpl; rewrite Hz; fold r; rewrite El; done).
    rewrite <-replicate_S. erewrite run_stuck; [|by apply list_lookup_insert_eq|done]. simpl.
    by rewrite list_lookup_insert_eq.
  - destruct (pick_way r m key) as [b w] eqn:Ep.
    pose proof (pick_way_in_range r m key b w Hg Ep) as Hin.
    erewrite sched_step_move; [|exact Ht|].
    2:{ unfold tstep. rewrite Hz. fold r m. rewrite El, Hlock. rewrite Ep. done. }
    rewrite run_cons. erewrite sched_step_move; [|by apply list_lookup_insert_eq|done].
    simpl rs_threads. rewrite list_insert_insert_eq.
    pose proof (solo_stores id key (mem_read m src n) b w m r
      (<[id := WMark key (mem_read m src n) b w]> (rs_threads st)) src) as Hs.
    rewrite Hz, length_mem_read in Hs. apply Hs; [done..|]. by apply list_lookup_insert_eq.
Qed.

(** The copy loop of a reader. *)
Lemma load_run id key n w hdr m r lock : ∀ k acc ts,
  let a := slot_at r (bucket_index (sr_geom r) key) w + HEADER_SIZE in
  n - zlength acc = Z.of_nat k → acc = mem_read m a (zlength acc) →
  ts !! id = Some (RCopy key n w hdr acc) →
  run (replicate (S k) id) (mk_rstate m r lock ts) =
    mk_rstate m r lock (<[id := RRet (Some (mem_read m a n))]> ts).
Proof.
  induction k as [|k IH]; intros acc ts a Hk Hacc Ht; rewrite replicate_S, run_cons.
  - assert ((zlength acc <? n) = false) as El by (apply Z.ltb_ge; lia).
    erewrite sched_step_move by (try exact Ht; simpl; rewrite El; done). unfold run. simpl.
    replace n with (zlength acc) by lia. by rewrite <-Hacc.
  - assert ((zlength acc <? n) = true) as El by (apply Z.ltb_lt; lia).
    erewrite sched_step_move by (try exact Ht; simpl; rewrite El; done). simpl rs_threads. fold a.
    assert (∀ x, zlength (acc ++ [x]) = zlength acc + 1) as Hz
      by (intros; unfold zlength; rewrite length_app; simpl; lia).
    rewrite (IH (acc ++ [m (a + zlength acc)])); [by rewrite list_insert_insert_eq|rewrite Hz; lia| |].
    + rewrite Hz, mem_read_app by (unfold zlength; lia). fold a. rewrite <-Hacc. f_equal.
      unfold mem_read. simpl. by rewrite Z.add_0_r.
    + apply list_lookup_insert_eq. by eapply lookup_lt_Some.
Qed.

Lemma scan_run id key n dst m r lock : ∀ ws ts,
  0 ≤ n → ts !! id = Some (RScan key n ws) →
  run (replicate (length ws + Z.to_nat n + 1) id) (mk_rstate m r lock ts) =
    mk_rstate m r lock (<[id := RRet
      (let '(hit, m') := read_local_loop r m key (bucket_index (sr_geom r) key) dst n ws in
       if hit then Some (mem_read m' dst n) else None)]> ts).
Proof.
  induction ws as [|w ws IH]; intros ts Hn Ht; pose proof (lookup_lt_Some _ _ _ Ht) as Hlt.
  - replace (length [] + Z.to_nat n + 1)%nat with (S (Z.to_nat n)) by (simpl; lia).
    rewrite replicate_S, run_cons. erewrite sched_step_move by (try exact Ht; done).
    erewrite run_stuck; [done|by apply list_lookup_insert_eq|done].
  - cbn [length Nat.add]. rewrite replicate_S, run_cons. simpl read_local_loop.
    fold (slot_at r (bucket_index (sr_geom r) key) w).
    destruct (slot_matches (mem_read m (slot_at r (bucket_index (sr_geom r) key) w) HEADER_SIZE) key n) eqn:Em.
    + erewrite sched_step_move by (try exact Ht; simpl; rewrite Em; done). simpl rs_threads.
      replace (length ws + Z.to_nat n + 1)%nat with (S (Z.to_nat n) + length ws)%nat by lia.
      rewrite replicate_add, run_app.
      erewrite (load_run id key n w _ m r lock _ []);
        [|change (zlength []) with 0; lia|done|by apply list_lookup_insert_eq].
      rewrite list_insert_insert_eq. erewrite run_stuck; [|by apply list_lookup_insert_eq|done].
      by rewrite mem_read_memmove_same.
    + erewrite sched_step_move by (try exact Ht; simpl; rewrite Em; done). simpl rs_threads.
      rewrite IH; [by rewrite list_insert_insert_eq|done|by apply list_lookup_insert_eq].
Qed.
End solo.

(** ** What the protocol gives *)

(** A call that has not started; no WRITE is being served. *)
Definition call_start (g : SlotGeometry) (t : thread) : Prop :=
  match t with
  | WPick _ _ => True
  | RScan _ _ ws => ws = seqZ 0 (ways g)
  | _ => False
  end.

Section properties.
Context {HL : Hashlib}.

(** Some [write_local] call of [ts] stores [d] under the hash [h], or the
    region held it at the start. *)
Definition local_page (c0 : gmap (Z * Z) page) (ts : list thread) (h : Z * Z) (d : list Z) : Prop :=
  (∃ b w pg, c0 !! (b, w) = Some pg ∧ pg_hash pg = h ∧ pg_data pg = d) ∨
  ∃ id key, key_hash128 key = h ∧ ts !! id = Some (WPick key d).

(** The same, or a served WRITE carries it. *)
Definition stored_page (c0 : gmap (Z * Z) page) (ts : list thread) (h : Z * Z) (d : list Z) : Prop :=
  local_page c0 ts h d ∨
  ∃ id key a seq hdr, key_hash128 key = h ∧ encode_header key (zlength d) seq = Some hdr ∧
    ts !! id = Some (SWrite a (hdr ++ d)).

(** A region with the pages [c0], none newer than the owner's records, and
    calls about to start. *)
Record race_start (c0 : gmap (Z * Z) page) (st : rstate) : Prop := {
  start_rep : region_rep (rs_region st) (rs_mem st) c0;
  start_seq b w pg : c0 !! (b, w) = Some pg → pg_seq pg ≤ seq_of (rs_region st) b w;
  start_lock : rs_lock st = None;
  start_calls id t : rs_threads st !! id = Some t → call_start (sr_geom (rs_region st)) t
}.

Lemma race_start_inv c0 st : race_start c0 st → race_inv (local_page c0 (rs_threads st)) st.
Proof.
  intros [Hr Hs Hl Hc]. pose proof (rr_geom _ _ _ Hr) as Hg. split.
  - done.
  - apply (rr_even _ _ _ Hr).
  - intros id t Ht. specialize (Hc _ _ Ht). rewrite Hl. by destruct t.
  - intros b w Hin. right. exists (c0 !! (b, w)). split; [by apply (rr_slots _ _ _ Hr)|].
    intros pg Hpg. split; [left; by exists b, w, pg|by eapply Hs].
  - intros id t Ht. specialize (Hc _ _ Ht). destruct t as [key data| | | | |key n ws| | |]; simpl in *; try done.
    + right. exists id, key. eauto.
    + subst ws. apply Forall_forall. intros w Hw. apply elem_of_seqZ in Hw.
      split; [by apply bucket_index_range|lia].
Qed.


(** A [read_local] that returns [True] while other [write_local] and
    [read_local] calls overlap it delivers a page stored under its key,
    provided the header it tested is still in the slot when it returns.  The
    code does not look at the header again, so this is the caller's risk. *)
Theorem unchanged_header_read_sound (c0 : gmap (Z * Z) page) (st st' : rstate) (id : nat)
    (key : string) (n w : Z) (hdr acc : list Z) (m' : mem) (r' : SlotRegion) (lock' : option nat)
    (Hst : race_start c0 st) (Hsteps : rtc race_step st st')
    (Ht : rs_threads st' !! id = Some (RCopy key n w hdr acc))
    (Hret : tstep id (rs_mem st') (rs_region st') (rs_lock st') (RCopy key n w hdr acc) =
      Some (m', r', lock', RRet (Some acc)))
    (Hsame : mem_read (rs_mem st')
      (slot_at (rs_region st') (bucket_index (sr_geom (rs_region st')) key) w) HEADER_SIZE = hdr) :
  zlength acc = n ∧ local_page c0 (rs_threads st) (key_hash128 key) acc.
Proof.
  pose proof (race_steps_inv _ _ _ (race_start_inv _ _ Hst) Hsteps) as Hinv.
  pose proof (ri_threads _ _ Hinv _ _ Ht) as (Hin & Hn & (seq & Hd & He & _) & Hacc).
  specialize (Hacc Hsame). simpl in Hret. destruct (zlength acc <? n) eqn:El; [done|]. bool_cases.
  assert (zlength acc = n) as Hz by lia. split; [done|]. rewrite Hacc, Hz.
  apply (matching_slot _ _ _ _ _ _ _ (ri_slots _ _ Hinv _ _ Hin)).
  apply slot_matches_true. rewrite Hsame. eauto.
Qed.

(** A [write_local] or [read_local] thread that nothing interrupts does
    what the sequential definitions say: the same result, the same region,
    and the same memory (the same bytes for the reader). *)
Theorem solo_thread_sequential (st : rstate) (id : nat) (key : string) (src dst n : Z)
    (Hg : geom_ok (sr_geom (rs_region st))) (Hn : 0 ≤ n) (Hout : outside (rs_region st) src n)
    (Hlock : rs_lock st = None) :
  (rs_threads st !! id = Some (WPick key (mem_read (rs_mem st) src n)) →
   let '(res, r', m') := write_local (rs_region st) (rs_mem st) key src n in
   let st' := run (replicate (Z.to_nat n + 4) id) st in
   rs_threads st' !! id = Some (WRet res) ∧ rs_region st' = r' ∧ rs_lock st' = None ∧
   ∀ x, rs_mem st' x = m' x) ∧
  (rs_threads st !! id = Some (RScan key n (seqZ 0 (ways (sr_geom (rs_region st))))) →
   let '(hit, m') := read_local (rs_region st) (rs_mem st) key dst n in
   run (replicate (Z.to_nat (ways (sr_geom (rs_region st))) + Z.to_nat n + 1) id) st =
     mk_rstate (rs_mem st) (rs_region st) (rs_lock st)
       (<[id := RRet (if hit then Some (mem_read m' dst n) else None)]> (rs_threads st))).
Proof.
  split; intros Ht; [by apply solo_write|].
  pose proof (scan_run id key n dst (rs_mem st) (rs_region st) (rs_lock st) _ _ Hn Ht) as Hs.
  rewrite length_seqZ in Hs. unfold read_local. destruct st as [m r lock ts]. simpl in *.
  by destruct (read_local_loop _ _ _ _ _ _ _) as [hit m'].
Qed.
End properties.

(** ** Concrete schedules *)

Module RaceExamples.
Import ExampleHash.

(** One slot for pages of two bytes; memory is zero. *)
Definition g1 : SlotGeometry := new_geometry 2 1 1.
Definition r1 : SlotRegion := new_region 4096 g1.

(** Write a page under a, read it, write a page under b: both keys share the slot. *)
Definition local_calls : rstate :=
  mk_rstate (λ _, 0) r1 None [WPick "a" [1; 2]; RScan "a" 2 [0]; WPick "b" [7; 8]].

Lemma local_calls_start : race_start ∅ local_calls.
Proof.
  split; simpl.
  - apply (new_region_empty 4096 2 1 1); [lia..|]. done.
  - intros b w pg. by rewrite lookup_empty.
  - done.
  - intros id t Ht. by do 3 (destruct id as [|id]; [simplify_eq/=; done|]).
Qed.

(** The reader tests the header, the second writer runs, the reader copies. *)
Definition torn_schedule : list nat := replicate 6 0%nat ++ [1%nat] ++ replicate 6 2%nat ++ replicate 3 1%nat.

Lemma torn_result : rs_threads (run torn_schedule local_calls) =
  [WRet (Ret (Some 0)); RRet (Some [7; 8]); WRet (Ret (Some 0))].
Proof. vm_compute. reflexivity. Qed.

Lemma stored_local_calls h d :
  stored_page ∅ (rs_threads local_calls) h d →
  (h = key_hash128 "a" ∧ d = [1; 2]) ∨ (h = key_hash128 "b" ∧ d = [7; 8]).
Proof.
  intros [[(b & w & pg & Hc & _)|(id & key & <- & Ht)]|(id & key & a & seq & hdr & _ & _ & Ht)].
  - by rewrite lookup_empty in Hc.
  - do 3 (destruct id as [|id]; [simplify_eq/=; auto|]). done.
  - by do 3 (destruct id as [|id]; [simplify_eq/=|]).
Qed.

(** [read_local] can report a hit with another key's page: the reader
    finds the header of a, [write_local] then gives the slot to b, and the
    reader copies b's bytes.  Only local calls are involved. *)
Theorem torn_read_dirty_hit :
  ∃ c0 st sched id key n bytes, race_start c0 st ∧
    rs_threads st !! id = Some (RScan key n (seqZ 0 (ways (sr_geom (rs_region st))))) ∧
    rs_threads (run sched st) !! id = Some (RRet (Some bytes)) ∧
    ¬ stored_page c0 (rs_threads st) (key_hash128 key) bytes.
Proof.
  exists ∅, local_calls, torn_schedule, 1%nat, "a", 2, [7; 8].
  split; [apply local_calls_start|]. split; [reflexivity|]. split; [by rewrite torn_result|].
  intros Hs. apply stored_local_calls in Hs as [[_ Hd]|[Hh _]]; [discriminate|].
  vm_compute in Hh. discriminate.
Qed.

(** A WRITE of b's page served while the slot holds a's. *)
Definition b_header : list Z := default [] (encode_header "b" 2 2).
Definition served_calls : rstate :=
  mk_rstate (λ _, 0) r1 None
    [WPick "a" [1; 2]; RScan "b" 2 [0]; SWrite 4096 (b_header ++ [7; 8])].
Definition served_schedule : list nat :=
  replicate 6 0%nat ++ replicate 64 2%nat ++ replicate 4 1%nat ++ replicate 2 2%nat.

Lemma served_result : rs_threads (run served_schedule served_calls) =
  [WRet (Ret (Some 0)); RRet (Some [1; 2]); SWrite 4162 []].
Proof. vm_compute. reflexivity. Qed.

(** A WRITE lands its even header before its payload, so a reader that
    runs while it is served accepts the header with the bytes of the page
    that was in the slot before, which nobody stored under the key. *)
Theorem served_write_dirty_hit :
  ∃ st sched id key n bytes, region_rep (rs_region st) (rs_mem st) ∅ ∧
    rs_threads st !! id = Some (RScan key n (seqZ 0 (ways (sr_geom (rs_region st))))) ∧
    rs_threads (run sched st) !! id = Some (RRet (Some bytes)) ∧
    ¬ stored_page ∅ (rs_threads st) (key_hash128 key) bytes.
Proof.
  exists served_calls, served_schedule, 1%nat, "b", 2, [1; 2].
  split; [apply (start_rep _ _ local_calls_start)|]. split; [reflexivity|].
  split; [by rewrite served_result|].
  intros [[(b & w & pg & Hc & _)|(id & key & Hh & Ht)]|(id & key & a & seq & hdr & Hh & Henc & Ht)].
  - by rewrite lookup_empty in Hc.
  - destruct id as [|[|[|id]]]; try done. injection Ht as <-. vm_compute in Hh. discriminate.
  - destruct id as [|[|[|id]]]; try done. injection Ht as _ Hb.
    apply app_inj_2 in Hb as [_ Hb]; [|done]. discriminate.
Qed.


Definition before_return : rstate := run (replicate 6 0%nat ++ replicate 3 1%nat) local_calls.
Definition a_header : list Z := default [] (encode_header "a" 2 2).

Lemma unchanged_header_read_sound_witness :
  zlength [1; 2] = 2 ∧ local_page ∅ (rs_threads local_calls) (key_hash128 "a") [1; 2].
Proof.
  apply (unchanged_header_read_sound ∅ local_calls before_return 1 "a" 2 0 a_header [1; 2]
    (rs_mem before_return) (rs_region before_return) (rs_lock before_return)).
  - apply local_calls_start.
  - apply run_steps.
  - vm_compute. reflexivity.
  - reflexivity.
  - vm_compute. reflexivity.
Defined.

Definition solo_state : rstate :=
  mk_rstate (mem_write (λ _, 0) 100 [1; 2]) r1 None [WPick "a" [1; 2]].

Lemma solo_thread_sequential_witness :
  rs_threads (run (replicate 6 0%nat) solo_state) !! 0%nat = Some (WRet (Ret (Some 0))).
Proof.
  pose proof (solo_thread_sequential solo_state 0 "a" 100 200 2) as H.
  assert ((write_local (rs_region solo_state) (rs_mem solo_state) "a" 100 2).1.1 = Ret (Some 0)) as Hw
    by (vm_compute; reflexivity).
  destruct H as [H _].
  - apply new_geometry_ok; lia.
  - lia.
  - right. vm_compute. congruence.
  - reflexivity.
  - specialize (H eq_refl). destruct (write_local _ _ _ _ _) as [[res r'] m']. simpl in Hw. subst res.
    apply H.
Defined.
End RaceExamples.
