(* ===== verification/Store.v ===== *)
(** [PeerCacheStore] ([store.py]): publish and fetch through the directory, the
    location caches, the storage tier, and the batch API SGLang calls.

    Operations act on the [world] for a node [me].  An [env] is what an
    operation meets: the clock, how long it takes, how its data transfers
    fare (reads and writes) and where temporary buffers are placed. *)
From S2P Require Import Prelude Bytes Hashlib HashRing Types Rpc Directory Runtime Pool Transport Config Metrics Keys Tier StorageServer World SlotStore.

Record env := mk_env {
  e_now : Z;
  e_seconds : Z;
  e_read : nat → attempt;
  e_write : nat → attempt;
  e_place : nat → Z
}.

(** ** Location caches *)

Definition with_dir_cache (c : client) (m : gmap string (DataLocation * Z)) : client :=
  mk_client (c_cfg c) (c_naming c) (c_dir_cache_ttl c) m (c_primed c) (c_primed_ttl c) (c_primed_cap c)
    (c_raw_keys c) (c_keyspace_detected c) (c_slot c) (c_peer_layouts c).

Definition with_primed (c : client) (m : gmap string (DataLocation * Z)) : client :=
  mk_client (c_cfg c) (c_naming c) (c_dir_cache_ttl c) (c_dir_cache c) m (c_primed_ttl c) (c_primed_cap c)
    (c_raw_keys c) (c_keyspace_detected c) (c_slot c) (c_peer_layouts c).

Definition with_keyspace (c : client) (raw detected : bool) : client :=
  mk_client (c_cfg c) (c_naming c) (c_dir_cache_ttl c) (c_dir_cache c) (c_primed c) (c_primed_ttl c)
    (c_primed_cap c) raw detected (c_slot c) (c_peer_layouts c).

(** An entry of a location cache that has not expired. *)
Definition fresh_entry (m : gmap string (DataLocation * Z)) (now : Z) (k : string) : option DataLocation :=
  match m !! k with
  | Some (loc, exp) => if exp >? now then Some loc else None
  | None => None
  end.

(** [out[miss_idx[j]] = fresh[j]] *)
Fixpoint fill {A} (hits fresh : list (option A)) : list (option A) :=
  match hits, fresh with
  | [], _ => []
  | Some x :: hits', _ => Some x :: fill hits' fresh
  | None :: hits', f :: fresh' => f :: fill hits' fresh'
  | None :: hits', [] => None :: fill hits' []
  end.

(** Keep the resident locations of a lookup until [exp]. *)
Definition cache_resident (m : gmap string (DataLocation * Z)) (exp : Z)
    (keys : list string) (locs : list (option DataLocation)) : gmap string (DataLocation * Z) :=
  foldl (λ m '(k, loc), match loc with
                        | Some l => if l_resident l then <[k := (l, exp)]> m else m
                        | None => m
                        end) m (zip keys locs).

Section store.
Context {RH : RingHash} {SI : SetIter} {HL : Hashlib}.

Definition _dir_get (c : client) (dc : DirectoryClient) (dir : cluster shard) (now : Z) (comp_keys : list string) :
    list (option DataLocation) * client * cluster shard :=
  if c_dir_cache_ttl c <=? 0 then
    let '(locs, dir) := Directory.get dc dir comp_keys in (locs, c, dir)
  else
    let hits := fresh_entry (c_dir_cache c) now <$> comp_keys in
    match filter (λ k, fresh_entry (c_dir_cache c) now k = None) comp_keys with
    | [] => (hits, c, dir)
    | miss_keys =>
        let '(fresh, dir) := Directory.get dc dir miss_keys in
        (fill hits fresh,
         with_dir_cache c (cache_resident (c_dir_cache c) (now + c_dir_cache_ttl c) miss_keys fresh), dir)
    end.

Definition _dir_cache_invalidate (c : client) (keys : list string) : client :=
  if c_dir_cache_ttl c <=? 0 then c
  else with_dir_cache c (foldl (λ m k, delete k m) (c_dir_cache c) keys).

Definition _prime (c : client) (now : Z) (comp_keys : list string) (locs : list (option DataLocation)) : client :=
  let m := if (c_primed_cap c <? size (c_primed c))%nat
           then filter (λ e, now < e.2.2) (c_primed c) else c_primed c in
  with_primed c (cache_resident m (now + c_primed_ttl c) comp_keys locs).

(** The loop of [_take_primed]: an entry is popped whether or not it expired. *)
Definition take_one (now : Z) (st : list (option DataLocation) * gmap string (DataLocation * Z)) (k : string) :
    list (option DataLocation) * gmap string (DataLocation * Z) :=
  (st.1 ++ [fresh_entry st.2 now k], delete k st.2).

Definition _take_primed (w : world) (me : string) (c : client) (now : Z) (comp_keys : list string) :
    list (option DataLocation) * world :=
  match w_tiers w !! me with
  | None => (replicate (length comp_keys) None, w)
  | Some t =>
      let '(out, primed) := foldl (take_one now) ([], c_primed c) comp_keys in
      let c := with_primed c primed in
      let saved := zlength (filter is_Some out) in
      let w := if saved =? 0 then w else meter w me (λ mt, inc mt "directory_lookups_saved" saved) in
      let miss_keys := (filter (λ p : string * option DataLocation, p.2 = None) (zip comp_keys out)).*1 in
      match miss_keys with
      | [] => (out, set_client w me c)
      | _ =>
          let '(fresh, c, dir) := _dir_get c (t_dc t) (w_dir w) now miss_keys in
          (fill out fresh, set_wdir (set_client w me c) dir)
      end
  end.

(** ** Promotion of pages that are on disk *)

(** The locations at the given indices become [None]. *)
Definition forget (locs : list (option DataLocation)) (idxs : list nat) : list (option DataLocation) :=
  foldl (λ ls i, <[i := None]> ls) locs idxs.

(** The assignments of a promote reply; an entry that does not parse raises
    after the earlier ones were made. *)
Fixpoint apply_promoted (locs : list (option DataLocation)) (promoted : list nat) (ps : list (nat * pyval)) :
    pyres unit * list (option DataLocation) * list nat :=
  match ps with
  | [] => (Ret tt, locs, promoted)
  | (i, nl) :: ps' =>
      match read_loc nl with
      | Raise e => (Raise e, locs, promoted)
      | Ret o => apply_promoted (<[i := o]> locs) (match o with Some _ => i :: promoted | None => promoted end) ps'
      end
  end.

Definition promote_local (me : string) (comp_keys : list string)
    (st : list (option DataLocation) * list nat * world) (i : nat) : list (option DataLocation) * list nat * world :=
  let '(locs, promoted, w) := st in
  let k := default ""%string (comp_keys !! i) in
  let '(out, w) := run_local w me [None] (λ s, _ensure_resident s [k]) in
  match head out with
  | Some (Some l) => (<[i := Some l]> locs, i :: promoted, w)
  | _ => (<[i := None]> locs, promoted, w)
  end.

Definition promote_remote (comp_keys : list string)
    (st : list (option DataLocation) * list nat * world) (g : string * list nat) :
    list (option DataLocation) * list nat * world :=
  let '(locs, promoted, w) := st in
  let '(owner, idxs) := g in
  match w_control w owner with
  | None => (forget locs idxs, promoted, w)
  | Some endpoint =>
      let keys := (λ i, default ""%string (comp_keys !! i)) <$> idxs in
      let '(r, w) := data_call w endpoint "data_promote" (VDict [("keys", VList (VStr <$> keys))]) in
      match resp ← r; v ← py_get resp "locations" (VList []); py_list v with
      | Raise _ => (forget locs idxs, promoted, w)
      | Ret newlocs =>
          match apply_promoted locs promoted (zip idxs newlocs) with
          | (Ret _, locs, promoted) => (locs, promoted, w)
          | (Raise _, locs, promoted) => (forget locs idxs, promoted, w)
          end
      end
  end.

(** The indices with a non-resident location, split by owner. *)
Definition non_resident (locs : list (option DataLocation)) : list (nat * string) :=
  omap (λ '(i, o), match o with
                   | Some l => if l_resident l then None else Some (i, l_node_id l)
                   | None => None
                   end) (imap pair locs).

(** [_resolve_non_resident]: the locations, the promoted indices and the world. *)
Definition _resolve_non_resident (w : world) (me : string) (comp_keys : list string)
    (locs : list (option DataLocation)) : list (option DataLocation) * list nat * world :=
  let nr := non_resident locs in
  let local_idx := (filter (λ e, e.2 = me) nr).*1 in
  let remote_by_owner := foldl (λ d e, group_add d e.2 e.1) [] (filter (λ e, e.2 ≠ me) nr) in
  let st := foldl (promote_local me comp_keys) (locs, [], w) local_idx in
  foldl (promote_remote comp_keys) st remote_by_owner.

(** ** Fetch through the directory *)

(** What happens to one key: nothing, a local copy, or a remote read. *)
Inductive plan :=
  | Skip
  | Copied (source : string)
  | Remote (loc : DataLocation) (op : MultiOp).

Definition copy_in (w : world) (me : string) (dst src n : Z) : world :=
  set_mem_of w me (memmove (mem_of w me) dst src n).

(** Hybrid clusters with two copies look into their own pool first. *)
Definition dual_write (c : client) : bool :=
  is_hybrid (c_cfg c) && one_of (field (c_cfg c) "write_policy") ["both"].

Definition plan_one (w : world) (me : string) (c : client) (promoted : bool) (key : string)
    (loc : option DataLocation) (ptr size : Z) : plan * world :=
  match loc with
  | None => (Skip, w)
  | Some l =>
      if negb (l_resident l) then (Skip, w)
      else if negb (l_length l =? size) then (Skip, w)
      else
        let '(al, w) := if dual_write c then run_local w me None (λ s, pool_address s key) else (None, w) in
        match al with
        | Some (addr, n) =>
            if n =? size then (Copied "local", copy_in w me ptr addr n)
            else if String.eqb (l_node_id l) me
            then (Copied (if promoted then "disk" else "local"), copy_in w me ptr (l_remote_addr l) (l_length l))
            else (Remote l (mk_multiop (l_rdma_endpoint l) ptr (l_remote_addr l) (l_length l)), w)
        | None =>
            if String.eqb (l_node_id l) me
            then (Copied (if promoted then "disk" else "local"), copy_in w me ptr (l_remote_addr l) (l_length l))
            else (Remote l (mk_multiop (l_rdma_endpoint l) ptr (l_remote_addr l) (l_length l)), w)
        end
  end.

Fixpoint plan_all (w : world) (me : string) (c : client) (promoted : list nat) (i : nat)
    (items : list (string * option DataLocation * Z * Z)) : list plan * world :=
  match items with
  | [] => ([], w)
  | (key, loc, ptr, size) :: items' =>
      let '(p, w) := plan_one w me c (bool_decide (i ∈ promoted)) key loc ptr size in
      let '(ps, w) := plan_all w me c promoted (S i) items' in (p :: ps, w)
  end.

(** [if node not in rail_eps: ...] for a remote read. *)
Definition plan_rail_step (acc : gmap string (list string) * gmap string (list Z)) (p : plan) :
    gmap string (list string) * gmap string (list Z) :=
  let '(eps, ks) := acc in
  match p with
  | Remote l _ =>
      match eps !! l_rdma_endpoint l with
      | Some _ => (eps, ks)
      | None => (<[l_rdma_endpoint l := endpoints l]> eps, <[l_rdma_endpoint l := rkeys l]> ks)
      end
  | _ => (eps, ks)
  end.

(** The per-node rail maps of the remote reads. *)
Definition plan_rails (ps : list plan) : gmap string (list string) * gmap string (list Z) :=
  foldl plan_rail_step (∅, ∅) ps.

Definition remote_op (p : plan) : option MultiOp := match p with Remote _ op => Some op | _ => None end.

(** The result and the source of every key, from the outcomes of the reads. *)
Fixpoint outcomes (promoted : list nat) (i : nat) (ps : list plan) (oks : list bool) :
    list (bool * option string) :=
  match ps with
  | [] => []
  | Skip :: ps' => (false, None) :: outcomes promoted (S i) ps' oks
  | Copied s :: ps' => (true, Some s) :: outcomes promoted (S i) ps' oks
  | Remote _ _ :: ps' =>
      match oks with
      | true :: oks' => (true, Some (if bool_decide (i ∈ promoted) then "disk" else "remote")%string)
                        :: outcomes promoted (S i) ps' oks'
      | false :: oks' => (false, None) :: outcomes promoted (S i) ps' oks'
      | [] => (false, None) :: outcomes promoted (S i) ps' []
      end
  end.

Definition record_fetch (mt : Metrics) (res : list (bool * option string)) (sizes : list Z) (seconds : Z) : Metrics :=
  foldl (λ mt '((ok, source), size), record_read mt ok (if (ok : bool) then size else 0) seconds source) mt
    (zip res sizes).

(** [_fetch] outside the slot-map mode. *)
Definition _fetch_directory (w : world) (me : string) (e : env) (comp_keys : list string) (ptrs sizes : list Z) :
    list bool * world :=
  match w_clients w !! me with
  | None => (replicate (length comp_keys) false, w)
  | Some c =>
      let '(locations, w) := _take_primed w me c (e_now e) comp_keys in
      let '(locations, promoted, w) := _resolve_non_resident w me comp_keys locations in
      let '(plans, w) := plan_all w me c promoted 0 (zip (zip (zip comp_keys locations) ptrs) sizes) in
      let '(eps, ks) := plan_rails plans in
      let '(oks, f) := batch_read_multi (w_fab w) me (n_rails_of w me) (omap remote_op plans) eps ks (e_read e) in
      let w := set_fab w f in
      let failed := zlength (filter (λ b, b = false) oks) in
      let w := if failed =? 0 then w else meter w me (λ mt, inc mt "read_failures" failed) in
      let res := outcomes promoted 0 plans oks in
      let w := meter w me (λ mt, record_fetch mt res sizes (e_seconds e)) in
      let results := res.*1 in
      let w := match w_clients w !! me with
               | Some c =>
                   let failed := (filter (λ p : string * bool, p.2 = false) (zip comp_keys results)).*1 in
                   set_client w me (_dir_cache_invalidate c failed)
               | None => w
               end in
      (results, w)
  end.

Definition _fetch (w : world) (me : string) (e : env) (comp_keys : list string) (ptrs sizes : list Z) :
    pyres (list bool) * world :=
  match w_clients w !! me with
  | None => (Raise RuntimeError, w)
  | Some c =>
      if is_slotmap (c_cfg c) then _fetch_slotmap w me comp_keys ptrs sizes (e_seconds e) (e_read e)
      else let '(res, w) := _fetch_directory w me e comp_keys ptrs sizes in (Ret res, w)
  end.

(** ** Publishing to the storage tier *)

(** A page waiting for its storage owner. *)
Record wpage := mk_wpage {
  wp_key : string;
  wp_len : Z;
  wp_ptr : Z;
  wp_idx : nat
}.

(** The WRITE target a reserved slot names. *)
Record target_slot := mk_target {
  ts_node : string;
  ts_rails : list string;
  ts_rkeys : list Z;
  ts_addr : Z;
  ts_len : Z
}.

(** Reading a slot of the prepare reply; [Ret None] is a refused page. *)
Definition read_slot (slot : pyval) : pyres (option target_slot) :=
  if negb (py_truthy slot) then Ret None
  else
    nk ← py_getitem slot "rdma_endpoint"; nk ← as_str nk;
    eps ← py_get slot "rail_endpoints" VNone; eps ← py_list (py_or eps (VList [VStr nk]));
    eps ← py_mapM as_str eps;
    rk ← py_getitem slot "rkey"; ks ← py_get slot "rail_rkeys" VNone; ks ← py_list (py_or ks (VList [rk]));
    ks ← py_mapM py_int ks;
    addr ← py_getitem slot "remote_addr"; addr ← py_int addr;
    n ← py_getitem slot "length"; n ← py_int n;
    Ret (Some (mk_target nk eps ks addr n)).

(** [zip(pages, slots)] without the refused ones. *)
Fixpoint accepted (pages : list wpage) (slots : list pyval) : pyres (list (wpage * target_slot)) :=
  match pages, slots with
  | p :: pages', s :: slots' =>
      o ← read_slot s; rest ← accepted pages' slots';
      Ret (match o with Some t => (p, t) :: rest | None => rest end)
  | _, _ => Ret []
  end.

Definition target_rails (ts : list target_slot) : gmap string (list string) * gmap string (list Z) :=
  foldl (λ '(eps, ks) t,
           match eps !! ts_node t with
           | Some _ => (eps, ks)
           | None => (<[ts_node t := ts_rails t]> eps, <[ts_node t := ts_rkeys t]> ks)
           end) (∅, ∅) ts.

(** [resp.get("ok") or []] *)
Definition ok_flags (resp : pyval) : pyres (list bool) :=
  v ← py_get resp "ok" VNone; l ← py_list (py_or v (VList [])); Ret (py_truthy <$> (l : list pyval)).

(** The commit of the pages whose WRITE succeeded: the committed keys. *)
Definition commit_call (w : world) (endpoint : string) (keys : list string) : list string * world :=
  match keys with
  | [] => ([], w)
  | _ =>
      let '(r, w) := data_call w endpoint "data_commit_writes" (VDict [("keys", VList (VStr <$> keys))]) in
      match resp ← r; ok_flags resp with
      | Ret oks => ((filter (λ p : string * bool, p.2 = true) (zip keys oks)).*1, w)
      | Raise _ => ([], w)
      end
  end.

(** The RPC copy of the pages that were not committed: the pages it stored. *)
Definition ingest_call (w : world) (me endpoint : string) (pages : list wpage) : list wpage * world :=
  match pages with
  | [] => ([], w)
  | _ =>
      let m := mem_of w me in
      let arg := VDict [("pages", VList ((λ p, VDict [("key", VStr (wp_key p));
                    ("data", VBytes (mem_read m (wp_ptr p) (wp_len p)))]) <$> pages))] in
      let '(r, w) := data_call w endpoint "data_ingest" arg in
      match resp ← r; ok_flags resp with
      | Ret oks => ((filter (λ p : wpage * bool, p.2 = true) (zip pages oks)).*1, w)
      | Raise _ => ([], w)
      end
  end.

Definition prepare_arg (pages : list wpage) : pyval :=
  VDict [("pages", VList ((λ p, VDict [("key", VStr (wp_key p)); ("length", VInt (wp_len p))]) <$> pages))].

(** The [write_ok] dictionary of one owner, its committed keys and their
    positions: one entry per key, so a key twice in the batch counts once, with
    the outcome of its last WRITE. *)
Definition committed_idx (idx_of : list (string * nat)) (committed : list string)
    (outcomes : list (wpage * target_slot * bool)) : list nat :=
  let write_ok := foldl (λ d '(p, _, ok), od_set d (wp_key p) ok) [] outcomes in
  omap (λ '(k, ok), if (ok : bool) && bool_decide (k ∈ committed) then od_get idx_of k else None) write_ok.

(** One storage owner: prepare, write, commit, and copy what is left.
    [results] and [bytes] are updated; [idx_of] is [key_to_idx]. *)
Definition publish_owner (me : string) (e : env) (idx_of : list (string * nat)) (sizes : list Z)
    (w : world) (results : list bool) (bytes : Z) (owner : string) (pages : list wpage) :
    pyres (list bool * Z) * world :=
  match w_control w owner with
  | None => (Ret (results, bytes), w)
  | Some endpoint =>
      let '(r, w) := data_call w endpoint "data_prepare_writes" (prepare_arg pages) in
      match prep ← r; v ← py_get prep "slots" VNone; py_list (py_or v (VList [])) with
      | Raise _ => (Ret (results, bytes), w)
      | Ret slots =>
          match accepted pages slots with
          | Raise x => (Raise x, w)
          | Ret acc =>
              let ops := (λ '(p, t), mk_multiop (ts_node t) (wp_ptr p) (ts_addr t) (ts_len t)) <$> acc in
              let '(eps, ks) := target_rails acc.*2 in
              let '(oks, f) := batch_write_multi (w_fab w) me (n_rails_of w me) ops eps ks (e_write e) in
              let w := set_fab w f in
              let written := (filter (λ p : wpage * target_slot * bool, p.2 = true) (zip acc oks)).*1.*1 in
              let '(committed, w) := commit_call w endpoint (wp_key <$> written) in
              let done_idx := committed_idx idx_of committed (zip acc oks) in
              let results := foldl (λ res i, <[i := true]> res) results done_idx in
              let bytes := bytes + sumZ ((λ i, default 0 (sizes !! i)) <$> done_idx) in
              let left := filter (λ p, results !! wp_idx p ≠ Some true) pages in
              let '(stored, w) := ingest_call w me endpoint left in
              (Ret (foldl (λ res p, <[wp_idx p := true]> res) results stored,
                    bytes + sumZ (wp_len <$> stored)), w)
          end
      end
  end.

Fixpoint publish_owners (me : string) (e : env) (idx_of : list (string * nat)) (sizes : list Z)
    (w : world) (results : list bool) (bytes : Z) (pending : list (string * list wpage)) :
    pyres (list bool * Z) * world :=
  match pending with
  | [] => (Ret (results, bytes), w)
  | (owner, pages) :: pending' =>
      match publish_owner me e idx_of sizes w results bytes owner pages with
      | (Raise x, w) => (Raise x, w)
      | (Ret (results, bytes), w) => publish_owners me e idx_of sizes w results bytes pending'
      end
  end.

(** The pages that are not in the directory yet, grouped by storage owner. *)
Definition pending_pages (rt : NodeRuntime) (items : list (string * Z * Z * bool)) : list (string * list wpage) :=
  foldl (λ d '(i, (key, ptr, size, existing)),
           if (existing : bool) then d
           else match data_owner rt key with
                | None => d
                | Some owner => group_add d owner (mk_wpage key size ptr i)
                end) [] (imap pair items).

Definition _publish_storage (w : world) (me : string) (e : env) (comp_keys : list string) (ptrs sizes : list Z) :
    pyres (list bool) * world :=
  match w_tiers w !! me with
  | None => (Raise RuntimeError, w)
  | Some t =>
      if bool_decide (storage_nodes (t_rt t) = []) then (Ret (replicate (length comp_keys) false), w)
      else
        let '(existing, dir) := Directory.dir_exists (t_dc t) (w_dir w) comp_keys in
        let w := set_wdir w dir in
        let idx_of := foldl (λ d '(i, k), od_set d k i) [] (imap pair comp_keys) in
        let pending := pending_pages (t_rt t) (zip (zip (zip comp_keys ptrs) sizes) existing) in
        match publish_owners me e idx_of sizes w existing 0 pending with
        | (Raise x, w) => (Raise x, w)
        | (Ret (results, bytes), w) =>
            (Ret results, meter w me (λ mt, record_write mt bytes (e_seconds e)))
        end
  end.

(** [_ensure_published_pool]; the pool's buffer is allocated at [base_addr]. *)
Definition _ensure_published_pool (w : world) (me : string) (tp_size base_addr : Z) : world :=
  match w_clients w !! me, w_tiers w !! me, f_procs (w_fab w) !! me with
  | Some c, Some t, Some p =>
      if is_inference_client_only (c_cfg c) then w
      else if is_slotmap (c_cfg c) then _ensure_slot_region w me tp_size base_addr
      else
        match t_pool t with
        | Some _ => w
        | None =>
            let cap := Z.max 1 (int_of (c_cfg c) "global_segment_size" / tp_size) in
            let '(mr, p) := register_mr p base_addr cap in
            let pool := new_pool base_addr cap (mr_rkey mr) (Some (mr_rkeys mr)) in
            let t := mk_tier (t_ident t) (t_rt t) (Some pool) (t_disk t) (t_key_len t) (t_metrics t) in
            mk_world (<[me := t]> (w_tiers w)) (w_clients w) (w_dir w) (set_proc (w_fab w) me p) (w_control w)
              (w_node_at w) (w_link w)
        end
  | _, _, _ => w
  end.

(** ** The publish dispatch *)

Definition publish_local_pool (w : world) (me : string) (e : env) (comp_keys : list string) (ptrs sizes : list Z)
    (update_directory : bool) : pyres (list bool) * world :=
  run_local w me (Raise RuntimeError) (λ s, _publish_p2p s comp_keys ptrs sizes update_directory (e_seconds e)).

Definition _publish (w : world) (me : string) (e : env) (comp_keys : list string) (ptrs sizes : list Z) :
    pyres (list bool) * world :=
  match w_clients w !! me, w_tiers w !! me with
  | Some c, Some t =>
      let mode := field (c_cfg c) "mode" in
      if one_of mode ["slotmap"] then _publish_slotmap w me comp_keys ptrs sizes (e_seconds e) (e_read e) (e_write e)
      else if one_of mode ["p2p"] then publish_local_pool w me e comp_keys ptrs sizes true
      else if one_of mode ["centralized"] then _publish_storage w me e comp_keys ptrs sizes
      else
        let policy := field (c_cfg c) "write_policy" in
        let has_storage := negb (bool_decide (storage_nodes (t_rt t) = [])) in
        if one_of policy ["local"] || negb has_storage then publish_local_pool w me e comp_keys ptrs sizes true
        else if one_of policy ["storage"] then _publish_storage w me e comp_keys ptrs sizes
        else
          match _publish_storage w me e comp_keys ptrs sizes with
          | (Raise x, w) => (Raise x, w)
          | (Ret storage_res, w) =>
              match publish_local_pool w me e comp_keys ptrs sizes false with
              | (Raise x, w) => (Raise x, w)
              | (Ret local_res, w) => (Ret (zip_with orb storage_res local_res), w)
              end
          end
  | _, _ => (Raise RuntimeError, w)
  end.

(** ** The batch API *)

(** The page buffers of a v1 call: [None] when the host pool has none. *)
Abbreviation buffer_meta := (option (list Z * list Z)).

Definition v1_call (op : world → list string → list Z → list Z → pyres (list bool) * world)
    (w : world) (nm : naming) (keys : list string) (meta : buffer_meta) : pyres (list bool) * world :=
  let failed := (Ret (replicate (length keys) false), w) in
  match meta with
  | None => failed
  | Some (ptrs, sizes) =>
      let '(comp_keys, mult) := _component_keys nm keys in
      if negb ((length comp_keys =? length ptrs)%nat && (length ptrs =? length sizes)%nat) then failed
      else
        match op w comp_keys ptrs sizes with
        | (Ret comp, w) => (Ret (_page_results comp mult), w)
        | (Raise x, w) => (Raise x, w)
        end
  end.

Definition naming_of (w : world) (me : string) : naming :=
  match w_clients w !! me with Some c => c_naming c | None => mk_naming "" false "" "" end.

Definition batch_set_v1 (w : world) (me : string) (e : env) (keys : list string) (meta : buffer_meta) :
    pyres (list bool) * world :=
  v1_call (λ w ks ptrs sizes, _publish w me e ks ptrs sizes) w (naming_of w me) keys meta.

Definition batch_get_v1 (w : world) (me : string) (e : env) (keys : list string) (meta : buffer_meta) :
    pyres (list bool) * world :=
  v1_call (λ w ks ptrs sizes, _fetch w me e ks ptrs sizes) w (naming_of w me) keys meta.

(** [_dir_get] of the node. *)
Definition world_dir_get (w : world) (me : string) (now : Z) (keys : list string) :
    list (option DataLocation) * world :=
  match w_clients w !! me, w_tiers w !! me with
  | Some c, Some t =>
      let '(locs, c, dir) := _dir_get c (t_dc t) (w_dir w) now keys in (locs, set_wdir (set_client w me c) dir)
  | _, _ => (replicate (length keys) None, w)
  end.

Definition count_exists (w : world) (me : string) (n : nat) : world :=
  meter w me (λ mt, let mt := inc mt "exists_requests" 1 in
                    if (n =? 0)%nat then mt else inc mt "exists_pages_found" (Z.of_nat n)).

Definition update_client (w : world) (me : string) (f : client → client) : world :=
  match w_clients w !! me with Some c => set_client w me (f c) | None => w end.

(** [batch_exists]: the number of leading pages present.  The background
    promotion it may start is [prefetch]. *)
Definition batch_exists (w : world) (me : string) (e : env) (keys : list string) : pyres nat * world :=
  match w_clients w !! me with
  | None => (Raise RuntimeError, w)
  | Some c =>
      let '(comp_keys, mult) := _lookup_keys (c_naming c) (c_raw_keys c) keys in
      if is_slotmap (c_cfg c) then
        match _exists_slotmap w me comp_keys (e_read e) with
        | (Raise x, w) => (Raise x, w)
        | (Ret present, w) =>
            let n := present_pages (length keys) present mult in
            let w := count_exists w me n in
            (Ret n, if (n =? 0)%nat then w else update_client w me (λ c, with_keyspace c (c_raw_keys c) true))
        end
      else
        let '(locs, w) := world_dir_get w me (e_now e) comp_keys in
        let n := _hit_prefix locs mult in
        let '(comp_keys, mult, locs, n, w) :=
          if negb (n =? 0)%nat then
            (comp_keys, mult, locs, n, update_client w me (λ c, with_keyspace c (c_raw_keys c) true))
          else if c_keyspace_detected c then (comp_keys, mult, locs, n, w)
          else
            let alt_raw := negb (c_raw_keys c) in
            let '(alt_keys, alt_mult) := if alt_raw then (keys, 1%nat) else _component_keys (c_naming c) keys in
            let '(alt_locs, w) := world_dir_get w me (e_now e) alt_keys in
            let alt_n := _hit_prefix alt_locs alt_mult in
            if (alt_n =? 0)%nat then (comp_keys, mult, locs, n, w)
            else (alt_keys, alt_mult, alt_locs, alt_n, update_client w me (λ c, with_keyspace c alt_raw true)) in
        let w := count_exists w me n in
        let hit := (n * mult)%nat in
        (Ret n, if (hit =? 0)%nat then w
                else update_client w me (λ c, _prime c (e_now e) (take hit comp_keys) (take hit locs)))
  end.

(** [_prefetch_async]: the background promotion of keys reported present. *)
Definition prefetch (w : world) (me : string) (comp_keys : list string) : world :=
  match w_tiers w !! me with
  | None => w
  | Some t =>
      let '(locs, dir) := Directory.get (t_dc t) (w_dir w) comp_keys in
      (_resolve_non_resident (set_wdir w dir) me comp_keys locs).2
  end.

(** A value or destination of the generic API: a raw address, a tensor-like
    object, or bytes, which are copied to a buffer. *)
Inductive pyobj :=
  | OPtr (addr : Z)
  | OTensor (addr : Z) (nbytes : option Z)
  | OBytes (bs : list Z).

(** [_obj_ptr_size] with the buffer for bytes at [buf]. *)
Definition _obj_ptr_size (m : mem) (buf : Z) (x : pyobj) : Z * option Z * mem :=
  match x with
  | OPtr a => (a, None, m)
  | OTensor a n => (a, n, m)
  | OBytes bs => (buf, Some (zlength bs), mem_write m buf bs)
  end.

(** [_ptrs_sizes]; a size that is neither given nor known fails the call at
    once here, while the source passes [None] on and fails at its first use. *)
Fixpoint _ptrs_sizes (m : mem) (place : nat → Z) (i : nat) (xs : list pyobj) (sizes : option (list Z)) :
    pyres (list Z * list Z) * mem :=
  match xs with
  | [] => (Ret ([], []), m)
  | x :: xs' =>
      let '(p, n, m) := _obj_ptr_size m (place i) x in
      let size := match sizes with Some l => l !! i | None => n end in
      match size with
      | None => (Raise (match sizes with Some _ => IndexError | None => TypeError end), m)
      | Some size =>
          match _ptrs_sizes m place (S i) xs' sizes with
          | (Ret (ps, ss), m) => (Ret (p :: ps, size :: ss), m)
          | (Raise x, m) => (Raise x, m)
          end
      end
  end.

Definition batch_set (w : world) (me : string) (e : env) (keys : list string)
    (values target_locations : option (list pyobj)) (target_sizes : option (list Z)) : pyres bool * world :=
  let w := update_client w me (λ c, with_keyspace c true true) in
  match (match target_locations with Some l => Some l | None => values end) with
  | None => (Ret false, w)
  | Some src =>
      let '(r, m) := _ptrs_sizes (mem_of w me) (e_place e) 0 src target_sizes in
      let w := set_mem_of w me m in
      match r with
      | Raise x => (Raise x, w)
      | Ret (ptrs, sizes) =>
          match _publish w me e (_tag_keys (naming_of w me) keys) ptrs sizes with
          | (Ret res, w) => (Ret (forallb id res), w)
          | (Raise x, w) => (Raise x, w)
          end
      end
  end.

(** [batch_get]: which destinations were filled. *)
Definition batch_get (w : world) (me : string) (e : env) (keys : list string)
    (target_locations : option (list pyobj)) (target_sizes : option (list Z)) :
    pyres (list (option pyobj)) * world :=
  let w := update_client w me (λ c, with_keyspace c true true) in
  match target_locations with
  | None => (Ret (replicate (length keys) None), w)
  | Some dsts =>
      let '(r, m) := _ptrs_sizes (mem_of w me) (e_place e) 0 dsts target_sizes in
      let w := set_mem_of w me m in
      match r with
      | Raise x => (Raise x, w)
      | Ret (ptrs, sizes) =>
          match _fetch w me e (_tag_keys (naming_of w me) keys) ptrs sizes with
          | (Ret oks, w) => (Ret (zip_with (λ d (ok : bool), if ok then Some d else None) dsts oks), w)
          | (Raise x, w) => (Raise x, w)
          end
      end
  end.

(** The single-key wrappers. *)
Definition set_ (w : world) (me : string) (e : env) (key : string) (value target_location : option pyobj)
    (target_sizes : option Z) : pyres bool * world :=
  batch_set w me e [key] ((λ v, [v]) <$> value) ((λ v, [v]) <$> target_location) ((λ n, [n]) <$> target_sizes).

Definition get_ (w : world) (me : string) (e : env) (key : string) (target_location : option pyobj)
    (target_sizes : option Z) : pyres (option pyobj) * world :=
  match batch_get w me e [key] ((λ v, [v]) <$> target_location) ((λ n, [n]) <$> target_sizes) with
  | (Ret (o :: _), w) => (Ret o, w)
  | (Ret [], w) => (Raise IndexError, w)
  | (Raise x, w) => (Raise x, w)
  end.

Definition exists_ (w : world) (me : string) (e : env) (key : string) : pyres bool * world :=
  match batch_exists w me e [key] with
  | (Ret n, w) => (Ret (0 <? Z.of_nat n), w)
  | (Raise x, w) => (Raise x, w)
  end.
End store.
