(* ===== verification/StoreV2.v ===== *)
(** The v2 calls of [PeerCacheStore] ([store.py]): batched set, get and exists
    over several host pools (the KV pool and sidecar pools).

    What the host application provides for a transfer is part of the transfer:
    its page keys, the buffers [get_page_buffer_meta] returns for it ([None]
    when no such pool is registered), whether the registered draft pool is an
    MLA one, and its hit policy. *)
From S2P Require Import Prelude Bytes Hashlib HashRing Types Rpc Directory Runtime Pool DiskStore Transport Config Metrics Keys Tier StorageServer World SlotStore Store.

Record PoolTransfer := mk_transfer {
  tr_name : string;
  tr_keys : option (list string);
  tr_meta : option (list Z * list Z);
  tr_draft_mla : bool;
  tr_all_pages : bool
}.

Section v2.
Context {RH : RingHash} {SI : SetIter} {HL : Hashlib}.

(** [self._v2_component_keys(t)], with [transfer.keys or []]. *)
Definition transfer_keys (w : world) (me : string) (t : PoolTransfer) : list string * nat :=
  _v2_component_keys (naming_of w me) (tr_draft_mla t) (tr_name t) (default [] (tr_keys t)).

(** Keys, buffers and packing of one transfer; the packed buffers are where
    [e_place] puts them. *)
Definition transfer_buffers (w : world) (me : string) (e : env) (t : PoolTransfer) :
    pyres (list Z * list Z) * world :=
  match tr_meta t with
  | None => (Raise AttributeError, w)
  | Some (ptrs, sizes) =>
      let '(r, m) := _pack_multi_buffer (mem_of w me) (e_place e) (transfer_keys w me t).1 ptrs sizes in
      (r, set_mem_of w me m)
  end.

(** The loop over the transfers, with the results per pool name. *)
Fixpoint each_transfer (f : world → env → PoolTransfer → pyres (list bool) * world) (w : world) (es : nat → env)
    (i : nat) (ts : list PoolTransfer) (results : list (string * list bool)) :
    pyres (list (string * list bool)) * world :=
  match ts with
  | [] => (Ret results, w)
  | t :: ts' =>
      match f w (es i) t with
      | (Raise x, w) => (Raise x, w)
      | (Ret pages, w) => each_transfer f w es (S i) ts' (od_set results (tr_name t) pages)
      end
  end.

Definition set_transfer (me : string) (w : world) (e : env) (t : PoolTransfer) : pyres (list bool) * world :=
  let '(comp_keys, mult) := transfer_keys w me t in
  match transfer_buffers w me e t with
  | (Raise x, w) => (Raise x, w)
  | (Ret (p_ptrs, p_sizes), w) =>
      match _publish w me e comp_keys p_ptrs p_sizes with
      | (Raise x, w) => (Raise x, w)
      | (Ret comp, w) => (Ret (_page_results comp mult), w)
      end
  end.

Definition get_transfer (me : string) (w : world) (e : env) (t : PoolTransfer) : pyres (list bool) * world :=
  let '(comp_keys, mult) := transfer_keys w me t in
  match transfer_buffers w me e t with
  | (Raise x, w) => (Raise x, w)
  | (Ret (p_ptrs, p_sizes), w) =>
      match _fetch w me e comp_keys p_ptrs p_sizes with
      | (Raise x, w) => (Raise x, w)
      | (Ret comp, w) =>
          let '(ptrs, sizes) := default ([], []) (tr_meta t) in
          let '(m, comp) := _scatter_multi_buffer (mem_of w me) comp_keys ptrs sizes p_ptrs comp in
          (Ret (_page_results comp mult), set_mem_of w me m)
      end
  end.

Definition batch_set_v2 (w : world) (me : string) (es : nat → env) (transfers : list PoolTransfer) :
    pyres (list (string * list bool)) * world :=
  each_transfer (set_transfer me) w es 0 transfers [].

Definition batch_get_v2 (w : world) (me : string) (es : nat → env) (transfers : list PoolTransfer) :
    pyres (list (string * list bool)) * world :=
  each_transfer (get_transfer me) w es 0 transfers [].

(** The loop of [batch_exists_v2]: pages usable so far and pages per pool. *)
Fixpoint exists_transfers (w : world) (me : string) (now : Z) (kv_pages final_pages : nat)
    (hit_count : list (string * nat)) (ts : list PoolTransfer) : nat * list (string * nat) * world :=
  match ts with
  | [] => (final_pages, hit_count, w)
  | t :: ts' =>
      if (final_pages =? 0)%nat then (final_pages, hit_count, w)
      else
        let '(comp_keys, mult) := transfer_keys w me t in
        let '(locs, w) := world_dir_get w me now comp_keys in
        let w := update_client w me (λ c, _prime c now comp_keys locs) in
        let boundary := v2_boundary (tr_all_pages t) kv_pages mult locs (length <$> tr_keys t) in
        let hit_count := if (boundary =? 0)%nat then hit_count else od_set hit_count (tr_name t) boundary in
        exists_transfers w me now kv_pages (Nat.min final_pages boundary) hit_count ts'
  end.

(** [PoolTransferResult(final_pages, hit_count)] *)
Definition batch_exists_v2 (w : world) (me : string) (e : env) (keys : list string) (pool_transfers : list PoolTransfer) :
    pyres (nat * list (string * nat)) * world :=
  match batch_exists w me e keys with
  | (Raise x, w) => (Raise x, w)
  | (Ret kv_pages, w) =>
      let hit_count := if (kv_pages =? 0)%nat then [] else [("kv", kv_pages)] in
      let '(final_pages, hit_count, w) := exists_transfers w me (e_now e) kv_pages kv_pages hit_count pool_transfers in
      (Ret (final_pages, hit_count), w)
  end.

(** ** Lookups *)

(** All these components have a location. *)
Definition all_found (dc : DirectoryClient) (d : cluster shard) (ks : list string) (n : nat) : Prop :=
  ∀ j k, (j < n)%nat → ks !! j = Some k → is_Some (dir_answer dc d ks k).

Lemma all_found_mono dc d ks n n' : (n' ≤ n)%nat → all_found dc d ks n → all_found dc d ks n'.
Proof. intros Hle H j k Hj. apply H. lia. Qed.

(** What lookups depend on, and no call below changes. *)
Record lookup_state (me : string) (w : world) (d : cluster shard) (dc : DirectoryClient) (nm : naming) : Prop := {
  ls_dir : w_dir w = d;
  ls_wf : shards_wf d;
  ls_tier : t_dc <$> w_tiers w !! me = Some dc;
  ls_client : ∃ c, w_clients w !! me = Some c ∧ c_dir_cache_ttl c ≤ 0 ∧ c_naming c = nm
}.

(** With the location cache off, a lookup is a directory lookup. *)
Lemma world_dir_get_eq me w d dc nm now ks :
  lookup_state me w d dc nm → world_dir_get w me now ks = (dir_answer dc d ks <$> ks, w).
Proof.
  intros [<- Hwf (t & Ht & ->)%fmap_Some (c & Hc & Httl & _)]. unfold world_dir_get, _dir_get.
  rewrite Hc, Ht, (proj2 (Z.leb_le _ _) Httl), get_spec by done. f_equal. unfold set_client, set_wdir. simpl.
  rewrite insert_id by done. by destruct w.
Qed.

Lemma update_client_lookup me w d dc nm f :
  (∀ c, c_dir_cache_ttl (f c) = c_dir_cache_ttl c ∧ c_naming (f c) = c_naming c) →
  lookup_state me w d dc nm → lookup_state me (update_client w me f) d dc nm.
Proof.
  intros Hf [H1 H2 H3 (c & Hc & Httl & Hnm)]. unfold update_client. rewrite Hc. destruct (Hf c) as [F1 F2].
  split; try done. exists (f c). simpl. rewrite lookup_insert_eq, F1, F2. done.
Qed.

Lemma meter_lookup me w d dc nm f : lookup_state me w d dc nm → lookup_state me (meter w me f) d dc nm.
Proof.
  intros [H1 H2 H3 H4]. unfold meter, run_local, local_of.
  destruct (w_tiers w !! me) as [t|] eqn:Et; [|done]. simpl.
  destruct (f_procs (w_fab w) !! me) as [p|]; simpl; split; try done; simpl; [|by rewrite Et].
  rewrite lookup_insert_eq. exact H3.
Qed.

Lemma hit_prefix_found {A} (locs : list (option A)) mult n : ∀ i j o,
  (i + j < hit_prefix_from i locs mult n * mult)%nat → locs !! j = Some o → is_Some o.
Proof.
  induction locs as [|[x|] locs IH]; intros i j o Hj Ho; [done|..]; simpl in Hj.
  - destruct j as [|j]; [injection Ho as <-; by eexists|]. apply (IH (S i) j o); [lia|done].
  - exfalso. destruct mult as [|mult]; [lia|].
    pose proof (Nat.Div0.mul_div_le i (S mult)). lia.
Qed.

Lemma prefix_all_found dc d ks mult :
  all_found dc d ks (_hit_prefix (dir_answer dc d ks <$> ks) mult * mult).
Proof.
  intros j k Hj Hk. apply (hit_prefix_found (dir_answer dc d ks <$> ks) mult (length (dir_answer dc d ks <$> ks) / mult)%nat 0 j); [exact Hj|].
  by rewrite list_lookup_fmap, Hk.
Qed.

(** [batch_exists] counts pages that are all there, in one of the keyspaces. *)
Lemma batch_exists_found me w d dc nm c e keys n w' :
  lookup_state me w d dc nm → w_clients w !! me = Some c → is_slotmap (c_cfg c) = false →
  batch_exists w me e keys = (Ret n, w') →
  lookup_state me w' d dc nm ∧
  ∃ raw, let '(ks, mult) := _lookup_keys nm raw keys in all_found dc d ks (n * mult).
Proof.
  intros Hs Hc Hm. destruct (ls_client _ _ _ _ _ Hs) as (c0 & Hc0 & Httl & Hnm). rewrite Hc in Hc0. injection Hc0 as <-.
  unfold batch_exists. rewrite Hc, Hm, Hnm.
  destruct (_lookup_keys nm (c_raw_keys c) keys) as [ks mult] eqn:Ek. rewrite (world_dir_get_eq me w d dc nm) by done.
  set (n0 := _hit_prefix _ _).
  assert (∀ hit w2 f, lookup_state me w2 d dc nm →
    (∀ c, c_dir_cache_ttl (f c) = c_dir_cache_ttl c ∧ c_naming (f c) = c_naming c) →
    lookup_state me (if (hit =? 0)%nat then w2 else update_client w2 me f) d dc nm) as Hend.
  { intros hit w2 f H2 Hf. destruct (hit =? 0)%nat; [done|by apply update_client_lookup]. }
  destruct (n0 =? 0)%nat eqn:E0; cbn [negb].
  2:{ intros [= <- <-]. split; [apply Hend; [|done]; by apply meter_lookup, update_client_lookup|].
      exists (c_raw_keys c). rewrite Ek. apply prefix_all_found. }
  destruct (c_keyspace_detected c).
  { intros [= <- <-]. split; [apply Hend; [|done]; by apply meter_lookup|]. exists (c_raw_keys c). rewrite Ek. apply prefix_all_found. }
  assert ((if negb (c_raw_keys c) then (keys, 1%nat) else _component_keys nm keys) = _lookup_keys nm (negb (c_raw_keys c)) keys)
    as -> by done.
  destruct (_lookup_keys nm (negb (c_raw_keys c)) keys) as [ks' mult'] eqn:Ek'.
  rewrite (world_dir_get_eq me w d dc nm) by done. destruct (_hit_prefix (_ <$> ks') mult' =? 0)%nat eqn:E1.
  - intros [= <- <-]. split; [apply Hend; [|done]; by apply meter_lookup|]. exists (c_raw_keys c). rewrite Ek. apply prefix_all_found.
  - intros [= <- <-]. split; [apply Hend; [|done]; by apply meter_lookup, update_client_lookup|].
    exists (negb (c_raw_keys c)). rewrite Ek'. apply prefix_all_found.
Qed.

(** ** The page boundary of a pool *)

Lemma first_missing_ok ok : ∀ n i j, (i ≤ j < first_missing n i ok)%nat → ok j = true.
Proof.
  induction n as [|n IH]; intros i j Hj; simpl in Hj; [lia|].
  destruct (ok i) eqn:E; [|lia]. destruct (decide (j = i)) as [->|]; [done|]. apply (IH (S i)). lia.
Qed.

Lemma first_missing_le ok n i : (first_missing n i ok ≤ i + n)%nat.
Proof. revert i. induction n as [|n IH]; intros i; simpl; [lia|]. destruct (ok i); [|lia]. specialize (IH (S i)). lia. Qed.

Lemma forallb_lookup {A} (P : A → bool) (l : list A) i x : forallb P l = true → l !! i = Some x → P x = true.
Proof. intros H Hx. eapply forallb_forall; [exact H|]. by eapply list_elem_of_In, list_elem_of_lookup_2. Qed.

(** What the boundary of a pool promises about its components. *)
Definition pool_found (dc : DirectoryClient) (d : cluster shard) (nm : naming) (t : PoolTransfer) (pages : nat) : Prop :=
  let '(ks, mult) := _v2_component_keys nm (tr_draft_mla t) (tr_name t) (default [] (tr_keys t)) in
  if tr_all_pages t then all_found dc d ks (pages * mult)
  else all_found dc d ks (Nat.max 1 (length (default [] (tr_keys t)))).

Lemma boundary_found dc d nm t kv pages :
  let '(ks, mult) := _v2_component_keys nm (tr_draft_mla t) (tr_name t) (default [] (tr_keys t)) in
  (pages ≤ v2_boundary (tr_all_pages t) kv mult (dir_answer dc d ks <$> ks) (length <$> tr_keys t))%nat →
  (0 < pages)%nat → pool_found dc d nm t pages.
Proof.
  unfold pool_found. destruct (_v2_component_keys _ _ _ _) as [ks mult]. intros Hle Hpos.
  unfold v2_boundary in Hle. destruct (tr_all_pages t).
  - intros j k Hj Hk. destruct mult as [|mult]; [lia|].
    assert (page_exists (dir_answer dc d ks <$> ks) (S mult) (j / S mult) = true) as Hp.
    { eapply first_missing_ok. split; [apply Nat.le_0_l|]. eapply Nat.lt_le_trans; [|exact Hle].
      apply Nat.Div0.div_lt_upper_bound. lia. }
    unfold page_exists in Hp. apply (bool_decide_eq_true (is_Some (dir_answer dc d ks k))).
    apply (forallb_lookup _ _ (j mod S mult) (dir_answer dc d ks k) Hp).
    pose proof (Nat.div_mod_eq j (S mult)). pose proof (Nat.mod_upper_bound j (S mult) ltac:(lia)).
    rewrite lookup_take_lt by done. rewrite lookup_drop, list_lookup_fmap.
    replace (j / S mult * S mult + j mod S mult)%nat with j by lia. by rewrite Hk.
  - intros j k Hj Hk. destruct (forallb _ (take _ _)) eqn:E; [|lia].
    apply (bool_decide_eq_true (is_Some (dir_answer dc d ks k))).
    apply (forallb_lookup _ _ j (dir_answer dc d ks k) E).
    rewrite lookup_take_lt; [by rewrite list_lookup_fmap, Hk|].
    destruct (tr_keys t) as [[|x l]|]; simpl in *; lia.
Qed.

Lemma exists_transfers_found me d dc nm now kv ts : ∀ w final hits final' hits' w',
  lookup_state me w d dc nm → exists_transfers w me now kv final hits ts = (final', hits', w') →
  lookup_state me w' d dc nm ∧ (final' ≤ final)%nat ∧
  ((0 < final')%nat → ∀ t, t ∈ ts → pool_found dc d nm t final').
Proof.
  induction ts as [|t ts IH]; intros w final hits final' hits' w' Hs; cbn [exists_transfers].
  { intros [= <- <- <-]. split; [done|]. split; [lia|]. by intros _ t ?%not_elem_of_nil. }
  destruct (final =? 0)%nat eqn:E0.
  { intros [= <- <- <-]. apply Nat.eqb_eq in E0. split; [done|]. split; [lia|]. lia. }
  destruct (ls_client _ _ _ _ _ Hs) as (c & Hc & _ & Hnm). unfold transfer_keys, naming_of. rewrite Hc, Hnm.
  pose proof (boundary_found dc d nm t kv final') as Hb.
  destruct (_v2_component_keys _ _ _ _) as [ks mult]. rewrite (world_dir_get_eq me w d dc nm) by done.
  set (b := v2_boundary _ _ _ _ _) in *. intros Hrec.
  apply IH in Hrec as (H1 & H2 & H3); [|by apply update_client_lookup].
  split; [done|]. split; [lia|]. intros Hpos t' [->|Hin]%elem_of_cons; [apply Hb; [lia|done]|by apply H3].
Qed.

(** ** Properties *)

(** What [batch_exists_v2] promises.  With the location cache off, the
    answer leaves the directory alone; the pages it reports are all there: every
    component of the first [final] KV pages (in the component or the raw
    keyspace) has a location, every component of those pages in every pool that
    must hold all pages has one, and of a pool that holds a trailing window the
    first components, as many as it has keys, do.  No more pages are reported
    than [batch_exists] counts. *)
Theorem exists_v2_sound (w w' : world) (me : string) (e : env) (keys : list string) (ts : list PoolTransfer)
  (final : nat) (hits : list (string * nat)) (c : client) (t : tier)
  (Hc : w_clients w !! me = Some c) (Ht : w_tiers w !! me = Some t) (Hmode : is_slotmap (c_cfg c) = false)
  (Hcache : c_dir_cache_ttl c ≤ 0) (Hwf : shards_wf (w_dir w))
  (Hcall : batch_exists_v2 w me e keys ts = (Ret (final, hits), w')) :
  w_dir w' = w_dir w ∧
  (∃ raw, let '(ks, mult) := _lookup_keys (c_naming c) raw keys in all_found (t_dc t) (w_dir w) ks (final * mult)) ∧
  ((0 < final)%nat → ∀ tr, tr ∈ ts → pool_found (t_dc t) (w_dir w) (c_naming c) tr final) ∧
  (∀ n w1, batch_exists w me e keys = (Ret n, w1) → (final ≤ n)%nat).
Proof.
  assert (lookup_state me w (w_dir w) (t_dc t) (c_naming c)) as Hs by (split; [done|done|by rewrite Ht|by exists c]).
  unfold batch_exists_v2 in Hcall. destruct (batch_exists w me e keys) as [[kv|x] w1] eqn:E; [|done].
  destruct (batch_exists_found me w _ _ _ c e keys kv w1 Hs Hc Hmode E) as [Hs1 (raw & Hraw)].
  destruct (exists_transfers w1 me (e_now e) kv kv _ ts) as [[f h] w2] eqn:Et. injection Hcall as -> -> ->.
  destruct (exists_transfers_found me _ _ _ _ _ _ _ _ _ _ _ _ Hs1 Et) as (Hs2 & Hle & Hp).
  split; [apply (ls_dir _ _ _ _ _ Hs2)|]. split; [|split; [done|by intros n w3 [= <- <-]]].
  exists raw. destruct (_lookup_keys _ raw keys) as [ks mult]. eapply all_found_mono; [|exact Hraw]. nia.
Qed.
End v2.

(** A pool whose pages have two components but which is checked by window: only
    half of the components of its window are looked at. *)
Theorem trailing_window_half_checked (l : DataLocation) :
  v2_boundary false 5 2 [Some l; None] (Some 1%nat) = 5%nat.
Proof. done. Qed.
