(* ===== verification/Registration.v ===== *)
(** Registering the host application's memory with a [PeerCacheStore]
    ([store.py]): [_register_buffer], [_register_recv],
    [register_mem_pool_host], [register_mem_host_pool_v2], and what the v1 and
    v2 calls read back from it ([_v1_buffer_meta], [_v2_host_pool]).

    A host pool belongs to the application: it is a record of what the store
    asks it for.  The published pool's buffer is allocated at an address the
    registration is given. *)
From S2P Require Import Prelude Bytes Hashlib HashRing Types Rpc Directory Runtime Pool DiskStore Transport DataPlane Config Metrics Keys Tier StorageServer World SlotStore Store StoreV2.

(** ** A new store *)

(** The client side of [PeerCacheStore.__init__]: empty caches, the keyspace not
    detected, no slot region and no layouts.  [dir_cache_ttl] is
    [directory_read_cache_ttl] and [second] the primed lifetime of one second,
    both in units of the clock. *)
Definition client_init (cfg : PeerCacheConfig) (nm : naming) (dir_cache_ttl second : Z) : client :=
  mk_client cfg nm dir_cache_ttl ∅ ∅ second (Z.to_nat (Z.shiftl 1 16)) false false None ∅.

(** ** What the application passes *)

(** A tensor: [data_ptr()], [numel()], [element_size()], and the results of
    [dmabuf_fd()] and [dmabuf_offset()] where it has those methods. *)
Record kv_buf := mk_buf {
  kb_ptr : Z;
  kb_numel : Z;
  kb_elsize : Z;
  kb_dmabuf : option (pyres Z * option (pyres Z))
}.
Definition buf_bytes (b : kv_buf) : Z := kb_numel b * kb_elsize b.

(** A host pool: [kv_buffer] ([None] for a logical anchor), whether it has a
    [v_buffer], the buffers of [get_hybrid_pool_buffer()], and
    [get_page_buffer_meta]. *)
Record host_pool := mk_hpool {
  hp_kv : option kv_buf;
  hp_v_buffer : bool;
  hp_hybrid : list kv_buf;
  hp_meta : list Z → pyres (list Z * list Z)
}.

(** The argument of [register_mem_pool_host]: a pool, or a [HostPoolGroup] with
    its entries and its anchor. *)
Inductive pool_arg :=
  | Plain (p : host_pool)
  | Group (entries : list (string * host_pool)) (anchor : host_pool).

(** ** Registering a buffer *)

(** [fd] and [offset] of [_register_buffer]; an exception leaves no [fd]. *)
Definition dmabuf_of (b : kv_buf) : option (Z * Z) :=
  match kb_dmabuf b with
  | Some (Ret fd, None) => Some (fd, 0)
  | Some (Ret fd, Some (Ret off)) => Some (fd, off)
  | _ => None
  end.

(** The two registrations of a transport. *)
Class RegisterOps (E : Type) := {
  reg_mr : E → Z → Z → pyres Mr * E;
  reg_dmabuf : E → Z → Z → Z → Z → pyres Mr * E
}.

(** The TCP transport inherits the [register_mr_dmabuf] of the base class,
    which raises. *)
#[export] Instance tcp_register : RegisterOps process := {|
  reg_mr p addr length := let '(mr, p) := register_mr p addr length in (Ret mr, p);
  reg_dmabuf p _ _ _ _ := (Raise RuntimeError, p)
|}.

Definition rdma_register {E} (ops : EngineOps (E:=E)) : RegisterOps E := {|
  reg_mr := rdma_register_mr ops;
  reg_dmabuf := rdma_register_mr_dmabuf ops
|}.

(** [_register_buffer]; every transport has the attribute
    [register_mr_dmabuf]. *)
Definition _register_buffer {E} `{RegisterOps E} (e : E) (addr length : Z) (buf : option kv_buf) : pyres Mr * E :=
  let '(r, e) :=
    match buf ≫= dmabuf_of with
    | Some (fd, offset) => if 0 <=? fd then reg_dmabuf e addr length fd offset else reg_mr e addr length
    | None => reg_mr e addr length
    end in
  (match r with Ret mr => Ret mr | Raise _ => Raise RuntimeError end, e).

(** ** Registering pools *)

(** [mem_pool_host], [registered_pools] and [_recv_mr] of the store. *)
Record regs := mk_regs {
  rg_host : option host_pool;
  rg_pools : list (string * host_pool);
  rg_recv : option Mr
}.
Definition no_regs : regs := mk_regs None [] None.

Section registration.
Context {RH : RingHash} {SI : SetIter} {HL : Hashlib}.
Context (me : string) (tp_size : Z).

(** [self._register_buffer(buf.data_ptr(), bytes, buf)] of the node. *)
Definition register_buffer_w (w : world) (b : kv_buf) : pyres Mr * world :=
  match f_procs (w_fab w) !! me with
  | None => (Raise RuntimeError, w)
  | Some p =>
      let '(r, p) := _register_buffer p (kb_ptr b) (buf_bytes b) (Some b) in (r, set_fab w (set_proc (w_fab w) me p))
  end.

Definition _register_recv (st : world * regs) (pool : host_pool) : pyres unit * (world * regs) :=
  let '(w, g) := st in
  match hp_kv pool with
  | None => (Ret tt, (w, g))
  | Some kv =>
      match register_buffer_w w kv with
      | (Ret mr, w) => (Ret tt, (w, mk_regs (rg_host g) (rg_pools g) (Some mr)))
      | (Raise e, w) => (Raise e, (w, g))
      end
  end.

(** The loop over [get_hybrid_pool_buffer()]. *)
Fixpoint register_hybrid (w : world) (bufs : list kv_buf) : pyres unit * world :=
  match bufs with
  | [] => (Ret tt, w)
  | b :: bufs' =>
      match register_buffer_w w b with
      | (Ret _, w) => register_hybrid w bufs'
      | (Raise e, w) => (Raise e, w)
      end
  end.

(** Unwrapping a group: every pool with a backing buffer, by name. *)
Definition unwrap (g : regs) (arg : pool_arg) : host_pool * regs :=
  match arg with
  | Plain p => (p, g)
  | Group entries anchor =>
      (anchor, mk_regs (rg_host g)
        (foldl (λ ps e, od_set ps e.1 e.2) (rg_pools g)
           (filter (λ e : string * host_pool, is_Some (hp_kv e.2)) entries)) (rg_recv g))
  end.

Definition register_mem_pool_host (st : world * regs) (base_addr : Z) (arg : pool_arg) : pyres unit * (world * regs) :=
  let '(w, g) := st in
  let '(pool, g) := unwrap g arg in
  let g := mk_regs (Some pool) (rg_pools g) (rg_recv g) in
  match _register_recv (w, g) pool with
  | (Raise e, st) => (Raise e, st)
  | (Ret _, (w, g)) => (Ret tt, (_ensure_published_pool w me tp_size base_addr, g))
  end.

Definition register_mem_host_pool_v2 (st : world * regs) (base_addr : Z) (pool : host_pool) (name : string) :
    pyres unit * (world * regs) :=
  let '(w, g) := st in
  let g := mk_regs (rg_host g) (od_set (rg_pools g) name pool) (rg_recv g) in
  match (if String.eqb name "kv" then _register_recv (w, mk_regs (Some pool) (rg_pools g) (rg_recv g)) pool
         else (Ret tt, (w, g))) with
  | (Raise e, st) => (Raise e, st)
  | (Ret _, (w, g)) =>
      match register_hybrid w (hp_hybrid pool) with
      | (Raise e, w) => (Raise e, (w, g))
      | (Ret _, w) => (Ret tt, (_ensure_published_pool w me tp_size base_addr, g))
      end
  end.

(** ** Reading back *)

(** [_v1_buffer_meta]: [None] without a pool, for a logical anchor, and when
    the pool raises. *)
Definition _v1_buffer_meta (g : regs) (host_indices : list Z) : option (list Z * list Z) :=
  match rg_host g with
  | Some pool =>
      match hp_kv pool, hp_meta pool host_indices with
      | Some _, Ret meta => Some meta
      | _, _ => None
      end
  | None => None
  end.

Definition _v2_host_pool (g : regs) (name : string) : option host_pool :=
  if String.eqb name "kv" then rg_host g else od_get (rg_pools g) name.

(** [self.registered_pools.get(name) or self.registered_pools.get("draft")] is
    an MLA draft pool. *)
Definition is_mla_draft (g : regs) (name : string) : bool :=
  match od_get (rg_pools g) name with
  | Some p => negb (hp_v_buffer p)
  | None => match od_get (rg_pools g) "draft" with Some p => negb (hp_v_buffer p) | None => false end
  end.

(** The transfer of a v2 call, as the store sees it. *)
Definition transfer_of (g : regs) (name : string) (keys : option (list string)) (host_indices : list Z)
    (all_pages : bool) : pyres PoolTransfer :=
  meta ← match _v2_host_pool g name with
         | None => Ret None
         | Some p => m ← hp_meta p host_indices; Ret (Some m)
         end;
  Ret (mk_transfer name keys meta (is_mla_draft g name) all_pages).

(** The v1 calls of the store. *)
Definition store_set_v1 (st : world * regs) (e : env) (keys : list string) (host_indices : list Z) :
    pyres (list bool) * world := batch_set_v1 st.1 me e keys (_v1_buffer_meta st.2 host_indices).
Definition store_get_v1 (st : world * regs) (e : env) (keys : list string) (host_indices : list Z) :
    pyres (list bool) * world := batch_get_v1 st.1 me e keys (_v1_buffer_meta st.2 host_indices).

(** ** What a sequence of registrations does *)

Inductive registration :=
  | RegV1 (base_addr : Z) (arg : pool_arg)
  | RegV2 (base_addr : Z) (pool : host_pool) (name : string).

Definition reg_step (st : world * regs) (r : registration) : pyres unit * (world * regs) :=
  match r with
  | RegV1 base arg => register_mem_pool_host st base arg
  | RegV2 base pool name => register_mem_host_pool_v2 st base pool name
  end.

Fixpoint reg_run (st : world * regs) (rs : list registration) : list (pyres unit) * (world * regs) :=
  match rs with
  | [] => ([], st)
  | r :: rs' => let '(x, st) := reg_step st r in let '(xs, st) := reg_run st rs' in (x :: xs, st)
  end.

(** Over TCP a buffer registers unless it has a dmabuf descriptor. *)
Definition registrable (b : kv_buf) : bool :=
  match dmabuf_of b with Some (fd, _) => negb (0 <=? fd) | None => true end.
Definition recv_ok (p : host_pool) : bool := match hp_kv p with Some b => registrable b | None => true end.
Definition reg_ok (r : registration) : bool :=
  match r with
  | RegV1 _ (Plain p) | RegV1 _ (Group _ p) => recv_ok p
  | RegV2 _ p name => (if String.eqb name "kv" then recv_ok p else true) && forallb registrable (hp_hybrid p)
  end.
Definition reg_base (r : registration) : Z := match r with RegV1 b _ | RegV2 b _ _ => b end.

(** The world with more registered regions in the node's process. *)
Definition add_regions (w : world) (ext : list (Z * Z)) : world :=
  match f_procs (w_fab w) !! me with
  | Some p => set_fab w (set_proc (w_fab w) me (mk_proc (pr_mem p) (pr_regions p ++ ext)))
  | None => w
  end.

Lemma add_regions_nil w : add_regions w [] = w.
Proof.
  unfold add_regions. destruct (f_procs (w_fab w) !! me) as [[m l]|] eqn:Ep; [|done]. simpl.
  rewrite app_nil_r. unfold set_fab, set_proc. rewrite insert_id by done. by destruct w as [?? ? []].
Qed.

Lemma add_regions_app w l1 l2 : add_regions (add_regions w l1) l2 = add_regions w (l1 ++ l2).
Proof.
  unfold add_regions at 2 3. destruct (f_procs (w_fab w) !! me) as [p|] eqn:Ep; unfold add_regions; simpl.
  - rewrite lookup_insert_eq. unfold set_fab, set_proc. simpl. by rewrite insert_insert_eq, app_assoc.
  - by rewrite Ep.
Qed.

Lemma add_regions_proc w ext p : f_procs (w_fab w) !! me = Some p →
  f_procs (w_fab (add_regions w ext)) !! me = Some (mk_proc (pr_mem p) (pr_regions p ++ ext)).
Proof. intros Hp. unfold add_regions. rewrite Hp. simpl. by rewrite lookup_insert_eq. Qed.

Lemma add_regions_rest w ext : let w' := add_regions w ext in
  w_tiers w' = w_tiers w ∧ w_clients w' = w_clients w ∧ w_dir w' = w_dir w.
Proof. cbv zeta. unfold add_regions. by destruct (f_procs (w_fab w) !! me). Qed.

Lemma register_buffer_spec w b : is_Some (f_procs (w_fab w) !! me) →
  ∃ ext, register_buffer_w w b =
    (if registrable b then Ret (new_mr (kb_ptr b) 0 0) else Raise RuntimeError, add_regions w ext).
Proof.
  intros [p Hp]. unfold register_buffer_w, _register_buffer, registrable, add_regions. rewrite Hp.
  destruct (Some b ≫= dmabuf_of) as [[fd off]|] eqn:Ed; simpl in Ed; rewrite Ed; [destruct (0 <=? fd)|]; simpl;
    [exists []; rewrite app_nil_r; by destruct p|by eexists|by eexists].
Qed.

Lemma register_recv_spec w g pool : is_Some (f_procs (w_fab w) !! me) →
  ∃ ext g', _register_recv (w, g) pool = (if recv_ok pool then Ret tt else Raise RuntimeError, (add_regions w ext, g')) ∧
    rg_host g' = rg_host g ∧ rg_pools g' = rg_pools g.
Proof.
  intros Hp. unfold _register_recv, recv_ok. destruct (hp_kv pool) as [b|].
  2:{ exists [], g. by rewrite add_regions_nil. }
  destruct (register_buffer_spec w b Hp) as [ext ->]. destruct (registrable b); eauto.
Qed.

Lemma register_hybrid_spec bufs : ∀ w, is_Some (f_procs (w_fab w) !! me) →
  ∃ ext, register_hybrid w bufs = (if forallb registrable bufs then Ret tt else Raise RuntimeError, add_regions w ext).
Proof.
  induction bufs as [|b bufs IH]; intros w [p Hp]; simpl; [exists []; by rewrite add_regions_nil|].
  destruct (register_buffer_spec w b) as [ext ->]; [by exists p|]. destruct (registrable b); simpl; [|by eauto].
  destruct (IH (add_regions w ext)) as [ext2 ->]; [rewrite (add_regions_proc _ _ _ Hp); by eauto|].
  rewrite add_regions_app. eauto.
Qed.

(** A node that keeps a published pool. *)
Record pool_node (w : world) (c : client) (t : tier) (p : process) : Prop := {
  pn_client : w_clients w !! me = Some c;
  pn_tier : w_tiers w !! me = Some t;
  pn_proc : f_procs (w_fab w) !! me = Some p;
  pn_mode : is_inference_client_only (c_cfg c) = false ∧ is_slotmap (c_cfg c) = false
}.

Definition tier_with (t : tier) (po : option PublishedPool) : tier :=
  mk_tier (t_ident t) (t_rt t) po (t_disk t) (t_key_len t) (t_metrics t).
Definition pool_bytes (c : client) : Z := Z.max 1 (int_of (c_cfg c) "global_segment_size" / tp_size).

(** The pool after the registrations: the one there was, or the one of the
    first registration that succeeds. *)
Definition first_pool (c : client) (rs : list registration) : option PublishedPool :=
  (λ r, new_pool (reg_base r) (pool_bytes c) 0 (Some [0])) <$> head (filter (λ r, reg_ok r = true) rs).
Definition pool_after (c : client) (o : option PublishedPool) (rs : list registration) : option PublishedPool :=
  match o with Some p => Some p | None => first_pool c rs end.

(** Everything but the pool and the registered regions stays. *)
Record reg_frame (w w' : world) (t : tier) (p : process) (po : option PublishedPool) (ext : list (Z * Z)) : Prop := {
  rf_tiers : w_tiers w' = <[me := tier_with t po]> (w_tiers w);
  rf_clients : w_clients w' = w_clients w;
  rf_dir : w_dir w' = w_dir w;
  rf_proc : f_procs (w_fab w') !! me = Some (mk_proc (pr_mem p) (pr_regions p ++ ext))
}.

Lemma add_regions_frame w c t p ext : pool_node w c t p → reg_frame w (add_regions w ext) t p (t_pool t) ext.
Proof.
  intros [Hc Ht Hp _]. destruct (add_regions_rest w ext) as (H1 & H2 & H3). split; [|done|done|by apply add_regions_proc].
  rewrite H1. symmetry. apply insert_id. rewrite Ht. by destruct t.
Qed.

Lemma reg_frame_node w c t p w' po ext : pool_node w c t p → reg_frame w w' t p po ext →
  pool_node w' c (tier_with t po) (mk_proc (pr_mem p) (pr_regions p ++ ext)).
Proof. intros [Hc Ht Hp Hm] [H1 H2 H3 H4]. split; [by rewrite H2|by rewrite H1, lookup_insert_eq|done|done]. Qed.

Lemma reg_frame_trans w w1 w2 t p po1 po2 ext1 ext2 :
  reg_frame w w1 t p po1 ext1 →
  reg_frame w1 w2 (tier_with t po1) (mk_proc (pr_mem p) (pr_regions p ++ ext1)) po2 ext2 →
  reg_frame w w2 t p po2 (ext1 ++ ext2).
Proof.
  intros [A1 A2 A3 A4] [B1 B2 B3 B4]. split.
  - rewrite B1, A1, insert_insert_eq. done.
  - congruence.
  - congruence.
  - rewrite B4. simpl. by rewrite app_assoc.
Qed.

Lemma ensure_pool_frame w c t p base : pool_node w c t p →
  ∃ ext, reg_frame w (_ensure_published_pool w me tp_size base) t p
    (match t_pool t with Some q => Some q | None => Some (new_pool base (pool_bytes c) 0 (Some [0])) end) ext ∧
    (t_pool t = None → ext = [(base, pool_bytes c)]).
Proof.
  intros Hn. pose proof Hn as [Hc Ht Hp [Hm1 Hm2]]. unfold _ensure_published_pool. rewrite Hc, Ht, Hp, Hm1, Hm2.
  destruct (t_pool t) as [q|] eqn:Eq.
  - exists []. split; [|done]. rewrite <-Eq. rewrite <-(add_regions_nil w) at 2. by apply (add_regions_frame w c).
  - exists [(base, pool_bytes c)]. split; [|done]. split; simpl; [done|done|done|]. by rewrite lookup_insert_eq.
Qed.

(** How a registration ends once its buffers were tried. *)
Definition finish (ok : bool) (w : world) (base : Z) (g : regs) : pyres unit * (world * regs) :=
  if ok then (Ret tt, (_ensure_published_pool w me tp_size base, g)) else (Raise RuntimeError, (w, g)).

Lemma reg_step_finish w g r : is_Some (f_procs (w_fab w) !! me) →
  ∃ ext g', reg_step (w, g) r = finish (reg_ok r) (add_regions w ext) (reg_base r) g'.
Proof.
  intros Hp. destruct r as [base arg|base pool name]; cbn [reg_step reg_base].
  - unfold register_mem_pool_host. destruct (unwrap g arg) as [pool g0] eqn:Eu.
    assert (reg_ok (RegV1 base arg) = recv_ok pool) as -> by (destruct arg; cbn in Eu; simplify_eq; done).
    destruct (register_recv_spec w (mk_regs (Some pool) (rg_pools g0) (rg_recv g0)) pool Hp) as (ext & g1 & -> & _).
    exists ext, g1. by destruct (recv_ok pool).
  - unfold register_mem_host_pool_v2, reg_ok. set (g1 := mk_regs (rg_host g) _ _).
    set (recv := if String.eqb name "kv" then _register_recv _ _ else _).
    set (ok := if String.eqb name "kv" then recv_ok pool else true).
    assert (∃ ext g2, recv = (if ok then Ret tt else Raise RuntimeError, (add_regions w ext, g2))) as (ext & g2 & ->).
    { subst recv ok. destruct (String.eqb name "kv"); [|exists [], g1; by rewrite add_regions_nil].
      destruct (register_recv_spec w (mk_regs (Some pool) (rg_pools g1) (rg_recv g1)) pool Hp) as (ext & g2 & -> & _).
      eauto. }
    clearbody ok. destruct ok; simpl; [|by eauto].
    destruct (register_hybrid_spec (hp_hybrid pool) (add_regions w ext)) as [ext2 ->].
    { destruct Hp as [p Hp]. rewrite (add_regions_proc _ _ _ Hp). eauto. }
    rewrite add_regions_app. exists (ext ++ ext2), g2. by destruct (forallb _ _).
Qed.

(** One registration: its outcome, and what the world is afterwards. *)
Lemma reg_step_frame w g c t p r : pool_node w c t p →
  ∃ w' g' ext, reg_step (w, g) r = (if reg_ok r then Ret tt else Raise RuntimeError, (w', g')) ∧
    reg_frame w w' t p (pool_after c (t_pool t) [r]) ext ∧
    (t_pool t = None → reg_ok r = true → (reg_base r, pool_bytes c) ∈ ext).
Proof.
  intros Hn. destruct (reg_step_finish w g r) as (ext1 & g' & ->); [destruct Hn; eauto|].
  pose proof (add_regions_frame w c t p ext1 Hn) as Hf1. unfold finish, pool_after, first_pool.
  destruct (reg_ok r) eqn:Er.
  - destruct (ensure_pool_frame _ c _ _ (reg_base r) (reg_frame_node _ _ _ _ _ _ _ Hn Hf1)) as (ext2 & Hf2 & Hx).
    eexists _, g', (ext1 ++ ext2). split; [reflexivity|]. split.
    + rewrite filter_cons_True by done. cbn. by eapply reg_frame_trans.
    + intros Hnone _. rewrite (Hx Hnone). apply elem_of_app. right. by apply list_elem_of_singleton.
  - eexists _, g', ext1. split; [reflexivity|]. split; [|done].
    rewrite filter_cons_False by congruence. cbn. by destruct (t_pool t).
Qed.

Lemma pool_after_cons c o r rs : pool_after c (pool_after c o [r]) rs = pool_after c o (r :: rs).
Proof.
  destruct o as [q|]; [done|]. unfold pool_after at 2 3, first_pool. rewrite !filter_cons.
  by destruct (decide (reg_ok r = true)).
Qed.

(** C27: registering memory creates the published pool once.  On a node that
    keeps a pool, over any sequence of v1 and v2 registrations of pools,
    groups and logical anchors: each call succeeds exactly when none of the
    buffers it registers carries a dmabuf descriptor (which the TCP transport
    cannot take), and raises [RuntimeError] otherwise; an existing pool is
    never replaced; a node without one gets, at its first successful
    registration, an empty pool of [global_segment_size / tp_size] bytes at
    the buffer allocated then, whose memory is registered for remote reads;
    and nothing else of the node or the cluster changes. *)
Theorem registration_creates_pool_once (w : world) (g : regs) (c : client) (t : tier) (p : process)
  (rs : list registration) (Hn : pool_node w c t p) :
  ∃ w' g' ext, reg_run (w, g) rs =
      ((λ r, if reg_ok r then Ret tt else Raise RuntimeError) <$> rs, (w', g')) ∧
    reg_frame w w' t p (pool_after c (t_pool t) rs) ext ∧
    ∀ r, t_pool t = None → head (filter (λ r, reg_ok r = true) rs) = Some r →
      (reg_base r, pool_bytes c) ∈ ext.
Proof.
  revert w g t p Hn. induction rs as [|r rs IH]; intros w g t p Hn; cbn [reg_run].
  - exists w, g, []. split; [done|]. split; [|done]. rewrite <-(add_regions_nil w) at 2.
    assert (pool_after c (t_pool t) [] = t_pool t) as -> by (by destruct (t_pool t)). by apply (add_regions_frame w c).
  - destruct (reg_step_frame w g c t p r Hn) as (w1 & g1 & ext1 & -> & Hf1 & Hx1).
    destruct (IH w1 g1 _ _ (reg_frame_node _ _ _ _ _ _ _ Hn Hf1)) as (w2 & g2 & ext2 & -> & Hf2 & Hx2).
    exists w2, g2, (ext1 ++ ext2). split; [done|]. cbn [t_pool tier_with] in *. rewrite pool_after_cons in Hf2.
    split; [by eapply reg_frame_trans|]. intros r' Hnone. rewrite filter_cons. case_decide as Hok; intros Hr.
    + injection Hr as <-. apply elem_of_app. left. by apply Hx1.
    + apply elem_of_app. right. apply Hx2; [|done]. rewrite Hnone. unfold pool_after, first_pool. by rewrite filter_cons_False.
Qed.

(** A v1 call on a logical anchor, or before any registration, fails page by
    page and changes nothing. *)
Lemma anchor_v1_fails st e keys idxs :
  rg_host st.2 ≫= hp_kv = None →
  store_set_v1 st e keys idxs = (Ret (replicate (length keys) false), st.1) ∧
  store_get_v1 st e keys idxs = (Ret (replicate (length keys) false), st.1).
Proof.
  intros Ha. unfold store_set_v1, store_get_v1, batch_set_v1, batch_get_v1, _v1_buffer_meta.
  destruct (rg_host st.2) as [pool|]; [simpl in Ha; rewrite Ha|]; done.
Qed.
End registration.

(** ** Concrete instances *)

Module RegistrationExamples.
Import RingExamples ExampleHash.

Definition cfg : PeerCacheConfig := mk_config (("discovery_addr", VStr "h:1") :: field_defaults) [].
Definition cl : client := client_init cfg (mk_naming "" false "" "") 0 1.
Definition ti : tier :=
  mk_tier (mk_ident "a" "h:7" ["h:7"] 0) (new_runtime 3 (λ _, None) 2) None None [] (new_metrics 8).
Definition pr : process := mk_proc (λ _, 0) [].
Definition wo : world :=
  mk_world {["a" := ti]} {["a" := cl]} (mk_cluster ∅ (λ _, (AReply, AReply)))
    (mk_fabric {["a" := pr]} (λ _, None)) (λ _, None) (λ _, None) (λ _, (AReply, AReply)).

Definition host_buf : kv_buf := mk_buf 4096 16 2 None.
Definition gpu_buf : kv_buf := mk_buf 8192 16 2 (Some (Ret 5, None)).
Definition pool_of (b : kv_buf) : host_pool := mk_hpool (Some b) true [] (λ idx, Ret (idx, idx)).
Definition calls : list registration :=
  [RegV1 100000 (Plain (pool_of gpu_buf)); RegV1 200000 (Plain (pool_of host_buf));
   RegV2 300000 (pool_of host_buf) "kv"].

Lemma wo_node : pool_node "a" wo cl ti pr.
Proof. split; [reflexivity|reflexivity|reflexivity|split; reflexivity]. Qed.

Lemma registration_creates_pool_once_witness :
  ∃ w' g' ext, reg_run "a" 1 (wo, no_regs) calls = ([Raise RuntimeError; Ret tt; Ret tt], (w', g')) ∧
    reg_frame "a" wo w' ti pr (Some (new_pool 200000 (4 * 2 ^ 30) 0 (Some [0]))) ext.
Proof.
  destruct (registration_creates_pool_once "a" 1 wo no_regs cl ti pr calls wo_node) as (w' & g' & ext & Hr & Hf & _).
  exists w', g', ext. split; [exact Hr|exact Hf].
Defined.
End RegistrationExamples.
