(* ===== verification/P2P.v ===== *)
(** No dirty hits in the peer-to-peer mode.

    [wcoh] lifts the coherence of [Coherence.v] to the cluster: every resident
    location any shard stores names a page that is in its owner's pool at that
    address and length, and pooled pages hold published bytes.  Publishing and
    fetching, by any node, keep it, and a fetch reports a hit only for bytes
    published under the key.

    The assumptions are the ones the code needs: no disk tier, location caches
    that are off or hold locations that are still right, one routing for all
    nodes, directory calls that reach their shard, and one page length per
    key. *)
From S2P Require Import Prelude Bytes Hashlib HashRing Types Rpc Directory Runtime Pool DiskStore Transport Config Metrics Keys Tier Coherence StorageServer World SlotStore SlotSafety Store.

Section p2p.
Context {RH : RingHash} {SI : SetIter} {HL : Hashlib}.
Context (dc : DirectoryClient) (host : string → option string) (key_len : string → Z).

Abbreviation history := (list (string * list Z)).

(** Node [n]'s pool holds the page of [k] at this address and length. *)
Definition page_at (w : world) (n k : string) (addr len : Z) : Prop :=
  ∃ t p, w_tiers w !! n = Some t ∧ t_pool t = Some p ∧ pool_page p k addr len.

Definition loc_ok (w : world) (k : string) (l : DataLocation) : Prop :=
  l_resident l = true → rails_to host (l_node_id l) l ∧ page_at w (l_node_id l) k (l_remote_addr l) (l_length l).

(** The locations a client remembers: every one is right, or it remembers
    none and keeps none. *)
Definition cache_ok (w : world) (m : gmap string (DataLocation * Z)) : Prop :=
  ∀ k l exp, m !! k = Some (l, exp) → loc_ok w k l.

Definition caches_ok (w : world) (c : client) : Prop :=
  cache_ok w (c_primed c) ∧ (0 < c_dir_cache_ttl c → cache_ok w (c_dir_cache c)).

Definition cache_off (c : client) : Prop := c_primed c = ∅ ∧ c_dir_cache_ttl c ≤ 0.
Definition caches_off (w : world) : Prop := ∀ n c, w_clients w !! n = Some c → cache_off c.

Record wcoh (h : history) (w : world) : Prop := {
  wc_host : f_host (w_fab w) = host;
  wc_proc n : is_Some (w_tiers w !! n) → is_Some (f_procs (w_fab w) !! n);
  wc_tier n t : w_tiers w !! n = Some t →
    t_dc t = dc ∧ t_disk t = None ∧ ident_ok host (t_ident t) ∧ i_id (t_ident t) = n;
  wc_pool n t p : w_tiers w !! n = Some t → t_pool t = Some p → pool_coh h p (mem_of w n);
  wc_wf : shards_wf (w_dir w);
  wc_taken : all_taken (w_dir w);
  wc_dir ep k l : stored_loc (w_dir w) ep k = Some l → owned_at dc k ep = true ∧ loc_ok w k l;
  wc_client n c : w_clients w !! n = Some c → caches_ok w c
}.

(** ** One node of the cluster *)

Lemma local_of_Some w n s :
  local_of w n = Some s →
  ∃ t p, w_tiers w !! n = Some t ∧ f_procs (w_fab w) !! n = Some p ∧ s = mk_local t (w_dir w) (pr_mem p) ∧
    pr_mem p = mem_of w n.
Proof.
  unfold local_of, mem_of. destruct (w_tiers w !! n) as [t|]; [|done]. simpl.
  destruct (f_procs (w_fab w) !! n) as [p|]; [|done]. simpl. intros [= <-]. by exists t, p.
Qed.

Lemma loc_right_ok w n t k l :
  w_tiers w !! n = Some t → loc_right host n (page_at w) (t_pool t) k l ↔ loc_ok w k l.
Proof.
  intros Ht. unfold loc_right, loc_ok. split; intros H Hres; destruct (H Hres) as [H1 H2]; (split; [done|]).
  - case_decide as Hd; [|done]. rewrite Hd. destruct H2 as (p & Hp & Hpg). by exists t, p.
  - case_decide as Hd; [|done]. rewrite Hd in H2. destruct H2 as (t' & p & Ht' & Hp & Hpg).
    rewrite Ht in Ht'. injection Ht' as <-. eauto.
Qed.

Lemma wcoh_local h w n s : wcoh h w → local_of w n = Some s → lcoh dc host h (page_at w) s.
Proof.
  intros Hw Hs. apply local_of_Some in Hs as (t & p & Ht & Hp & -> & Hm).
  destruct (wc_tier _ _ Hw n t Ht) as (H1 & H2 & H3 & H4). split; try done; simpl.
  - intros q Hq. rewrite Hm. by eapply wc_pool.
  - rewrite H4. split; [apply (wc_wf _ _ Hw)|apply (wc_taken _ _ Hw)|]. intros ep k l Hl.
    destruct (wc_dir _ _ Hw ep k l Hl) as [H5 H6]. split; [done|]. by apply (loc_right_ok w n t).
Qed.

Definition place (w : world) (n : string) : option (Z * Z * Z * list Z) :=
  t ← w_tiers w !! n; pool_place <$> t_pool t.

Lemma put_local_tiers w n s s' :
  local_of w n = Some s → ∀ k, w_tiers (put_local w n s') !! k = if bool_decide (k = n) then Some (l_tier s') else w_tiers w !! k.
Proof.
  intros _ k. unfold put_local. simpl. case_bool_decide as Hd; [subst k; apply lookup_insert_eq|by apply lookup_insert_ne].
Qed.

Lemma put_local_mem w n s s' k :
  local_of w n = Some s → mem_of (put_local w n s') k = if bool_decide (k = n) then l_mem s' else mem_of w k.
Proof.
  intros Hs. apply local_of_Some in Hs as (t & p & Ht & Hp & -> & Hm). unfold put_local, mem_of. simpl. rewrite Hp. simpl.
  case_bool_decide as Hd; [subst k; by rewrite lookup_insert_eq|by rewrite lookup_insert_ne].
Qed.

(** What the rest of the cluster can rely on. *)
Definition keeps_pages (w w' : world) : Prop := ∀ n k a len, page_at w n k a len → page_at w' n k a len.

Record steady (w w' : world) : Prop := {
  st_pages : keeps_pages w w';
  st_place n : place w' n = place w n;
  st_client n : is_Some (w_clients w' !! n) ↔ is_Some (w_clients w !! n);
  st_tier n : is_Some (w_tiers w' !! n) ↔ is_Some (w_tiers w !! n);
  st_off : caches_off w → caches_off w'
}.

Lemma steady_refl w : steady w w.
Proof. split; [by intros n k a len|done..]. Qed.

Lemma steady_trans w1 w2 w3 : steady w1 w2 → steady w2 w3 → steady w1 w3.
Proof.
  intros [A1 A2 A3 A4 A5] [B1 B2 B3 B4 B5]. split; [intros n k a len Hp; by apply B1, A1|congruence| | |auto].
  - intros n. by rewrite B3.
  - intros n. by rewrite B4.
Qed.

Lemma loc_ok_pages w w' k l : keeps_pages w w' → loc_ok w k l → loc_ok w' k l.
Proof. intros Hs Hl Hr. destruct (Hl Hr) as [H1 H2]. split; [done|]. by apply Hs. Qed.

Lemma loc_ok_steady w w' k l : steady w w' → loc_ok w k l → loc_ok w' k l.
Proof. intros Hs. apply loc_ok_pages, Hs. Qed.

Lemma caches_ok_pages w w' c : keeps_pages w w' → caches_ok w c → caches_ok w' c.
Proof.
  intros Hs [H1 H2]. split; [|intros Ht; specialize (H2 Ht)]; intros k l e Hk; (eapply loc_ok_pages; [exact Hs|]); eauto.
Qed.

(** A cache that is off is right about everything. *)
Lemma cache_off_ok w c : cache_off c → caches_ok w c.
Proof. intros [H1 H2]. split; [|lia]. intros k l e. by rewrite H1, lookup_empty. Qed.

(** Remembered locations survive when no page goes away, or when there are
    none. *)
Lemma caches_keep w w' :
  (∀ n c, w_clients w !! n = Some c → caches_ok w c) → caches_off w ∨ keeps_pages w w' →
  ∀ n c, w_clients w !! n = Some c → caches_ok w' c.
Proof.
  intros Hw [Hoff|Hk] n c Hc; [by eapply cache_off_ok, Hoff|]. eapply caches_ok_pages; [exact Hk|]. by eapply Hw.
Qed.

(** A node's operation, put back into the cluster. *)
Lemma put_local_ident_wcoh h h' w n s s' :
  wcoh h w → local_of w n = Some s → (∀ x, x ∈ h → x ∈ h') →
  lcoh dc host h' (page_at w) s' → t_ident (l_tier s') = t_ident (l_tier s) →
  caches_off w ∨ keeps_pages w (put_local w n s') → wcoh h' (put_local w n s').
Proof.
  intros Hw Hs Hh Hc Hn Hcache. pose proof (put_local_tiers w n s s' Hs) as Ht.
  pose proof Hs as (t & p & Ht0 & Hp0 & Hs0 & _)%local_of_Some.
  assert (i_id (t_ident (l_tier s')) = n) as Hid.
  { rewrite Hn, Hs0. simpl. apply (wc_tier _ _ Hw n t Ht0). }
  assert (∀ k l, loc_right host n (page_at w) (t_pool (l_tier s')) k l → loc_ok (put_local w n s') k l) as Hloc.
  { intros k l Hl Hr. destruct (Hl Hr) as [H1 H2]. split; [done|]. case_decide as Hd.
    - rewrite Hd. destruct H2 as (q & Hq & Hpg). exists (l_tier s'), q. rewrite Ht, bool_decide_eq_true_2 by done. done.
    - destruct H2 as (t' & q & Ht' & Hq & Hpg). exists t', q. rewrite Ht, bool_decide_eq_false_2 by done. done. }
  destruct Hc as [C1 C2 C3 C4 [C5 C6 C7]]. rewrite Hid in C7. split.
  - unfold put_local. simpl. rewrite Hp0. apply (wc_host _ _ Hw).
  - intros k Hk. rewrite Ht in Hk. unfold put_local. simpl. rewrite Hp0. simpl. apply lookup_insert_is_Some'.
    destruct (decide (k = n)) as [->|Hne]; [by left|]. right. rewrite bool_decide_eq_false_2 in Hk by done.
    by apply (wc_proc _ _ Hw).
  - intros k t'. rewrite Ht. case_bool_decide as Hd; [|apply (wc_tier _ _ Hw)]. intros [= <-]. by subst k.
  - intros k t' q. rewrite Ht, (put_local_mem w n s s' k Hs). case_bool_decide as Hd; [intros [= <-]; apply C4|].
    intros Hk Hq. destruct (wc_pool _ _ Hw k t' q Hk Hq) as [H1 H2]. split; [done|]. intros k' b Hb. by apply Hh, H2.
  - done.
  - done.
  - intros ep k l Hl. destruct (C7 ep k l Hl) as [H1 H2]. split; [done|]. by apply Hloc.
  - exact (caches_keep _ _ (wc_client _ _ Hw) Hcache).
Qed.

Lemma put_local_wcoh h h' w n s s' :
  wcoh h w → local_of w n = Some s → (∀ x, x ∈ h → x ∈ h') →
  lcoh dc host h' (page_at w) s' → same_node s s' → caches_off w ∨ keeps_pages w (put_local w n s') →
  wcoh h' (put_local w n s').
Proof. intros. eapply put_local_ident_wcoh; eauto using sm_ident. Qed.

Lemma put_local_steady w n s s' :
  local_of w n = Some s → same_node s s' → same_pool s s' → steady w (put_local w n s').
Proof.
  intros Hs Hn Hp. pose proof (put_local_tiers w n s s' Hs) as Ht.
  pose proof Hs as (t & p & Ht0 & Hp0 & Hs0 & _)%local_of_Some. split.
  - intros k key a len (t' & q & Ht' & Hq & b & Hb & Ha & Hl). unfold page_at. rewrite Ht.
    destruct (decide (k = n)) as [->|Hne].
    + rewrite bool_decide_eq_true_2 by done. rewrite Ht0 in Ht'. injection Ht' as <-.
      destruct (Hp q) as (q' & Hq' & Hbase & Hent); [by rewrite Hs0|].
      exists (l_tier s'), q'. split; [done|]. split; [done|]. exists b. rewrite Hent, Hbase. done.
    + rewrite bool_decide_eq_false_2 by done. exists t', q. split; [done|]. split; [done|]. by exists b.
  - intros k. unfold place. rewrite Ht. case_bool_decide as Hd; [|done]. subst k. rewrite Ht0. simpl.
    rewrite (sm_place _ _ Hn), Hs0. done.
  - intros k. done.
  - intros k. rewrite Ht. case_bool_decide as Hd; [|done]. subst k. rewrite Ht0. split; eauto.
  - done.
Qed.

(** ** Publish *)

(** A buffer of the application: it does not overlap the node's pool. *)
Definition pbuffer (w : world) (me : string) (ptr n : Z) : Prop :=
  ∀ b c k ks, place w me = Some (b, c, k, ks) → ranges_disjoint b c ptr n.

Definition pbuffers (w : world) (me : string) (ptrs sizes : list Z) : Prop :=
  ∀ i p n, ptrs !! i = Some p → sizes !! i = Some n → 0 ≤ n ∧ pbuffer w me p n.

Lemma publish_wcoh h w me e keys ptrs sizes upd r w' :
  let h' := h ++ sources w me keys ptrs sizes in
  wcoh h w → sized key_len h' → pbuffers w me ptrs sizes → caches_off w ∨ keeps_pages w w' →
  publish_local_pool w me e keys ptrs sizes upd = (r, w') → wcoh h' w'.
Proof.
  intros h' Hw Hsz Hb Hcache. unfold publish_local_pool, run_local.
  assert (∀ x, x ∈ h → x ∈ h') as Hmono by (intros x ?; apply elem_of_app; by left).
  destruct (local_of w me) as [s|] eqn:Es.
  2:{ intros [= <- <-]. destruct Hw as [W1 W2 W3 W4 W5 W6 W7 W8]. split; try done. intros n t p Ht Hp.
      destruct (W4 n t p Ht Hp) as [H1 H2]. split; [done|]. intros k b Hk. by apply Hmono, H2. }
  destruct (_publish_p2p s keys ptrs sizes upd (e_seconds e)) as [r1 s1] eqn:Ep. intros [= <- <-].
  pose proof Es as (t & p & Ht & Hp & Hs0 & Hm)%local_of_Some.
  pose proof (wcoh_local _ _ _ _ Hw Es) as Hc.
  assert (lcoh dc host h' (page_at w) s) as Hc'.
  { destruct Hc as [C1 C2 C3 C4 C5]. split; try done. intros q Hq. destruct (C4 q Hq) as [H1 H2].
    split; [done|]. intros k b Hk. by apply Hmono, H2. }
  destruct (publish_p2p_keeps dc host key_len h' (page_at w) s keys ptrs sizes upd (e_seconds e) r1 s1 Hsz Hc')
    as [Hc1 Hn1]; [|exact Ep|by eapply put_local_wcoh].
  intros i k ptr n Hk Hptr Hn. destruct (Hb i ptr n Hptr Hn) as [Hn0 Hbuf]. split; [done|]. split.
  - intros q Hq. apply (Hbuf _ _ (p_rkey q) (p_rkeys q)). unfold place. rewrite Ht. simpl.
    rewrite Hs0 in Hq. simpl in Hq. by rewrite Hq.
  - apply elem_of_app. right. unfold sources. apply list_elem_of_fmap. exists (k, ptr, n). split.
    + simpl. rewrite Hs0. simpl. by rewrite Hm.
    + apply (list_elem_of_lookup_2 _ i). rewrite lookup_zip_with, lookup_zip_with, Hk, Hptr, Hn. done.
Qed.

Lemma publish_clients w me e keys ptrs sizes upd r w' :
  publish_local_pool w me e keys ptrs sizes upd = (r, w') → w_clients w' = w_clients w.
Proof.
  unfold publish_local_pool, run_local. destruct (local_of w me) as [s|]; [|by intros [= _ <-]].
  destruct (_publish_p2p _ _ _ _ _ _) as [r1 s1]. by intros [= _ <-].
Qed.

(** ** Finding the locations *)

(** Every location found is right about its owner. *)
Definition locs_ok (w : world) (keys : list string) (locs : list (option DataLocation)) : Prop :=
  ∀ i k l, keys !! i = Some k → locs !! i = Some (Some l) → loc_ok w k l.

Lemma locs_ok_insert w keys locs i o :
  locs_ok w keys locs → (∀ k l, keys !! i = Some k → o = Some l → loc_ok w k l) → locs_ok w keys (<[i := o]> locs).
Proof.
  intros Hl Ho j k l Hk Hj. destruct (decide (j = i)) as [->|Hne].
  - destruct (locs !! i) as [x|] eqn:Ei.
    + rewrite list_lookup_insert_eq in Hj by (by eapply lookup_lt_Some). injection Hj as ->. by eapply Ho.
    + rewrite list_insert_ge in Hj by (by apply lookup_ge_None_1). congruence.
  - rewrite list_lookup_insert_ne in Hj by done. by eapply Hl.
Qed.

Lemma forget_ok w keys idxs : ∀ locs, locs_ok w keys locs → locs_ok w keys (forget locs idxs).
Proof.
  induction idxs as [|i idxs IH]; intros locs Hl; [done|]. simpl. apply IH. apply locs_ok_insert; [done|]. done.
Qed.

(** *** Operations of one node that lose no page *)

Lemma run_local_steady {A} h w n (dflt : A) (f : local → A * local) a w' :
  wcoh h w →
  (∀ s a s', local_of w n = Some s → f s = (a, s') →
     lcoh dc host h (page_at w) s' ∧ same_node s s' ∧ same_pool s s' ∧ l_mem s' = l_mem s) →
  run_local w n dflt f = (a, w') →
  wcoh h w' ∧ steady w w' ∧ (∀ k, mem_of w' k = mem_of w k).
Proof.
  intros Hw Hf. unfold run_local. destruct (local_of w n) as [s|] eqn:Es.
  2:{ intros [= <- <-]. split; [done|]. split; [apply steady_refl|done]. }
  destruct (f s) as [a1 s1] eqn:Ef. intros [= <- <-]. destruct (Hf s a1 s1 eq_refl Ef) as (H1 & H2 & H3 & H4).
  pose proof (put_local_steady w n s s1 Es H2 H3) as Hst.
  split; [eapply put_local_wcoh; [exact Hw|exact Es|done|exact H1|exact H2|right; apply Hst]|]. split; [done|].
  intros k. rewrite (put_local_mem w n s s1 k Es). case_bool_decide as Hd; [|done]. subst k. rewrite H4.
  apply local_of_Some in Es as (t & p & _ & _ & -> & Hm). exact Hm.
Qed.

Lemma meter_wcoh h w me f :
  wcoh h w → wcoh h (meter w me f) ∧ steady w (meter w me f) ∧ (∀ n, mem_of (meter w me f) n = mem_of w n).
Proof.
  intros Hw. unfold meter. destruct (run_local w me tt _) as [u w'] eqn:Er. simpl.
  eapply (run_local_steady h w me tt _ u w' Hw); [|exact Er].
  intros s a s' Hs [= <- <-].
  destruct (lcoh_metrics dc host h (page_at w) s (f (t_metrics (l_tier s)))) as [H1 H2]; [by eapply wcoh_local|].
  split; [done|]. split; [done|]. split; [|done]. intros p Hp. by exists p.
Qed.

(** Only the node's client record changes. *)
Lemma set_client_wcoh h w me c : wcoh h w → caches_ok w c → wcoh h (set_client w me c).
Proof.
  intros [W1 W2 W3 W4 W5 W6 W7 W8] Hok. split; try done. intros n c'. simpl. rewrite lookup_insert_Some.
  intros [[<- <-]|[_ Hn]]; [done|by eapply W8].
Qed.

Lemma client_wcoh h w me c :
  wcoh h w → is_Some (w_clients w !! me) → caches_ok w c →
  (∀ c0, w_clients w !! me = Some c0 → cache_off c0 → cache_off c) →
  wcoh h (set_client w me c) ∧ steady w (set_client w me c) ∧ (∀ n, mem_of (set_client w me c) n = mem_of w n).
Proof.
  intros Hw [c0 Hc] H1 H2. split; [by apply set_client_wcoh|]. split; [|done].
  split; [by intros n k a len|done| |done|].
  - intros n. simpl. destruct (decide (n = me)) as [->|Hne]; [rewrite lookup_insert_eq, Hc; split; eauto|].
    by rewrite lookup_insert_ne.
  - intros Hoff n c'. simpl. rewrite lookup_insert_Some. intros [[<- <-]|[_ Hn]]; [|by eapply Hoff].
    apply (H2 c0); [done|by eapply Hoff].
Qed.

Lemma set_wdir_id w : set_wdir w (w_dir w) = w.
Proof. by destruct w. Qed.

(** *** Remembered locations *)

Lemma fresh_entry_Some m now k l : fresh_entry m now k = Some l → ∃ e, m !! k = Some (l, e).
Proof. unfold fresh_entry. destruct (m !! k) as [[l' e]|]; [|done]. destruct (_ >? _); [|done]. intros [= ->]. eauto. Qed.

Lemma cache_ok_sub w m m' : m' ⊆ m → cache_ok w m → cache_ok w m'.
Proof. intros Hs Hm k l e Hk. eapply Hm. by eapply lookup_weaken. Qed.

Lemma cache_resident_ok w exp keys : ∀ locs m,
  cache_ok w m → locs_ok w keys locs → cache_ok w (cache_resident m exp keys locs).
Proof.
  unfold cache_resident. induction keys as [|k keys IH]; intros [|o locs] m Hm Hl; try done. cbn [zip zip_with foldl].
  apply IH; [|intros i k' l Hk Ho; by apply (Hl (S i) k' l)].
  destruct o as [l|]; [|done]. destruct (l_resident l); [|done]. intros k' l' e.
  rewrite lookup_insert_Some. intros [[<- [= <- _]]|[_ Hk]]; [by apply (Hl 0%nat k l)|by eapply Hm].
Qed.

(** The misses are filled in, in order. *)
Lemma fill_ok w keys : ∀ hits fresh,
  length hits = length keys → locs_ok w keys hits →
  locs_ok w (filter (λ p : string * option DataLocation, p.2 = None) (zip keys hits)).*1 fresh →
  locs_ok w keys (fill hits fresh).
Proof.
  induction keys as [|k keys IH]; intros [|o hits] fresh Hlen Hh Hf; try done.
  assert (locs_ok w keys hits) as Hh' by (intros i k' l Hk Ho; by apply (Hh (S i) k' l)). injection Hlen as Hlen.
  cbn [zip zip_with] in Hf. destruct o as [l|]; cbn [fill].
  - rewrite filter_cons_False in Hf by done. intros [|i] k' l'; simpl; [|by apply (IH hits fresh)].
    intros [= <-] [= <-]. by apply (Hh 0%nat k l).
  - rewrite filter_cons_True in Hf by done. rewrite fmap_cons in Hf. destruct fresh as [|f fresh].
    + intros [|i] k' l'; simpl; [done|]. apply IH; [done|done|]. intros j k2 l2 _ Hn. by rewrite lookup_nil in Hn.
    + intros [|i] k' l'; simpl; [intros [= <-] [= ->]; by apply (Hf 0%nat k l')|].
      apply IH; [done|done|]. intros j k2 l2 Hk Ho. by apply (Hf (S j) k2 l2).
Qed.

Lemma length_fill {A} (hits fresh : list (option A)) : length (fill hits fresh) = length hits.
Proof. revert fresh. induction hits as [|[x|] hits IH]; intros fresh; [done|simpl; by rewrite IH|]. destruct fresh; simpl; by rewrite IH. Qed.

Lemma dir_answer_ok h w keys k l : wcoh h w → dir_answer dc (w_dir w) keys k = Some l → loc_ok w k l.
Proof.
  intros Hw. unfold dir_answer. destruct (first_live dc (w_dir w) _) as [ep|]; [|done]. simpl. intros Hl.
  by destruct (wc_dir _ _ Hw ep k l Hl).
Qed.

Lemma dir_lookup_ok h w keys : wcoh h w → locs_ok w keys (dir_answer dc (w_dir w) keys <$> keys).
Proof. intros Hw i k l Hk. rewrite list_lookup_fmap, Hk. simpl. intros [= Hl]. by eapply dir_answer_ok. Qed.

(** The misses of the location cache, as [fill] counts them. *)
Lemma misses_zip (f : string → option DataLocation) keys :
  filter (λ k, f k = None) keys = (filter (λ p : string * option DataLocation, p.2 = None) (zip keys (f <$> keys))).*1.
Proof.
  induction keys as [|k keys IH]; [done|]. cbn [fmap list_fmap zip zip_with]. destruct (decide (f k = None)) as [Hn|Hn].
  - rewrite !filter_cons_True by done. rewrite fmap_cons. by rewrite IH.
  - rewrite !filter_cons_False by done. done.
Qed.

Lemma dir_get_spec h w c now keys locs c' d' :
  wcoh h w → caches_ok w c → _dir_get c dc (w_dir w) now keys = (locs, c', d') →
  d' = w_dir w ∧ caches_ok w c' ∧ (cache_off c → cache_off c') ∧ locs_ok w keys locs ∧ length locs = length keys.
Proof.
  intros Hw Hc. unfold _dir_get. destruct (c_dir_cache_ttl c <=? 0) eqn:Ettl; bool_cases.
  { rewrite get_spec by apply (wc_wf _ _ Hw). intros [= <- <- <-]. split; [done|]. split; [done|]. split; [done|].
    split; [by eapply dir_lookup_ok|apply length_fmap]. }
  destruct Hc as [Hpr Hdc]. specialize (Hdc Ettl). set (hits := fresh_entry (c_dir_cache c) now <$> keys).
  assert (locs_ok w keys hits) as Hhits.
  { intros i k l Hk. unfold hits. rewrite list_lookup_fmap, Hk. simpl. intros [= [e He]%fresh_entry_Some]. by eapply Hdc. }
  assert (length hits = length keys) as Hlen by apply length_fmap.
  pose proof (misses_zip (fresh_entry (c_dir_cache c) now) keys) as Hmz. fold hits in Hmz.
  destruct (filter (λ k, fresh_entry (c_dir_cache c) now k = None) keys) as [|k0 ks0] eqn:Em.
  { intros [= <- <- <-]. split; [done|]. split; [by split|]. done. }
  set (miss := k0 :: ks0) in *. rewrite get_spec by apply (wc_wf _ _ Hw).
  pose proof (dir_lookup_ok h w miss Hw) as Hfresh. intros [= <- <- <-]. split; [done|]. split; [|split; [|split]].
  - split; [exact Hpr|]. intros _. by apply cache_resident_ok.
  - intros [_ ?]. lia.
  - apply fill_ok; [done|done|]. rewrite <-Hmz. exact Hfresh.
  - by rewrite length_fill.
Qed.

(** *** Primed locations *)

Lemma take_fold now keys : ∀ out m out' m',
  foldl (take_one now) (out, m) keys = (out', m') →
  m' ⊆ m ∧ ∃ new, out' = out ++ new ∧ length new = length keys ∧
    ∀ i k l, keys !! i = Some k → new !! i = Some (Some l) → ∃ e, m !! k = Some (l, e).
Proof.
  induction keys as [|k keys IH]; intros out m out' m'; cbn [foldl].
  { intros [= <- <-]. split; [done|]. exists []. by rewrite app_nil_r. }
  unfold take_one at 2. cbn [fst snd]. intros Hf. destruct (IH _ _ _ _ Hf) as (Hs & new & -> & Hlen & Hnew).
  split; [etransitivity; [exact Hs|apply delete_subseteq]|]. exists (fresh_entry m now k :: new).
  split; [by rewrite <-app_assoc|]. split; [by simpl; rewrite Hlen|]. intros [|i] k' l; simpl.
  - intros [= <-] [= He]. by eapply fresh_entry_Some.
  - intros Hk Hl. destruct (Hnew i k' l Hk Hl) as [e He]. exists e. by apply lookup_delete_Some in He as [_ ?].
Qed.

Lemma take_none now keys : ∀ out,
  foldl (take_one now) (out, ∅) keys = (out ++ replicate (length keys) None, ∅).
Proof.
  induction keys as [|k keys IH]; intros out; simpl; [by rewrite app_nil_r|].
  unfold take_one at 2. simpl. unfold fresh_entry. rewrite lookup_empty, delete_empty, IH, <-app_assoc. done.
Qed.

Lemma filter_is_Some_none n : filter is_Some (replicate n (@None DataLocation)) = [].
Proof.
  induction n as [|n IH]; [done|]. cbn [replicate]. rewrite filter_cons_False; [exact IH|]. by intros [].
Qed.

Lemma miss_all (keys : list string) :
  (filter (λ p : string * option DataLocation, p.2 = None) (zip keys (replicate (length keys) None))).*1 = keys.
Proof.
  induction keys as [|k keys IH]; [done|]. cbn [length replicate zip_with].
  rewrite filter_cons_True by done. rewrite fmap_cons. by rewrite IH.
Qed.

Lemma fill_none {A} n (fresh : list (option A)) : length fresh = n → fill (replicate n None) fresh = fresh.
Proof. revert n. induction fresh as [|f fresh IH]; intros [|n] Hn; try done. simpl. f_equal. apply IH. by injection Hn. Qed.

(** With the caches off a lookup is a directory lookup. *)
Lemma take_primed_eq h w me c t now keys :
  wcoh h w → w_tiers w !! me = Some t → cache_off c →
  _take_primed w me c now keys = (dir_answer dc (w_dir w) keys <$> keys, set_client w me (with_primed c ∅)).
Proof.
  intros Hw Ht [Hpr Httl]. unfold _take_primed. rewrite Ht.
  rewrite Hpr, take_none. simpl. rewrite filter_is_Some_none. simpl. rewrite miss_all.
  destruct keys as [|k0 keys0]; [done|]. set (keys := k0 :: keys0) in *.
  unfold _dir_get. simpl. rewrite (proj2 (Z.leb_le _ _) Httl).
  destruct (wc_tier _ _ Hw me t Ht) as (-> & _). rewrite get_spec by apply (wc_wf _ _ Hw).
  pose proof (fill_none (length keys) (dir_answer dc (w_dir w) keys <$> keys) (length_fmap _ _)) as Hf.
  transitivity (fill (replicate (length keys) None) (dir_answer dc (w_dir w) keys <$> keys),
    set_wdir (set_client w me (with_primed c ∅)) (w_dir w)); [done|]. rewrite Hf. done.
Qed.

Lemma take_primed_spec h w me c now keys locs w' :
  wcoh h w → w_clients w !! me = Some c → _take_primed w me c now keys = (locs, w') →
  wcoh h w' ∧ steady w w' ∧ (∀ n, mem_of w' n = mem_of w n) ∧ locs_ok w' keys locs ∧ length locs = length keys.
Proof.
  intros Hw Hc. unfold _take_primed. destruct (w_tiers w !! me) as [t|] eqn:Ht.
  2:{ intros [= <- <-]. split; [done|]. split; [apply steady_refl|]. split; [done|].
      split; [|apply length_replicate]. intros i k l _ [Hn _]%lookup_replicate. done. }
  destruct (wc_tier _ _ Hw me t Ht) as (-> & _). destruct (wc_client _ _ Hw me c Hc) as [Hpr Hdc].
  destruct (foldl (take_one now) ([], c_primed c) keys) as [out primed] eqn:Ef.
  destruct (take_fold now keys _ _ _ _ Ef) as (Hsub & new & -> & Hlen & Hnew). cbn [app].
  set (saved := zlength _). set (w1 := if saved =? 0 then w else _).
  assert (wcoh h w1 ∧ steady w w1 ∧ (∀ n, mem_of w1 n = mem_of w n)) as (W1 & S1 & M1).
  { unfold w1. destruct (saved =? 0); [|by apply meter_wcoh]. split; [done|]. split; [apply steady_refl|done]. }
  assert (w_clients w1 = w_clients w) as C1.
  { unfold w1. destruct (saved =? 0); [done|]. unfold meter, run_local. by destruct (local_of w me). }
  clearbody w1. assert (is_Some (w_clients w1 !! me)) as Hc1 by (apply (st_client _ _ S1); by eexists).
  assert (locs_ok w1 keys new) as Hl1.
  { intros i k l Hk Ho. destruct (Hnew i k l Hk Ho) as [e He]. eapply loc_ok_steady; [exact S1|]. by eapply Hpr. }
  set (c1 := with_primed c primed).
  assert (caches_ok w1 c1) as Hok1.
  { eapply caches_ok_pages; [apply S1|]. split; [|done]. by eapply cache_ok_sub. }
  assert (cache_off c → cache_off c1) as Hoff1.
  { intros [H1 H2]. split; [|done]. simpl. rewrite H1 in Hsub. apply map_empty. intros k. destruct (primed !! k) eqn:Ek; [|done].
    by apply (lookup_weaken _ ∅ _ _ Ek) in Hsub; rewrite lookup_empty in Hsub. }
  assert (∀ c2, caches_ok w1 c2 → (cache_off c1 → cache_off c2) →
    wcoh h (set_client w1 me c2) ∧ steady w (set_client w1 me c2) ∧ (∀ n, mem_of (set_client w1 me c2) n = mem_of w n)) as Hset.
  { intros c2 H2 Hoff. destruct (client_wcoh h w1 me c2 W1 Hc1 H2) as (A1 & A2 & A3).
    - intros c0. rewrite C1, Hc. intros [= <-]. auto.
    - split; [done|]. split; [by eapply steady_trans|]. intros n. by rewrite A3, M1. }
  destruct (filter _ (zip keys new)).*1 as [|k0 ks0] eqn:Em.
  { intros [= <- <-]. destruct (Hset c1 Hok1 ltac:(done)) as (A1 & A2 & A3). done. }
  destruct (_dir_get c1 dc (w_dir w1) now (k0 :: ks0)) as [[fresh c2] d] eqn:Ed.
  destruct (dir_get_spec h w1 c1 now (k0 :: ks0) fresh c2 d W1 Hok1 Ed) as (-> & Hok2 & Hoff2 & Hf & _).
  intros [= <- <-]. destruct (Hset c2 Hok2 Hoff2) as (A1 & A2 & A3).
  change (set_wdir (set_client w1 me c2) (w_dir w1)) with (set_client w1 me c2).
  split; [done|]. split; [done|]. split; [done|]. split; [|by rewrite length_fill].
  change (locs_ok w1 keys (fill new fresh)). apply fill_ok; [done|done|]. by rewrite Em.
Qed.

(** *** Promotion *)

Lemma promote_local_spec h me keys locs pr w i locs' pr' w' :
  wcoh h w → locs_ok w keys locs → promote_local me keys (locs, pr, w) i = (locs', pr', w') →
  wcoh h w' ∧ steady w w' ∧ (∀ n, mem_of w' n = mem_of w n) ∧ locs_ok w' keys locs' ∧ length locs' = length locs.
Proof.
  intros Hw Hl. unfold promote_local. set (k := default ""%string (keys !! i)).
  destruct (run_local w me [None] (λ s, _ensure_resident s [k])) as [out w1] eqn:Er.
  destruct (run_local_steady h w me [None] (λ s, _ensure_resident s [k]) out w1 Hw) as (Hw1 & Hs1 & Hm1); [|exact Er|].
  { intros s a s' Hs Hf. pose proof (wcoh_local _ _ _ _ Hw Hs) as Hc.
    by destruct (ensure_resident_keeps dc host key_len h (page_at w) s [k] a s' Hc Hf) as (? & ? & ? & ? & _). }
  assert (locs_ok w1 keys locs) as Hl1 by (intros j k' l Hk Hj; by eapply loc_ok_steady; [|eapply Hl]).
  destruct (head out) as [[l|]|] eqn:Eh; intros [= <- <- <-];
    (split; [done|]; split; [done|]; split; [done|]; split; [|by rewrite length_insert]);
    (apply locs_ok_insert; [done|]); [|done|done].
  intros k' l' Hk [= <-]. unfold run_local in Er. destruct (local_of w me) as [s|] eqn:Es.
  2:{ injection Er as <- _. done. }
  destruct (_ensure_resident s [k]) as [out' s1] eqn:Ee. injection Er as -> _.
  pose proof (wcoh_local _ _ _ _ Hw Es) as Hc.
  destruct (ensure_resident_keeps dc host key_len h (page_at w) s [k] out s1 Hc Ee) as (_ & _ & _ & _ & _ & Hout).
  assert (k' = k) as -> by (unfold k; by rewrite Hk).
  eapply loc_ok_steady; [exact Hs1|]. apply local_of_Some in Es as (t & p & Ht & _ & -> & _).
  apply (loc_right_ok w me t); [done|]. rewrite <-(proj2 (proj2 (proj2 (wc_tier _ _ Hw me t Ht)))) at 1.
  apply (Hout 0%nat k l); [done|]. destruct out as [|o out]; [done|]. simpl in Eh. by injection Eh as ->.
Qed.

(** The handler of [data_promote] on the node behind an endpoint. *)
Lemma promote_invoke h w0 w n keys r w' :
  wcoh h w →
  invoke (data_service w0 n) w "data_promote" (VDict [("keys", VList (VStr <$> keys))]) = (r, w') →
  wcoh h w' ∧ steady w w' ∧ (∀ k, mem_of w' k = mem_of w k) ∧
  (∀ v, r = Ret v → ∃ out, v = VDict [("locations", VList (opt_loc_dict <$> out))] ∧ length out = length keys ∧
     ∀ i k l, keys !! i = Some k → out !! i = Some (Some l) → loc_ok w' k l).
Proof.
  intros Hw. set (args := VDict _). unfold invoke.
  assert (data_service w0 n "data_promote" = Some (on_node n _on_data_promote)) as ->.
  { unfold data_service. by destruct (w_clients w0 !! n). }
  unfold on_node. destruct (run_local w n (Raise RuntimeError) (λ s, _on_data_promote s args)) as [r1 w1] eqn:Er.
  destruct (run_local_steady h w n (Raise RuntimeError) (λ s, _on_data_promote s args) r1 w1 Hw) as (Hw1 & Hs1 & Hm1);
    [|exact Er|].
  { intros s a s' Hs Hf. pose proof (wcoh_local _ _ _ _ Hw Hs) as Hc.
    by destruct (on_data_promote_keeps dc host key_len h (page_at w) s keys a s' Hc Hf) as (? & ? & ? & ? & _). }
  intros Heq. assert (w' = w1) as -> by (by destruct r1; injection Heq).
  split; [done|]. split; [done|]. split; [done|]. intros v ->.
  destruct r1 as [v1|]; [|by injection Heq]. injection Heq as <-.
  unfold run_local in Er. destruct (local_of w n) as [s|] eqn:Es; [|done].
  destruct (_on_data_promote s args) as [r2 s2] eqn:Ep. injection Er as -> _.
  pose proof (wcoh_local _ _ _ _ Hw Es) as Hc.
  destruct (on_data_promote_keeps dc host key_len h (page_at w) s keys _ s2 Hc Ep) as (_ & _ & _ & _ & out & Hr & Hlen & Hout).
  injection Hr as ->. exists out. split; [done|]. split; [done|]. intros i k l Hk Hl.
  eapply loc_ok_steady; [exact Hs1|]. apply local_of_Some in Es as (t & p & Ht & _ & -> & _).
  apply (loc_right_ok w n t); [done|]. rewrite <-(proj2 (proj2 (proj2 (wc_tier _ _ Hw n t Ht)))) at 1.
  by eapply Hout.
Qed.

(** The same through a link that may run it twice or lose the reply. *)
Lemma promote_call h w ep keys r w' :
  wcoh h w → data_call w ep "data_promote" (VDict [("keys", VList (VStr <$> keys))]) = (r, w') →
  wcoh h w' ∧ steady w w' ∧ (∀ k, mem_of w' k = mem_of w k) ∧
  (∀ v, r = Ret v → ∃ out, v = VDict [("locations", VList (opt_loc_dict <$> out))] ∧ length out = length keys ∧
     ∀ i k l, keys !! i = Some k → out !! i = Some (Some l) → loc_ok w' k l).
Proof.
  intros Hw. unfold data_call. destruct (w_node_at w ep) as [n|].
  2:{ intros [= <- <-]. split; [done|]. split; [apply steady_refl|]. done. }
  set (args := VDict _). destruct (w_link w ep) as [a1 a2].
  destruct (invoke (data_service w n) w "data_promote" args) as [r1 w1] eqn:E1.
  destruct (promote_invoke h w w n keys r1 w1 Hw E1) as (A1 & A2 & A3 & A4).
  destruct (invoke (data_service w n) w1 "data_promote" args) as [r2 w2] eqn:E2.
  destruct (promote_invoke h w w1 n keys r2 w2 A1 E2) as (B1 & B2 & B3 & B4).
  assert (steady w w2) as C2 by by eapply steady_trans.
  assert (∀ k, mem_of w2 k = mem_of w k) as C3 by (intros k; by rewrite B3).
  destruct a1, a2; simpl; rewrite ?E1; simpl; rewrite ?E1; simpl; rewrite ?E2; simpl;
    intros [= <- <-]; (split; [done|]; split; [first [done|apply steady_refl]|]; split; [done|]; done).
Qed.

Lemma apply_promoted_ok w keys idxs : ∀ out locs pr,
  locs_ok w keys locs →
  (∀ j i k l, idxs !! j = Some i → keys !! i = Some k → out !! j = Some (Some l) → loc_ok w k l) →
  ∃ locs' pr', apply_promoted locs pr (zip idxs (opt_loc_dict <$> out)) = (Ret tt, locs', pr') ∧
    locs_ok w keys locs' ∧ length locs' = length locs.
Proof.
  induction idxs as [|i idxs IH]; intros [|o out] locs pr Hl Ho; simpl; try by eauto.
  assert (read_loc (opt_loc_dict o) = Ret o) as -> by (destruct o; [apply read_loc_dict|done]).
  destruct (IH out (<[i := o]> locs) (match o with Some _ => i :: pr | None => pr end)) as (locs' & pr' & He & H1 & H2).
  - apply locs_ok_insert; [done|]. intros k l Hk ->. by apply (Ho 0%nat i k l).
  - intros j i' k l Hj Hk Hout. by apply (Ho (S j) i' k l).
  - exists locs', pr'. split; [done|]. split; [done|]. by rewrite H2, length_insert.
Qed.

Lemma length_forget locs idxs : length (forget locs idxs) = length locs.
Proof. revert locs. induction idxs as [|i idxs IH]; intros locs; [done|]. simpl. by rewrite IH, length_insert. Qed.

Lemma promote_remote_spec h keys locs pr w g locs' pr' w' :
  wcoh h w → locs_ok w keys locs → promote_remote keys (locs, pr, w) g = (locs', pr', w') →
  wcoh h w' ∧ steady w w' ∧ (∀ n, mem_of w' n = mem_of w n) ∧ locs_ok w' keys locs' ∧ length locs' = length locs.
Proof.
  intros Hw Hl. destruct g as [owner idxs]. unfold promote_remote.
  destruct (w_control w owner) as [ep|].
  2:{ intros [= <- <- <-]. split; [done|]. split; [apply steady_refl|]. split; [done|].
      split; [by apply forget_ok|apply length_forget]. }
  set (ks := (λ i, default ""%string (keys !! i)) <$> idxs).
  destruct (data_call w ep "data_promote" (VDict [("keys", VList (VStr <$> ks))])) as [r w1] eqn:Ec.
  destruct (promote_call h w ep ks r w1 Hw Ec) as (Hw1 & Hs1 & Hm1 & Hr).
  assert (locs_ok w1 keys locs) as Hl1 by (intros j k' l Hk Hj; by eapply loc_ok_steady; [|eapply Hl]).
  assert (∀ locs', locs_ok w1 keys locs' → length locs' = length locs →
    wcoh h w1 ∧ steady w w1 ∧ (∀ n, mem_of w1 n = mem_of w n) ∧ locs_ok w1 keys locs' ∧ length locs' = length locs) as Hgo
    by done.
  destruct r as [v|x].
  2:{ simpl. intros [= <- <- <-]. apply Hgo; [by apply forget_ok|apply length_forget]. }
  destruct (Hr v eq_refl) as (out & -> & Hlen & Hout). simpl.
  destruct (apply_promoted_ok w1 keys idxs out locs pr Hl1) as (locs2 & pr2 & -> & H1 & H2).
  { intros j i k l Hj Hk Ho. apply (Hout j k l); [|done]. unfold ks. rewrite list_lookup_fmap, Hj. simpl. by rewrite Hk. }
  intros [= <- <- <-]. by apply Hgo.
Qed.

Lemma resolve_spec h w me keys locs locs' pr' w' :
  wcoh h w → locs_ok w keys locs → _resolve_non_resident w me keys locs = (locs', pr', w') →
  wcoh h w' ∧ steady w w' ∧ (∀ n, mem_of w' n = mem_of w n) ∧ locs_ok w' keys locs' ∧ length locs' = length locs.
Proof.
  intros Hw Hl. unfold _resolve_non_resident.
  set (idx := (filter _ _).*1). set (grp := foldl (λ d e, group_add d e.2 e.1) [] _). clearbody idx grp.
  assert (∀ {A} (f : list (option DataLocation) * list nat * world → A → list (option DataLocation) * list nat * world)
    (xs : list A), (∀ locs pr w x locs' pr' w', wcoh h w → locs_ok w keys locs → f (locs, pr, w) x = (locs', pr', w') →
      wcoh h w' ∧ steady w w' ∧ (∀ n, mem_of w' n = mem_of w n) ∧ locs_ok w' keys locs' ∧ length locs' = length locs) →
    ∀ locs pr w locs' pr' w', wcoh h w → locs_ok w keys locs → foldl f (locs, pr, w) xs = (locs', pr', w') →
      wcoh h w' ∧ steady w w' ∧ (∀ n, mem_of w' n = mem_of w n) ∧ locs_ok w' keys locs' ∧ length locs' = length locs) as Hfold.
  { clear. intros A f xs Hf. induction xs as [|x xs IH]; intros locs pr w locs' pr' w' Hw Hl; cbn [foldl].
    - intros [= <- <- <-]. split; [done|]. split; [apply steady_refl|]. done.
    - destruct (f (locs, pr, w) x) as [[l1 p1] w1] eqn:E1. intros H2.
      destruct (Hf _ _ _ _ _ _ _ Hw Hl E1) as (A1 & A2 & A3 & A4 & A5).
      destruct (IH _ _ _ _ _ _ A1 A4 H2) as (B1 & B2 & B3 & B4 & B5).
      split; [done|]. split; [by eapply steady_trans|]. split; [intros n; by rewrite B3|]. split; [done|congruence]. }
  destruct (foldl (promote_local me keys) (locs, [], w) idx) as [[l1 p1] w1] eqn:E1. intros E2.
  destruct (Hfold _ _ idx (λ locs pr w x locs' pr' w', promote_local_spec h me keys locs pr w x locs' pr' w') _ _ _ _ _ _ Hw Hl E1)
    as (A1 & A2 & A3 & A4 & A5).
  destruct (Hfold _ _ grp (λ locs pr w x locs' pr' w', promote_remote_spec h keys locs pr w x locs' pr' w') _ _ _ _ _ _ A1 A4 E2)
    as (B1 & B2 & B3 & B4 & B5).
  split; [done|]. split; [by eapply steady_trans|]. split; [intros n; by rewrite B3|]. split; [done|congruence].
Qed.

(** ** Copying the pages *)

Lemma page_at_bytes h w n k a len :
  wcoh h w → page_at w n k a len → 0 ≤ len ∧ (k, mem_read (mem_of w n) a len) ∈ h.
Proof.
  intros Hw (t & p & Ht & Hp & b & Hb & -> & ->). destruct (wc_pool _ _ Hw n t p Ht Hp) as [Hinv Hpub].
  split; [by apply (pool_inv_bounds _ _ _ Hinv Hb)|]. by apply Hpub.
Qed.

(** Writing memory of [me] outside its pool. *)
Lemma set_mem_wcoh h w me m :
  wcoh h w → (∀ x, (∀ b c k ks, place w me = Some (b, c, k, ks) → b ≤ x < b + c) → is_Some (place w me) → m x = mem_of w me x) →
  wcoh h (set_mem_of w me m) ∧ steady w (set_mem_of w me m).
Proof.
  intros Hw Hx. destruct (set_mem_of_fields w me m) as (F1 & F2 & F3 & F4 & F5 & F6 & F7).
  assert (steady w (set_mem_of w me m)) as Hs.
  { split.
    - intros n k a len (t & p & H). exists t, p. by rewrite F1.
    - intros n. unfold place. by rewrite F1.
    - intros n. by rewrite F2.
    - intros n. by rewrite F1.
    - intros Hoff n c. rewrite F2. apply Hoff. }
  split; [|done]. destruct Hw as [W1 W2 W3 W4 W5 W6 W7 W8]. split.
  - by rewrite F7.
  - intros n. rewrite F1. intros Hn. apply (sn_proc _ _ _ (set_mem_of_net w me m)). by apply W2.
  - intros n t. rewrite F1. apply W3.
  - intros n t p. rewrite F1. intros Ht Hp. destruct (W4 n t p Ht Hp) as [Hinv Hpub]. split; [done|].
    intros k b Hb. rewrite mem_of_set_mem. case_bool_decide as Hd; [|by apply Hpub]. destruct Hd as [-> _].
    unfold page_bytes. erewrite mem_read_ext; [by apply Hpub|]. intros x Hxr.
    pose proof (pool_inv_bounds _ _ _ Hinv Hb) as Hbd. apply Hx; unfold place; rewrite Ht; simpl; rewrite Hp; simpl; [|eauto].
    intros b' c' k' ks' [= <- <- _ _]. lia.
  - by rewrite F3.
  - by rewrite F3.
  - intros ep k l. rewrite F3. intros Hl. destruct (W7 ep k l Hl) as [H1 H2]. split; [done|]. by eapply loc_ok_steady.
  - intros n c. rewrite F2. intros Hc. eapply caches_ok_pages; [apply Hs|]. by eapply W8.
Qed.

Lemma copy_in_spec h w me n k dst src len :
  wcoh h w → is_Some (w_tiers w !! me) → n = me → page_at w n k src len → pbuffer w me dst len →
  let w' := copy_in w me dst src len in
  wcoh h w' ∧ steady w w' ∧ (∀ n, n ≠ me → mem_of w' n = mem_of w n) ∧
  (∀ x, ¬ (dst ≤ x < dst + len) → mem_of w' me x = mem_of w me x) ∧ (k, mem_read (mem_of w' me) dst len) ∈ h.
Proof.
  intros Hw Ht -> Hpg Hb w'. destruct (page_at_bytes _ _ _ _ _ _ Hw Hpg) as [Hlen Hin].
  assert (∀ x, ¬ (dst ≤ x < dst + len) → memmove (mem_of w me) dst src len x = mem_of w me x) as Hfr.
  { intros x Hx. unfold memmove. apply mem_write_out. rewrite zlength_mem_read; lia. }
  destruct (set_mem_wcoh h w me (memmove (mem_of w me) dst src len) Hw) as [H1 H2].
  { intros x Hx [[[[b c] k0] ks] Hpl]. apply Hfr. specialize (Hx b c k0 ks Hpl). specialize (Hb b c k0 ks Hpl).
    unfold ranges_disjoint in Hb. lia. }
  split; [done|]. split; [done|]. unfold w', copy_in. split; [intros n Hn; by apply mem_of_set_mem_ne|].
  rewrite mem_of_set_mem_eq by (by apply (wc_proc _ _ Hw)). split; [done|]. by rewrite mem_read_memmove_same.
Qed.

Definition plan_ok (h : history) (w w' : world) (me key : string) (ptr size : Z) (pl : plan) : Prop :=
  match pl with
  | Skip => True
  | Copied _ => (key, mem_read (mem_of w' me) ptr size) ∈ h
  | Remote l op => op = mk_multiop (l_rdma_endpoint l) ptr (l_remote_addr l) size ∧ l_resident l = true ∧
      l_length l = size ∧ l_node_id l ≠ me ∧ loc_ok w key l
  end.

Lemma plan_one_spec h w me c prom key loc ptr size pl w' :
  wcoh h w → is_Some (w_tiers w !! me) → pbuffer w me ptr size → (∀ l, loc = Some l → loc_ok w key l) →
  plan_one w me c prom key loc ptr size = (pl, w') →
  wcoh h w' ∧ steady w w' ∧ (∀ n, n ≠ me → mem_of w' n = mem_of w n) ∧
  (∀ x, ¬ (ptr ≤ x < ptr + size) → mem_of w' me x = mem_of w me x) ∧ plan_ok h w' w' me key ptr size pl.
Proof.
  intros Hw Ht Hb Hl. unfold plan_one.
  assert ((Skip, w) = (pl, w') → wcoh h w' ∧ steady w w' ∧ (∀ n, n ≠ me → mem_of w' n = mem_of w n) ∧
    (∀ x, ¬ (ptr ≤ x < ptr + size) → mem_of w' me x = mem_of w me x) ∧ plan_ok h w' w' me key ptr size pl) as Hskip.
  { intros [= <- <-]. split; [done|]. split; [apply steady_refl|]. done. }
  destruct loc as [l|]; [|exact Hskip]. destruct (l_resident l) eqn:Eres; simpl; [|exact Hskip].
  destruct (l_length l =? size) eqn:Elen; simpl; [|exact Hskip]. apply Z.eqb_eq in Elen.
  destruct (if dual_write c then _ else _) as [al w1] eqn:Ed.
  assert (wcoh h w1 ∧ steady w w1 ∧ (∀ k, mem_of w1 k = mem_of w k) ∧
    (∀ a n, al = Some (a, n) → page_at w me key a n)) as (Hw1 & Hs1 & Hm1 & Hal).
  { destruct (dual_write c); [|injection Ed as <- <-; split; [done|]; split; [apply steady_refl|]; done].
    destruct (run_local_steady h w me None (λ s, pool_address s key) al w1 Hw) as (H1 & H2 & H3); [|exact Ed|].
    - intros s a s' Hs Hf. pose proof (wcoh_local _ _ _ _ Hw Hs) as Hc.
      by destruct (pool_address_keeps dc host h (page_at w) s key a s' Hc Hf) as (? & ? & ? & _ & _ & ?).
    - split; [done|]. split; [done|]. split; [done|]. intros a n ->. unfold run_local in Ed.
      destruct (local_of w me) as [s|] eqn:Es; [|done]. destruct (pool_address s key) as [al2 s2] eqn:Ea.
      injection Ed as -> _. pose proof (wcoh_local _ _ _ _ Hw Es) as Hc.
      destruct (pool_address_keeps dc host h (page_at w) s key _ s2 Hc Ea) as (_ & _ & _ & _ & Hp & _).
      destruct (Hp a n eq_refl) as (p & Hpp & Hpg). apply local_of_Some in Es as (t & q & Ht' & _ & -> & _).
      by exists t, p. }
  assert (is_Some (w_tiers w1 !! me)) as Ht1 by by apply (st_tier _ _ Hs1).
  assert (pbuffer w1 me ptr size) as Hb1 by (intros b c' k' ks'; rewrite (st_place _ _ Hs1); apply Hb).
  pose proof (Hl l eq_refl) as Hok. destruct (Hok Eres) as [Hrails Hpage].
  assert (∀ s a n, page_at w me key a n → n = size → (Copied s, copy_in w1 me ptr a n) = (pl, w') →
    wcoh h w' ∧ steady w w' ∧ (∀ n, n ≠ me → mem_of w' n = mem_of w n) ∧
    (∀ x, ¬ (ptr ≤ x < ptr + size) → mem_of w' me x = mem_of w me x) ∧ plan_ok h w' w' me key ptr size pl) as Hcopy.
  { intros s a n Hpg -> [= <- <-]. apply (st_pages _ _ Hs1) in Hpg.
    destruct (copy_in_spec h w1 me me key ptr a size Hw1 Ht1 eq_refl Hpg Hb1) as (C1 & C2 & C3 & C4 & C5).
    split; [done|]. split; [by eapply steady_trans|]. split; [intros n Hn; by rewrite C3|].
    split; [intros x Hx; rewrite C4 by done; by rewrite Hm1|]. exact C5. }
  assert ((if String.eqb (l_node_id l) me
     then (Copied (if prom then "disk" else "local"), copy_in w1 me ptr (l_remote_addr l) (l_length l))
     else (Remote l (mk_multiop (l_rdma_endpoint l) ptr (l_remote_addr l) (l_length l)), w1)) = (pl, w') →
    wcoh h w' ∧ steady w w' ∧ (∀ n, n ≠ me → mem_of w' n = mem_of w n) ∧
    (∀ x, ¬ (ptr ≤ x < ptr + size) → mem_of w' me x = mem_of w me x) ∧ plan_ok h w' w' me key ptr size pl) as Hdir.
  { destruct (String.eqb (l_node_id l) me) eqn:Eid.
    - apply String.eqb_eq in Eid. rewrite Eid in Hpage. by apply Hcopy.
    - apply String.eqb_neq in Eid. intros [= <- <-]. split; [done|]. split; [done|].
      split; [intros n _; apply Hm1|]. split; [intros x _; by rewrite Hm1|]. simpl. rewrite Elen.
      split; [done|]. split; [done|]. split; [done|]. split; [done|]. by eapply loc_ok_steady. }
  destruct al as [[addr n]|]; [|exact Hdir].
  destruct (n =? size) eqn:En; [|exact Hdir]. apply Z.eqb_eq in En. apply Hcopy; [by apply Hal|done].
Qed.

Lemma plan_ok_move h w w1 me key ptr size pl :
  steady w w1 → (∀ x, ptr ≤ x < ptr + size → mem_of w1 me x = mem_of w me x) →
  plan_ok h w w me key ptr size pl → plan_ok h w1 w1 me key ptr size pl.
Proof.
  intros Hs Hx. destruct pl as [|s|l op]; simpl; [done| |].
  - intros Hin. by erewrite mem_read_ext.
  - intros (H1 & H2 & H3 & H4 & H5). split; [done|]. split; [done|]. split; [done|]. split; [done|]. by eapply loc_ok_steady.
Qed.

(** The buffers of two keys. *)
Definition items_apart (x y : string * option DataLocation * Z * Z) : Prop :=
  ranges_disjoint x.1.2 x.2 y.1.2 y.2.

Lemma plan_all_spec h me c promoted items : ∀ w i ps w',
  wcoh h w → is_Some (w_tiers w !! me) →
  (∀ j key loc ptr size, items !! j = Some (key, loc, ptr, size) →
     pbuffer w me ptr size ∧ ∀ l, loc = Some l → loc_ok w key l) →
  ForallOrdPairs items_apart items →
  plan_all w me c promoted i items = (ps, w') →
  wcoh h w' ∧ steady w w' ∧ (∀ n, n ≠ me → mem_of w' n = mem_of w n) ∧
  (∀ x, (∀ j key loc ptr size, items !! j = Some (key, loc, ptr, size) → ¬ (ptr ≤ x < ptr + size)) →
     mem_of w' me x = mem_of w me x) ∧
  length ps = length items ∧
  (∀ j key loc ptr size pl, items !! j = Some (key, loc, ptr, size) → ps !! j = Some pl →
     plan_ok h w' w' me key ptr size pl).
Proof.
  induction items as [|[[[key loc] ptr] size] items IH]; intros w i ps w' Hw Ht Hit Hap; cbn [plan_all].
  { intros [= <- <-]. split; [done|]. split; [apply steady_refl|]. split; [done|]. split; [done|]. split; [done|].
    intros j key loc ptr size pl Hj. by rewrite lookup_nil in Hj. }
  destruct (Hit 0%nat key loc ptr size eq_refl) as [Hb Hl].
  destruct (plan_one w me c _ key loc ptr size) as [p1 w1] eqn:E1.
  destruct (plan_one_spec h w me c _ key loc ptr size p1 w1 Hw Ht Hb Hl E1) as (A1 & A2 & A3 & A4 & A5).
  destruct (plan_all w1 me c promoted (S i) items) as [ps2 w2] eqn:E2. intros [= <- <-].
  assert (Forall (items_apart (key, loc, ptr, size)) items ∧ ForallOrdPairs items_apart items) as [Hd Hap'] by by inversion Hap.
  destruct (IH w1 (S i) ps2 w2 A1) as (B1 & B2 & B3 & B4 & B5 & B6); [|..|exact Hap'|exact E2|].
  { by apply (st_tier _ _ A2). }
  { intros j key' loc' ptr' size' Hj. destruct (Hit (S j) key' loc' ptr' size' Hj) as [H1 H2]. split.
    - intros b c' k' ks'. rewrite (st_place _ _ A2). apply H1.
    - intros l Hl'. eapply loc_ok_steady; [exact A2|]. by apply H2. }
  split; [done|]. split; [by eapply steady_trans|]. split; [intros n Hn; by rewrite B3, A3|]. split.
  { intros x Hx. rewrite B4; [|intros j k' l' p' s' Hj; by apply (Hx (S j) k' l' p' s')].
    apply A4. by apply (Hx 0%nat key loc ptr size). }
  split; [by simpl; rewrite B5|].
  intros [|j] key' loc' ptr' size' pl; simpl; [|apply B6]. intros [= <- <- <- <-] [= <-].
  eapply plan_ok_move; [exact B2| |exact A5]. intros x Hx. apply B4. intros j k' l' p' s' Hj.
  rewrite Forall_forall in Hd. specialize (Hd _ (list_elem_of_lookup_2 _ _ _ Hj)).
  unfold items_apart, ranges_disjoint in Hd. simpl in Hd. lia.
Qed.

(** ** The remote reads *)

(** The rails recorded for an endpoint lead where it does. *)
Definition plan_rails_ok (eps : gmap string (list string)) : Prop :=
  ∀ nk rails, eps !! nk = Some rails → rails ≠ [] ∧ Forall (λ e, host e = host nk) rails.

Definition remote_rails (p : plan) : Prop := ∀ l op, p = Remote l op → rails_to host (l_node_id l) l.

Lemma plan_rails_fold ps acc :
  Forall remote_rails ps → plan_rails_ok acc.1 →
  let eps := (foldl plan_rail_step acc ps).1 in
  plan_rails_ok eps ∧ (∀ l op, Remote l op ∈ ps → is_Some (eps !! l_rdma_endpoint l)) ∧
  (∀ nk, is_Some (acc.1 !! nk) → is_Some (eps !! nk)).
Proof.
  revert acc. induction ps as [|p ps IH]; intros [eps ks] Hps Ha; simpl in *.
  { split; [done|]. split; [by intros ?? ?%not_elem_of_nil|done]. }
  apply Forall_cons in Hps as [Hp Hps].
  assert (plan_rails_ok (plan_rail_step (eps, ks) p).1 ∧
    (∀ l op, p = Remote l op → is_Some ((plan_rail_step (eps, ks) p).1 !! l_rdma_endpoint l)) ∧
    ∀ nk, is_Some (eps !! nk) → is_Some ((plan_rail_step (eps, ks) p).1 !! nk)) as (H1 & H2 & H3).
  { destruct p as [|s|l op]; simpl; [done|done|]. destruct (eps !! l_rdma_endpoint l) as [rs|] eqn:E; simpl.
    - split; [done|]. split; [|done]. intros l' op' [= <- <-]. by rewrite E.
    - destruct (Hp l op eq_refl) as [Hh Hr]. split; [|split].
      + intros nk rails. rewrite lookup_insert_Some. intros [[<- <-]|[_ H]]; [|by eapply Ha].
        rewrite Hh. split; [|done]. unfold endpoints. by destruct (l_rail_endpoints l).
      + intros l' op' [= <- <-]. rewrite lookup_insert_eq. eauto.
      + intros nk Hk. apply lookup_insert_is_Some'. by right. }
  destruct (IH (plan_rail_step (eps, ks) p) Hps H1) as (I1 & I2 & I3). split; [done|]. split; [|by auto].
  intros l op [Hp'|Hin]%elem_of_cons; [|by eapply I2]. apply I3. by eapply H2.
Qed.

Lemma plan_rails_host ps l op n (i n_rails : Z) :
  Forall remote_rails ps → Remote l op ∈ ps → l_node_id l = n → 0 ≤ i →
  host (rail_endpoint n_rails i (plan_rails ps).1 (l_rdma_endpoint l)) = Some n.
Proof.
  intros Hps Hin <- Hi. destruct (plan_rails_fold ps (∅, ∅) Hps) as (H1 & H2 & _).
  { intros nk rails. simpl. by rewrite lookup_empty. }
  fold (plan_rails ps) in *. destruct (H2 l op Hin) as [rails Hr].
  unfold rail_endpoint. rewrite Hr. simpl. destruct (H1 _ _ Hr) as [Hne Hf].
  destruct (pick_rail_elem n_rails i rails Hi Hne) as (e & -> & He). simpl.
  rewrite Forall_forall in Hf. rewrite (Hf e He). rewrite Forall_forall in Hps.
  by destruct (Hps _ Hin l op eq_refl).
Qed.

(** Where the remote plans go in the batch of reads. *)
Definition rank (ps : list plan) (j : nat) : nat := length (omap remote_op (take j ps)).

Lemma remote_op_index (ps : list plan) (q : nat) op :
  omap remote_op ps !! q = Some op → ∃ j l, ps !! j = Some (Remote l op) ∧ rank ps j = q.
Proof.
  revert q. induction ps as [|p ps IH]; intros q Hq; [done|]. destruct p as [|s|l op']; simpl in Hq.
  1,2: destruct (IH q Hq) as (j & l & Hj & Hr); by exists (S j), l.
  destruct q as [|q]; simpl in Hq; [injection Hq as ->; by exists 0%nat, l|].
  destruct (IH q Hq) as (j & l' & Hj & Hr). exists (S j), l'. split; [done|]. exact (f_equal S Hr).
Qed.

Lemma rank_lookup (ps : list plan) (j : nat) l op :
  ps !! j = Some (Remote l op) → omap remote_op ps !! rank ps j = Some op.
Proof.
  revert j. induction ps as [|p ps IH]; intros j Hj; [done|]. destruct j as [|j]; simpl in Hj.
  - injection Hj as ->. done.
  - unfold rank in *. destruct p; simpl; by apply IH.
Qed.

Lemma rank_inj (ps : list plan) (j j' : nat) l op l' op' :
  ps !! j = Some (Remote l op) → ps !! j' = Some (Remote l' op') → rank ps j = rank ps j' → j = j'.
Proof.
  revert j j'. induction ps as [|p ps IH]; intros j j' Hj Hj' Hr; [done|].
  destruct j as [|j], j' as [|j']; simpl in Hj, Hj'; [done|..|].
  - injection Hj as ->. unfold rank in Hr. simpl in Hr. lia.
  - injection Hj' as ->. unfold rank in Hr. simpl in Hr. lia.
  - f_equal. unfold rank in *. destruct p; simpl in Hr; eapply IH; eauto.
Qed.

Lemma remote_op_order (ps : list plan) (q q' : nat) op op' :
  (q < q')%nat → omap remote_op ps !! q = Some op → omap remote_op ps !! q' = Some op' →
  ∃ j j' l l', (j < j')%nat ∧ ps !! j = Some (Remote l op) ∧ ps !! j' = Some (Remote l' op').
Proof.
  revert q q'. induction ps as [|p ps IH]; intros q q' Hqq Hq Hq'; [done|].
  destruct p as [|s|l op0]; simpl in Hq, Hq'.
  1,2: destruct (IH q q' Hqq Hq Hq') as (j & j' & l & l' & H1 & H2 & H3); exists (S j), (S j'), l, l'; split; [lia|done].
  destruct q' as [|q']; [lia|]. simpl in Hq'. destruct q as [|q]; simpl in Hq.
  - injection Hq as ->. destruct (remote_op_index _ _ _ Hq') as (j' & l' & Hj' & _).
    exists 0%nat, (S j'), l, l'. split; [lia|done].
  - destruct (IH q q' ltac:(lia) Hq Hq') as (j & j' & l1 & l1' & H1 & H2 & H3).
    exists (S j), (S j'), l1, l1'. split; [lia|done].
Qed.

Lemma outcomes_true pr (ps : list plan) : ∀ i oks (j : nat),
  (outcomes pr i ps oks).*1 !! j = Some true →
  (∃ s, ps !! j = Some (Copied s)) ∨ (∃ l op, ps !! j = Some (Remote l op) ∧ oks !! rank ps j = Some true).
Proof.
  induction ps as [|p ps IH]; intros i oks j Hj; [done|]. unfold rank in *. destruct p as [|s|l op]; simpl in Hj.
  - destruct j as [|j]; [done|]. simpl in *. by eapply IH.
  - destruct j as [|j]; [left; by exists s|]. simpl in *. by eapply IH.
  - destruct oks as [|[] oks]; simpl in Hj; (destruct j as [|j]; simpl in Hj; [try done|]).
    + apply IH in Hj as [?|(l' & op' & H1 & H2)]; [by left|]. by rewrite lookup_nil in H2.
    + right. by exists l, op.
    + apply IH in Hj as [?|(l' & op' & H1 & H2)]; [by left|]. right. by exists l', op'.
    + apply IH in Hj as [?|(l' & op' & H1 & H2)]; [by left|]. right. by exists l', op'.
Qed.

(** *** The batch *)

(** Operation [q] of a batch comes from the remote plan of item [j]. *)
Definition plan_op (w : world) (me : string) (ps : list plan) (items : list (string * option DataLocation * Z * Z))
    (q : nat) (ro : ReadOp) : Prop :=
  ∃ j key loc ptr size l op, items !! j = Some (key, loc, ptr, size) ∧
    ps !! j = Some (Remote l op) ∧ rank ps j = q ∧ loc_ok w key l ∧ l_resident l = true ∧
    l_node_id l ≠ me ∧ host (ro_endpoint ro) = Some (l_node_id l) ∧ ro_local ro = ptr ∧ ro_length ro = size ∧
    ro_remote ro = l_remote_addr l ∧ l_length l = size.

Lemma plan_ops h w me ps items n_rails :
  wcoh h w → (∀ j pl, ps !! j = Some pl → ∃ key loc ptr size, items !! j = Some (key, loc, ptr, size) ∧
    plan_ok h w w me key ptr size pl) → ForallOrdPairs items_apart items →
  let ops := stripe n_rails (plan_rails ps).1 (plan_rails ps).2 (omap remote_op ps) in
  (∀ q ro, ops !! q = Some ro → plan_op w me ps items q ro) ∧
  remote_ops (w_fab w) me ops ∧ ForallOrdPairs local_disjoint ops.
Proof.
  intros Hw Hat Hap ops.
  assert (Forall remote_rails ps) as Hrr.
  { apply Forall_forall. intros pl (j & Hj)%list_elem_of_lookup_1 l op ->.
    destruct (Hat j _ Hj) as (key & loc & ptr & size & _ & _ & Hres & _ & _ & Hok). by destruct (Hok Hres). }
  assert (∀ q ro, ops !! q = Some ro → plan_op w me ps items q ro) as Hops.
  { intros q ro (mo & Hmo & He & Hlo & Hrm & Hln)%stripe_lookup.
    destruct (remote_op_index _ _ _ Hmo) as (j & l & Hj & Hrank).
    destruct (Hat j _ Hj) as (key & loc & ptr & size & Hit & -> & Hres & Hsz & Hne & Hok). simpl in *.
    exists j, key, loc, ptr, size, l, (mk_multiop (l_rdma_endpoint l) ptr (l_remote_addr l) size).
    split; [done|]. split; [done|]. split; [done|]. split; [done|]. split; [done|]. split; [done|]. split; [|done].
    rewrite He. eapply plan_rails_host; [done|by eapply list_elem_of_lookup_2|done|lia]. }
  split; [done|]. split.
  - apply Forall_forall. intros ro (q & Hq)%list_elem_of_lookup_1.
    destruct (Hops q ro Hq) as (j & key & loc & ptr & size & l & op & _ & _ & _ & _ & _ & Hne & Hh & _).
    rewrite (wc_host _ _ Hw), Hh. congruence.
  - apply ForallOrdPairs_lookup. intros q q' x y Hqq Hx Hy.
    apply stripe_lookup in Hx as (mo & Hmo & _ & Hlo & _ & Hln).
    apply stripe_lookup in Hy as (mo' & Hmo' & _ & Hlo' & _ & Hln').
    destruct (remote_op_order _ _ _ _ _ Hqq Hmo Hmo') as (j & j' & l & l' & Hjj & Hj & Hj').
    destruct (Hat j _ Hj) as (key & loc & ptr & size & Hit & -> & _).
    destruct (Hat j' _ Hj') as (key' & loc' & ptr' & size' & Hit' & -> & _).
    unfold local_disjoint. rewrite Hlo, Hln, Hlo', Hln'. simpl.
    exact (ForallOrdPairs_nth items_apart items j j' _ _ Hap Hjj Hit Hit').
Qed.

Lemma plan_batch_spec h w me ps (items : list (string * option DataLocation * Z * Z)) n_rails link oks f' :
  wcoh h w → is_Some (w_tiers w !! me) → length ps = length items →
  (∀ j key loc ptr size pl, items !! j = Some (key, loc, ptr, size) → ps !! j = Some pl →
     plan_ok h w w me key ptr size pl) →
  ForallOrdPairs items_apart items →
  batch_read_multi (w_fab w) me n_rails (omap remote_op ps) (plan_rails ps).1 (plan_rails ps).2 link = (oks, f') →
  ∃ m, set_fab w f' = set_mem_of w me m ∧
    (∀ x, (∀ j key loc ptr size l op, items !! j = Some (key, loc, ptr, size) → ps !! j = Some (Remote l op) →
        ¬ (ptr ≤ x < ptr + size)) → m x = mem_of w me x) ∧
    (∀ j l op, ps !! j = Some (Remote l op) → oks !! rank ps j = Some true →
      ∃ key loc ptr size, items !! j = Some (key, loc, ptr, size) ∧ (key, mem_read m ptr size) ∈ h).
Proof.
  intros Hw Ht Hlen Hplan Hap. destruct (wc_proc _ _ Hw me Ht) as [p0 Hp0].
  assert (∀ j pl, ps !! j = Some pl → ∃ key loc ptr size, items !! j = Some (key, loc, ptr, size) ∧
    plan_ok h w w me key ptr size pl) as Hat.
  { intros j pl Hj. destruct (lookup_lt_is_Some_2 items j) as [[[[key loc] ptr] size] Hit];
      [rewrite <-Hlen; by eapply lookup_lt_Some|]. exists key, loc, ptr, size. split; [done|]. by eapply Hplan. }
  unfold batch_read_multi. set (ops := stripe _ _ _ _).
  destruct (plan_ops h w me ps items n_rails Hw Hat Hap) as (Hops & Hrem & Hdis). fold ops in Hops, Hrem, Hdis.
  pose proof (batch_read_from_spec 0 (w_fab w) me ops link p0 Hp0 Hrem Hdis) as Hspec.
  unfold batch_read. destruct (batch_read_from 0 (w_fab w) me ops link) as [oks' f1]. intros [= <- <-].
  destruct Hspec as (Hom & Hoks & p' & Hp' & Hdata & Hout).
  exists (pr_mem p'). split.
  { unfold set_mem_of. rewrite Hp0. f_equal. by eapply only_memory_set_proc. }
  split.
  - intros x Hx. rewrite Hout; [unfold mem_of; by rewrite Hp0|]. intros q ro Hq _.
    destruct (Hops q ro Hq) as (j & key & loc & ptr & size & l & op & Hit & Hj & _ & _ & _ & _ & _ & -> & -> & _).
    by eapply Hx.
  - intros j l op Hj Hok. destruct (lookup_lt_is_Some_2 ops (rank ps j)) as [ro Hro].
    { unfold ops, stripe. rewrite length_imap. eapply lookup_lt_Some. by eapply rank_lookup. }
    destruct (Hops _ ro Hro) as (j' & key & loc & ptr & size & l' & op' & Hit & Hj' & Hq' & Hlok & Hres & Hne & Hh & Hlo & Hln & Hrm & Hsz).
    assert (j' = j) as -> by by eapply rank_inj. rewrite Hj in Hj'. injection Hj' as <- <-.
    exists key, loc, ptr, size. split; [done|].
    rewrite Hoks, list_lookup_imap, Hro in Hok. simpl in Hok. injection Hok as Hok.
    apply read_ok_true in Hok as (data & Hd2 & Hd).
    pose proof (Hdata _ ro data Hro Hd2) as Hrd. rewrite Hlo, Hln in Hrd. rewrite Hrd.
    assert (data = mem_read (mem_of w (l_node_id l)) (ro_remote ro) (ro_length ro)) as Hd'.
    { destruct Hd as [[-> ->]|Hd]; [done|]. apply (remote_bytes_mem w ro (l_node_id l) data) in Hd; [done|]. by rewrite (wc_host _ _ Hw). }
    rewrite Hd', Hrm, Hln, <-Hsz. destruct (Hlok Hres) as [_ Hpg]. by destruct (page_at_bytes _ _ _ _ _ _ Hw Hpg).
Qed.
End p2p.
