(* ===== verification/P2PSteps.v ===== *)
(** The peer-to-peer cluster as a state machine.

    States are the publish history and the world; nodes publish into their
    pools, fetch, use their memory, and the links change.  Reachable states are
    coherent ([wcoh] of [P2P.v]), so a hit always delivers published bytes. *)
From S2P Require Import Prelude Bytes Hashlib HashRing Types Rpc Directory Runtime Pool DiskStore Transport Config Metrics Keys Tier Coherence StorageServer World SlotStore SlotSafety Store P2P.

Section fetch.
Context {RH : RingHash} {SI : SetIter} {HL : Hashlib}.
Context (dc : DirectoryClient) (host : string → option string) (key_len : string → Z).

Abbreviation history := (list (string * list Z)).

(** The destinations of a fetch: the application's, and apart. *)
Definition ptargets (w : world) (me : string) (ptrs sizes : list Z) : Prop :=
  pbuffers w me ptrs sizes ∧
  ∀ i j p n p' n', (i < j)%nat → ptrs !! i = Some p → sizes !! i = Some n → ptrs !! j = Some p' →
    sizes !! j = Some n' → ranges_disjoint p n p' n'.

Lemma lookup_items4 (keys : list string) (locs : list (option DataLocation)) (ptrs sizes : list Z) i k l p n :
  zip (zip (zip keys locs) ptrs) sizes !! i = Some (k, l, p, n) →
  keys !! i = Some k ∧ locs !! i = Some l ∧ ptrs !! i = Some p ∧ sizes !! i = Some n.
Proof.
  intros Hj. apply lookup_zip_with_Some in Hj as (x & y & [= <- <-] & Hx & Hn).
  apply lookup_zip_with_Some in Hx as (x & y & [= <- <-] & Hx & Hp).
  by apply lookup_zip_with_Some in Hx as (? & ? & [= <- <-] & ? & ?).
Qed.

(** Forgetting keys leaves the other remembered locations. *)
Lemma invalidate_ok w c keys : caches_ok host w c → caches_ok host w (_dir_cache_invalidate c keys).
Proof.
  intros [H1 H2]. unfold _dir_cache_invalidate. destruct (c_dir_cache_ttl c <=? 0); [done|]. split; [done|].
  simpl. intros Ht. specialize (H2 Ht). assert (∀ ks m, cache_ok host w m → cache_ok host w (foldl (λ m k, delete k m) m ks)) as Hd.
  { induction ks as [|k ks IH]; intros m Hm; [done|]. simpl. apply IH. eapply cache_ok_sub; [apply delete_subseteq|done]. }
  by apply Hd.
Qed.

(** Counting the results and dropping the failed keys from the location cache
    touches no memory and no directory. *)
Lemma fetch_finish h w me keys sizes seconds (oks : list bool) (res : list (bool * option string)) :
  wcoh dc host h w → is_Some (w_clients w !! me) →
  let failed := zlength (filter (λ b, b = false) oks) in
  let w5 := if failed =? 0 then w else meter w me (λ mt, inc mt "read_failures" failed) in
  let w6 := meter w5 me (λ mt, record_fetch mt res sizes seconds) in
  ∃ c6, w_clients w6 !! me = Some c6 ∧
  let w7 := set_client w6 me (_dir_cache_invalidate c6 ((filter (λ p : string * bool, p.2 = false) (zip keys res.*1)).*1)) in
  wcoh dc host h w7 ∧ steady w w7 ∧ ∀ n, mem_of w7 n = mem_of w n.
Proof.
  intros W4 Hc failed w5 w6.
  assert (wcoh dc host h w5 ∧ steady w w5 ∧ ∀ n, mem_of w5 n = mem_of w n) as (W5 & S5 & M5).
  { unfold w5. destruct (failed =? 0); [|by apply meter_wcoh]. split; [done|]. split; [apply steady_refl|done]. }
  destruct (meter_wcoh dc host h w5 me (λ mt, record_fetch mt res sizes seconds) W5) as (W6 & S6 & M6). fold w6 in W6, S6, M6.
  assert (steady w w6) as S06 by by eapply steady_trans.
  assert (∃ c6, w_clients w6 !! me = Some c6) as [c6 Hc6] by by apply (st_client _ _ S06).
  exists c6. split; [done|]. cbv zeta. set (failed_keys := (filter (λ p : string * bool, p.2 = false) (zip keys res.*1)).*1).
  destruct (client_wcoh dc host h w6 me (_dir_cache_invalidate c6 failed_keys) W6) as (W7 & S7 & M7); [by rewrite Hc6| | |].
  { apply invalidate_ok. by eapply wc_client. }
  { intros c0. rewrite Hc6. intros [= <-] [H1 H2]. unfold _dir_cache_invalidate. by rewrite (proj2 (Z.leb_le _ _) H2). }
  split; [done|]. split; [by eapply steady_trans|]. intros n. by rewrite M7, M6, M5.
Qed.

Lemma fetch_directory_spec h w me e keys ptrs sizes results w' :
  wcoh dc host h w → is_Some (w_clients w !! me) → is_Some (w_tiers w !! me) → ptargets w me ptrs sizes →
  _fetch_directory w me e keys ptrs sizes = (results, w') →
  wcoh dc host h w' ∧ steady w w' ∧
  ∀ i, results !! i = Some true → ∃ k p n, keys !! i = Some k ∧ ptrs !! i = Some p ∧ sizes !! i = Some n ∧
    (k, mem_read (mem_of w' me) p n) ∈ h.
Proof.
  intros Hw [c Hc] Ht [Hb Hdis]. unfold _fetch_directory. rewrite Hc.
  destruct (_take_primed w me c (e_now e) keys) as [locs w1] eqn:E1.
  destruct (take_primed_spec dc host h w me c _ keys locs w1 Hw Hc E1) as (W1 & S1 & _ & L1 & _).
  destruct (_resolve_non_resident w1 me keys locs) as [[locs2 promoted] w2] eqn:E2.
  destruct (resolve_spec dc host key_len h w1 me keys locs locs2 promoted w2 W1 L1 E2) as (W2 & S2 & _ & L2 & _).
  set (items := zip (zip (zip keys locs2) ptrs) sizes).
  destruct (plan_all w2 me c promoted 0 items) as [plans w3] eqn:E3.
  assert (steady w w2) as S02 by by eapply steady_trans.
  assert (is_Some (w_tiers w2 !! me)) as Ht2 by by apply (st_tier _ _ S02).
  assert (ForallOrdPairs items_apart items) as Hap.
  { apply ForallOrdPairs_lookup. intros i j [[[k l] p] n] [[[k' l'] p'] n'] Hij Hi Hj.
    apply lookup_items4 in Hi as (_ & _ & Hp & Hn), Hj as (_ & _ & Hp' & Hn'). by eapply Hdis. }
  destruct (plan_all_spec dc host h me c promoted items w2 0 plans w3 W2 Ht2) as (W3 & S3 & _ & _ & Hlen & Hplan);
    [|done|exact E3|].
  { intros j k l p n Hj. apply lookup_items4 in Hj as (Hk & Hl & Hp & Hn). split.
    - intros b c' k' ks'. rewrite (st_place _ _ S02). by apply (Hb j p n Hp Hn).
    - intros l' ->. by eapply L2. }
  destruct (plan_rails plans) as [eps ks] eqn:Epr.
  destruct (batch_read_multi (w_fab w3) me (n_rails_of w3 me) (omap remote_op plans) eps ks (e_read e)) as [oks f'] eqn:E4.
  assert (steady w w3) as S03 by by eapply steady_trans.
  assert (is_Some (w_tiers w3 !! me)) as Ht3 by by apply (st_tier _ _ S03).
  destruct (plan_batch_spec dc host h w3 me plans items (n_rails_of w3 me) (e_read e) oks f' W3 Ht3 Hlen Hplan Hap)
    as (m & Hf & Hfr & Hrem); [by rewrite Epr|]. rewrite Hf.
  destruct (set_mem_wcoh dc host h w3 me m W3) as [W4 S4].
  { intros x Hx [[[[b c'] k'] ks'] Hpl]. apply Hfr. intros j k l p n l' op Hj _ Hxr.
    apply lookup_items4 in Hj as (_ & _ & Hp & Hn). specialize (Hx b c' k' ks' Hpl).
    rewrite (st_place _ _ S03) in Hpl. pose proof (proj2 (Hb j p n Hp Hn) b c' k' ks' Hpl) as Hd.
    unfold ranges_disjoint in Hd. lia. }
  set (w4 := set_mem_of w3 me m) in *.
  assert (mem_of w4 me = m) as Hm4 by (apply mem_of_set_mem_eq; by apply (wc_proc _ _ _ _ W3)).
  destruct (fetch_finish h w4 me keys sizes (e_seconds e) oks (outcomes promoted 0 plans oks) W4) as (c6 & Hc6 & W7 & S7 & M7);
    [apply (st_client _ _ S4), (st_client _ _ S03); by rewrite Hc|].
  cbv zeta in Hc6, W7, S7, M7. rewrite Hc6. intros [= <- <-].
  split; [done|]. split; [eapply steady_trans; [exact S03|]; by eapply steady_trans|].
  intros i Hi. rewrite M7, Hm4.
  destruct (outcomes_true promoted plans 0 oks i Hi) as [[src Hs]|(l & op & Hs & Hok)].
  - destruct (lookup_lt_is_Some_2 items i) as [[[[k l] p] n] Hit]; [rewrite <-Hlen; by eapply lookup_lt_Some|].
    pose proof (Hplan i k l p n _ Hit Hs) as Hin. simpl in Hin.
    pose proof (lookup_items4 _ _ _ _ _ _ _ _ _ Hit) as (Hk & _ & Hp & Hn).
    exists k, p, n. split; [done|]. split; [done|]. split; [done|].
    erewrite mem_read_ext; [exact Hin|]. intros x Hx. apply Hfr. intros j k' l' p' n' l2 op2 Hj Hps Hxr.
    assert (j ≠ i) as Hne by congruence. apply lookup_items4 in Hj as (_ & _ & Hp' & Hn').
    destruct (Nat.lt_trichotomy j i) as [Hlt|[?|Hlt]]; [|done|].
    + pose proof (Hdis j i _ _ _ _ Hlt Hp' Hn' Hp Hn) as Hd. unfold ranges_disjoint in Hd. lia.
    + pose proof (Hdis i j _ _ _ _ Hlt Hp Hn Hp' Hn') as Hd. unfold ranges_disjoint in Hd. lia.
  - destruct (Hrem i l op Hs Hok) as (k & loc & p & n & Hit & Hin).
    apply lookup_items4 in Hit as (Hk & _ & Hp & Hn). exists k, p, n. done.
Qed.

(** ** Steps *)

(** The links of the RPCs and of the directory from now on. *)
Definition set_links (w : world) (link dlink : string → attempt * attempt) : world :=
  mk_world (w_tiers w) (w_clients w) (mk_cluster (c_shards (w_dir w)) dlink) (w_fab w) (w_control w) (w_node_at w) link.

Inductive p2p_step : history * world → history * world → Prop :=
  | PoolStep h w me tp_size base :
      (∀ c, w_clients w !! me = Some c → is_slotmap (c_cfg c) = false) →
      p2p_step (h, w) (h, _ensure_published_pool w me tp_size base)
  | PubStep h w me e keys ptrs sizes upd r w' :
      pbuffers w me ptrs sizes → sized key_len (sources w me keys ptrs sizes) →
      publish_local_pool w me e keys ptrs sizes upd = (r, w') →
      p2p_step (h, w) (h ++ sources w me keys ptrs sizes, w')
  | FetchStep h w me e keys ptrs sizes results w' :
      is_Some (w_clients w !! me) → is_Some (w_tiers w !! me) → ptargets w me ptrs sizes →
      _fetch_directory w me e keys ptrs sizes = (results, w') → p2p_step (h, w) (h, w')
  | AppStep h w me m :
      (∀ x b c k ks, place w me = Some (b, c, k, ks) → b ≤ x < b + c → m x = mem_of w me x) →
      p2p_step (h, w) (h, set_mem_of w me m)
  | LinkStep h w link dlink :
      all_taken (mk_cluster (c_shards (w_dir w)) dlink) → p2p_step (h, w) (h, set_links w link dlink).

(** A cluster nothing was published in yet, whatever its clients' settings. *)
Record fresh_net (w : world) : Prop := {
  fp_host : f_host (w_fab w) = host;
  fp_proc n : is_Some (w_tiers w !! n) → is_Some (f_procs (w_fab w) !! n);
  fp_tier n t : w_tiers w !! n = Some t →
    t_dc t = dc ∧ t_disk t = None ∧ ident_ok host (t_ident t) ∧ i_id (t_ident t) = n ∧
    ∀ p, t_pool t = Some p → pool_inv p ∧ p_entries p = [];
  fp_dir ep k : stored (w_dir w) ep k = None;
  fp_taken : all_taken (w_dir w)
}.

(** The location caches are off. *)
Record fresh_p2p (w : world) : Prop := {
  fp_net : fresh_net w;
  fp_client : caches_off w
}.

Lemma fresh_net_wcoh w : fresh_net w → (∀ n c, w_clients w !! n = Some c → caches_ok host w c) → wcoh dc host [] w.
Proof.
  intros [F1 F2 F3 F4 F5] F6. split; try done.
  - intros n t Ht. by destruct (F3 n t Ht) as (? & ? & ? & ? & _).
  - intros n t p Ht Hp. destruct (F3 n t Ht) as (_ & _ & _ & _ & H). destruct (H p Hp) as [H1 H2].
    split; [done|]. by rewrite H2.
  - intros ep k v. by rewrite F4.
  - intros ep k l. unfold stored_loc. by rewrite F4.
Qed.

Lemma fresh_wcoh w : fresh_p2p w → wcoh dc host [] w.
Proof. intros [Hn Hc]. apply fresh_net_wcoh; [done|]. intros n c Hn'. by eapply cache_off_ok, Hc. Qed.

Lemma links_wcoh h w link dlink :
  wcoh dc host h w → all_taken (mk_cluster (c_shards (w_dir w)) dlink) → wcoh dc host h (set_links w link dlink).
Proof. intros [W1 W2 W3 W4 W5 W6 W7 W8] Ht. by split. Qed.

Lemma ensure_pool_clients w me tp_size base :
  (∀ c, w_clients w !! me = Some c → is_slotmap (c_cfg c) = false) →
  w_clients (_ensure_published_pool w me tp_size base) = w_clients w.
Proof.
  intros Hsm. unfold _ensure_published_pool. destruct (w_clients w !! me) as [c|] eqn:Hc; [|done].
  destruct (w_tiers w !! me) as [t|]; [|done]. destruct (f_procs (w_fab w) !! me) as [p|]; [|done].
  destruct (is_inference_client_only (c_cfg c)); [done|]. rewrite (Hsm c eq_refl). by destruct (t_pool t).
Qed.

(** A node creates its pool: no location of it was known before. *)
Lemma pool_wcoh h w me tp_size base :
  wcoh dc host h w → (∀ c, w_clients w !! me = Some c → is_slotmap (c_cfg c) = false) →
  wcoh dc host h (_ensure_published_pool w me tp_size base).
Proof.
  intros Hw Hsm. unfold _ensure_published_pool. destruct (w_clients w !! me) as [c|] eqn:Hc; [|done].
  destruct (w_tiers w !! me) as [t|] eqn:Ht; [|done]. destruct (f_procs (w_fab w) !! me) as [p|] eqn:Hp; [|done].
  destruct (is_inference_client_only (c_cfg c)); [done|]. rewrite (Hsm c eq_refl).
  destruct (t_pool t) as [q|] eqn:Hq; [done|]. simpl. set (cap := Z.max 1 _). set (pool := new_pool _ _ _ _).
  set (t' := mk_tier _ _ _ _ _ _). destruct Hw as [W1 W2 W3 W4 W5 W6 W7 W8].
  set (w' := mk_world _ _ _ _ _ _ _).
  assert (∀ n, mem_of w' n = mem_of w n) as Hm.
  { intros n. unfold mem_of, w'. simpl. destruct (decide (n = me)) as [->|Hne].
    - by rewrite lookup_insert_eq, Hp.
    - by rewrite lookup_insert_ne. }
  assert (keeps_pages w w') as Hk.
  { intros n k a len (t0 & q & Ht0 & Hq0 & Hpg). exists t0, q. split; [|done]. simpl.
    rewrite lookup_insert_ne; [done|]. intros He. rewrite <-He in Ht0. congruence. }
  split; try done.
  - intros n. simpl. destruct (decide (n = me)) as [->|Hne]; [by rewrite !lookup_insert_eq|].
    rewrite !lookup_insert_ne by done. apply W2.
  - intros n t0. simpl. rewrite lookup_insert_Some. intros [[<- <-]|[_ H]]; [exact (W3 me t Ht)|by apply W3].
  - intros n t0 q. simpl. rewrite Hm, lookup_insert_Some. intros [[<- <-]|[_ H]]; [|by apply W4].
    intros [= <-]. split; [apply new_pool_inv; lia|done].
  - intros ep k l Hl. destruct (W7 ep k l Hl) as [H1 H2]. split; [done|]. by eapply loc_ok_pages.
  - intros n c0 Hn. eapply caches_ok_pages; [exact Hk|]. by eapply W8.
Qed.

Lemma sized_app h1 h2 : sized key_len h1 → sized key_len h2 → sized key_len (h1 ++ h2).
Proof. intros H1 H2 k d [?|?]%elem_of_app; [by apply H1|by apply H2]. Qed.

Definition p2p_inv (s : history * world) : Prop := sized key_len s.1 ∧ wcoh dc host s.1 s.2.

(** A step keeps the invariant when it loses no page or nothing is remembered. *)
Lemma p2p_step_inv s s' : p2p_step s s' → caches_off s.2 ∨ keeps_pages s.2 s'.2 → p2p_inv s → p2p_inv s'.
Proof.
  destruct 1 as [h w me tp base Hsm|h w me e keys ptrs sizes upd r w' Hb Hs Hp|h w me e keys ptrs sizes results w' Hc Ht Htg Hf|
    h w me m Hx|h w link dlink Ht]; intros Hcache [Hsz Hw]; simpl in *.
  - split; [done|]. by apply pool_wcoh.
  - assert (sized key_len (h ++ sources w me keys ptrs sizes)) as Hsz' by by apply sized_app.
    split; [done|]. by eapply publish_wcoh.
  - split; [done|]. by destruct (fetch_directory_spec h w me e keys ptrs sizes results w' Hw Hc Ht Htg Hf).
  - split; [done|]. apply set_mem_wcoh; [done|]. intros x Hr [[[[b c] k] ks] Hpl]. apply (Hx x b c k ks Hpl). by apply (Hr b c k ks).
  - split; [done|]. by apply links_wcoh.
Qed.

(** No step turns a cache on. *)
Lemma p2p_step_off s s' : p2p_step s s' → p2p_inv s → caches_off s.2 → caches_off s'.2.
Proof.
  destruct 1 as [h w me tp base Hsm|h w me e keys ptrs sizes upd r w' Hb Hs Hp|h w me e keys ptrs sizes results w' Hc Ht Htg Hf|
    h w me m Hx|h w link dlink Ht]; intros [Hsz Hw] Hoff; simpl in *.
  - intros n c. rewrite ensure_pool_clients by done. apply Hoff.
  - intros n c. rewrite (publish_clients _ _ _ _ _ _ _ _ _ Hp). apply Hoff.
  - destruct (fetch_directory_spec h w me e keys ptrs sizes results w' Hw Hc Ht Htg Hf) as (_ & Hst & _).
    by apply (st_off _ _ Hst).
  - destruct (set_mem_wcoh dc host h w me m Hw) as [_ Hst]; [|by apply (st_off _ _ Hst)].
    intros x Hr [[[[b c] k] ks] Hpl]. apply (Hx x b c k ks Hpl). by apply (Hr b c k ks).
  - exact Hoff.
Qed.

(** States reached with the caches off. *)
Definition p2p_quiet (s : history * world) : Prop := p2p_inv s ∧ caches_off s.2.

Lemma p2p_quiet_step s s' : p2p_step s s' → p2p_quiet s → p2p_quiet s'.
Proof. intros Hs [Hi Hoff]. split; [eapply p2p_step_inv; [exact Hs|by left|done]|by eapply p2p_step_off]. Qed.

Lemma p2p_quiet_init w : fresh_p2p w → p2p_quiet ([], w).
Proof. intros Hf. split; [|apply Hf]. split; [by intros k d ?%not_elem_of_nil|by apply fresh_wcoh]. Qed.

Lemma p2p_reachable_inv s s' : rtc p2p_step s s' → p2p_quiet s → p2p_quiet s'.
Proof. induction 1 as [|s1 s2 s3 Hs _ IH]; [done|]. intros Hi. apply IH. by eapply p2p_quiet_step. Qed.

(** C2: a peer-to-peer cluster without caches has no dirty hits.  From an empty
    cluster, after any publishes and fetches by any nodes, with evictions,
    lost RPC replies and failing data links: a fetch reports a hit only for a
    key whose buffer it filled with bytes published under that key.  The
    hypotheses are those the code needs (see [stale_location_dirty_hit]): the
    location caches are off, there is no disk tier, the nodes route alike,
    directory calls reach their shard, and a key always has the same length. *)
Theorem p2p_no_dirty_hit (w0 w w' : world) (h : history) (me : string) (e : env) (keys : list string)
  (ptrs sizes : list Z) (results : list bool)
  (Hinit : fresh_p2p w0) (Hreach : rtc p2p_step ([], w0) (h, w))
  (Hme : is_Some (w_clients w !! me)) (Htier : is_Some (w_tiers w !! me)) (Hbuf : ptargets w me ptrs sizes)
  (Hfetch : _fetch_directory w me e keys ptrs sizes = (results, w')) :
  ∀ i, results !! i = Some true →
    ∃ k p n, keys !! i = Some k ∧ ptrs !! i = Some p ∧ sizes !! i = Some n ∧
      (k, mem_read (mem_of w' me) p n) ∈ h.
Proof.
  destruct (p2p_reachable_inv _ _ Hreach (p2p_quiet_init _ Hinit)) as [[Hsz Hw] _].
  by destruct (fetch_directory_spec h w me e keys ptrs sizes results w' Hw Hme Htier Hbuf Hfetch) as (_ & _ & H).
Qed.
End fetch.
