(* ===== verification/P2PVisible.v ===== *)
(** A page published in the peer-to-peer mode can be fetched.

    The publish of a new page that reports success leaves the page in the
    node's pool and a location of it at every owner of the key; a node whose
    directory lookup and data read get through then delivers exactly the
    published bytes. *)
From S2P Require Import Prelude Bytes Hashlib HashRing Types Rpc Directory Runtime Pool DiskStore Transport Config Metrics Keys Tier Coherence StorageServer World SlotStore SlotSafety Store P2P P2PSteps.

Section visible.
Context {RH : RingHash} {SI : SetIter} {HL : Hashlib}.
Context (dc : DirectoryClient) (host : string → option string) (key_len : string → Z).

Abbreviation history := (list (string * list Z)).

(** The location of a page of [me]'s pool with these bytes. *)
Definition names_page (me : string) (p : PublishedPool) (m : mem) (k : string) (len : Z) (data : list Z)
    (l : DataLocation) : Prop :=
  l_resident l = true ∧ l_node_id l = me ∧ l_length l = len ∧ pool_page p k (l_remote_addr l) len ∧
  mem_read m (l_remote_addr l) len = data.

(** ** Publishing *)

(** The pool's part: the page is there, and only the directory was told of
    evictions. *)
Lemma pool_publish_new h O s key src len addr s' p :
  lcoh dc host h O s → 0 ≤ len → t_pool (l_tier s) = Some p → od_get (p_entries p) key = None →
  pool_publish s key src len = (Ret (Some addr), s') →
  t_disk (l_tier s') = None ∧ t_dc (l_tier s') = dc ∧ t_ident (l_tier s') = t_ident (l_tier s) ∧
  Directory.same_net (l_dir s) (l_dir s') ∧
  ∃ p' b, t_pool (l_tier s') = Some p' ∧ od_get (p_entries p') key = Some b ∧ addr = p_base p' + b.1 ∧ b.2 = len ∧
    page_bytes p' (l_mem s') b = mem_read (l_mem s) src len ∧ pool_inv p'.
Proof.
  intros Hc Hl Hp Hno. unfold pool_publish. rewrite Hp.
  destruct (Pool.publish p (l_mem s) key src len) as [[[a p'] m'] ev] eqn:Epub. intros [= -> <-].
  destruct (lc_pool _ _ _ _ _ Hc p Hp) as [Hinv _].
  destruct (publish_page_cases p (l_mem s) key src len _ p' m' ev Hinv Hl Epub) as (Hnew & _ & _ & Haddr & _).
  destruct (Haddr addr eq_refl) as (b & Hb & Ha). destruct (Hnew key b Hb) as [[Hb0 _]|[_ Hbytes]]; [congruence|].
  pose proof (publish_inv p (l_mem s) key src len Hinv Hl) as Hi. rewrite Epub in Hi.
  assert (b.2 = len) as Hbl.
  { pose proof (f_equal zlength Hbytes) as Hz. unfold page_bytes in Hz.
    rewrite !zlength_mem_read in Hz; [done|done|]. by apply (pool_inv_bounds _ _ _ Hi Hb). }
  assert (t_disk (l_tier s) = None ∧ t_dc (l_tier s) = dc) as [Hd Hdc] by (split; apply Hc).
  destruct ev as [|k0 ev].
  - split; [done|]. split; [done|]. split; [done|]. split; [by split|]. by exists p', b.
  - unfold _on_pool_evict. simpl. rewrite Hd. simpl. split; [done|]. split; [done|]. split; [done|].
    split; [change (t_dc _) with (t_dc (l_tier s)); exact (proj1 (delete_spec _ _ _ "" ""))|]. by exists p', b.
Qed.

Lemma reconcile_single s key l p b :
  t_pool (l_tier s) = Some p → od_get (p_entries p) key = Some b →
  reconcile s [(key, l)] =
    ([(key, set_remote_addr l (p_base p + b.1))], set_pool s (with_entries p (od_move_to_end (p_entries p) key))).
Proof.
  intros Hp Hb. unfold reconcile. cbn [od_keys fmap list_fmap fst foldl]. unfold reconcile_one.
  cbn [od_get]. rewrite decide_True by done. unfold pool_address, Pool.address_of. rewrite Hp, Hb. destruct b as [off n].
  cbn [od_set fst]. by rewrite decide_True by done.
Qed.

(** The whole publish of one new page. *)
Lemma publish_new_local h O s key src len seconds s' p :
  lcoh dc host h O s → 0 ≤ len → exists_answer dc (l_dir s) key = false →
  t_pool (l_tier s) = Some p → od_get (p_entries p) key = None →
  _publish_p2p s [key] [src] [len] true seconds = (Ret [true], s') →
  ∃ p' l d, t_pool (l_tier s') = Some p' ∧ Directory.same_net (l_dir s) d ∧ l_dir s' = Directory.put dc d [(key, l)] ∧
    names_page (i_id (t_ident (l_tier s))) p' (l_mem s') key len (mem_read (l_mem s) src len) l.
Proof.
  intros Hc Hl Hex Hp Hno. unfold _publish_p2p. rewrite Directory.exists_spec, (lc_dc _ _ _ _ _ Hc).
  cbn [fmap list_fmap]. rewrite Hex. assert (set_dir s (l_dir s) = s) as -> by by destruct s.
  cbn [zip zip_with publish_pages].
  destruct (pool_publish s key src len) as [[[addr|]|e] s1] eqn:Ep; [|done..].
  destruct (pool_publish_new h O s key src len addr s1 p Hc Hl Hp Hno Ep)
    as (Hd1 & Hdc1 & Hid1 & Hnet & p' & b & Hp' & Hb & Ha & Hbl & Hbytes & Hinv').
  unfold disk_put. rewrite Hd1. cbv zeta. set (s2 := set_key_len s1 _).
  change (t_pool (l_tier s2)) with (t_pool (l_tier s1)). rewrite Hp'. cbn [app od_set].
  rewrite (reconcile_single s2 key _ p' b Hp' Hb). intros [= <-].
  exists (with_entries p' (od_move_to_end (p_entries p') key)). eexists _, (l_dir s1).
  split; [done|]. split; [done|]. split; [by rewrite <-Hdc1|].
  split; [done|]. split; [simpl; by rewrite Hid1|]. split; [done|]. split; [|subst len; exact Hbytes].
  exists b. split; [|by split]. simpl. by rewrite od_get_move_to_end by apply Hinv'.
Qed.
Lemma same_net_live d d' n : Directory.same_net d d' → live_endpoint dc d' n = live_endpoint dc d n.
Proof.
  intros [Hl Hs]. unfold live_endpoint. destruct (dc_resolve dc n) as [ep|]; [|done]. simpl.
  by rewrite Hl, (bool_decide_ext _ _ (Hs ep)).
Qed.

(** Some owner of the key answers. *)
Definition owner_answers (d : cluster shard) (k : string) : Prop :=
  ∃ n, n ∈ _owners dc k ∧ is_Some (live_endpoint dc d n).

Lemma same_net_answers d d' k : Directory.same_net d d' → owner_answers d' k ↔ owner_answers d k.
Proof. intros Hn. unfold owner_answers. by setoid_rewrite (same_net_live _ _ _ Hn). Qed.

(** After the put, whoever answers knows the location. *)
Lemma put_found d0 d key l :
  1 ≤ dc_replicas dc → all_taken d0 → Directory.same_net d0 d → owner_answers d0 key →
  dir_answer dc (Directory.put dc d [(key, l)]) [key] key = Some l.
Proof.
  intros Hrep Ht Hn Ho. assert (NoDup (od_keys [(key, l)])) as Hnd by apply NoDup_singleton.
  pose proof (proj1 (put_spec dc d [(key, l)] "" "" Hnd)) as Hn1. set (d1 := Directory.put dc d [(key, l)]) in *.
  assert (d1 = mk_cluster (c_shards d1) (c_link d1)) as -> by by destruct d1.
  pose proof (Directory.same_net_trans _ _ _ Hn Hn1) as Hn01.
  apply (answer_after_put dc d [(key, l)] (c_link d1)); [done| | | |].
  - simpl. by rewrite decide_True by done.
  - destruct (candidates_single dc key) as [|Hr]; [done|]. apply candidates_one_replica. lia.
  - intros n ep _ (_ & Hs & _)%live_endpoint_Some. fold d1 in Hs. simpl in Hs.
    rewrite (same_net_takes _ _ _ Hn). apply Ht. by apply (proj2 Hn01).
  - fold d1. replace (mk_cluster (c_shards d1) (c_link d1)) with d1 by by destruct d1.
    by apply (same_net_answers _ _ _ Hn01).
Qed.

Lemma publish_new_found h w me e key src len w1 t p :
  wcoh dc host h w → 1 ≤ dc_replicas dc → 0 ≤ len → w_tiers w !! me = Some t → t_pool t = Some p →
  od_get (p_entries p) key = None → exists_answer dc (w_dir w) key = false → owner_answers (w_dir w) key →
  publish_local_pool w me e [key] [src] [len] true = (Ret [true], w1) →
  ∃ t' p' l, w_tiers w1 !! me = Some t' ∧ t_pool t' = Some p' ∧ dir_answer dc (w_dir w1) [key] key = Some l ∧
    names_page me p' (mem_of w1 me) key len (mem_read (mem_of w me) src len) l.
Proof.
  intros Hw Hrep Hl Ht Hp Hno Hex Hans. unfold publish_local_pool, run_local.
  destruct (local_of w me) as [s|] eqn:Es; [|done].
  pose proof (wcoh_local _ _ _ _ _ _ Hw Es) as Hc. pose proof Es as (t0 & pr & Ht0 & Hpr & Hs & Hm)%local_of_Some.
  rewrite Ht in Ht0. injection Ht0 as <-.
  destruct (_publish_p2p s [key] [src] [len] true (e_seconds e)) as [r s1] eqn:Ep. intros [= -> <-].
  assert (l_dir s = w_dir w ∧ l_mem s = mem_of w me ∧ l_tier s = t) as (Hd & Hms & Hts) by (rewrite Hs; simpl; by rewrite Hm).
  destruct (publish_new_local h (page_at w) s key src len (e_seconds e) s1 p Hc Hl) as (p' & l & d & Hp' & Hn & Hdir & Hnp);
    [by rewrite Hd|by rewrite Hts|done|done|].
  exists (l_tier s1), p', l. rewrite (put_local_tiers w me s s1 Es), bool_decide_eq_true_2 by done.
  split; [done|]. split; [done|]. rewrite (put_local_mem w me s s1 me Es), bool_decide_eq_true_2 by done.
  rewrite Hms, Hts in Hnp. destruct (wc_tier _ _ _ _ Hw me t Ht) as (_ & _ & _ & Hid). rewrite Hid in Hnp.
  split; [|done]. change (w_dir (put_local w me s1)) with (l_dir s1). rewrite Hdir. rewrite Hd in Hn.
  by eapply put_found; [|apply (wc_taken _ _ _ _ Hw)| |].
Qed.
(** ** Fetching *)

(** The pool's memory is registered with the transport, in the 64-bit address
    space. *)
Definition pool_registered (w : world) (n : string) : Prop :=
  ∀ t p, w_tiers w !! n = Some t → t_pool t = Some p →
    0 ≤ p_base p ∧ p_base p + p_capacity p < 2 ^ 64 ∧
    ∃ pr, f_procs (w_fab w) !! n = Some pr ∧ (p_base p, p_capacity p) ∈ pr_regions pr.

(** A page of a registered pool can be read. *)
Lemma page_readable h w n k l op :
  wcoh dc host h w → pool_registered w n → page_at w n k (l_remote_addr l) (l_length l) →
  f_host (w_fab w) (ro_endpoint op) = Some n → ro_remote op = l_remote_addr l → ro_length op = l_length l →
  remote_bytes (w_fab w) op = Some (mem_read (mem_of w n) (l_remote_addr l) (l_length l)).
Proof.
  intros Hw Hreg (t & p & Ht & Hp & b & Hb & Ha & Hlen) Hh Hrm Hln.
  destruct (wc_pool _ _ _ _ Hw n t p Ht Hp) as [Hinv _]. pose proof (pool_inv_bounds _ _ _ Hinv Hb) as Hbd.
  destruct (Hreg t p Ht Hp) as (Hpos & H64 & pr & Hpr & Hin).
  unfold remote_bytes, target, remote_process. rewrite Hh. simpl. rewrite Hpr. simpl. rewrite Hrm, Hln, Ha, Hlen.
  rewrite bool_decide_eq_true_2 by lia. replace (_covered pr _ _) with true; [simpl; unfold mem_of; by rewrite Hpr|].
  symmetry. unfold _covered. apply existsb_exists. exists (p_base p, p_capacity p).
  split; [by apply list_elem_of_In|]. apply andb_true_iff. rewrite !Z.leb_le. lia.
Qed.
(** The reads of one plan. *)
Lemma read_one_plan h w me l dst key link n_rails oks f' :
  wcoh dc host h w → is_Some (w_tiers w !! me) → loc_ok host w key l → l_resident l = true → l_node_id l ≠ me →
  pool_registered w (l_node_id l) → link 0%nat = AReply →
  let op := mk_multiop (l_rdma_endpoint l) dst (l_remote_addr l) (l_length l) in
  batch_read_multi (w_fab w) me n_rails [op] (plan_rails [Remote l op]).1 (plan_rails [Remote l op]).2 link = (oks, f') →
  oks = [true] ∧ ∃ m, set_fab w f' = set_mem_of w me m ∧
    mem_read m dst (l_length l) = mem_read (mem_of w (l_node_id l)) (l_remote_addr l) (l_length l).
Proof.
  intros Hw Ht Hok Hres Hne Hreg Hlink op. destruct (Hok Hres) as [Hrails Hpage].
  destruct (wc_proc _ _ _ _ Hw me Ht) as [p0 Hp0].
  assert (f_host (w_fab w) (rail_endpoint n_rails (Z.of_nat 0) (plan_rails [Remote l op]).1 (l_rdma_endpoint l)) = Some (l_node_id l)) as Hh.
  { rewrite (wc_host _ _ _ _ Hw). eapply plan_rails_host; [|by left|done|done]. apply Forall_singleton.
    intros l' op' [= <- <-]. done. }
  unfold batch_read_multi, stripe. cbn [imap]. set (rop := mk_readop _ _ _ _ _).
  assert (remote_ops (w_fab w) me [rop]) as Hrem.
  { apply Forall_singleton. simpl. rewrite Hh. congruence. }
  pose proof (batch_read_from_spec 0 (w_fab w) me [rop] link p0 Hp0 Hrem ltac:(repeat constructor)) as Hspec.
  unfold batch_read. destruct (batch_read_from _ _ _ _ _) as [oks1 f1]. intros [= <- <-].
  destruct Hspec as (Hom & -> & p' & Hp' & Hdata & _).
  pose proof (page_readable h w (l_node_id l) key l rop Hw Hreg Hpage Hh eq_refl eq_refl) as Hb.
  split; [cbn [imap]; simpl; rewrite Hlink; by rewrite (read_ok_reply _ _ _ Hb)|].
  exists (pr_mem p'). split; [|apply (Hdata 0%nat rop); [done|simpl; rewrite Hlink; by apply read_data_reply]].
  unfold set_mem_of. by rewrite Hp0, (only_memory_set_proc _ _ _ _ _ Hom Hp0 Hp').
Qed.

(** The bookkeeping at the end of a fetch leaves memory alone. *)
Lemma bookkeeping_mem w me (b : bool) f g inv n :
  let w1 := meter (if b then w else meter w me f) me g in
  mem_of (match w_clients w1 !! me with Some c => set_client w1 me (inv c) | None => w1 end) n = mem_of w n.
Proof.
  intros w1. assert (mem_of w1 n = mem_of w n) as H by (unfold w1; rewrite meter_mem; destruct b; [done|apply meter_mem]).
  by destruct (w_clients w1 !! me).
Qed.

(** Looking for a page of its own leaves a node as it was when it has none. *)
Definition no_copy (t : tier) (key : string) : Prop := ∀ p, t_pool t = Some p → od_get (p_entries p) key = None.

Lemma put_local_id w me s : local_of w me = Some s → put_local w me s = w.
Proof.
  intros (t & p & Ht & Hp & -> & _)%local_of_Some. unfold put_local. simpl. rewrite Hp, insert_id by done.
  rewrite set_proc_id by (rewrite Hp; by destruct p). by destruct w.
Qed.

Lemma own_copy_absent w me t key :
  w_tiers w !! me = Some t → no_copy t key → run_local w me None (λ s, pool_address s key) = (None, w).
Proof.
  intros Ht Hno. unfold run_local. destruct (local_of w me) as [s|] eqn:Es; [|done].
  pose proof Es as (t0 & p & Ht0 & _ & Hs & _)%local_of_Some. rewrite Ht in Ht0. injection Ht0 as <-.
  assert (pool_address s key = (None, s)) as ->; [|by rewrite put_local_id].
  unfold pool_address. rewrite Hs. simpl. destruct (t_pool t) as [q|] eqn:Eq; [|done].
  unfold Pool.address_of. rewrite (Hno q) by done. unfold set_pool, set_tier. simpl. rewrite <-Eq. by destruct t.
Qed.

Lemma fetch_found h w me e key l dst c t :
  wcoh dc host h w → w_clients w !! me = Some c → w_tiers w !! me = Some t → cache_off c →
  dual_write c = false ∨ no_copy t key →
  dir_answer dc (w_dir w) [key] key = Some l → l_resident l = true →
  l_node_id l = me ∨ pool_registered w (l_node_id l) ∧ e_read e 0%nat = AReply →
  ∃ w', _fetch_directory w me e [key] [dst] [l_length l] = ([true], w') ∧
    mem_read (mem_of w' me) dst (l_length l) = mem_read (mem_of w (l_node_id l)) (l_remote_addr l) (l_length l).
Proof.
  intros Hw Hc Ht Hoff Hdual Hans Hres Hreach. unfold _fetch_directory. rewrite Hc.
  rewrite (take_primed_eq dc host h w me c t (e_now e) [key] Hw Ht Hoff). cbn [fmap list_fmap]. rewrite Hans.
  assert (cache_off (with_primed c ∅)) as Hoff1 by (split; [done|apply Hoff]).
  destruct (client_wcoh dc host h w me (with_primed c ∅) Hw) as (Hw1 & Hs1 & Hm1); [by eexists|by apply cache_off_ok|done|].
  set (w1 := set_client w me (with_primed c ∅)) in *.
  unfold _resolve_non_resident, non_resident. cbn [imap omap list_omap]. rewrite Hres. cbn [filter list_filter fmap list_fmap foldl].
  cbn [zip zip_with plan_all]. unfold plan_one. rewrite Hres, Z.eqb_refl. cbn [negb].
  assert ((if dual_write c then run_local w1 me None (λ s, pool_address s key) else (None, w1)) = (None, w1)) as ->.
  { destruct Hdual as [-> |Hno]; [done|]. destruct (dual_write c); [|done]. by apply (own_copy_absent w1 me t). }
  assert (loc_ok host w key l) as Hok by by eapply dir_answer_ok.
  destruct (String.eqb (l_node_id l) me) eqn:Eme.
  - apply String.eqb_eq in Eme. cbn [plan_rails foldl plan_rail_step omap list_omap remote_op].
    unfold batch_read_multi, stripe, batch_read. cbn [imap batch_read_from]. eexists. split; [reflexivity|].
    rewrite bookkeeping_mem. destruct (Hok Hres) as [_ Hpage].
    destruct (page_at_bytes _ _ _ _ _ _ _ _ Hw Hpage) as [Hlen _].
    change (mem_of (set_fab ?w (w_fab ?w)) me) with (mem_of w me). unfold copy_in.
    rewrite mem_of_set_mem_eq by (apply (wc_proc _ _ _ _ Hw1); by eexists).
    rewrite mem_read_memmove_same by done. by rewrite Hm1, Eme.
  - apply String.eqb_neq in Eme. destruct Hreach as [|[Hreg Hlink]]; [done|].
    set (op := mk_multiop _ _ _ _). destruct (plan_rails [Remote l op]) as [eps ks] eqn:Epr. cbn [omap list_omap remote_op].
    destruct (batch_read_multi _ _ _ _ _ _ _) as [oks f'] eqn:Eb.
    destruct (read_one_plan h w1 me l dst key (e_read e) (n_rails_of w1 me) oks f') as [-> (m & Hf & Hd)];
      [done|by eexists| |done|done|done|done| |].
    + by eapply loc_ok_steady.
    + fold op. by rewrite Epr.
    + eexists. split; [reflexivity|]. rewrite bookkeeping_mem, Hf, mem_of_set_mem_eq; [by rewrite Hd|].
      apply (wc_proc _ _ _ _ Hw1). by eexists.
Qed.

(** ** Properties *)

(** C4: a page published in the peer-to-peer mode can be fetched.  The cluster
    has its location caches off and no disk tier, and every directory request
    reaches its shard (the code ignores a [put] that is lost, and then this
    fails).  In any state it reaches, when a node publishes, in a call of its
    own, a page that is neither in its pool nor in the directory, and the
    publish reports success, every reader that is not in a dual-write mode then
    fetches exactly the published bytes, provided some owner of the key answers
    the lookup and, for another node's page, the read of the publisher's
    registered pool gets through. *)
Theorem p2p_write_visible (w0 w w1 : world) (h : history) (me reader key : string) (e e' : env) (src dst len : Z)
  (t t' : tier) (p : PublishedPool) (c : client)
  (Hinit : fresh_p2p dc host w0) (Hreach : rtc (p2p_step key_len) ([], w0) (h, w))
  (Hrep : 1 ≤ dc_replicas dc) (Hlen : 0 ≤ len) (Hsrc : pbuffer w me src len) (Hkey : key_len key = len)
  (Hme : w_tiers w !! me = Some t) (Hpool : t_pool t = Some p) (Hnew : od_get (p_entries p) key = None)
  (Habs : exists_answer dc (w_dir w) key = false) (Hlive : owner_answers (w_dir w) key)
  (Hpub : publish_local_pool w me e [key] [src] [len] true = (Ret [true], w1))
  (Hclient : w_clients w1 !! reader = Some c) (Hnode : w_tiers w1 !! reader = Some t') (Hdual : dual_write c = false)
  (Hnet : me = reader ∨ pool_registered w1 me ∧ e_read e' 0%nat = AReply) :
  ∃ w2, _fetch_directory w1 reader e' [key] [dst] [len] = ([true], w2) ∧
    mem_read (mem_of w2 reader) dst len = mem_read (mem_of w me) src len.
Proof.
  destruct (p2p_reachable_inv dc host key_len _ _ Hreach (p2p_quiet_init _ _ _ _ Hinit)) as [[Hsz Hw] Hoff].
  simpl in Hsz, Hw, Hoff.
  destruct (publish_new_found h w me e key src len w1 t p Hw Hrep Hlen Hme Hpool Hnew Habs Hlive Hpub)
    as (t1 & p1 & l & _ & _ & Hans & Hres & Hid & Hll & _ & Hbytes).
  assert (wcoh dc host (h ++ sources w me [key] [src] [len]) w1) as Hw1.
  { eapply (publish_wcoh dc host key_len); [done| | |by left|exact Hpub].
    - apply sized_app; [done|]. intros k d Hd. apply list_elem_of_singleton in Hd as [= -> ->].
      rewrite zlength_mem_read by done. by rewrite Hkey.
    - intros [|i] q n; [|done]. by intros [= <-] [= <-]. }
  rewrite <-Hll, <-Hid in *.
  destruct (fetch_found _ w1 reader e' key l dst c t' Hw1 Hclient Hnode) as (w2 & Hf & Hd); [|by left|done|done| |].
  - apply (Hoff reader). by rewrite <-(publish_clients _ _ _ _ _ _ _ _ _ Hpub).
  - destruct Hnet as [->|?]; [by left|by right].
  - exists w2. split; [done|]. by rewrite Hd.
Qed.
End visible.
