(* ===== verification/Incoherence.v ===== *)
(** A small peer-to-peer cluster: a run that works, and four that do not.

    The hypotheses of [p2p_no_dirty_hit] are needed.  Each of the theorems
    below runs the public API of the store on a cluster of two or three nodes
    with pools of one two-byte page, every link healthy, and ends in a hit that
    delivers bytes never published under the key. *)
From S2P Require Import Prelude Bytes Hashlib HashRing Types Rpc Directory Runtime Pool DiskStore Transport Config Metrics Keys Tier Coherence StorageServer World SlotStore SlotSafety Store StoreV2 P2P P2PSteps P2PVisible.

Module P2PExamples.
Import ExampleHash RingExamples RuntimeExamples.

(** ** The cluster *)

Definition cfg : PeerCacheConfig := mk_config [("mode", VStr "p2p")] [].
Definition ctl (n : string) : option string := Some (n +:+ ":9").
Definition at_ctl (ep : string) : option string :=
  if String.eqb ep "a:9" then Some "a" else if String.eqb ep "b:9" then Some "b" else None.
Definition rails (e : string) : option string :=
  if String.eqb e "a:1" then Some "a" else if String.eqb e "b:1" then Some "b" else None.
Definition all_up (_ : string) : attempt * attempt := (AReply, AReply).
Definition inference (ns : list string) : list NodeInfo := (λ n, node n "inference") <$> ns.
Definition rt_of (ns : list string) : NodeRuntime := after (new_runtime 3 ctl 1) [inference ns].

(** A pool of one page at address 1024; temporary buffers from 4096. *)
Definition one_page : PublishedPool := new_pool 1024 2 0 None.
Definition tier_of (ns : list string) (n : string) (pool : option PublishedPool) (disk : option DiskStore) : tier :=
  mk_tier (mk_ident n (n +:+ ":1") [n +:+ ":1"] 4096) (rt_of ns) pool disk [] (new_metrics 8).
Definition client0 : client := mk_client cfg (new_naming "" true 0 0 1) 0 ∅ ∅ 5 4096 true true None ∅.
Definition proc0 (regions : list (Z * Z)) : process := mk_proc (λ _, 0) regions.

Definition two_nodes (disk : option DiskStore) : world :=
  mk_world {[ "a" := tier_of ["a"; "b"] "a" (Some one_page) disk; "b" := tier_of ["a"; "b"] "b" (Some one_page) None ]}
    {[ "a" := client0; "b" := client0 ]} (mk_cluster {[ "a:9" := ∅; "b:9" := ∅ ]} all_up)
    (mk_fabric {[ "a" := proc0 [(1024, 2)]; "b" := proc0 [(1024, 2)] ]} rails) ctl at_ctl all_up.

(** All connections work; objects passed as bytes are copied to address 16. *)
Definition env0 : env := mk_env 100 1 (λ _, AReply) (λ _, AReply) (λ i, 16 + Z.of_nat i * 2).
Definition put_bytes (w : world) (me key : string) (bs : list Z) : world :=
  (set_ w me env0 key (Some (OBytes bs)) None None).2.
Definition get_page (w : world) (me key : string) : pyres (option pyobj) * list Z :=
  let '(r, w) := get_ w me env0 key (Some (OTensor 64 (Some 2))) None in (r, mem_read (mem_of w me) 64 2).

(** ** A run that works *)

Definition w0 : world := two_nodes None.
Definition w1 : world := set_mem_of w0 "a" (mem_write (mem_of w0 "a") 16 [7; 7]).
Definition pub : pyres (list bool) * world := publish_local_pool w1 "a" env0 ["k1"] [16] [2] true.
Definition got : list bool * world := _fetch_directory pub.2 "b" env0 ["k1"] [64] [2].

Definition dc0 : DirectoryClient := rt_directory (rt_of ["a"; "b"]).

Lemma w0_tiers n t :
  w_tiers w0 !! n = Some t →
  (n = "a" ∨ n = "b") ∧ t = tier_of ["a"; "b"] n (Some one_page) None.
Proof.
  intros Ht. simpl in Ht. apply lookup_insert_Some in Ht as [[<- <-]|[_ Ht]]; [split; [by left|reflexivity]|].
  apply lookup_singleton_Some in Ht as [<- <-]. split; [by right|reflexivity].
Qed.

Lemma w0_fresh_net : fresh_net dc0 rails w0.
Proof.
  split.
  - reflexivity.
  - intros n [t Ht]. apply w0_tiers in Ht as [[-> | ->] _]; by eexists.
  - intros n t Ht. apply w0_tiers in Ht as [Hn ->]. split; [reflexivity|]. split; [reflexivity|].
    split; [|split; [reflexivity|]].
    + destruct Hn as [-> | ->]; (split; [reflexivity|]; by repeat constructor).
    + intros p [= <-]. split; [by apply new_pool_inv|reflexivity].
  - intros ep k. unfold stored. simpl. destruct (decide (ep = "a:9")) as [->|Ha]; [reflexivity|].
    rewrite lookup_insert_ne by done. destruct (decide (ep = "b:9")) as [->|Hb]; [reflexivity|].
    by rewrite lookup_singleton_ne.
  - intros ep Hep. unfold takes. rewrite bool_decide_eq_true_2 by exact Hep. reflexivity.
Qed.

Lemma p2p_w0_fresh : fresh_p2p dc0 rails w0.
Proof.
  split; [exact w0_fresh_net|].
  intros n c Hc. simpl in Hc. apply lookup_insert_Some in Hc as [[_ <-]|[_ Hc]]; [done|].
  by apply lookup_singleton_Some in Hc as [_ <-].
Qed.

Lemma place_a w : w = w0 ∨ w = w1 → place w "a" = Some (1024, 2, 0, [0]).
Proof. intros [-> | ->]; vm_compute; reflexivity. Qed.

Lemma p2p_reach_w1 : rtc (p2p_step (λ _, 2)) ([], w0) ([], w1).
Proof.
  apply rtc_once. apply (AppStep _ _ _ "a" (mem_write (mem_of w0 "a") 16 [7; 7])).
  intros x b c k ks. rewrite (place_a w0) by by left. intros [= <- <- _ _] Hx. apply mem_write_out.
  change (zlength [7; 7]) with 2. lia.
Qed.

Lemma p2p_source : pbuffer w1 "a" 16 2.
Proof. intros b c k ks. rewrite (place_a w1) by by right. intros [= <- <- _ _]. right. lia. Qed.

Lemma p2p_reach : rtc (p2p_step (λ _, 2)) ([], w0) (sources w1 "a" ["k1"] [16] [2], pub.2).
Proof.
  eapply rtc_r; [exact p2p_reach_w1|].
  apply (PubStep _ [] w1 "a" env0 ["k1"] [16] [2] true pub.1 pub.2).
  - intros [|i] p n; [|done]. intros [= <-] [= <-]. split; [lia|exact p2p_source].
  - intros k d Hd. unfold sources in Hd. simpl in Hd. apply list_elem_of_singleton in Hd. injection Hd as _ ->. reflexivity.
  - unfold pub. by destruct (publish_local_pool w1 "a" env0 _ _ _ _).
Qed.

Lemma p2p_got_targets : ptargets pub.2 "b" [64] [2].
Proof.
  split.
  - intros [|i] p n; [|done]. intros [= <-] [= <-]. split; [lia|]. intros b c k ks.
    assert (place pub.2 "b" = Some (1024, 2, 0, [0])) as -> by (vm_compute; reflexivity).
    intros [= <- <- _ _]. right. lia.
  - intros [|i] [|j] p n p' n' Hij H1 H2 H3 H4; [lia|discriminate H3|discriminate H1|discriminate H1].
Qed.

Lemma p2p_no_dirty_hit_witness :
  got.1 = [true] ∧ ("k1", mem_read (mem_of got.2 "b") 64 2) ∈ sources w1 "a" ["k1"] [16] [2].
Proof.
  assert (got.1 = [true]) as Hg by (vm_compute; reflexivity). split; [exact Hg|].
  destruct (p2p_no_dirty_hit dc0 rails (λ _, 2) w0 pub.2 got.2 (sources w1 "a" ["k1"] [16] [2]) "b" env0 ["k1"] [64] [2] [true]
    p2p_w0_fresh p2p_reach) with (i := 0%nat) as (k & p & n & Hk & Hp & Hn & Hin).
  - vm_compute. eexists. reflexivity.
  - vm_compute. eexists. reflexivity.
  - exact p2p_got_targets.
  - rewrite <-Hg. unfold got. destruct (_fetch_directory pub.2 "b" _ _ _ _). reflexivity.
  - reflexivity.
  - injection Hk as <-. injection Hp as <-. injection Hn as <-. exact Hin.
Defined.

Lemma pub_eq : publish_local_pool w1 "a" env0 ["k1"] [16] [2] true = (Ret [true], pub.2).
Proof.
  assert (pub.1 = Ret [true]) as H by (vm_compute; reflexivity). rewrite <-H. unfold pub.
  by destruct (publish_local_pool w1 "a" env0 _ _ _ _).
Qed.

Lemma pub_registered : pool_registered pub.2 "a".
Proof.
  assert (w_tiers pub.2 !! "a" ≫= t_pool = Some (mk_pool 1024 2 0 [0] 2 ∅ [("k1", (0, 2))] 2)) as Hp
    by (vm_compute; reflexivity).
  intros t p Ht Hq. rewrite Ht in Hp. simpl in Hp. rewrite Hq in Hp. injection Hp as ->. simpl.
  split; [lia|]. split; [lia|]. eexists. split; [vm_compute; reflexivity|]. left.
Qed.

Lemma w1_answers : owner_answers dc0 (w_dir w1) "k1".
Proof.
  assert (∃ n ep, n ∈ _owners dc0 "k1" ∧ live_endpoint dc0 (w_dir w1) n = Some ep) as (n & ep & H1 & H2).
  { assert (∃ n ns ep, _owners dc0 "k1" = n :: ns ∧ live_endpoint dc0 (w_dir w1) n = Some ep) as (n & ns & ep & H1 & H2)
      by (do 3 eexists; split; vm_compute; reflexivity).
    exists n, ep. rewrite H1. split; [left|done]. }
  exists n. split; [done|]. by exists ep.
Qed.

Lemma p2p_write_visible_witness :
  ∃ w2, _fetch_directory pub.2 "b" env0 ["k1"] [64] [2] = ([true], w2) ∧
    mem_read (mem_of w2 "b") 64 2 = mem_read (mem_of w1 "a") 16 2.
Proof.
  refine (p2p_write_visible dc0 rails (λ _, 2) w0 w1 pub.2 [] "a" "b" "k1" env0 env0 16 64 2 _ _ _ _
    p2p_w0_fresh p2p_reach_w1 _ _ p2p_source _ _ _ _ _ w1_answers pub_eq _ _ _ (or_intror (conj pub_registered _))).
  - vm_compute. discriminate.
  - discriminate.
  - reflexivity.
  - vm_compute. reflexivity.
  - vm_compute. reflexivity.
  - vm_compute. reflexivity.
  - vm_compute. reflexivity.
  - vm_compute. reflexivity.
  - vm_compute. reflexivity.
  - vm_compute. reflexivity.
  - reflexivity.
Defined.

(** A page of a sidecar pool, looked up in the raw keyspace as well. *)
Definition sidecar : PoolTransfer := mk_transfer "mamba" (Some ["x"]) None false true.
Definition y_key : string := default "" (head (transfer_keys w1 "a" sidecar).1).
Definition pub_y : pyres (list bool) * world := publish_local_pool w1 "a" env0 [y_key] [16] [2] true.
Definition seen : pyres (nat * list (string * nat)) * world := batch_exists_v2 pub_y.2 "b" env0 [y_key] [sidecar].

Lemma reachable_wf h w : rtc (p2p_step (λ _, 2)) ([], w0) (h, w) → shards_wf (w_dir w).
Proof.
  intros Hr. destruct (p2p_reachable_inv dc0 rails (λ _, 2) _ _ Hr (p2p_quiet_init _ _ _ _ p2p_w0_fresh)) as [[_ Hw] _].
  exact (wc_wf _ _ _ _ Hw).
Qed.

Lemma pub_y_wf : shards_wf (w_dir pub_y.2).
Proof.
  assert (rtc (p2p_step (λ _, 2)) ([], w0) (sources w1 "a" [y_key] [16] [2], pub_y.2)) as Hr.
  { eapply rtc_r; [exact p2p_reach_w1|]. apply (PubStep _ [] w1 "a" env0 [y_key] [16] [2] true pub_y.1 pub_y.2).
    - intros [|i] p n; [|done]. intros [= <-] [= <-]. split; [lia|exact p2p_source].
    - intros k d Hd. unfold sources in Hd. simpl in Hd. apply list_elem_of_singleton in Hd. injection Hd as _ ->. reflexivity.
    - unfold pub_y. by destruct (publish_local_pool w1 "a" env0 _ _ _ _). }
  exact (reachable_wf _ _ Hr).
Qed.

Lemma seen_eq : batch_exists_v2 pub_y.2 "b" env0 [y_key] [sidecar] = (Ret (1%nat, [("kv", 1%nat); ("mamba", 1%nat)]), seen.2).
Proof.
  assert (seen.1 = Ret (1%nat, [("kv", 1%nat); ("mamba", 1%nat)])) as H by (vm_compute; reflexivity).
  rewrite <-H. unfold seen. by destruct (batch_exists_v2 pub_y.2 "b" env0 _ _).
Qed.

Lemma exists_v2_sound_witness : ∃ t nm, pool_found (t_dc t) (w_dir pub_y.2) nm sidecar 1.
Proof.
  assert (∃ c t, w_clients pub_y.2 !! "b" = Some c ∧ w_tiers pub_y.2 !! "b" = Some t ∧ is_slotmap (c_cfg c) = false ∧
    c_dir_cache_ttl c = 0) as (c & t & Hc & Ht & Hm & Htl).
  { do 2 eexists. split; [vm_compute; reflexivity|]. split; [vm_compute; reflexivity|]. split; vm_compute; reflexivity. }
  destruct (exists_v2_sound pub_y.2 seen.2 "b" env0 [y_key] [sidecar] 1 [("kv", 1%nat); ("mamba", 1%nat)] c t
    Hc Ht Hm ltac:(rewrite Htl; reflexivity) pub_y_wf seen_eq) as (_ & _ & H & _).
  exists t, (c_naming c). apply H; [lia|left].
Defined.

(** ** Runs that do not *)

(** A location found by [exists] outlives the page.  After node [a] stored
    [k1], node [b] asks whether it exists; [a] stores [k2], which evicts [k1]
    and reuses its slot; [b]'s [get] of [k1] then reports a hit with [k2]'s
    bytes.  Without the question the same [get] is a miss. *)
Theorem stale_location_dirty_hit :
  let w := put_bytes w0 "a" "k1" [7; 7] in
  get_page w "b" "k1" = (Ret (Some (OTensor 64 (Some 2))), [7; 7]) ∧
  (get_page (put_bytes w "a" "k2" [9; 9]) "b" "k1").1 = Ret None ∧
  (exists_ w "b" env0 "k1").1 = Ret true ∧
  get_page (put_bytes (exists_ w "b" env0 "k1").2 "a" "k2" [9; 9]) "b" "k1" =
    (Ret (Some (OTensor 64 (Some 2))), [9; 9]).
Proof.
  split; [vm_compute; reflexivity|]. split; [vm_compute; reflexivity|]. split; vm_compute; reflexivity.
Qed.

(** Node [a] with a disk tier, after it stored three pages: [k1] and [k2] are
    on disk only. *)
Definition disk0 : DiskStore := open_store (mk_disk ∅ NoIndex) 1000.
Definition put_to_disk (w : world) (k : string) (bs : list Z) : world :=
  (run_local (put_bytes w "a" k bs) "a" tt (λ s, (tt, disk_worker s true))).2.
Definition spilled : world :=
  put_to_disk (put_to_disk (put_to_disk (two_nodes (Some disk0)) "k1" [1; 1]) "k2" [2; 2]) "k3" [3; 3].

(** Promoting two pages at once confuses them.  Both [k1] and [k2] are on
    [a]'s disk and [a]'s pool has room for one page; the promotion of [k2]
    evicts [k1], but the reply and the directory still give [k1] the shared
    address, and one batched [get] delivers [k2]'s bytes for both. *)
Theorem promote_pair_dirty_hit :
  let '(r, w) := batch_get spilled "b" env0 ["k1"; "k2"] (Some [OTensor 64 (Some 2); OTensor 66 (Some 2)]) None in
  r = Ret [Some (OTensor 64 (Some 2)); Some (OTensor 66 (Some 2))] ∧
  mem_read (mem_of w "b") 64 2 = [2; 2] ∧ mem_read (mem_of w "b") 66 2 = [2; 2].
Proof. vm_compute. split; [reflexivity|]. split; reflexivity. Qed.

(** Three nodes; [a] has a pool, [c] reads. *)
Definition three_nodes : world :=
  mk_world {[ "a" := tier_of ["a"; "b"; "c"] "a" (Some one_page) None;
              "b" := tier_of ["a"; "b"; "c"] "b" None None; "c" := tier_of ["a"; "b"; "c"] "c" None None ]}
    {[ "a" := client0; "c" := client0 ]}
    (mk_cluster {[ "a:9" := ∅; "b:9" := ∅; "c:9" := ∅ ]} all_up)
    (mk_fabric {[ "a" := proc0 [(1024, 2)]; "b" := proc0 []; "c" := proc0 [] ]} rails) ctl (λ _, None) all_up.

Definition members (w : world) (me : string) (ns : list string) : world :=
  (run_local w me tt (λ s, (tt, tier_on_members s (inference ns)))).2.
Definition see (w : world) (ns : list string) : world := members (members w "a" ns) "c" ns.

(** A directory node that is gone for a while brings stale locations
    back.  [k1] is listed by node [b]; [b] drops out of the membership, [a]
    evicts [k1] and deletes its entry at the new owner, [b] returns with its
    old entry, and [c]'s [get] of [k1] delivers the bytes of [k2].  Republishing
    after a membership change adds entries but removes none. *)
Theorem membership_flap_dirty_hit :
  let w := put_bytes (see (put_bytes three_nodes "a" "k1" [7; 7]) ["a"; "c"]) "a" "k2" [9; 9] in
  (get_page w "c" "k1").1 = Ret None ∧
  get_page (see w ["a"; "b"; "c"]) "c" "k1" = (Ret (Some (OTensor 64 (Some 2))), [9; 9]).
Proof. split; vm_compute; reflexivity. Qed.

(** A reserved page is published before it is written.  A storage server
    hands out a slot for [k1] ([data_prepare_writes]); before any byte arrives
    the membership changes, the server republishes its pool, and a reader gets
    a hit on whatever the slot contained. *)
Theorem republish_uncommitted_dirty_hit :
  let prepare s := _on_data_prepare_writes s (VDict [("pages", VList [VDict [("key", VStr "k1"); ("length", VInt 2)]])]) in
  let w := (run_local three_nodes "a" (Raise RuntimeError) prepare).2 in
  (get_page w "c" "k1").1 = Ret None ∧
  get_page (members w "a" ["a"; "b"; "c"; "d"]) "c" "k1" = (Ret (Some (OTensor 64 (Some 2))), [0; 0]).
Proof. split; vm_compute; reflexivity. Qed.
End P2PExamples.
