(* ===== verification/Central.v ===== *)
(** Pages pushed to a storage server ([_publish_storage], the centralized mode).

    The writer asks the key's storage server for a slot ([data_prepare_writes]
    reserves it in the server's pool), writes the bytes there with the data
    plane, and commits ([data_commit_writes] tells the directory).  While the
    links hold, the push of a new page keeps the coherence of [P2P.v] and the
    page can be fetched by every node ([storage_write_visible]).  When the
    WRITE fails the RPC copy that should replace it finds the reserved slot,
    copies nothing and reports success (a run of it is
    [ingest_fallback_dirty_hit]; FailedPush has the general theorem).  A push
    that reaches no server changes nothing ([push_lost]). *)
From S2P Require Import Prelude Bytes Hashlib HashRing Types Rpc Directory Runtime Pool DiskStore Transport Config Metrics Keys Tier Coherence StorageServer World SlotStore SlotSafety Store StoreV2 P2P P2PSteps P2PVisible Incoherence.

Section central.
Context {RH : RingHash} {SI : SetIter} {HL : Hashlib}.
Context (dc : DirectoryClient) (host : string → option string) (key_len : string → Z).

Abbreviation history := (list (string * list Z)).

(** ** Reserve and write *)

(** Coherence looks at the pool's memory only. *)
Lemma lcoh_mem h O s m :
  lcoh dc host h O s →
  (∀ p x, t_pool (l_tier s) = Some p → p_base p ≤ x < p_base p + p_capacity p → m x = l_mem s x) →
  lcoh dc host h O (set_mem s m).
Proof.
  intros [A1 A2 A3 A4 A5] Hm. split; try done. intros p Hp. destruct (A4 p Hp) as [Hinv Hpub].
  split; [done|]. intros k b Hb. unfold page_bytes. erewrite mem_read_ext; [by apply Hpub|].
  intros x Hx. pose proof (pool_inv_bounds _ _ _ Hinv Hb). simpl. apply (Hm p); [done|lia].
Qed.

Lemma lcoh_history h h' O s : (∀ x, x ∈ h → x ∈ h') → lcoh dc host h O s → lcoh dc host h' O s.
Proof.
  intros Hh [A1 A2 A3 A4 A5]. split; try done. intros p Hp. destruct (A4 p Hp) as [Hinv Hpub].
  split; [done|]. intros k b Hb. by apply Hh, Hpub.
Qed.

(** A reserved slot, once the data is in it, is a published page: the state
    is the one [pool_publish] of the same bytes leaves. *)
Lemma reserve_write_keeps h O s key len addr s1 data p :
  lcoh dc host h O s → t_pool (l_tier s) = Some p → od_get (p_entries p) key = None → zlength data = len →
  pool_reserve s key len = (Ret (Some addr), s1) →
  let s2 := set_mem s1 (mem_write (l_mem s1) addr data) in
  lcoh dc host (h ++ [(key, data)]) O s2 ∧ same_node s s2 ∧ l_mem s1 = l_mem s ∧
  t_ident (l_tier s1) = t_ident (l_tier s) ∧ t_disk (l_tier s1) = None ∧
  Directory.same_net (l_dir s) (l_dir s1) ∧
  ∃ p', t_pool (l_tier s1) = Some p' ∧ pool_place p' = pool_place p ∧ pool_page p' key addr len ∧ pool_inv p'.
Proof.
  intros Hc Hp Hno Hlen Hres. assert (0 ≤ len) as Hl by (subst len; unfold zlength; lia).
  destruct (lc_pool _ _ _ _ _ Hc p Hp) as [Hinv _].
  assert (t_disk (l_tier s) = None ∧ t_dc (l_tier s) = dc) as [Hd Hdc] by (split; apply Hc).
  unfold pool_reserve in Hres. rewrite Hp in Hres.
  destruct (Pool.reserve p key len) as [[r p'] ev] eqn:Er. injection Hres as -> Hs1.
  assert (pool_place p' = pool_place p) as Hpl
    by (unfold pool_place; destruct (reserve_base _ _ _ _ _ _ Er) as (-> & -> & -> & ->); done).
  assert (p_base p' = p_base p ∧ p_capacity p' = p_capacity p) as [Hbase Hcap] by by injection Hpl.
  (* a copy of the bytes outside the pool *)
  set (out := p_base p + p_capacity p). set (mx := mem_write (l_mem s) out data). set (sx := set_mem s mx).
  assert (lcoh dc host (h ++ [(key, data)]) O sx) as Hcx.
  { apply (lcoh_history h); [intros; apply elem_of_app; by left|]. apply lcoh_mem; [done|].
    intros q x Hq Hx. rewrite Hp in Hq. injection Hq as <-. apply mem_write_out. lia. }
  assert (mem_read mx out len = data) as Hdata by (subst len mx; apply mem_read_write_same).
  assert (Pool.publish p mx key out len = (Some addr, p', memmove mx addr out len, ev)) as Hpub
    by by rewrite publish_reserve, Er, Hno.
  set (sy := match ev with [] => set_mem (set_pool sx p') (memmove mx addr out len)
    | _ => _on_pool_evict (set_mem (set_pool sx p') (memmove mx addr out len)) ev end).
  assert (pool_publish sx key out len = (Ret (Some addr), sy)) as Hpp.
  { unfold pool_publish. change (t_pool (l_tier sx)) with (t_pool (l_tier s)). rewrite Hp.
    change (l_mem sx) with mx. by rewrite Hpub. }
  destruct (pool_publish_keeps dc host _ O sx key out len (Ret (Some addr)) sy Hcx Hl) as (Hcy & Hny & _); [|exact Hpp|].
  { change (l_mem sx) with mx. rewrite Hdata. apply elem_of_app. right. by left. }
  destruct (pool_publish_new dc host _ O sx key out len addr sy p Hcx Hl Hp Hno Hpp)
    as (Hdy & _ & Hidy & Hnety & q & b & Hq & Hb & Ha & Hbl & _ & Hinv').
  assert (l_mem s1 = l_mem s) as Hm1 by (subst s1; unfold _on_pool_evict; destruct ev; simpl; [done|by rewrite Hd]).
  assert (l_mem sy = memmove mx addr out len) as Hmy by (subst sy; unfold _on_pool_evict; destruct ev; simpl; [done|by rewrite Hd]).
  assert (∀ m, set_mem s1 m = set_mem sy m) as Hss.
  { intros m. subst s1 sy. unfold _on_pool_evict, sx. destruct ev; simpl; [done|]. by rewrite Hd. }
  assert (l_tier s1 = l_tier sy ∧ l_dir s1 = l_dir sy) as [Ht1 Hd1].
  { specialize (Hss (l_mem s1)). apply (f_equal (λ s, (l_tier s, l_dir s))) in Hss. simpl in Hss. by injection Hss. }
  assert (t_pool (l_tier s1) = Some p') as Hp1.
  { subst s1. unfold _on_pool_evict. destruct ev; simpl; [done|by rewrite Hd]. }
  rewrite Ht1 in Hp1. rewrite Hq in Hp1. injection Hp1 as ->.
  pose proof (pool_inv_bounds _ _ _ Hinv' Hb) as Hbd.
  assert (∀ x, p_base p ≤ x < p_base p + p_capacity p → mem_write (l_mem s) addr data x = l_mem sy x) as Hagree.
  { intros x Hx. rewrite Hmy. unfold memmove. rewrite Hdata. unfold mem_write.
    destruct (_ && _); [done|]. unfold mx. symmetry. apply mem_write_out. lia. }
  cbv zeta. rewrite Hss, Hm1. split; [|split; [|split; [done|split; [by rewrite Ht1|split; [by rewrite Ht1|]]]]].
  - apply lcoh_mem; [done|]. intros q x Hqy Hx. rewrite Hq in Hqy. injection Hqy as <-. apply Hagree. lia.
  - destruct Hny as [N1 N2 N3 N4]. split; try done. intros x Hx. simpl. apply mem_write_out.
    specialize (Hx p Hp). lia.
  - rewrite Ht1, Hd1. split; [done|]. exists p'. split; [done|]. split; [done|]. split; [|done].
    exists b. split; [done|]. by rewrite Hbl.
Qed.

(** ** The three handlers, for one new page *)

Definition one_page_arg (key : string) (len : Z) : pyval :=
  VDict [("pages", VList [VDict [("key", VStr key); ("length", VInt len)]])].

Lemma prepare_new s key len addr s1 p :
  t_dc (l_tier s) = dc → exists_answer dc (l_dir s) key = false → key ≠ ""%string → 0 < len →
  t_pool (l_tier s) = Some p → pool_reserve s key len = (Ret (Some addr), s1) →
  _on_data_prepare_writes s (one_page_arg key len) =
    (Ret (VDict [("slots", VList [_slot_dict (t_ident (l_tier s)) p key addr len])]), s1).
Proof.
  intros Hdc Hex Hk Hl Hp Hr. apply String.eqb_neq in Hk.
  unfold _on_data_prepare_writes, request_pages, list_arg, one_page_arg. simpl. unfold py_or. simpl.
  unfold page_key. simpl. rewrite Hk. simpl. unfold exist_map. rewrite Hdc, Directory.exists_spec. simpl. rewrite Hex.
  assert (set_dir s (l_dir s) = s) as -> by by destruct s.
  unfold prepare_one, page_key. simpl. rewrite Hk. simpl. unfold py_or. simpl.
  replace (len =? 0) with false by (symmetry; apply Z.eqb_neq; lia). simpl.
  replace (len <=? 0) with false by (symmetry; apply Z.leb_gt; lia).
  rewrite decide_True by done. simpl. rewrite Hp, Hr. done.
Qed.

(** What the writer makes of the slot it is given. *)
Lemma read_slot_dict i p key addr len :
  read_slot (_slot_dict i p key addr len) =
    Ret (Some (mk_target (i_endpoint i) (match i_rails i with [] => [i_endpoint i] | es => es end)
      (match p_rkeys p with [] => [p_rkey p] | ks => ks end) addr len)).
Proof.
  unfold read_slot, _slot_dict. simpl. unfold py_or. destruct (i_rails i) as [|e es] eqn:Ei; simpl.
  - destruct (p_rkeys p) as [|x xs]; simpl; [done|]. by rewrite (py_mapM_ret py_int VInt).
  - rewrite (py_mapM_ret as_str VStr) by done. simpl.
    destruct (p_rkeys p) as [|x xs]; simpl; [done|]. by rewrite (py_mapM_ret py_int VInt).
Qed.

Lemma commit_new h O s key addr len p :
  lcoh dc host h O s → t_pool (l_tier s) = Some p → pool_page p key addr len → 0 ≤ len →
  ∃ s1, _on_data_commit_writes s (VDict [("keys", VList [VStr key])]) =
      (Ret (VDict [("ok", VList [VBool true])]), s1) ∧
    lcoh dc host h O s1 ∧ same_node s s1 ∧ l_mem s1 = l_mem s ∧
    ∃ l, l_dir s1 = Directory.put dc (l_dir s) [(key, l)] ∧ l_resident l = true ∧
      l_node_id l = i_id (t_ident (l_tier s)) ∧ l_remote_addr l = addr ∧ l_length l = len.
Proof.
  intros Hc Hp Hpg Hl. pose proof Hpg as (b & Hb & Ha & Hn).
  unfold _on_data_commit_writes, list_arg. simpl. rewrite Hp.
  destruct (pool_address s key) as [al s0] eqn:Eal.
  pose proof (pool_address_keeps dc host h O s key al s0 Hc Eal) as (Hc0 & Hn0 & Hm0 & Hd0 & _ & Hpool0).
  destruct (Hpool0 p Hp) as (p0 & Hp0 & Hbase0 & Hent0).
  assert (al = Some (addr, len)) as ->.
  { unfold pool_address in Eal. rewrite Hp in Eal. unfold Pool.address_of in Eal. rewrite Hb in Eal. destruct b.
    simpl in *. injection Eal as <- _. by subst. }
  simpl. destruct (lcoh_key_len dc host h O s0 (od_set (t_key_len (l_tier s0)) key len) Hc0) as [Hc1 Hn1].
  set (s1 := set_key_len s0 _) in *. set (l := _resident_location (t_ident (l_tier s0)) p addr len).
  assert (disk_put s1 key (mem_read (l_mem s0) addr len) = s1) as -> by (unfold disk_put; by rewrite (lc_disk _ _ _ _ _ Hc1)).
  destruct (directory_put_keeps dc host h O s1 [(key, l)] Hc1) as [Hc2 Hn2].
  - apply NoDup_singleton.
  - intros k' l'. simpl. case_decide as Hk; [|done]. intros [= <-] _. subst k'. simpl.
    destruct (lc_ident _ _ _ _ _ Hc0) as [Hi1 Hi2].
    split; [split; [done|]; unfold endpoints; simpl; destruct (i_rails (t_ident (l_tier s0))); [by repeat constructor|done]|].
    rewrite decide_True by done. exists p0. split; [done|]. exists b. rewrite Hent0, Hbase0. done.
  - set (s2 := directory_put s1 [(key, l)]) in *.
    destruct (lcoh_metrics dc host h O s2 (record_write (t_metrics (l_tier s2)) (len + 0) 0) Hc2) as [Hc3 Hn3].
    eexists. split; [reflexivity|]. split; [exact Hc3|].
    split; [by do 3 (eapply same_node_trans; [eassumption|])|]. split; [exact Hm0|].
    exists l. split; [|by rewrite <-(sm_ident _ _ Hn0)].
    change (Directory.put (t_dc (l_tier s1)) (l_dir s0) [(key, l)] = Directory.put dc (l_dir s) [(key, l)]).
    by rewrite (lc_dc _ _ _ _ _ Hc1), Hd0.
Qed.

(** ** The calls between the nodes *)

Lemma local_of_put w n s s' : local_of w n = Some s → local_of (put_local w n s') n = Some s'.
Proof.
  intros (t & p & Ht & Hp & _ & _)%local_of_Some. unfold local_of, put_local. simpl. rewrite Hp.
  simpl. rewrite !lookup_insert_eq. simpl. by destruct s'.
Qed.

Lemma put_local_twice w n s s' s'' :
  local_of w n = Some s → put_local (put_local w n s') n s'' = put_local w n s''.
Proof.
  intros (t & p & Ht & Hp & _ & _)%local_of_Some. unfold put_local. simpl. rewrite Hp. simpl.
  rewrite lookup_insert_eq. simpl. unfold set_proc. simpl. by rewrite !insert_insert_eq.
Qed.

(** An RPC to a storage server whose reply arrives. *)
Lemma storage_call w ep n method hd args s s' v :
  w_node_at w ep = Some n → (w_link w ep).1 = AReply → w_clients w !! n = None →
  storage_service 0 method = Some hd → local_of w n = Some s → hd s args = (Ret v, s') →
  data_call w ep method args = (Ret v, put_local w n s').
Proof.
  intros Hat Hl Hc Hm Hs Hh. unfold data_call. rewrite Hat. destruct (w_link w ep) as [a1 a2]. simpl in Hl. subst a1.
  simpl. unfold invoke, data_service. rewrite Hc, Hm. simpl. unfold on_node, run_local. by rewrite Hs, Hh.
Qed.

(** The WRITE of one page into registered memory of another node. *)
Lemma write_one_page w me n_rails nk rails ks src addr len link p0 n pn :
  f_procs (w_fab w) !! me = Some p0 → host = f_host (w_fab w) → rails ≠ [] →
  Forall (λ e, host e = Some n) rails → f_procs (w_fab w) !! n = Some pn →
  0 ≤ addr < 2 ^ 64 → 0 ≤ len < 2 ^ 64 → _covered pn addr len = true → link 0%nat = AReply →
  batch_write_multi (w_fab w) me n_rails [mk_multiop nk src addr len] {[nk := rails]} {[nk := ks]} link =
    ([true], set_proc (w_fab w) n (mk_proc (mem_write (pr_mem pn) addr (mem_read (pr_mem p0) src len)) (pr_regions pn))).
Proof.
  intros Hme Hh Hne Hr Hn Ha Hl Hcov Hlink. unfold batch_write_multi, stripe, batch_write. cbn [imap batch_write_from].
  set (op := mk_readop _ _ _ _ _).
  assert (host (ro_endpoint op) = Some n) as He.
  { simpl. unfold rail_endpoint. rewrite lookup_singleton_eq. simpl.
    destruct (pick_rail_elem n_rails (Z.of_nat 0) rails ltac:(lia) Hne) as (x & -> & Hx). simpl.
    rewrite Forall_forall in Hr. by apply Hr. }
  assert (target (w_fab w) op = Some (n, pn)) as Ht.
  { unfold target, remote_process. rewrite <-Hh, He. simpl. rewrite Hn. simpl.
    rewrite bool_decide_eq_true_2 by (split; done). by rewrite Hcov. }
  rewrite (write_one_spec _ _ _ _ p0 Hme), Ht, Hlink. simpl. done.
Qed.

(** ** The push of one new page *)

(** Node [me] can push [key] to its storage server [owner]: the server is up
    and has room, the links hold, and nobody has stored the key yet. *)
Record push_ready (w : world) (me : string) (e : env) (key : string) (len : Z) (owner ep : string) : Prop := {
  pu_owner t : w_tiers w !! me = Some t → data_owner (t_rt t) key = Some owner;
  pu_me : is_Some (w_tiers w !! me);
  pu_other : me ≠ owner;
  pu_control : w_control w owner = Some ep;
  pu_at : w_node_at w ep = Some owner;
  pu_server : w_clients w !! owner = None;
  pu_link : (w_link w ep).1 = AReply;
  pu_write : e_write e 0%nat = AReply;
  pu_registered : pool_registered w owner;
  pu_key : key ≠ ""%string;
  pu_len : 0 < len;
  pu_absent : exists_answer dc (w_dir w) key = false;
  pu_room : ∃ t p addr p' ev, w_tiers w !! owner = Some t ∧ t_pool t = Some p ∧
    od_get (p_entries p) key = None ∧ Pool.reserve p key len = (Some addr, p', ev)
}.

(** Prepare and WRITE: the server's pool holds the page, the directory does
    not know it yet. *)
Lemma push_written h w me e key src len owner ep :
  wcoh dc host h w → push_ready w me e key len owner ep →
  let data := mem_read (mem_of w me) src len in
  ∃ s s1 s2 p addr,
    local_of w owner = Some s ∧ t_pool (l_tier s) = Some p ∧
    _on_data_prepare_writes s (one_page_arg key len) =
      (Ret (VDict [("slots", VList [_slot_dict (t_ident (l_tier s)) p key addr len])]), s1) ∧
    s2 = set_mem s1 (mem_write (l_mem s1) addr data) ∧
    lcoh dc host (h ++ [(key, data)]) (page_at w) s2 ∧ same_node s s2 ∧
    Directory.same_net (w_dir w) (l_dir s2) ∧
    (∃ p', t_pool (l_tier s2) = Some p' ∧ pool_page p' key addr len) ∧
    (∀ rails ks, rails ≠ [] → Forall (λ x, host x = Some owner) rails →
     batch_write_multi (w_fab (put_local w owner s1)) me (n_rails_of (put_local w owner s1) me)
       [mk_multiop (i_endpoint (t_ident (l_tier s))) src addr len]
       {[i_endpoint (t_ident (l_tier s)) := rails]} {[i_endpoint (t_ident (l_tier s)) := ks]} (e_write e) =
       ([true], w_fab (put_local w owner s2)) ∧
     set_fab (put_local w owner s1) (w_fab (put_local w owner s2)) = put_local w owner s2).
Proof.
  intros Hw Hr data. pose proof (pu_len _ _ _ _ _ _ _ Hr) as Hlen.
  destruct (pu_room _ _ _ _ _ _ _ Hr) as (t & p & addr & p' & ev & Ht & Hp & Hno & Hres).
  destruct (wc_proc _ _ _ _ Hw owner ltac:(by eexists)) as [pn Hpn].
  assert (local_of w owner = Some (mk_local t (w_dir w) (pr_mem pn))) as Hs
    by (unfold local_of; rewrite Ht; simpl; by rewrite Hpn).
  set (s := mk_local t (w_dir w) (pr_mem pn)) in *.
  pose proof (wcoh_local _ _ _ _ _ _ Hw Hs) as Hc.
  assert (∃ s1, pool_reserve s key len = (Ret (Some addr), s1)) as [s1 Hs1].
  { eexists. unfold pool_reserve. change (t_pool (l_tier s)) with (t_pool t). rewrite Hp, Hres. reflexivity. }
  assert (zlength data = len) as Hz by (apply zlength_mem_read; lia).
  destruct (reserve_write_keeps h (page_at w) s key len addr s1 data p Hc Hp Hno Hz Hs1)
    as (Hc2 & Hn2 & Hm1 & Hid1 & Hd1 & Hnet & q & Hq & Hpl & Hpg & Hinv).
  set (s2 := set_mem s1 _) in *.
  exists s, s1, s2, p, addr. split; [done|]. split; [done|]. split.
  { apply prepare_new; try done; [apply Hc|apply Hr|apply Hr]. }
  split; [done|]. split; [done|]. split; [done|]. split; [done|]. split; [by exists q|].
  intros rails ks Hne Hrails. destruct (wc_proc _ _ _ _ Hw me (pu_me _ _ _ _ _ _ _ Hr)) as [p0 Hp0].
  pose proof (pu_other _ _ _ _ _ _ _ Hr) as Hother.
  assert (w_fab (put_local w owner s1) = set_proc (w_fab w) owner (mk_proc (l_mem s1) (pr_regions pn))) as Hf1
    by (unfold put_local; simpl; by rewrite Hpn).
  assert (w_fab (put_local w owner s2) = set_proc (w_fab w) owner (mk_proc (l_mem s2) (pr_regions pn))) as Hf2
    by (unfold put_local; simpl; by rewrite Hpn).
  destruct Hpg as (b & Hb & Ha & Hbl). pose proof (pool_inv_bounds _ _ _ Hinv Hb) as Hbd.
  destruct (pu_registered _ _ _ _ _ _ _ Hr t p Ht Hp) as (Hpos & H64 & pr & Hpr & Hin).
  assert (p_base q = p_base p ∧ p_capacity q = p_capacity p) as [Hbase Hcap] by by injection Hpl.
  split.
  - rewrite (write_one_page (put_local w owner s1) me _ _ rails ks src addr len (e_write e) p0 owner
      (mk_proc (l_mem s1) (pr_regions pn))).
    + rewrite Hf1, Hf2. unfold set_proc. simpl. rewrite insert_insert_eq. do 6 f_equal.
      unfold data, mem_of. by rewrite Hp0.
    + rewrite Hf1. simpl. by rewrite lookup_insert_ne.
    + rewrite Hf1. simpl. by rewrite (wc_host _ _ _ _ Hw).
    + done.
    + done.
    + rewrite Hf1. simpl. apply lookup_insert_eq.
    + lia.
    + lia.
    + rewrite Hpn in Hpr. injection Hpr as <-. unfold _covered. simpl. apply existsb_exists.
      exists (p_base p, p_capacity p). split; [by apply list_elem_of_In|]. apply andb_true_iff. rewrite !Z.leb_le. lia.
    + apply Hr.
  - rewrite Hf2. unfold set_fab, put_local. simpl. by rewrite Hpn.
Qed.

(** The rails a slot names lead to the server. *)
Lemma slot_rails_host i :
  ident_ok host i → let rails := match i_rails i with [] => [i_endpoint i] | es => es end in
  rails ≠ [] ∧ Forall (λ x, host x = Some (i_id i)) rails.
Proof. intros [H1 H2]. destruct (i_rails i); simpl; [split; [done|by repeat constructor]|done]. Qed.

(** The push up to its last measurement. *)
Lemma publish_owner_new h w me e key src len owner ep :
  wcoh dc host h w → push_ready w me e key len owner ep →
  let data := mem_read (mem_of w me) src len in
  ∃ s s3, local_of w owner = Some s ∧
    publish_owner me e [(key, 0%nat)] [len] w [false] 0 owner [mk_wpage key len src 0] =
      (Ret ([true], len), put_local w owner s3) ∧
    lcoh dc host (h ++ [(key, data)]) (page_at w) s3 ∧ same_node s s3 ∧
    ∃ l d, l_dir s3 = Directory.put dc d [(key, l)] ∧ Directory.same_net (w_dir w) d ∧ l_resident l = true ∧
      l_node_id l = owner ∧ l_length l = len ∧ mem_read (l_mem s3) (l_remote_addr l) len = data.
Proof.
  intros Hw Hr data.
  destruct (push_written h w me e key src len owner ep Hw Hr)
    as (s & s1 & s2 & p & addr & Hs & Hp & Hprep & Hs2 & Hc2 & Hn2 & Hnet & (p' & Hp' & Hpg) & Hwr).
  fold data in Hs2, Hc2. set (w1 := put_local w owner s1) in *. set (w2 := put_local w owner s2) in *.
  pose proof (wcoh_local _ _ _ _ _ _ Hw Hs) as Hc.
  assert (i_id (t_ident (l_tier s)) = owner) as Hid.
  { pose proof Hs as (t & pr & Ht & _ & -> & _)%local_of_Some. by apply (wc_tier _ _ _ _ Hw owner t Ht). }
  destruct (commit_new _ (page_at w) s2 key addr len p' Hc2 Hp' Hpg ltac:(pose proof (pu_len _ _ _ _ _ _ _ Hr); lia))
    as (s3 & Hcommit & Hc3 & Hn3 & Hm3 & l & Hdir & Hres & Hnode & Haddr & Hll).
  destruct (slot_rails_host (t_ident (l_tier s)) (lc_ident _ _ _ _ _ Hc)) as [Hne Hrails]. rewrite Hid in Hrails.
  destruct (Hwr _ (match p_rkeys p with [] => [p_rkey p] | ks => ks end) Hne Hrails) as [Hbw Hset]. clear Hwr.
  exists s, s3. split; [done|]. split.
  2:{ split; [done|]. split; [by eapply same_node_trans|]. exists l, (l_dir s2). split; [done|]. split; [done|]. split; [done|].
      split; [rewrite Hnode, (sm_ident _ _ Hn2); exact Hid|]. split; [done|]. rewrite Haddr, Hm3, Hs2. simpl.
      assert (zlength data = len) as Hz by (apply zlength_mem_read; pose proof (pu_len _ _ _ _ _ _ _ Hr); lia).
      rewrite <-Hz at 1. apply mem_read_write_same. }
  unfold publish_owner. rewrite (pu_control _ _ _ _ _ _ _ Hr).
  change (prepare_arg [mk_wpage key len src 0]) with (one_page_arg key len).
  rewrite (storage_call w ep owner "data_prepare_writes" _on_data_prepare_writes _ s s1 _
    (pu_at _ _ _ _ _ _ _ Hr) (pu_link _ _ _ _ _ _ _ Hr) (pu_server _ _ _ _ _ _ _ Hr) eq_refl Hs Hprep).
  fold w1. cbn [mbind pyres_bind py_get default od_get]. rewrite decide_True by done.
  unfold py_or. cbn [py_truthy default py_list accepted]. unfold id, mbind, pyres_bind. cbn [py_truthy py_list].
  rewrite read_slot_dict.
  cbn [fmap list_fmap]. unfold target_rails. cbn [foldl snd fst]. rewrite lookup_empty. cbn [ts_node ts_rails ts_rkeys ts_addr ts_len wp_ptr].
  rewrite !insert_empty. rewrite Hbw. rewrite Hset.
  cbn [zip zip_with filter list_filter]. rewrite decide_True by done. cbn [fmap list_fmap fst wp_key commit_call].
  rewrite (storage_call w2 ep owner "data_commit_writes" _on_data_commit_writes _ s2 s3 _
    (pu_at _ _ _ _ _ _ _ Hr) (pu_link _ _ _ _ _ _ _ Hr) (pu_server _ _ _ _ _ _ _ Hr) eq_refl
    (local_of_put _ _ _ _ Hs) Hcommit).
  unfold mbind, pyres_bind. change (ok_flags (VDict [("ok", VList [VBool true])])) with (Ret [true]).
  cbv beta iota. change ((filter (λ q : string * bool, q.2 = true) (zip [key] [true])).*1) with [key].
  unfold committed_idx. cbn [zip zip_with foldl wp_key od_set omap list_omap].
  rewrite bool_decide_eq_true_2 by (by apply list_elem_of_singleton). cbn [andb od_get].
  rewrite (decide_True (P := key = key)) by done. cbn [foldl wp_idx].
  change (<[0%nat := true]> [false]) with [true].
  rewrite decide_False by (simpl; naive_solver). cbn [ingest_call foldl fmap list_fmap].
  unfold w2. rewrite (put_local_twice w owner s s2 s3 Hs). do 3 f_equal. cbn [lookup list_lookup from_option sumZ foldr]. lia.
Qed.

Lemma meter_fields w me f :
  w_dir (meter w me f) = w_dir w ∧ w_clients (meter w me f) = w_clients w ∧ w_fab (meter w me f) = w_fab w ∧
  ∀ n, t_pool <$> w_tiers (meter w me f) !! n = t_pool <$> w_tiers w !! n.
Proof.
  unfold meter, run_local, local_of. destruct (w_tiers w !! me) as [t|] eqn:Et; [|done]. simpl.
  destruct (f_procs (w_fab w) !! me) as [p|] eqn:Ep; [|done]. simpl. unfold put_local. simpl. rewrite Ep.
  rewrite set_proc_id by (rewrite Ep; by destruct p). split; [done|]. split; [done|]. split; [done|].
  intros n. destruct (decide (n = me)) as [->|Hne]; [by rewrite lookup_insert_eq, Et|by rewrite lookup_insert_ne].
Qed.

Lemma publish_storage_single w me e key src len t owner :
  w_tiers w !! me = Some t → t_dc t = dc → data_owner (t_rt t) key = Some owner → exists_answer dc (w_dir w) key = false →
  _publish_storage w me e [key] [src] [len] =
    match publish_owner me e [(key, 0%nat)] [len] w [false] 0 owner [mk_wpage key len src 0] with
    | (Raise x, w) => (Raise x, w)
    | (Ret (results, bytes), w) => (Ret results, meter w me (λ mt, record_write mt bytes (e_seconds e)))
    end.
Proof.
  intros Ht Hdc Ho Hex. unfold _publish_storage. rewrite Ht.
  assert (storage_nodes (t_rt t) ≠ []) as Hs.
  { unfold data_owner in Ho. case_bool_decide; done. }
  rewrite bool_decide_eq_false_2 by done. rewrite Hdc, Directory.exists_spec. cbn [fmap list_fmap]. rewrite Hex, set_wdir_id.
  cbn [imap foldl zip zip_with]. unfold pending_pages. cbn [imap foldl]. rewrite Ho.
  cbn [group_add od_get od_set default app publish_owners]. unfold group_add. simpl.
  by destruct (publish_owner _ _ _ _ _ _ _ _ _) as [[[results bytes]|x] w1].
Qed.

(** The push of a new page succeeds, is coherent, and whoever answers for the
    key knows where the bytes are. *)
Lemma push_new h w me e key src len owner ep :
  wcoh dc host h w → caches_off w → push_ready w me e key len owner ep →
  let data := mem_read (mem_of w me) src len in
  ∃ w1 l, _publish_storage w me e [key] [src] [len] = (Ret [true], w1) ∧
    wcoh dc host (h ++ [(key, data)]) w1 ∧ w_clients w1 = w_clients w ∧ pool_registered w1 owner ∧
    (∀ n, is_Some (w_tiers w !! n) → is_Some (w_tiers w1 !! n)) ∧ l_resident l = true ∧ l_node_id l = owner ∧ l_length l = len ∧
    mem_read (mem_of w1 owner) (l_remote_addr l) len = data ∧
    (1 ≤ dc_replicas dc → owner_answers dc (w_dir w) key → dir_answer dc (w_dir w1) [key] key = Some l) ∧
    (∃ d, w_dir w1 = Directory.put dc d [(key, l)] ∧ Directory.same_net (w_dir w) d) ∧
    ∀ n, n ≠ owner → t_pool <$> w_tiers w1 !! n = t_pool <$> w_tiers w !! n.
Proof.
  intros Hw Hoff Hr data. destruct (pu_me _ _ _ _ _ _ _ Hr) as [t Ht].
  destruct (publish_owner_new h w me e key src len owner ep Hw Hr)
    as (s & s3 & Hs & Hpo & Hc3 & Hn3 & l & d & Hdir & Hnet & Hres & Hnode & Hlen & Hbytes).
  rewrite (publish_storage_single w me e key src len t owner Ht (proj1 (wc_tier _ _ _ _ Hw me t Ht))
    (pu_owner _ _ _ _ _ _ _ Hr t Ht) (pu_absent _ _ _ _ _ _ _ Hr)), Hpo.
  set (w2 := put_local w owner s3). set (f := λ mt, record_write mt len (e_seconds e)).
  assert (wcoh dc host (h ++ [(key, data)]) w2) as Hw2.
  { eapply put_local_wcoh; [exact Hw|exact Hs| |exact Hc3|exact Hn3|by left]. intros x ?. apply elem_of_app. by left. }
  destruct (meter_fields w2 me f) as (M1 & M2 & M3 & M4).
  exists (meter w2 me f), l. split; [done|]. split; [by apply meter_wcoh|]. split; [by rewrite M2|]. split.
  { intros t' p Ht' Hp. rewrite M3. specialize (M4 owner). rewrite Ht' in M4. simpl in M4. rewrite Hp in M4.
    unfold w2 in M4. rewrite (put_local_tiers w owner s s3 Hs), bool_decide_eq_true_2 in M4 by done. injection M4 as M4.
    pose proof Hs as (t0 & pr & Ht0 & Hpr & Hs0 & _)%local_of_Some.
    pose proof (sm_place _ _ Hn3) as Hpl. rewrite <-M4 in Hpl. rewrite Hs0 in Hpl. simpl in Hpl.
    destruct (t_pool t0) as [p0|] eqn:Hp0; [|done]. injection Hpl as Hb Hcp _ _. rewrite Hb, Hcp.
    destruct (pu_registered _ _ _ _ _ _ _ Hr t0 p0 Ht0 Hp0) as (H1 & H2 & pr' & Hpr' & H3).
    split; [done|]. split; [done|]. unfold w2, put_local. simpl. rewrite Hpr. simpl.
    eexists. rewrite lookup_insert_eq. split; [done|]. simpl. congruence. }
  split.
  { intros n Hn. apply (fmap_is_Some t_pool). rewrite M4. apply fmap_is_Some. unfold w2.
    rewrite (put_local_tiers w owner s s3 Hs). by case_bool_decide. }
  split; [done|]. split; [done|]. split; [done|]. split.
  - rewrite meter_mem. unfold w2. rewrite (put_local_mem w owner s s3 owner Hs), bool_decide_eq_true_2 by done. exact Hbytes.
  - rewrite M1. unfold w2. simpl. rewrite Hdir. split.
    { intros Hrep Hans. eapply put_found; [done|apply (wc_taken _ _ _ _ Hw)|done|done]. }
    split; [by exists d|]. intros n Hn. rewrite M4. unfold w2. by rewrite (put_local_tiers w owner s s3 Hs), bool_decide_eq_false_2.
Qed.

(** ** Pushes that reach nobody *)

(** No attempt of a control RPC to [owner] gets to its handler. *)
Definition unreached (w : world) (owner : string) : Prop :=
  ∀ ep n, w_control w owner = Some ep → w_node_at w ep = Some n → reached (w_link w ep) = false.

(** Every storage server a push of [keys] would ask is out of reach; keys the
    directory lists already, or that have no server, ask nobody. *)
Definition push_unreached (w : world) (me : string) (keys : list string) : Prop :=
  ∀ t k owner, w_tiers w !! me = Some t → k ∈ keys → exists_answer dc (w_dir w) k = false →
    data_owner (t_rt t) k = Some owner → unreached w owner.

Lemma unreached_call w owner ep method args :
  unreached w owner → w_control w owner = Some ep → ∃ x, data_call w ep method args = (Raise x, w).
Proof.
  intros Hu Hc. unfold data_call. destruct (w_node_at w ep) as [n|] eqn:En; [|by eexists].
  specialize (Hu ep n Hc En). destruct (w_link w ep) as [[] []]; try done; by eexists.
Qed.

Lemma publish_owners_unreached me e idx_of sizes w results bytes pending :
  Forall (λ g : string * list wpage, unreached w g.1) pending →
  publish_owners me e idx_of sizes w results bytes pending = (Ret (results, bytes), w).
Proof.
  induction 1 as [|[owner pages] pending Hu _ IH]; [done|]. cbn [publish_owners]. unfold publish_owner.
  destruct (w_control w owner) as [ep|] eqn:Ec; [|exact IH].
  destruct (unreached_call w owner ep "data_prepare_writes" (prepare_arg pages) Hu Ec) as [x ->]. exact IH.
Qed.

Lemma group_add_keys {A} (d : list (string * list A)) k x (P : string → Prop) :
  Forall (λ g, P g.1) d → P k → Forall (λ g, P g.1) (group_add d k x).
Proof.
  intros Hd Hk. unfold group_add. generalize (default [] (od_get d k) ++ [x]). intros v.
  induction Hd as [|[k' v'] d Hg Hd IH]; simpl; [by repeat constructor|].
  case_decide; constructor; try done.
Qed.

Lemma pending_owners rt (items : list (string * Z * Z * bool)) (P : string → Prop) :
  (∀ key ptr size owner, (key, ptr, size, false) ∈ items → data_owner rt key = Some owner → P owner) →
  Forall (λ g : string * list wpage, P g.1) (pending_pages rt items).
Proof.
  intros H. unfold pending_pages.
  assert (Forall (λ x : nat * (string * Z * Z * bool), x.2 ∈ items) (imap pair items)) as Hin.
  { apply Forall_forall. intros x (i & y & -> & Hy)%elem_of_lookup_imap. by eapply list_elem_of_lookup_2. }
  revert Hin. generalize (@nil (string * list wpage)) (Forall_nil_2 (λ g : string * list wpage, P g.1)).
  induction (imap pair items) as [|[i [[[key ptr] size] existing]] l IH]; intros d Hd Hin; [done|].
  apply Forall_cons in Hin as [Hx Hin]. cbn [foldl]. apply IH; [|done]. destruct existing; [done|].
  destruct (data_owner rt key) as [owner|] eqn:Eo; [|done]. apply group_add_keys; [done|]. by eapply H.
Qed.

(** Such a push answers what the directory knows and stores nothing. *)
Lemma push_lost w me e keys ptrs sizes t :
  w_tiers w !! me = Some t → t_dc t = dc → push_unreached w me keys →
  _publish_storage w me e keys ptrs sizes =
    if bool_decide (storage_nodes (t_rt t) = []) then (Ret (replicate (length keys) false), w)
    else (Ret (exists_answer dc (w_dir w) <$> keys), meter w me (λ mt, record_write mt 0 (e_seconds e))).
Proof.
  intros Ht Hdc Hu. unfold _publish_storage. rewrite Ht. case_bool_decide; [done|].
  rewrite Hdc, Directory.exists_spec, set_wdir_id. rewrite publish_owners_unreached; [done|].
  apply (pending_owners (t_rt t) _ (unreached w)). intros key ptr size owner Hin Ho.
  apply list_elem_of_lookup_1 in Hin as [i Hi].
  apply lookup_zip_with_Some in Hi as (x & b & [= <- <-] & Hx & Hb).
  apply lookup_zip_with_Some in Hx as (x & n & [= <- <-] & Hx & _).
  apply lookup_zip_with_Some in Hx as (k & p & [= <- <-] & Hk & _).
  rewrite list_lookup_fmap, Hk in Hb. injection Hb as Hb.
  eapply Hu; [done|by eapply list_elem_of_lookup_2|done|done].
Qed.

(** ** A cluster with storage servers *)

(** The steps of the peer-to-peer mode, pushes of one new page to a storage
    server with room over links that hold, and pushes of any batch while the
    storage servers are out of reach.  The hybrid policies are sequences of
    these steps.  A push that reaches its server and breaks later is not a
    step: it can leave a reserved slot without its page
    ([failed_write_stale_page]). *)
Inductive central_step : history * world → history * world → Prop :=
  | NodeStep s s' : p2p_step key_len s s' → central_step s s'
  | PushStep h w me e key src len owner ep r w' :
      push_ready w me e key len owner ep → key_len key = len →
      _publish_storage w me e [key] [src] [len] = (r, w') →
      central_step (h, w) (h ++ sources w me [key] [src] [len], w')
  | LostPushStep h w me e keys ptrs sizes r w' :
      push_unreached w me keys → _publish_storage w me e keys ptrs sizes = (r, w') →
      central_step (h, w) (h, w').

Lemma central_step_quiet s s' : central_step s s' → p2p_quiet dc host key_len s → p2p_quiet dc host key_len s'.
Proof.
  intros Hstep. destruct Hstep as [s s' Hs|h w me e key src len owner ep r w' Hr Hk Hp|h w me e keys ptrs sizes r w' Hu Hp];
    [by apply p2p_quiet_step| |].
  2:{ intros [[Hsz Hw] Hoff]. simpl in Hsz, Hw, Hoff. destruct (w_tiers w !! me) as [t|] eqn:Et.
      - rewrite (push_lost w me e keys ptrs sizes t Et (proj1 (wc_tier _ _ _ _ Hw me t Et)) Hu) in Hp.
        case_bool_decide; injection Hp as _ <-; [done|]. split; [split; [done|by apply meter_wcoh]|].
        intros n c. simpl. rewrite (proj1 (proj2 (meter_fields w me _))). apply Hoff.
      - unfold _publish_storage in Hp. rewrite Et in Hp. by injection Hp as _ <-. }
  intros [[Hsz Hw] Hoff]. simpl in Hsz, Hw, Hoff.
  destruct (push_new h w me e key src len owner ep Hw Hoff Hr) as (w1 & l & Hp1 & Hw1 & Hcl & _).
  rewrite Hp in Hp1. injection Hp1 as _ <-. split; [|intros n c; simpl; rewrite Hcl; apply Hoff].
  split; [|exact Hw1]. apply sized_app; [done|].
  intros k d Hd. apply list_elem_of_singleton in Hd as [= -> ->].
  rewrite zlength_mem_read by (pose proof (pu_len _ _ _ _ _ _ _ Hr); lia). done.
Qed.

Lemma central_quiet w0 s : fresh_p2p dc host w0 → rtc central_step ([], w0) s → p2p_quiet dc host key_len s.
Proof.
  intros Hf Hreach.
  assert (∀ s s', rtc central_step s s' → p2p_quiet dc host key_len s → p2p_quiet dc host key_len s') as H.
  { induction 1 as [|s1 s2 s3 Hs _ IH]; [done|]. intros Hi'. apply IH. by eapply central_step_quiet. }
  exact (H _ _ Hreach (p2p_quiet_init _ _ _ _ Hf)).
Qed.

Lemma central_reachable w0 h w :
  fresh_p2p dc host w0 → rtc central_step ([], w0) (h, w) → wcoh dc host h w ∧ caches_off w.
Proof. intros Hf Hreach. by destruct (central_quiet _ _ Hf Hreach) as [[_ Hw] Hoff]. Qed.

(** C6: a cluster with storage servers has no dirty hits while its pushes go
    through or reach nobody.  The cluster starts empty, with location caches
    off, no disk tier and directory requests that always reach their shard.
    After any mix of peer-to-peer publishes and fetches, pushes of one new page
    to a server with room whose prepare, WRITE and commit all get through, and
    pushes of any batch while the servers are out of reach, a fetch reports a
    hit only for a key whose buffer it filled with bytes stored under that key.
    Pushes that break half-way are excluded, and have to be: see
    [failed_write_stale_page]. *)
Theorem central_no_dirty_hit (w0 w w' : world) (h : history) (me : string) (e : env) (keys : list string)
  (ptrs sizes : list Z) (results : list bool)
  (Hinit : fresh_p2p dc host w0) (Hreach : rtc central_step ([], w0) (h, w))
  (Hme : is_Some (w_clients w !! me)) (Htier : is_Some (w_tiers w !! me)) (Hbuf : ptargets w me ptrs sizes)
  (Hfetch : _fetch_directory w me e keys ptrs sizes = (results, w')) :
  ∀ i, results !! i = Some true →
    ∃ k p n, keys !! i = Some k ∧ ptrs !! i = Some p ∧ sizes !! i = Some n ∧
      (k, mem_read (mem_of w' me) p n) ∈ h.
Proof.
  destruct (central_reachable _ _ _ Hinit Hreach) as [Hw _].
  by destruct (fetch_directory_spec dc host key_len h w me e keys ptrs sizes results w' Hw Hme Htier Hbuf Hfetch) as (_ & _ & H).
Qed.

(** C5: a page pushed to a storage server can be fetched.  The cluster has its
    location caches off and no disk tier, and every directory request reaches
    its shard (the server's [put] is best-effort and its loss would not be
    noticed).  In any state [central_step] reaches, when the server of a new
    key has room and the prepare, WRITE and commit of the page, pushed in a call
    of its own, get through, the push reports success, and every reader that is
    not in a dual-write mode and then fetches the key (with an answer from an
    owner in the directory and a working read) gets exactly the pushed bytes. *)
Theorem storage_write_visible (w0 w : world) (h : history) (me reader key : string) (e e' : env) (src dst len : Z)
  (owner ep : string) (c : client) (t' : tier)
  (Hinit : fresh_p2p dc host w0) (Hreach : rtc central_step ([], w0) (h, w))
  (Hready : push_ready w me e key len owner ep)
  (Hrep : 1 ≤ dc_replicas dc) (Hlive : owner_answers dc (w_dir w) key)
  (Hclient : w_clients w !! reader = Some c) (Hnode : w_tiers w !! reader = Some t') (Hdual : dual_write c = false)
  (Hread : e_read e' 0%nat = AReply) :
  ∃ w1 w2, _publish_storage w me e [key] [src] [len] = (Ret [true], w1) ∧
    _fetch_directory w1 reader e' [key] [dst] [len] = ([true], w2) ∧
    mem_read (mem_of w2 reader) dst len = mem_read (mem_of w me) src len.
Proof.
  destruct (central_reachable _ _ _ Hinit Hreach) as [Hw Hoff].
  destruct (push_new h w me e key src len owner ep Hw Hoff Hready)
    as (w1 & l & Hpub & Hw1 & Hcl & Hreg & Hti & Hres & Hn & Hll & Hbytes & Hans & _).
  destruct (Hti reader ltac:(by eexists)) as [t1 Ht1].
  specialize (Hans Hrep Hlive). rewrite <-Hll, <-Hn in *.
  destruct (fetch_found dc host _ w1 reader e' key l dst c t1 Hw1) as (w2 & Hf & Hd);
    [by rewrite Hcl|done|by apply (Hoff reader)|by left|done|done|by right|].
  exists w1, w2. split; [done|]. split; [done|]. rewrite Hd. exact Hbytes.
Qed.
End central.

(** ** Concrete clusters *)

Module CentralExamples.
Import ExampleHash RingExamples RuntimeExamples.
Import P2PExamples.

(** Two inference nodes, and the storage server [s] with a pool of one
    two-byte page; node [a] has a page at address 16. *)
Definition cfg_central : PeerCacheConfig := mk_config [("mode", VStr "centralized")] [].
Definition cluster_members : list NodeInfo := [node "a" "inference"; node "b" "inference"; node "s" "storage"].
Definition rt_central : NodeRuntime := after (new_runtime 3 ctl 1) [cluster_members].
Definition tier_central (n : string) (pool : option PublishedPool) : tier :=
  mk_tier (mk_ident n (n +:+ ":1") [n +:+ ":1"] 4096) rt_central pool None [] (new_metrics 8).
Definition client_central : client :=
  mk_client cfg_central (new_naming "" true 0 0 1) 0 ∅ ∅ 5 4096 true true None ∅.
Definition at_control (ep : string) : option string :=
  if String.eqb ep "a:9" then Some "a" else if String.eqb ep "b:9" then Some "b"
  else if String.eqb ep "s:9" then Some "s" else None.
Definition rails_central (ep : string) : option string :=
  if String.eqb ep "a:1" then Some "a" else if String.eqb ep "b:1" then Some "b"
  else if String.eqb ep "s:1" then Some "s" else None.
Definition central0 : world :=
  mk_world {[ "a" := tier_central "a" None; "b" := tier_central "b" None; "s" := tier_central "s" (Some one_page) ]}
    {[ "a" := client_central; "b" := client_central ]} (mk_cluster {[ "a:9" := ∅; "b:9" := ∅; "s:9" := ∅ ]} all_up)
    (mk_fabric {[ "a" := mk_proc (mem_write (λ _, 0) 16 [7; 7]) []; "b" := proc0 []; "s" := proc0 [(1024, 2)] ]} rails_central)
    ctl at_control all_up.

(** The data plane refuses every WRITE; RPCs and reads work. *)
Definition env_no_write : env := mk_env 100 1 (λ _, AReply) (λ _, ANoConnect) (λ i, 32 + Z.of_nat i * 2).

(** A failed WRITE becomes a dirty hit.  Node [a] stores [7; 7] under
    [k1] in the centralized mode while the data plane is down: the server has
    reserved a slot for [k1], the RPC copy finds the key in the pool, copies
    nothing, lists the slot in the directory and answers ok.  The call reports
    success, and node [b] reads whatever the slot held.  With a working data
    plane the same calls deliver the page. *)
Theorem ingest_fallback_dirty_hit :
  let put e := set_ central0 "a" e "k1" (Some (OBytes [7; 7])) None None in
  (put env0).1 = Ret true ∧
  get_page (put env0).2 "b" "k1" = (Ret (Some (OTensor 64 (Some 2))), [7; 7]) ∧
  (put env_no_write).1 = Ret true ∧
  get_page (put env_no_write).2 "b" "k1" = (Ret (Some (OTensor 64 (Some 2))), [0; 0]).
Proof. cbv zeta. split; [vm_compute; reflexivity|]. split; [vm_compute; reflexivity|]. split; vm_compute; reflexivity. Qed.

Definition dc_central : DirectoryClient := rt_directory rt_central.

Lemma central_tiers n t :
  w_tiers central0 !! n = Some t →
  (n = "a" ∨ n = "b") ∧ t = tier_central n None ∨ n = "s" ∧ t = tier_central n (Some one_page).
Proof.
  intros Ht. simpl in Ht. apply lookup_insert_Some in Ht as [[<- <-]|[_ Ht]]; [left; by split; [left|]|].
  apply lookup_insert_Some in Ht as [[<- <-]|[_ Ht]]; [left; by split; [right|]|].
  apply lookup_singleton_Some in Ht as [<- <-]. by right.
Qed.

Lemma central0_fresh : fresh_p2p dc_central rails_central central0.
Proof.
  split; [split|].
  - reflexivity.
  - intros n [t Ht]. apply central_tiers in Ht as [[[-> | ->] _]|[-> _]]; by eexists.
  - intros n t Ht. apply central_tiers in Ht as [[Hn ->]|[-> ->]].
    + split; [reflexivity|]. split; [reflexivity|]. split; [|by split].
      destruct Hn as [-> | ->]; (split; [reflexivity|]; by repeat constructor).
    + split; [reflexivity|]. split; [reflexivity|]. split; [split; [reflexivity|by repeat constructor]|].
      split; [reflexivity|]. intros p [= <-]. split; [by apply new_pool_inv|reflexivity].
  - intros ep k. unfold stored. simpl.
    destruct (decide (ep = "a:9")) as [->|Ha]; [reflexivity|]. rewrite lookup_insert_ne by done.
    destruct (decide (ep = "b:9")) as [->|Hb]; [reflexivity|]. rewrite lookup_insert_ne by done.
    destruct (decide (ep = "s:9")) as [->|Hs]; [reflexivity|]. by rewrite lookup_singleton_ne.
  - intros ep Hep. unfold takes. rewrite bool_decide_eq_true_2 by exact Hep. reflexivity.
  - intros n c Hc. simpl in Hc. apply lookup_insert_Some in Hc as [[_ <-]|[_ Hc]]; [done|].
    by apply lookup_singleton_Some in Hc as [_ <-].
Qed.

Lemma central0_ready : push_ready dc_central central0 "a" env0 "k1" 2 "s" "s:9".
Proof.
  split.
  - intros t [= <-]. vm_compute. reflexivity.
  - by eexists.
  - discriminate.
  - reflexivity.
  - reflexivity.
  - reflexivity.
  - reflexivity.
  - reflexivity.
  - intros t p [= <-] [= <-]. split; [vm_compute; discriminate|]. split; [vm_compute; reflexivity|].
    eexists. split; [reflexivity|]. left.
  - discriminate.
  - lia.
  - vm_compute. reflexivity.
  - do 5 eexists. split; [reflexivity|]. split; [reflexivity|]. split; [reflexivity|]. vm_compute. reflexivity.
Qed.

Lemma central0_answers : owner_answers dc_central (w_dir central0) "k1".
Proof.
  assert (∃ n ns ep, _owners dc_central "k1" = n :: ns ∧ live_endpoint dc_central (w_dir central0) n = Some ep)
    as (n & ns & ep & H1 & H2) by (do 3 eexists; split; vm_compute; reflexivity).
  exists n. rewrite H1. split; [left|]. by exists ep.
Qed.

Lemma storage_write_visible_witness :
  ∃ w1 w2, _publish_storage central0 "a" env0 ["k1"] [16] [2] = (Ret [true], w1) ∧
    _fetch_directory w1 "b" env0 ["k1"] [64] [2] = ([true], w2) ∧
    mem_read (mem_of w2 "b") 64 2 = mem_read (mem_of central0 "a") 16 2.
Proof.
  refine (storage_write_visible dc_central rails_central (λ _, 2) central0 central0 [] "a" "b" "k1" env0 env0 16 64 2
    "s" "s:9" client_central (tier_central "b" None) central0_fresh (rtc_refl _ _) central0_ready _ central0_answers _ _ _ _).
  - vm_compute. discriminate.
  - reflexivity.
  - reflexivity.
  - vm_compute. reflexivity.
  - reflexivity.
Defined.

Definition pushed : pyres (list bool) * world := _publish_storage central0 "a" env0 ["k1"] [16] [2].
Definition central_got : list bool * world := _fetch_directory pushed.2 "b" env0 ["k1"] [64] [2].

Lemma central_reach :
  rtc (central_step dc_central (λ _, 2)) ([], central0) (sources central0 "a" ["k1"] [16] [2], pushed.2).
Proof.
  apply rtc_once. apply (PushStep dc_central (λ _, 2) [] central0 "a" env0 "k1" 16 2 "s" "s:9" pushed.1 pushed.2 central0_ready eq_refl).
  unfold pushed. by destruct (_publish_storage central0 "a" env0 _ _ _).
Qed.

Lemma central_targets : ptargets pushed.2 "b" [64] [2].
Proof.
  split.
  - intros [|i] p n; [|done]. intros [= <-] [= <-]. split; [lia|]. intros b c k ks.
    assert (place pushed.2 "b" = None) as -> by (vm_compute; reflexivity). done.
  - intros [|i] [|j] p n p' n' Hij H1 H2 H3 H4; [lia|discriminate H3|discriminate H1|discriminate H1].
Qed.

Lemma central_no_dirty_hit_witness :
  central_got.1 = [true] ∧
  ("k1", mem_read (mem_of central_got.2 "b") 64 2) ∈ sources central0 "a" ["k1"] [16] [2].
Proof.
  assert (central_got.1 = [true]) as Hg by (vm_compute; reflexivity). split; [exact Hg|].
  destruct (central_no_dirty_hit dc_central rails_central (λ _, 2) central0 pushed.2 central_got.2
    (sources central0 "a" ["k1"] [16] [2]) "b" env0 ["k1"] [64] [2] [true]
    central0_fresh central_reach) with (i := 0%nat) as (k & p & n & Hk & Hp & Hn & Hin).
  - vm_compute. eexists. reflexivity.
  - vm_compute. eexists. reflexivity.
  - exact central_targets.
  - rewrite <-Hg. unfold central_got. destruct (_fetch_directory pushed.2 "b" _ _ _ _). reflexivity.
  - reflexivity.
  - injection Hk as <-. injection Hp as <-. injection Hn as <-. exact Hin.
Defined.
End CentralExamples.
