(* ===== verification/FailedPush.v ===== *)
(** A push whose WRITE fails ([_publish_storage] and [_on_data_ingest]).

    The server reserves a slot for the page; the WRITE into it is lost; the
    writer sends the bytes by RPC.  [_on_data_ingest] asks the directory, which
    does not list the key yet, and publishes to the pool, which does: the pool
    answers with the reserved slot and copies nothing.  The slot is listed, the
    write is acknowledged, and readers get what the slot held before. *)
From S2P Require Import Prelude Bytes Hashlib HashRing Types Rpc Directory Runtime Pool DiskStore Transport Config Metrics Keys Tier Coherence StorageServer World SlotStore SlotSafety Store StoreV2 P2P P2PSteps P2PVisible Incoherence Central.

Section failed_push.
Context {RH : RingHash} {SI : SetIter} {HL : Hashlib}.
Context (dc : DirectoryClient) (host : string → option string) (key_len : string → Z).

Abbreviation history := (list (string * list Z)).

(** ** The pieces *)

(** Writing back what is there. *)
Lemma mem_write_read_same m a n x : 0 ≤ n → mem_write m a (mem_read m a n) x = m x.
Proof.
  intros Hn. unfold mem_write. rewrite zlength_mem_read by done. destruct (_ && _) eqn:E; [|done]. bool_cases.
  rewrite lookup_mem_read by lia. simpl. f_equal. lia.
Qed.

(** Deleting entries does not list a key. *)
Lemma exists_delete d keys k :
  exists_answer dc d k = false → exists_answer dc (Directory.dir_delete dc d keys) k = false.
Proof.
  unfold exists_answer. destruct (primary dc k) as [n|]; [|done]. cbn [mbind option_bind].
  pose proof (proj1 (delete_spec dc d keys "" "")) as Hn. rewrite (same_net_live dc d _ n Hn).
  destruct (live_endpoint dc d n) as [ep|]; [|done]. rewrite (proj2 (delete_spec dc d keys ep k)).
  destruct (_ && _); [|done]. intros _. apply bool_decide_eq_false_2. by intros [? ?].
Qed.

(** A WRITE that does not get to the peer changes nothing. *)
Lemma write_one_lost f me op a p0 :
  f_procs f !! me = Some p0 → runs a = false → write_one f me op a = (false, f).
Proof.
  intros Hme Ha. rewrite (write_one_spec f me op a p0 Hme). destruct (target f op) as [[n p]|]; [|done].
  rewrite Ha, bool_decide_eq_false_2; [done|]. by intros ->.
Qed.

(** The reserved slot as a page: whatever bytes it holds. *)
Lemma reserve_keeps h O s key len addr s1 p :
  lcoh dc host h O s → t_pool (l_tier s) = Some p → od_get (p_entries p) key = None → 0 ≤ len →
  exists_answer dc (l_dir s) key = false → pool_reserve s key len = (Ret (Some addr), s1) →
  lcoh dc host (h ++ [(key, mem_read (l_mem s) addr len)]) O s1 ∧ same_node s s1 ∧ l_mem s1 = l_mem s ∧
  Directory.same_net (l_dir s) (l_dir s1) ∧ exists_answer dc (l_dir s1) key = false ∧
  ∃ p', t_pool (l_tier s1) = Some p' ∧ pool_place p' = pool_place p ∧ pool_page p' key addr len.
Proof.
  intros Hc Hp Hno Hl Hex Hres. set (old := mem_read (l_mem s) addr len).
  assert (zlength old = len) as Hz by by apply zlength_mem_read.
  destruct (reserve_write_keeps dc host h O s key len addr s1 old p Hc Hp Hno Hz Hres)
    as (Hc2 & Hn2 & Hm1 & Hid & Hd1 & Hnet & p' & Hp' & Hpl & Hpg & _).
  assert (∀ x, mem_write (l_mem s1) addr old x = l_mem s1 x) as Hsame.
  { intros x. rewrite Hm1. unfold old. by apply mem_write_read_same. }
  split; [|split; [|split; [done|split; [done|split; [|by exists p']]]]].
  - replace s1 with (set_mem (set_mem s1 (mem_write (l_mem s1) addr old)) (l_mem s1)) by by destruct s1.
    apply lcoh_mem; [done|]. intros q x _ _. simpl. by rewrite Hsame.
  - destruct Hn2 as [N1 N2 N3 N4]. split; try done. intros x _. by rewrite Hm1.
  - unfold pool_reserve in Hres. rewrite Hp in Hres. destruct (Pool.reserve p key len) as [[r q] ev].
    injection Hres as _ <-. destruct ev; [done|]. unfold _on_pool_evict. simpl. rewrite (lc_disk _ _ _ _ _ Hc). simpl.
    change (t_dc _) with (t_dc (l_tier s)). rewrite (lc_dc _ _ _ _ _ Hc). by apply exists_delete.
Qed.

Definition ingest_arg (key : string) (data : list Z) : pyval :=
  VDict [("pages", VList [VDict [("key", VStr key); ("data", VBytes data)]])].

(** Publishing a page the pool holds is a look at it. *)
Lemma publish_resident s key src len p b :
  t_pool (l_tier s) = Some p → od_get (p_entries p) key = Some b →
  pool_publish s key src len = (Ret (Some (p_base p + b.1)), (pool_address s key).2) ∧
  pool_address s key = (Some (p_base p + b.1, b.2), (pool_address s key).2).
Proof.
  intros Hp Hb. unfold pool_publish, pool_address. rewrite Hp, publish_reserve. unfold Pool.reserve, Pool.address_of.
  rewrite Hb. destruct b as [off n]. simpl. done.
Qed.

(** The ingest of a page whose slot is reserved: acknowledged and listed,
    with the bytes of the slot as they were. *)
Lemma ingest_reserved h O s key data addr p :
  lcoh dc host h O s → t_pool (l_tier s) = Some p → pool_page p key addr (zlength data) → key ≠ ""%string →
  exists_answer dc (l_dir s) key = false →
  ranges_disjoint (p_base p) (p_capacity p) (i_scratch (t_ident (l_tier s))) (zlength data) →
  ∃ s1, _on_data_ingest s (ingest_arg key data) 0 = (Ret (VDict [("ok", VList [VBool true])]), s1) ∧
    lcoh dc host h O s1 ∧ t_ident (l_tier s1) = t_ident (l_tier s) ∧
    pool_place <$> t_pool (l_tier s1) = pool_place <$> t_pool (l_tier s) ∧
    (∀ x, p_base p ≤ x < p_base p + p_capacity p → l_mem s1 x = l_mem s x) ∧
    ∃ l, l_dir s1 = Directory.put dc (l_dir s) [(key, l)] ∧ l_resident l = true ∧
      l_node_id l = i_id (t_ident (l_tier s)) ∧ l_remote_addr l = addr ∧ l_length l = zlength data.
Proof.
  intros Hc Hp (b & Hb & Ha & Hn) Hk Hex Hdis. apply String.eqb_neq in Hk.
  pose proof (lc_dc _ _ _ _ _ Hc) as Hdc.
  unfold _on_data_ingest, request_pages, list_arg, ingest_arg. simpl. unfold py_or. simpl.
  unfold page_key. simpl. rewrite Hk. simpl. unfold exist_map. rewrite Hdc, Directory.exists_spec. simpl. rewrite Hex.
  assert (set_dir s (l_dir s) = s) as -> by by destruct s.
  unfold page_key. simpl. rewrite Hk. simpl. rewrite decide_True by done. simpl.
  set (sx := set_mem s (mem_write (l_mem s) (i_scratch (t_ident (l_tier s))) data)).
  assert (∀ x, p_base p ≤ x < p_base p + p_capacity p → l_mem sx x = l_mem s x) as Hmx.
  { intros x Hx. simpl. apply mem_write_out. unfold ranges_disjoint in Hdis. lia. }
  assert (lcoh dc host h O sx) as Hcx.
  { apply lcoh_mem; [done|]. intros q x Hq Hx. rewrite Hp in Hq. injection Hq as <-. by apply Hmx. }
  destruct (publish_resident sx key (i_scratch (t_ident (l_tier s))) (zlength data) p b Hp Hb) as [-> Hadr].
  set (s1 := (pool_address sx key).2) in *.
  destruct (pool_address_keeps dc host h O sx key _ s1 Hcx Hadr) as (Hc1 & Hn1 & Hm1 & Hd1 & _ & Hp1).
  destruct (Hp1 p Hp) as (p1 & Hp1' & Hbase1 & Hent1).
  assert (∀ d, disk_put s1 key d = s1) as Hdisk by (intros d; unfold disk_put; by rewrite (lc_disk _ _ _ _ _ Hc1)).
  rewrite Hdisk. set (s2 := set_key_len s1 _).
  destruct (lcoh_key_len dc host h O s1 (od_set (t_key_len (l_tier s1)) key (zlength data)) Hc1) as [Hc2 Hn2]. fold s2 in Hc2, Hn2.
  change (t_pool (l_tier s2)) with (t_pool (l_tier s1)). rewrite Hp1'.
  assert (od_get (p_entries p1) key = Some b) as Hb1 by by rewrite Hent1.
  cbn [od_set]. rewrite (reconcile_single s2 key _ p1 b Hp1' Hb1).
  destruct (publish_resident s2 key 0 0 p1 b Hp1' Hb1) as [_ Hadr2].
  assert ((pool_address s2 key).2 = set_pool s2 (with_entries p1 (od_move_to_end (p_entries p1) key))) as Hs3.
  { unfold pool_address, Pool.address_of. change (t_pool (l_tier s2)) with (t_pool (l_tier s1)).
    rewrite Hp1', Hb1. by destruct b. }
  rewrite <-Hs3. set (s3 := (pool_address s2 key).2) in *.
  destruct (pool_address_keeps dc host h O s2 key _ s3 Hc2 Hadr2) as (Hc3 & Hn3 & Hm3 & Hd3 & _ & Hp3).
  destruct (Hp3 p1 Hp1') as (p3 & Hp3' & Hbase3 & Hent3).
  assert (same_node sx s3) as Hnx by (by do 2 (eapply same_node_trans; [eassumption|])).
  set (l := set_remote_addr _ _). cbn [snd].
  destruct (directory_put_keeps dc host h O s3 [(key, l)] Hc3) as [Hc4 Hn4].
  - apply NoDup_singleton.
  - intros k' l'. simpl. case_decide as Hk'; [|done]. intros [= <-] _. subst k'. simpl.
    destruct (lc_ident _ _ _ _ _ Hc) as [Hi1 Hi2]. rewrite (sm_ident _ _ Hnx). simpl.
    split; [split; [done|]; unfold endpoints; simpl; destruct (i_rails (t_ident (l_tier s))); [by repeat constructor|done]|].
    rewrite decide_True by done. exists p3. split; [done|]. exists b. rewrite Hent3, Hbase3. done.
  - set (s4 := directory_put s3 [(key, l)]) in *.
    destruct (lcoh_metrics dc host h O s4 (record_write (t_metrics (l_tier s4)) (0 + zlength data) 0) Hc4) as [Hc5 Hn5].
    eexists. split; [reflexivity|]. split; [exact Hc5|].
    split; [simpl; by rewrite (sm_ident _ _ Hnx)|]. split; [exact (sm_place _ _ Hnx)|]. split.
    { intros x Hx. simpl. rewrite Hm3. change (l_mem s2) with (l_mem s1). rewrite Hm1. by apply Hmx. }
    exists l. split; [|split; [done|split; [done|split; [simpl; by rewrite Hbase1|done]]]].
    change (Directory.put (t_dc (l_tier s3)) (l_dir s3) [(key, l)] = Directory.put dc (l_dir s) [(key, l)]).
    rewrite (lc_dc _ _ _ _ _ Hc3), Hd3. change (l_dir s2) with (l_dir s1). by rewrite Hd1.
Qed.
(** ** The push *)

(** The server's buffer for the bytes of an RPC lies outside its pool. *)
Definition scratch_apart (w : world) (owner : string) (len : Z) : Prop :=
  ∀ t p, w_tiers w !! owner = Some t → t_pool t = Some p →
    ranges_disjoint (p_base p) (p_capacity p) (i_scratch (t_ident t)) len.

(** The calls of the push, given what the handlers answer. *)
Lemma publish_owner_run h w me e0 e key src len owner ep s s1 s3 i p addr :
  wcoh dc host h w → push_ready dc w me e0 key len owner ep → runs (e_write e 0%nat) = false →
  local_of w owner = Some s →
  _on_data_prepare_writes s (one_page_arg key len) = (Ret (VDict [("slots", VList [_slot_dict i p key addr len])]), s1) →
  _on_data_ingest s1 (ingest_arg key (mem_read (mem_of w me) src len)) 0 = (Ret (VDict [("ok", VList [VBool true])]), s3) →
  publish_owner me e [(key, 0%nat)] [len] w [false] 0 owner [mk_wpage key len src 0] =
    (Ret ([true], len), put_local w owner s3).
Proof.
  intros Hw Hr Hlost Hs Hprep Hing.
  set (w1 := put_local w owner s1). pose proof (pu_other _ _ _ _ _ _ _ _ Hr) as Hother.
  destruct (wc_proc _ _ _ _ Hw me (pu_me _ _ _ _ _ _ _ _ Hr)) as [p0 Hp0].
  assert (f_procs (w_fab w1) !! me = Some p0) as Hp1.
  { pose proof Hs as (ts & pn & _ & Hpn & _)%local_of_Some. unfold w1, put_local. simpl. rewrite Hpn. simpl. by rewrite lookup_insert_ne. }
  unfold publish_owner. rewrite (pu_control _ _ _ _ _ _ _ _ Hr).
  change (prepare_arg [mk_wpage key len src 0]) with (one_page_arg key len).
  rewrite (storage_call w ep owner "data_prepare_writes" _on_data_prepare_writes _ s s1 _
    (pu_at _ _ _ _ _ _ _ _ Hr) (pu_link _ _ _ _ _ _ _ _ Hr) (pu_server _ _ _ _ _ _ _ _ Hr) eq_refl Hs Hprep).
  fold w1. cbn [mbind pyres_bind py_get default od_get]. rewrite decide_True by done.
  unfold py_or. cbn [py_truthy default py_list accepted]. unfold id, mbind, pyres_bind. cbn [py_truthy py_list].
  rewrite read_slot_dict.
  cbn [fmap list_fmap]. unfold target_rails. cbn [foldl snd fst]. rewrite lookup_empty. cbn [ts_node ts_rails ts_rkeys ts_addr ts_len wp_ptr].
  unfold batch_write_multi, stripe, batch_write. cbn [imap batch_write_from].
  rewrite (write_one_lost _ _ _ _ p0 Hp1 Hlost).
  assert (set_fab w1 (w_fab w1) = w1) as -> by by destruct w1.
  cbn [zip zip_with filter list_filter fst snd]. rewrite decide_False by done. cbn [fmap list_fmap commit_call].
  unfold committed_idx. cbn [zip zip_with foldl wp_key od_set omap list_omap andb].
  cbn [foldl fmap list_fmap sumZ foldr filter list_filter wp_idx lookup list_lookup].
  rewrite decide_True by done. cbn [ingest_call fmap list_fmap wp_key wp_ptr wp_len].
  assert (mem_of w1 me = mem_of w me) as ->.
  { unfold w1. by rewrite (put_local_mem w owner s s1 me Hs), bool_decide_eq_false_2. }
  fold (ingest_arg key (mem_read (mem_of w me) src len)).
  rewrite (storage_call w1 ep owner "data_ingest" (λ s args, _on_data_ingest s args 0) _ s1 s3 _
    (pu_at _ _ _ _ _ _ _ _ Hr) (pu_link _ _ _ _ _ _ _ _ Hr) (pu_server _ _ _ _ _ _ _ _ Hr) eq_refl
    (local_of_put _ _ _ _ Hs) Hing).
  unfold mbind, pyres_bind. change (ok_flags (VDict [("ok", VList [VBool true])])) with (Ret [true]). cbv beta iota.
  change ((filter (λ q : wpage * bool, q.2 = true) (zip [mk_wpage key len src 0] [true])).*1) with [mk_wpage key len src 0].
  unfold w1. rewrite (put_local_twice w owner s s1 s3 Hs). cbn [foldl fmap list_fmap sumZ foldr wp_len wp_idx].
  change (<[0%nat := true]> [false]) with [true]. do 3 f_equal. lia.
Qed.

(** The push up to its last measurement. *)
Lemma publish_owner_failed h w me e0 e key src len owner ep ts p addr p' ev :
  wcoh dc host h w → push_ready dc w me e0 key len owner ep → runs (e_write e 0%nat) = false →
  scratch_apart w owner len →
  w_tiers w !! owner = Some ts → t_pool ts = Some p → Pool.reserve p key len = (Some addr, p', ev) →
  ∃ s s3, local_of w owner = Some s ∧
    publish_owner me e [(key, 0%nat)] [len] w [false] 0 owner [mk_wpage key len src 0] =
      (Ret ([true], len), put_local w owner s3) ∧
    lcoh dc host (h ++ [(key, mem_read (mem_of w owner) addr len)]) (page_at w) s3 ∧
    t_ident (l_tier s3) = t_ident (l_tier s) ∧
    pool_place <$> t_pool (l_tier s3) = pool_place <$> t_pool (l_tier s) ∧
    mem_read (l_mem s3) addr len = mem_read (mem_of w owner) addr len ∧
    ∃ l d, l_dir s3 = Directory.put dc d [(key, l)] ∧ Directory.same_net (w_dir w) d ∧ l_resident l = true ∧
      l_node_id l = owner ∧ l_length l = len ∧ l_remote_addr l = addr.
Proof.
  intros Hw Hr Hlost Hscr Hts Hp Hres. pose proof (pu_len _ _ _ _ _ _ _ _ Hr) as Hlen.
  destruct (wc_proc _ _ _ _ Hw owner ltac:(by eexists)) as [pn Hpn].
  assert (local_of w owner = Some (mk_local ts (w_dir w) (pr_mem pn))) as Hs
    by (unfold local_of; rewrite Hts; simpl; by rewrite Hpn).
  set (s := mk_local ts (w_dir w) (pr_mem pn)) in *.
  assert (pr_mem pn = mem_of w owner) as Hmo by (unfold mem_of; by rewrite Hpn).
  pose proof (wcoh_local _ _ _ _ _ _ Hw Hs) as Hc.
  assert (∃ s1, pool_reserve s key len = (Ret (Some addr), s1)) as [s1 Hs1].
  { eexists. unfold pool_reserve. change (t_pool (l_tier s)) with (t_pool ts). rewrite Hp, Hres. reflexivity. }
  assert (od_get (p_entries p) key = None) as Hno.
  { destruct (pu_room _ _ _ _ _ _ _ _ Hr) as (t0 & p0 & a0 & q0 & ev0 & Ht0 & Hp0 & Hno & _). congruence. }
  destruct (reserve_keeps h (page_at w) s key len addr s1 p Hc Hp Hno ltac:(lia) (pu_absent _ _ _ _ _ _ _ _ Hr) Hs1)
    as (Hc1 & Hn1 & Hm1 & Hnet & Hex1 & q & Hq & Hpl & Hpg).
  set (data := mem_read (mem_of w me) src len).
  assert (zlength data = len) as Hz by (apply zlength_mem_read; lia).
  assert (p_base q = p_base p ∧ p_capacity q = p_capacity p) as [Hbase Hcap] by by injection Hpl.
  pose proof (sm_ident _ _ Hn1) as Hi1. change (l_tier s) with ts in Hi1.
  destruct (ingest_reserved _ (page_at w) s1 key data addr q Hc1 Hq) as (s3 & Hing & Hc3 & Hid3 & Hpl3 & Hm3 & l & Hdir & Hl1 & Hl2 & Hl3 & Hl4).
  { by rewrite Hz. }
  { apply (pu_key _ _ _ _ _ _ _ _ Hr). }
  { done. }
  { rewrite Hbase, Hcap, Hi1, Hz. by apply Hscr. }
  assert (i_id (t_ident ts) = owner) as Hid by by apply (wc_tier _ _ _ _ Hw owner ts Hts).
  exists s, s3. split; [done|]. split.
  2:{ split; [by rewrite <-Hmo|]. split; [by rewrite Hid3, Hi1|]. split; [rewrite Hpl3; apply Hn1|]. split.
      - rewrite <-Hmo. change (pr_mem pn) with (l_mem s). rewrite <-Hm1. destruct (lc_pool _ _ _ _ _ Hc1 q Hq) as [Hinv _].
        destruct Hpg as (b & Hb & Ha & Hbl). pose proof (pool_inv_bounds _ _ _ Hinv Hb).
        apply mem_read_ext. intros x Hx. apply Hm3. lia.
      - exists l, (l_dir s1). split; [done|]. split; [done|]. split; [done|]. split; [by rewrite Hl2, Hi1|].
        split; [by rewrite Hl4|done]. }
  eapply publish_owner_run; try done. { by apply (prepare_new dc); try apply Hc; try apply Hr. }
Qed.
(** The pool stays registered. *)
Lemma registered_put w n s s' :
  local_of w n = Some s → pool_place <$> t_pool (l_tier s') = pool_place <$> t_pool (l_tier s) →
  pool_registered w n → pool_registered (put_local w n s') n.
Proof.
  intros Hs Hpl Hreg t p. rewrite (put_local_tiers w n s s' Hs), bool_decide_eq_true_2 by done. intros [= <-] Hp.
  pose proof Hs as (t0 & pr & Ht0 & Hpr & Hs0 & _)%local_of_Some. rewrite Hp, Hs0 in Hpl. simpl in Hpl.
  destruct (t_pool t0) as [p0|] eqn:Hp0; [|done]. injection Hpl as Hb Hc _ _. rewrite Hb, Hc.
  destruct (Hreg t0 p0 Ht0 Hp0) as (H1 & H2 & pr' & Hpr' & H3). split; [done|]. split; [done|].
  unfold put_local. simpl. rewrite Hpr. simpl. eexists. rewrite lookup_insert_eq. split; [done|]. simpl. congruence.
Qed.

Lemma registered_meter w me f n : pool_registered w n → pool_registered (meter w me f) n.
Proof.
  destruct (meter_fields w me f) as (_ & _ & M3 & M4). intros Hreg t p Ht Hp. rewrite M3.
  specialize (M4 n). rewrite Ht in M4. destruct (w_tiers w !! n) as [t0|] eqn:Ht0; [|done]. injection M4 as M4.
  apply (Hreg t0); [done|]. by rewrite <-M4.
Qed.

(** C10: a push whose WRITE is lost ends in a dirty hit.  In any state of a
    cluster with storage servers that [central_step] reaches (location caches
    off, no disk tier, every directory request taken): take a push that would
    succeed (its server answers and has room, the key is new), but whose
    one-sided WRITE does not get to the server, and let the buffer in which the
    server receives the RPC copy lie outside its pool.  The push still reports
    success, and a node that is not in a dual-write mode and then fetches the
    key (an owner answers, its read works) reports a hit and gets the bytes the
    server's memory held at the reserved slot before the push, whatever page
    was pushed. *)
Theorem failed_write_stale_page (w0 w : world) (h : history) (me reader key : string) (e0 e e' : env) (src dst len : Z)
  (owner ep : string) (c : client) (t' ts : tier) (p p' : PublishedPool) (addr : Z) (ev : list string)
  (Hinit : fresh_p2p dc host w0) (Hreach : rtc (central_step dc key_len) ([], w0) (h, w))
  (Hready : push_ready dc w me e0 key len owner ep) (Hlost : runs (e_write e 0%nat) = false)
  (Hscratch : scratch_apart w owner len)
  (Hserver : w_tiers w !! owner = Some ts) (Hpool : t_pool ts = Some p)
  (Hslot : Pool.reserve p key len = (Some addr, p', ev))
  (Hrep : 1 ≤ dc_replicas dc) (Hlive : owner_answers dc (w_dir w) key)
  (Hclient : w_clients w !! reader = Some c) (Hnode : w_tiers w !! reader = Some t') (Hdual : dual_write c = false)
  (Hread : e_read e' 0%nat = AReply) :
  ∃ w1 w2, _publish_storage w me e [key] [src] [len] = (Ret [true], w1) ∧
    _fetch_directory w1 reader e' [key] [dst] [len] = ([true], w2) ∧
    mem_read (mem_of w2 reader) dst len = mem_read (mem_of w owner) addr len.
Proof.
  destruct (central_reachable _ _ _ _ _ _ Hinit Hreach) as [Hw Hoff].
  destruct (pu_me _ _ _ _ _ _ _ _ Hready) as [t Ht].
  destruct (publish_owner_failed h w me e0 e key src len owner ep ts p addr p' ev Hw Hready Hlost Hscratch Hserver Hpool Hslot)
    as (s & s3 & Hs & Hpo & Hc3 & Hid & Hpl & Hbytes & l & d & Hdir & Hnet & Hres & Hn & Hll & Ha).
  rewrite (publish_storage_single dc w me e key src len t owner Ht (proj1 (wc_tier _ _ _ _ Hw me t Ht))
    (pu_owner _ _ _ _ _ _ _ _ Hready t Ht) (pu_absent _ _ _ _ _ _ _ _ Hready)), Hpo.
  set (w2 := put_local w owner s3). set (f := λ mt, record_write mt len (e_seconds e)).
  assert (wcoh dc host (h ++ [(key, mem_read (mem_of w owner) addr len)]) w2) as Hw2.
  { eapply put_local_ident_wcoh; [exact Hw|exact Hs| |exact Hc3|exact Hid|by left]. intros x ?. apply elem_of_app. by left. }
  destruct (meter_wcoh dc host _ w2 me f Hw2) as (Hw3 & Hst & Hmem). destruct (meter_fields w2 me f) as (M1 & M2 & _ & _).
  assert (is_Some (w_tiers (meter w2 me f) !! reader)) as [t2 Ht2].
  { apply (st_tier _ _ Hst). unfold w2. rewrite (put_local_tiers w owner s s3 Hs). case_bool_decide; by eexists. }
  rewrite <-Hll, <-Hn in *.
  destruct (fetch_found dc host _ (meter w2 me f) reader e' key l dst c t2 Hw3) as (w4 & Hf & Hd);
    [by rewrite M2|done|by apply (Hoff reader)|by left| |done| |].
  { rewrite M1. unfold w2. simpl. rewrite Hdir. eapply put_found; [done|apply (wc_taken _ _ _ _ Hw)|done|done]. }
  { right. split; [|done]. apply registered_meter. unfold w2. rewrite <-Hn. apply (registered_put w (l_node_id l) s s3 Hs Hpl), Hready. }
  exists (meter w2 me f), w4. split; [done|]. split; [done|]. rewrite Hd, Hmem. unfold w2. rewrite <-Hn.
  by rewrite (put_local_mem w (l_node_id l) s s3 _ Hs), bool_decide_eq_true_2, Ha by done.
Qed.
End failed_push.

(** ** A concrete cluster *)

Module FailedPushExamples.
Import ExampleHash RingExamples RuntimeExamples.
Import P2PExamples CentralExamples.

(** The cluster of [central0]: node [a] pushes [7; 7] while the data plane is
    down, and node [b] reads the zeros of the server's slot. *)
Lemma failed_write_stale_page_witness :
  mem_read (mem_of central0 "a") 16 2 = [7; 7] ∧
  ∃ w1 w2, _publish_storage central0 "a" env_no_write ["k1"] [16] [2] = (Ret [true], w1) ∧
    _fetch_directory w1 "b" env0 ["k1"] [64] [2] = ([true], w2) ∧ mem_read (mem_of w2 "b") 64 2 = [0; 0].
Proof.
  split; [vm_compute; reflexivity|].
  assert (∃ addr p' ev, Pool.reserve one_page "k1" 2 = (Some addr, p', ev) ∧ mem_read (mem_of central0 "s") addr 2 = [0; 0])
    as (addr & p' & ev & Hres & <-) by (do 3 eexists; split; [vm_compute; reflexivity|vm_compute; reflexivity]).
  refine (failed_write_stale_page dc_central rails_central (λ _, 2) central0 central0 [] "a" "b" "k1" env0 env_no_write env0
    16 64 2 "s" "s:9" client_central (tier_central "b" None) (tier_central "s" (Some one_page)) one_page p' addr ev
    central0_fresh (rtc_refl _ _) central0_ready eq_refl _ eq_refl eq_refl Hres _ central0_answers eq_refl eq_refl _ eq_refl).
  - intros t p [= <-] [= <-]. change (ranges_disjoint 1024 2 4096 2). unfold ranges_disjoint. lia.
  - vm_compute. discriminate.
  - vm_compute. reflexivity.
Defined.
End FailedPushExamples.
