(* ===== verification/Hybrid.v ===== *)
(** The hybrid mode with two copies ([write_policy: both], [_publish]).

    The write goes to the key's storage server first and to the node's own
    pool second; the second publish leaves the directory alone.  The first one
    lists the key, so the second finds it and copies nothing: the policy is
    the storage policy with one more lookup ([hybrid_both_single_copy]).  When
    the push fails the second publish does copy the page, into a pool no
    directory entry points at, and the write is reported as done
    ([hybrid_both_lost_write]). *)
From S2P Require Import Prelude Bytes Hashlib HashRing Types Rpc Directory Runtime Pool DiskStore Transport Config Metrics Keys Tier Coherence StorageServer World SlotStore SlotSafety Store StoreV2 P2P P2PSteps P2PVisible Incoherence Central.

Section hybrid.
Context {RH : RingHash} {SI : SetIter} {HL : Hashlib}.
Context (dc : DirectoryClient) (host : string → option string) (key_len : string → Z).

Abbreviation history := (list (string * list Z)).

(** The primary owner of a key answers lookups: the only one an existence
    probe asks. *)
Definition primary_answers (d : cluster shard) (k : string) : Prop :=
  is_Some (primary dc k ≫= live_endpoint dc d).

Lemma primary_owner_answers d k : primary_answers d k → owner_answers dc d k.
Proof.
  unfold primary_answers, primary. intros [ep H]. destruct (_owners dc k) as [|o os] eqn:Eo; [done|].
  exists o. rewrite Eo. split; [left|by exists ep].
Qed.

(** A key that was just put exists. *)
Lemma put_exists d0 d key l :
  all_taken d0 → Directory.same_net d0 d → primary_answers d0 key →
  exists_answer dc (Directory.put dc d [(key, l)]) key = true.
Proof.
  intros Ht Hn [ep Hp]. unfold primary in Hp. destruct (_owners dc key) as [|o os] eqn:Eo; [done|]. cbn [head mbind option_bind] in Hp.
  assert (NoDup (od_keys [(key, l)])) as Hnd by apply NoDup_singleton.
  destruct (put_spec dc d [(key, l)] ep key Hnd) as [Hn1 Hst].
  pose proof (Directory.same_net_trans _ _ _ Hn Hn1) as Hn01.
  unfold exists_answer, primary. rewrite Eo. cbn [head mbind option_bind]. rewrite (same_net_live dc d0 _ o Hn01), Hp.
  apply bool_decide_eq_true_2. rewrite Hst. cbn [od_get]. rewrite decide_True by done.
  apply live_endpoint_Some in Hp as (Hres & Hsh & _).
  rewrite (same_net_takes _ _ _ Hn), (Ht ep Hsh). unfold owned_at. rewrite bool_decide_eq_true_2; [by eexists|].
  rewrite Eo. by left.
Qed.

(** Publishing pages the directory lists counts a write of no bytes and does
    nothing else. *)
Lemma publish_listed s keys ptrs sizes upd seconds :
  length ptrs = length keys → length sizes = length keys →
  Forall (λ k, exists_answer (t_dc (l_tier s)) (l_dir s) k = true) keys →
  _publish_p2p s keys ptrs sizes upd seconds =
    (Ret (replicate (length keys) true), set_metrics s (record_write (t_metrics (l_tier s)) 0 seconds)).
Proof.
  intros Hp Hs Hex. unfold _publish_p2p. rewrite Directory.exists_spec.
  assert (set_dir s (l_dir s) = s) as -> by by destruct s.
  replace (exists_answer _ _ <$> keys) with (replicate (length keys) true).
  2:{ clear Hp Hs. induction Hex as [|k keys Hk _ IH]; [done|]. simpl. by rewrite Hk, IH. }
  assert (∀ acc, publish_pages s (zip (zip (zip keys ptrs) sizes) (replicate (length keys) true)) [] acc 0 =
    (Ret ([], acc ++ replicate (length keys) true, 0), s)) as ->; [|done].
  clear Hex. revert ptrs sizes Hp Hs. induction keys as [|k keys IH]; intros [|p ptrs] [|n sizes] Hp Hs acc;
    try discriminate; simpl; [by rewrite app_nil_r|].
  rewrite IH by (simpl in *; lia). by rewrite <-app_assoc.
Qed.

(** The configuration of the policy. *)
Definition two_copies (w : world) (me : string) : Prop :=
  ∃ c, w_clients w !! me = Some c ∧
    field (c_cfg c) "mode" = VStr "hybrid" ∧ field (c_cfg c) "write_policy" = VStr "both".

Lemma publish_both w me e keys ptrs sizes t :
  two_copies w me → w_tiers w !! me = Some t → storage_nodes (t_rt t) ≠ [] →
  _publish w me e keys ptrs sizes =
    match _publish_storage w me e keys ptrs sizes with
    | (Raise x, w) => (Raise x, w)
    | (Ret storage_res, w) =>
        match publish_local_pool w me e keys ptrs sizes false with
        | (Raise x, w) => (Raise x, w)
        | (Ret local_res, w) => (Ret (zip_with orb storage_res local_res), w)
        end
    end.
Proof.
  intros (c & Hc & Hm & Hp) Ht Hst. unfold _publish. rewrite Hc, Ht, Hm, Hp. unfold one_of.
  rewrite !bool_decide_eq_false_2 by (done || set_solver). done.
Qed.

(** The second publish of a page the push has listed. *)
Lemma second_publish h w me e key src len :
  wcoh dc host h w → is_Some (w_tiers w !! me) → exists_answer dc (w_dir w) key = true →
  publish_local_pool w me e [key] [src] [len] false = (Ret [true], meter w me (λ mt, record_write mt 0 (e_seconds e))).
Proof.
  intros Hw Ht Hex. unfold publish_local_pool, meter, run_local.
  destruct (wc_proc _ _ _ _ Hw me Ht) as [pr Hpr]. destruct Ht as [t Ht].
  assert (local_of w me = Some (mk_local t (w_dir w) (pr_mem pr))) as Hs by (unfold local_of; by rewrite Ht; simpl; rewrite Hpr).
  rewrite Hs, publish_listed; [done|done|done|]. apply Forall_singleton. simpl.
  by rewrite (proj1 (wc_tier _ _ _ _ Hw me t Ht)).
Qed.

(** ** When the push is lost *)

(** No directory shard has an entry for the key. *)
Definition unlisted (d : cluster shard) (k : string) : Prop := ∀ ep, stored d ep k = None.

Lemma unlisted_answers d k : unlisted d k → exists_answer dc d k = false ∧ dir_answer dc d [k] k = None.
Proof.
  intros Hu. split.
  - unfold exists_answer. destruct (primary dc k ≫= live_endpoint dc d) as [ep|]; [|done].
    apply bool_decide_eq_false_2. rewrite Hu. by intros [? ?].
  - unfold dir_answer, stored_loc. destruct (first_live _ _ _) as [ep|]; [|done]. simpl. by rewrite Hu.
Qed.

Lemma unlisted_delete d keys k : unlisted d k → unlisted (Directory.dir_delete dc d keys) k.
Proof. intros Hu ep. rewrite (proj2 (delete_spec dc d keys ep k)). by destruct (_ && _). Qed.

(** The local publish that leaves the directory alone. *)
Lemma publish_unlisted_local h O s key src len seconds p addr p' ev :
  lcoh dc host h O s → 0 ≤ len → unlisted (l_dir s) key →
  t_pool (l_tier s) = Some p → od_get (p_entries p) key = None → Pool.reserve p key len = (Some addr, p', ev) →
  ∃ s1 p1 b, _publish_p2p s [key] [src] [len] false seconds = (Ret [true], s1) ∧ unlisted (l_dir s1) key ∧
    t_pool (l_tier s1) = Some p1 ∧ od_get (p_entries p1) key = Some b ∧
    page_bytes p1 (l_mem s1) b = mem_read (l_mem s) src len.
Proof.
  intros Hc Hl Hu Hp Hno Hres. pose proof (lc_dc _ _ _ _ _ Hc) as Hdc. pose proof (lc_disk _ _ _ _ _ Hc) as Hdisk.
  unfold _publish_p2p. rewrite Hdc, Directory.exists_spec. cbn [fmap list_fmap].
  rewrite (proj1 (unlisted_answers _ _ Hu)). assert (set_dir s (l_dir s) = s) as -> by by destruct s.
  cbn [zip zip_with publish_pages].
  destruct (pool_publish s key src len) as [r s1] eqn:Ep.
  assert (r = Ret (Some addr)) as ->.
  { unfold pool_publish in Ep. rewrite Hp, publish_reserve, Hres, Hno in Ep. by injection Ep as <- _. }
  assert (unlisted (l_dir s1) key) as Hu1.
  { unfold pool_publish in Ep. rewrite Hp, publish_reserve, Hres, Hno in Ep. injection Ep as <-.
    destruct ev; [done|]. unfold _on_pool_evict. simpl. rewrite Hdisk. simpl.
    change (t_dc _) with (t_dc (l_tier s)). rewrite Hdc. by apply unlisted_delete. }
  destruct (pool_publish_new dc host h O s key src len addr s1 p Hc Hl Hp Hno Ep)
    as (Hd1 & _ & _ & _ & p1 & b & Hp1 & Hb & _ & _ & Hbytes & Hinv).
  unfold disk_put. rewrite Hd1. cbv zeta. set (s2 := set_key_len s1 _).
  change (t_pool (l_tier s2)) with (t_pool (l_tier s1)). rewrite Hp1. cbn [app od_set].
  rewrite (reconcile_single s2 key _ p1 b Hp1 Hb).
  eexists _, (with_entries p1 (od_move_to_end (p_entries p1) key)), b. split; [reflexivity|]. split; [exact Hu1|].
  split; [done|]. split; [simpl; by rewrite od_get_move_to_end by apply Hinv|exact Hbytes].
Qed.

(** A key nobody lists is missed, also by a node that has it in its pool. *)
Lemma fetch_unlisted h w me e key dst len c t :
  wcoh dc host h w → w_clients w !! me = Some c → w_tiers w !! me = Some t → cache_off c → unlisted (w_dir w) key →
  ∃ w', _fetch_directory w me e [key] [dst] [len] = ([false], w').
Proof.
  intros Hw Hc Ht Hoff Hu. unfold _fetch_directory. rewrite Hc.
  rewrite (take_primed_eq dc host h w me c t (e_now e) [key] Hw Ht Hoff). cbn [fmap list_fmap].
  rewrite (proj2 (unlisted_answers _ _ Hu)).
  unfold _resolve_non_resident, non_resident. cbn [imap omap list_omap filter list_filter fmap list_fmap foldl].
  cbn [zip zip_with plan_all]. unfold plan_one. cbn [plan_rails foldl plan_rail_step omap list_omap remote_op].
  unfold batch_read_multi, stripe, batch_read. cbn [imap batch_read_from]. eexists. reflexivity.
Qed.

(** C21: with two copies a write can be acknowledged and lost.  With
    [write_policy: both], in any state of a hybrid cluster that [central_step]
    reaches (location caches off, no disk tier, directory requests that reach
    their shard): when storage servers are registered but no attempt to reach
    the key's server gets through, and no directory shard lists the key, the
    write of one page that fits the node's own pool reports success and puts
    the page into that pool, but the directory still does not list it, and a
    fetch of the key by any node, the writer included, is a miss. *)
Theorem hybrid_both_lost_write (w0 w : world) (h : history) (me key : string) (e : env) (src len : Z)
  (t : tier) (p p' : PublishedPool) (addr : Z) (ev : list string)
  (Hinit : fresh_p2p dc host w0) (Hreach : rtc (central_step dc key_len) ([], w0) (h, w))
  (Hboth : two_copies w me) (Hme : w_tiers w !! me = Some t) (Hst : storage_nodes (t_rt t) ≠ [])
  (Hdown : push_unreached dc w me [key]) (Hnew : unlisted (w_dir w) key) (Hlen : 0 ≤ len) (Hkey : key_len key = len)
  (Hsrc : pbuffer w me src len)
  (Hpool : t_pool t = Some p) (Hno : od_get (p_entries p) key = None) (Hroom : Pool.reserve p key len = (Some addr, p', ev)) :
  ∃ w1 t1 p1 b, _publish w me e [key] [src] [len] = (Ret [true], w1) ∧
    w_tiers w1 !! me = Some t1 ∧ t_pool t1 = Some p1 ∧ od_get (p_entries p1) key = Some b ∧
    page_bytes p1 (mem_of w1 me) b = mem_read (mem_of w me) src len ∧
    unlisted (w_dir w1) key ∧
    ∀ reader e' dst n, is_Some (w_clients w !! reader) → is_Some (w_tiers w !! reader) →
      ∃ w2, _fetch_directory w1 reader e' [key] [dst] [n] = ([false], w2).
Proof.
  destruct (central_quiet _ _ _ _ _ Hinit Hreach) as [[Hsz Hw] Hoff]. simpl in Hsz, Hw, Hoff.
  pose proof (proj1 (unlisted_answers _ _ Hnew)) as Hex. pose proof (proj1 (wc_tier _ _ _ _ Hw me t Hme)) as Hdc.
  rewrite (publish_both w me e [key] [src] [len] t Hboth Hme Hst).
  rewrite (push_lost dc w me e [key] [src] [len] t Hme Hdc Hdown), bool_decide_eq_false_2 by done.
  cbn [fmap list_fmap]. rewrite Hex. set (f := λ mt, record_write mt 0 (e_seconds e)).
  destruct (meter_wcoh dc host h w me f Hw) as (Hwm & Hsm & Hmem). destruct (meter_fields w me f) as (M1 & M2 & M3 & M4).
  set (wm := meter w me f) in *.
  destruct (wc_proc _ _ _ _ Hwm me) as [pr Hpr]; [apply (st_tier _ _ Hsm); by eexists|].
  specialize (M4 me). rewrite Hme in M4. destruct (w_tiers wm !! me) as [tm|] eqn:Etm; [|done]. simpl in M4. injection M4 as M4.
  assert (local_of wm me = Some (mk_local tm (w_dir wm) (pr_mem pr))) as Hs
    by (unfold local_of; rewrite Etm; simpl; by rewrite Hpr).
  set (s := mk_local tm (w_dir wm) (pr_mem pr)) in *.
  assert (pr_mem pr = mem_of w me) as Hms by (rewrite <-Hmem; unfold mem_of; by rewrite Hpr).
  destruct (publish_unlisted_local h (page_at wm) s key src len (e_seconds e) p addr p' ev) as (s1 & p1 & b & Hpub & Hu & Hp1 & Hb & Hbytes);
    [by eapply wcoh_local|done|simpl; by rewrite M1|simpl; by rewrite M4|done|done|].
  assert (publish_local_pool wm me e [key] [src] [len] false = (Ret [true], put_local wm me s1)) as Hlocal
    by (unfold publish_local_pool, run_local; by rewrite Hs, Hpub).
  rewrite Hlocal. exists (put_local wm me s1), (l_tier s1), p1, b. split; [done|].
  rewrite (put_local_tiers wm me s s1 Hs), (put_local_mem wm me s s1 me Hs), !bool_decide_eq_true_2 by done.
  split; [done|]. split; [done|]. split; [done|]. split; [by rewrite <-Hms|]. split; [done|].
  assert (wcoh dc host (h ++ sources wm me [key] [src] [len]) (put_local wm me s1)) as Hw1.
  { eapply (publish_wcoh dc host key_len); [done| | |left; by apply Hsm|exact Hlocal].
    - apply sized_app; [done|]. intros k d Hd. apply list_elem_of_singleton in Hd as [= -> ->].
      by rewrite zlength_mem_read.
    - intros [|i] q n; [|done]. intros [= <-] [= <-]. split; [done|]. unfold pbuffer. by rewrite (st_place _ _ Hsm). }
  intros reader e' dst n [c Hc] Ht. apply (st_tier _ _ Hsm) in Ht as [t' Ht'].
  assert (is_Some (w_tiers (put_local wm me s1) !! reader)) as [t2 Ht2]
    by (rewrite (put_local_tiers wm me s s1 Hs); case_bool_decide; by eexists).
  apply (fetch_unlisted _ _ _ _ _ _ _ c t2 Hw1); [simpl; by rewrite M2|done|by apply (Hoff reader)|done].
Qed.

(** C20: with two copies there is one.  In a hybrid cluster with
    [write_policy: both] (location caches off, no disk tier, directory requests
    that reach their shard), in any state [central_step] reaches: when the push
    of one new page to its storage server gets through and the key's primary
    owner in the directory answers, the write reports success, the writer's own
    pool is what it was, so the local copy the policy promises is not made, and
    every node that holds no copy and whose read works fetches the bytes from
    the storage server. *)
Theorem hybrid_both_single_copy (w0 w : world) (h : history) (me reader key : string) (e e' : env) (src dst len : Z)
  (owner ep : string) (c : client) (t t' : tier)
  (Hinit : fresh_p2p dc host w0) (Hreach : rtc (central_step dc key_len) ([], w0) (h, w))
  (Hboth : two_copies w me) (Hme : w_tiers w !! me = Some t)
  (Hready : push_ready dc w me e key len owner ep)
  (Hrep : 1 ≤ dc_replicas dc) (Hlive : primary_answers (w_dir w) key)
  (Hclient : w_clients w !! reader = Some c) (Hnode : w_tiers w !! reader = Some t')
  (Hcopy : no_copy t' key)
  (Hread : e_read e' 0%nat = AReply) :
  ∃ w1 w2, _publish w me e [key] [src] [len] = (Ret [true], w1) ∧
    t_pool <$> w_tiers w1 !! me = Some (t_pool t) ∧
    _fetch_directory w1 reader e' [key] [dst] [len] = ([true], w2) ∧
    mem_read (mem_of w2 reader) dst len = mem_read (mem_of w me) src len.
Proof.
  destruct (central_reachable _ _ _ _ _ _ Hinit Hreach) as [Hw Hoff].
  destruct (push_new dc host key_len h w me e key src len owner ep Hw Hoff Hready)
    as (w1 & l & Hpub & Hw1 & Hcl & Hreg & Hti & Hres & Hn & Hll & Hbytes & Hans & (d & Hdir & Hnet) & Hpools).
  assert (∀ n, is_Some (w_clients w !! n) → n ≠ owner) as Hother.
  { intros n [? Hc] ->. by rewrite (pu_server _ _ _ _ _ _ _ _ Hready) in Hc. }
  assert (me ≠ owner ∧ reader ≠ owner) as [? ?].
  { destruct Hboth as (cm & Hcm & _). split; apply Hother; by eexists. }
  specialize (Hans Hrep (primary_owner_answers _ _ Hlive)).
  assert (exists_answer dc (w_dir w1) key = true) as Hex.
  { rewrite Hdir. by eapply put_exists; [apply (wc_taken _ _ _ _ Hw)| |]. }
  assert (storage_nodes (t_rt t) ≠ []) as Hst.
  { pose proof (pu_owner _ _ _ _ _ _ _ _ Hready t Hme) as Ho. unfold data_owner in Ho. by case_bool_decide. }
  rewrite (publish_both w me e _ _ _ t Hboth Hme Hst), Hpub.
  rewrite (second_publish _ w1 me e key src len Hw1 (Hti me ltac:(by eexists)) Hex).
  set (f := λ mt, record_write mt 0 (e_seconds e)). set (w2 := meter w1 me f).
  destruct (meter_wcoh _ _ _ w1 me f Hw1) as (Hw2 & Hsteady & Hmem). destruct (meter_fields w1 me f) as (M1 & M2 & M3 & M4).
  fold w2 in Hw2, Hsteady, Hmem, M1, M2, M3, M4.
  assert (t_pool <$> w_tiers w2 !! reader = Some (t_pool t')) as Hpr by by rewrite M4, Hpools, Hnode.
  destruct (w_tiers w2 !! reader) as [t2|] eqn:Ht2; [|done]. injection Hpr as Hpr.
  assert (pool_registered w2 owner) as Hreg2.
  { intros t0 p0 Ht0 Hp0. rewrite M3. specialize (M4 owner). rewrite Ht0 in M4. simpl in M4. rewrite Hp0 in M4.
    destruct (w_tiers w1 !! owner) as [t1|] eqn:Ht1; [|done]. injection M4 as M4. by apply (Hreg t1). }
  rewrite <-Hll, <-Hn in *.
  destruct (fetch_found dc host _ w2 reader e' key l dst c t2 Hw2) as (w3 & Hf & Hd);
    [by rewrite M2, Hcl|done|by apply (Hoff reader)| |by rewrite M1|done|by right|].
  { right. intros p Hp. apply Hcopy. by rewrite <-Hpr. }
  exists w2, w3. split; [done|]. split; [by rewrite M4, Hpools, Hme|]. split; [done|].
  rewrite Hd. unfold w2. rewrite meter_mem. exact Hbytes.
Qed.
End hybrid.

(** ** Concrete clusters *)

Module HybridExamples.
Import ExampleHash RingExamples RuntimeExamples.
Import P2PExamples CentralExamples.

(** Two inference nodes with the policy, one page of pool each, and the
    storage server [s]; node [a] has a page at address 16. *)
Definition cfg_both : PeerCacheConfig := mk_config [("mode", VStr "hybrid"); ("write_policy", VStr "both")] [].
Definition client_both : client := mk_client cfg_both (new_naming "" true 0 0 1) 0 ∅ ∅ 5 4096 true true None ∅.
Definition hybrid0 : world :=
  mk_world {[ "a" := tier_central "a" (Some one_page); "b" := tier_central "b" (Some one_page);
              "s" := tier_central "s" (Some one_page) ]}
    {[ "a" := client_both; "b" := client_both ]} (mk_cluster {[ "a:9" := ∅; "b:9" := ∅; "s:9" := ∅ ]} all_up)
    (mk_fabric {[ "a" := mk_proc (mem_write (λ _, 0) 16 [7; 7]) [(1024, 2)]; "b" := proc0 [(1024, 2)]; "s" := proc0 [(1024, 2)] ]}
       rails_central)
    ctl at_control all_up.

(** The same cluster while [s] does not answer its control port. *)
Definition link_down (ep : string) : attempt * attempt :=
  if String.eqb ep "s:9" then (ANoConnect, ANoConnect) else all_up ep.
Definition hybrid_down : world :=
  mk_world (w_tiers hybrid0) (w_clients hybrid0) (mk_cluster (c_shards (w_dir hybrid0)) link_down) (w_fab hybrid0)
    ctl at_control link_down.

(** A write reported as done that nobody can read.  With
    [write_policy: both] and the storage server unreachable, storing [7; 7]
    under [k1] reports success: the page is in node [a]'s pool.  The directory
    does not list it, so neither node [b] nor [a] itself finds the key.  With
    the server up both do. *)
Example lost_write_run :
  let put w := set_ w "a" env0 "k1" (Some (OBytes [7; 7])) None None in
  let pooled w := (λ p, od_get (p_entries p) "k1") <$> (w_tiers w !! "a" ≫= t_pool) in
  ((put hybrid0).1 = Ret true ∧ pooled (put hybrid0).2 = Some None ∧
   get_page (put hybrid0).2 "b" "k1" = (Ret (Some (OTensor 64 (Some 2))), [7; 7])) ∧
  (put hybrid_down).1 = Ret true ∧ pooled (put hybrid_down).2 = Some (Some (0, 2)) ∧
  (get_page (put hybrid_down).2 "b" "k1").1 = Ret None ∧ (get_page (put hybrid_down).2 "a" "k1").1 = Ret None.
Proof.
  cbv zeta. split; [split; [vm_compute; reflexivity|]; split; vm_compute; reflexivity|].
  split; [vm_compute; reflexivity|]. split; [vm_compute; reflexivity|]. split; vm_compute; reflexivity.
Qed.

Lemma hybrid_tiers n t :
  w_tiers hybrid0 !! n = Some t → (n = "a" ∨ n = "b" ∨ n = "s") ∧ t = tier_central n (Some one_page).
Proof.
  intros Ht. simpl in Ht. apply lookup_insert_Some in Ht as [[<- <-]|[_ Ht]]; [split; [by left|reflexivity]|].
  apply lookup_insert_Some in Ht as [[<- <-]|[_ Ht]]; [split; [by right; left|reflexivity]|].
  apply lookup_singleton_Some in Ht as [<- <-]. split; [by right; right|reflexivity].
Qed.

Lemma hybrid0_fresh : fresh_p2p dc_central rails_central hybrid0.
Proof.
  split; [split|].
  - reflexivity.
  - intros n [t Ht]. apply hybrid_tiers in Ht as [[-> |[-> | ->]] _]; by eexists.
  - intros n t Ht. apply hybrid_tiers in Ht as [Hn ->].
    split; [reflexivity|]. split; [reflexivity|]. split.
    { destruct Hn as [-> |[-> | ->]]; (split; [reflexivity|]; by repeat constructor). }
    split; [reflexivity|]. intros p [= <-]. split; [by apply new_pool_inv|reflexivity].
  - exact (fp_dir _ _ _ (fp_net _ _ _ central0_fresh)).
  - exact (fp_taken _ _ _ (fp_net _ _ _ central0_fresh)).
  - intros n c Hc. simpl in Hc. apply lookup_insert_Some in Hc as [[_ <-]|[_ Hc]]; [done|].
    by apply lookup_singleton_Some in Hc as [_ <-].
Qed.

(** The server [s] is gone: no shard and no control port answers there. *)
Definition hybrid_gone : world :=
  mk_world (w_tiers hybrid0) (w_clients hybrid0) (mk_cluster {[ "a:9" := ∅; "b:9" := ∅ ]} link_down) (w_fab hybrid0)
    ctl at_control link_down.

Lemma hybrid_gone_empty ep k : stored (w_dir hybrid_gone) ep k = None.
Proof.
  unfold stored. simpl. destruct (decide (ep = "a:9")) as [->|Ha]; [reflexivity|]. rewrite lookup_insert_ne by done.
  destruct (decide (ep = "b:9")) as [->|Hb]; [reflexivity|]. by rewrite lookup_singleton_ne.
Qed.

Lemma hybrid_gone_fresh : fresh_p2p dc_central rails_central hybrid_gone.
Proof.
  destruct hybrid0_fresh as [[F1 F2 F3 F4 F5] F6]. split; [split|]; try done.
  - exact hybrid_gone_empty.
  - intros ep Hep. simpl in Hep. destruct (decide (ep = "a:9")) as [->|Ha]; [vm_compute; reflexivity|].
    destruct (decide (ep = "b:9")) as [->|Hb]; [vm_compute; reflexivity|].
    rewrite lookup_insert_ne, lookup_singleton_ne in Hep by done. by destruct Hep.
Qed.

Lemma hybrid_gone_unreached : push_unreached dc_central hybrid_gone "a" ["k1"].
Proof.
  intros t k owner [= <-] Hk _ Ho ep n Hc _. apply list_elem_of_singleton in Hk as ->.
  assert (owner = "s") as -> by (vm_compute in Ho; congruence).
  vm_compute in Hc. injection Hc as <-. reflexivity.
Qed.

Lemma hybrid_both_lost_write_witness :
  ∃ w1 t1 p1 b, _publish hybrid_gone "a" env0 ["k1"] [16] [2] = (Ret [true], w1) ∧
    w_tiers w1 !! "a" = Some t1 ∧ t_pool t1 = Some p1 ∧ od_get (p_entries p1) "k1" = Some b ∧
    page_bytes p1 (mem_of w1 "a") b = mem_read (mem_of hybrid_gone "a") 16 2 ∧
    unlisted (w_dir w1) "k1" ∧
    ∀ reader e' dst n, is_Some (w_clients hybrid_gone !! reader) → is_Some (w_tiers hybrid_gone !! reader) →
      ∃ w2, _fetch_directory w1 reader e' ["k1"] [dst] [n] = ([false], w2).
Proof.
  assert (∃ addr p' ev, Pool.reserve one_page "k1" 2 = (Some addr, p', ev)) as (addr & p' & ev & Hres)
    by (do 3 eexists; vm_compute; reflexivity).
  refine (hybrid_both_lost_write dc_central rails_central (λ _, 2) hybrid_gone hybrid_gone [] "a" "k1" env0 16 2
    (tier_central "a" (Some one_page)) one_page p' addr ev hybrid_gone_fresh (rtc_refl _ _) _ _ _ hybrid_gone_unreached _ _ _ _ _ _ Hres).
  - exists client_both. split; [reflexivity|]. split; vm_compute; reflexivity.
  - reflexivity.
  - vm_compute. discriminate.
  - intros ep. apply hybrid_gone_empty.
  - lia.
  - reflexivity.
  - intros b c k ks Hp. assert (place hybrid_gone "a" = Some (1024, 2, 0, [0])) as Hpl by (vm_compute; reflexivity).
    rewrite Hpl in Hp. injection Hp as <- <- _ _. unfold ranges_disjoint. lia.
  - reflexivity.
  - reflexivity.
Defined.

Lemma hybrid0_ready : push_ready dc_central hybrid0 "a" env0 "k1" 2 "s" "s:9".
Proof.
  split.
  - intros t [= <-]. vm_compute. reflexivity.
  - by eexists.
  - discriminate.
  - reflexivity.
  - reflexivity.
  - reflexivity.
  - reflexivity.
  - reflexivity.
  - intros t p [= <-] [= <-]. split; [vm_compute; discriminate|]. split; [vm_compute; reflexivity|].
    eexists. split; [reflexivity|]. left.
  - discriminate.
  - lia.
  - vm_compute. reflexivity.
  - do 5 eexists. split; [reflexivity|]. split; [reflexivity|]. split; [reflexivity|]. vm_compute. reflexivity.
Qed.

Lemma hybrid0_primary : primary_answers dc_central (w_dir hybrid0) "k1".
Proof. unfold primary_answers. eexists. vm_compute. reflexivity. Qed.

Lemma hybrid0_both : two_copies hybrid0 "a".
Proof. exists client_both. split; [reflexivity|]. split; vm_compute; reflexivity. Qed.

Lemma hybrid_both_single_copy_witness :
  ∃ w1 w2, _publish hybrid0 "a" env0 ["k1"] [16] [2] = (Ret [true], w1) ∧
    t_pool <$> w_tiers w1 !! "a" = Some (Some one_page) ∧
    _fetch_directory w1 "b" env0 ["k1"] [64] [2] = ([true], w2) ∧
    mem_read (mem_of w2 "b") 64 2 = mem_read (mem_of hybrid0 "a") 16 2.
Proof.
  refine (hybrid_both_single_copy dc_central rails_central (λ _, 2) hybrid0 hybrid0 [] "a" "b" "k1" env0 env0 16 64 2
    "s" "s:9" client_both (tier_central "a" (Some one_page)) (tier_central "b" (Some one_page))
    hybrid0_fresh (rtc_refl _ _) hybrid0_both _ hybrid0_ready _ hybrid0_primary _ _ _ _).
  - reflexivity.
  - vm_compute. discriminate.
  - reflexivity.
  - reflexivity.
  - intros p [= <-]. reflexivity.
  - reflexivity.
Defined.
End HybridExamples.
