(* ===== verification/Api.v ===== *)
(** The calls SGLang makes, on a peer-to-peer cluster with its location caches
    on.

    SGLang asks [batch_exists] which pages are there and then fetches them; the
    store keeps the locations it found (primed locations, and the directory
    cache when it is configured) and skips the second lookup.  The cluster here
    does what [P2PSteps.v] allows, and probes; as long as no pool evicts a
    page, remembered locations stay right, and a page [batch_get_v1] or
    [batch_get_v2] reports holds bytes published under its keys.  That a pool
    evicts is what [stale_location_dirty_hit] needs. *)
From S2P Require Import Prelude Bytes Hashlib HashRing Types Rpc Directory Runtime Pool DiskStore Transport Config Metrics Keys Tier Coherence StorageServer World SlotStore SlotSafety Store StoreV2 P2P P2PSteps P2PVisible Incoherence.

Section api.
Context {RH : RingHash} {SI : SetIter} {HL : Hashlib}.
Context (dc : DirectoryClient) (host : string → option string) (key_len : string → Z).

Abbreviation history := (list (string * list Z)).

(** ** Probes *)

(** Updates of a client that keep what it remembers right. *)
Lemma update_client_wcoh h w me f :
  wcoh dc host h w → (∀ c, w_clients w !! me = Some c → caches_ok host w c → caches_ok host w (f c)) →
  wcoh dc host h (update_client w me f).
Proof.
  intros Hw Hf. unfold update_client. destruct (w_clients w !! me) as [c|] eqn:Hc; [|done].
  apply set_client_wcoh; [done|]. apply Hf; [done|]. by eapply wc_client.
Qed.

Lemma update_client_tiers w me f : w_tiers (update_client w me f) = w_tiers w.
Proof. unfold update_client. by destruct (w_clients w !! me). Qed.

(** Locations are about the pools only. *)
Lemma locs_ok_tiers w w' keys locs : w_tiers w' = w_tiers w → locs_ok host w keys locs → locs_ok host w' keys locs.
Proof.
  intros Ht Hl i k l Hk Ho. eapply loc_ok_pages; [|by eapply Hl]. intros n k' a len (t & p & H).
  exists t, p. by rewrite Ht.
Qed.

Lemma world_dir_get_spec h w me now keys locs w' :
  wcoh dc host h w → world_dir_get w me now keys = (locs, w') →
  wcoh dc host h w' ∧ w_tiers w' = w_tiers w ∧ locs_ok host w' keys locs.
Proof.
  intros Hw. unfold world_dir_get.
  assert ((replicate (length keys) None, w) = (locs, w') → wcoh dc host h w' ∧ w_tiers w' = w_tiers w ∧ locs_ok host w' keys locs) as Hno.
  { intros [= <- <-]. split; [done|]. split; [done|]. intros i k l _ [Hn _]%lookup_replicate. done. }
  destruct (w_clients w !! me) as [c|] eqn:Hc; [|exact Hno]. destruct (w_tiers w !! me) as [t|] eqn:Ht; [|exact Hno].
  destruct (wc_tier _ _ _ _ Hw me t Ht) as (-> & _).
  destruct (_dir_get c dc (w_dir w) now keys) as [[locs1 c1] d1] eqn:Ed.
  destruct (dir_get_spec dc host h w c now keys locs1 c1 d1 Hw (wc_client _ _ _ _ Hw me c Hc) Ed) as (-> & Hok & _ & Hl & _).
  intros [= <- <-]. split; [|by split]. change (wcoh dc host h (set_client w me c1)). by apply set_client_wcoh.
Qed.

Lemma prime_ok w c now keys locs :
  caches_ok host w c → locs_ok host w keys locs → caches_ok host w (_prime c now keys locs).
Proof.
  intros [H1 H2] Hl. unfold _prime. split; [|exact H2]. cbn [c_primed with_primed]. apply cache_resident_ok; [|done].
  destruct (_ <? _)%nat; [|done]. eapply cache_ok_sub; [apply map_filter_subseteq|done].
Qed.

Lemma count_exists_wcoh h w me n :
  wcoh dc host h w → wcoh dc host h (count_exists w me n) ∧ steady w (count_exists w me n).
Proof. intros Hw. by destruct (meter_wcoh dc host h w me (λ mt, let mt := inc mt "exists_requests" 1 in
  if (n =? 0)%nat then mt else inc mt "exists_pages_found" (Z.of_nat n)) Hw) as (? & ? & _). Qed.

(** Counting the answer and priming the pages found. *)
Lemma exists_finish h w me now n hit keys locs :
  wcoh dc host h w → locs_ok host w keys locs →
  let w1 := count_exists w me n in
  wcoh dc host h (if (hit =? 0)%nat then w1 else update_client w1 me (λ c, _prime c now (take hit keys) (take hit locs))).
Proof.
  intros Hw Hl w1. destruct (count_exists_wcoh h w me n Hw) as [W1 S1]. fold w1 in W1, S1.
  destruct (hit =? 0)%nat; [done|]. apply update_client_wcoh; [done|]. intros c _ Hc. apply prime_ok; [done|].
  intros i k l Hk Ho. apply lookup_take_Some in Hk as [Hk _], Ho as [Ho _]. eapply loc_ok_steady; [exact S1|]. by eapply Hl.
Qed.

Lemma keyspace_ok w c raw detected : caches_ok host w c → caches_ok host w (with_keyspace c raw detected).
Proof. by intros [H1 H2]. Qed.

Lemma batch_exists_wcoh h w me e keys r w' :
  wcoh dc host h w → (∀ c, w_clients w !! me = Some c → is_slotmap (c_cfg c) = false) →
  batch_exists w me e keys = (r, w') → wcoh dc host h w'.
Proof.
  intros Hw Hsm. unfold batch_exists. destruct (w_clients w !! me) as [c|] eqn:Hc; [|by intros [= _ <-]].
  rewrite (Hsm c eq_refl). destruct (_lookup_keys (c_naming c) (c_raw_keys c) keys) as [ks mult].
  destruct (world_dir_get w me (e_now e) ks) as [locs w1] eqn:E1.
  destruct (world_dir_get_spec h w me _ ks locs w1 Hw E1) as (W1 & T1 & L1).
  assert (∀ w2 raw, wcoh dc host h w2 → wcoh dc host h (update_client w2 me (λ c, with_keyspace c (raw c) true))) as Hks.
  { intros w2 raw W2. apply update_client_wcoh; [done|]. intros c' _. apply keyspace_ok. }
  destruct (_hit_prefix locs mult =? 0)%nat; cbn [negb].
  2:{ intros [= _ <-]. apply exists_finish; [apply (Hks _ c_raw_keys W1)|]. eapply locs_ok_tiers; [apply update_client_tiers|done]. }
  destruct (c_keyspace_detected c); [intros [= _ <-]; by apply exists_finish|].
  destruct (if negb (c_raw_keys c) then (keys, 1%nat) else _component_keys (c_naming c) keys) as [ks' mult'].
  destruct (world_dir_get w1 me (e_now e) ks') as [locs' w2] eqn:E2.
  destruct (world_dir_get_spec h w1 me _ ks' locs' w2 W1 E2) as (W2 & T2 & L2).
  destruct (_hit_prefix locs' mult' =? 0)%nat; intros [= _ <-].
  - apply exists_finish; [done|]. by eapply locs_ok_tiers.
  - apply exists_finish; [apply (Hks _ (λ _, negb (c_raw_keys c)) W2)|]. eapply locs_ok_tiers; [apply update_client_tiers|done].
Qed.

Lemma exists_transfers_wcoh h me now kv ts : ∀ w final hits r w',
  wcoh dc host h w → exists_transfers w me now kv final hits ts = (r, w') → wcoh dc host h w'.
Proof.
  induction ts as [|t ts IH]; intros w final hits r w' Hw; cbn [exists_transfers]; [by intros [= _ <-]|].
  destruct (final =? 0)%nat; [by intros [= _ <-]|]. destruct (transfer_keys w me t) as [ks mult].
  destruct (world_dir_get w me now ks) as [locs w1] eqn:E1.
  destruct (world_dir_get_spec h w me now ks locs w1 Hw E1) as (W1 & _ & L1). apply IH.
  apply update_client_wcoh; [done|]. intros c _ Hc. by apply prime_ok.
Qed.

Lemma batch_exists_v2_wcoh h w me e keys ts r w' :
  wcoh dc host h w → (∀ c, w_clients w !! me = Some c → is_slotmap (c_cfg c) = false) →
  batch_exists_v2 w me e keys ts = (r, w') → wcoh dc host h w'.
Proof.
  intros Hw Hsm. unfold batch_exists_v2. destruct (batch_exists w me e keys) as [[kv|x] w1] eqn:E1;
    pose proof (batch_exists_wcoh h w me e keys _ _ Hw Hsm E1) as W1; [|by intros [= _ <-]].
  destruct (exists_transfers w1 me (e_now e) kv kv _ ts) as [[f hs] w2] eqn:E2. intros [= _ <-].
  by eapply exists_transfers_wcoh.
Qed.

(** The background promotion that a probe starts. *)
Lemma prefetch_wcoh h w me keys : wcoh dc host h w → wcoh dc host h (prefetch w me keys).
Proof.
  intros Hw. unfold prefetch. destruct (w_tiers w !! me) as [t|] eqn:Ht; [|done].
  destruct (wc_tier _ _ _ _ Hw me t Ht) as (-> & _). rewrite get_spec by apply (wc_wf _ _ _ _ Hw). rewrite set_wdir_id.
  destruct (_resolve_non_resident w me keys _) as [[locs pr] w1] eqn:E.
  by destruct (resolve_spec dc host key_len h w me keys _ locs pr w1 Hw (dir_lookup_ok dc host h w keys Hw) E).
Qed.

(** ** The cluster *)

(** What the nodes do: anything of the peer-to-peer mode that loses no page,
    and probes. *)
Inductive cached_step : history * world → history * world → Prop :=
  | NodeStep s s' : p2p_step key_len s s' → keeps_pages s.2 s'.2 → cached_step s s'
  | ProbeStep h w me e keys ts r w' :
      (∀ c, w_clients w !! me = Some c → is_slotmap (c_cfg c) = false) →
      batch_exists_v2 w me e keys ts = (r, w') → cached_step (h, w) (h, w')
  | PrefetchStep h w me keys : cached_step (h, w) (h, prefetch w me keys).

(** Nothing is published or remembered yet; the caches may be on. *)
Record fresh_cached (w : world) : Prop := {
  fk_net : fresh_net dc host w;
  fk_client n c : w_clients w !! n = Some c → c_primed c = ∅ ∧ c_dir_cache c = ∅
}.

Lemma cached_step_inv s s' : cached_step s s' → p2p_inv dc host key_len s → p2p_inv dc host key_len s'.
Proof.
  destruct 1 as [s s' Hs Hk|h w me e keys ts r w' Hsm Hp|h w me keys]; [eapply p2p_step_inv; [exact Hs|by right]|..];
    intros [Hsz Hw]; simpl in *; (split; [exact Hsz|]).
  - by eapply batch_exists_v2_wcoh.
  - by apply prefetch_wcoh.
Qed.

Lemma cached_reachable w0 h w :
  fresh_cached w0 → rtc cached_step ([], w0) (h, w) → wcoh dc host h w.
Proof.
  intros [Hn Hc] Hreach.
  assert (∀ s s', rtc cached_step s s' → p2p_inv dc host key_len s → p2p_inv dc host key_len s') as H.
  { induction 1 as [|s1 s2 s3 Hs _ IH]; [done|]. intros Hi. apply IH. by eapply cached_step_inv. }
  apply (H _ _ Hreach). split; [by intros k d ?%not_elem_of_nil|]. apply fresh_net_wcoh; [done|].
  intros n c Hcl. destruct (Hc n c Hcl) as [H1 H2]. split; [|intros _]; intros k l e; by rewrite ?H1, ?H2, lookup_empty.
Qed.

(** ** Fetches through the API *)

Lemma length_plan_all me c promoted items : ∀ w i, length (plan_all w me c promoted i items).1 = length items.
Proof.
  induction items as [|[[[key loc] ptr] size] items IH]; intros w i; cbn [plan_all]; [done|].
  destruct (plan_one _ _ _ _ _ _ _ _) as [p w1]. specialize (IH w1 (S i)).
  destruct (plan_all w1 me c promoted (S i) items) as [ps w2]. simpl in *. by rewrite IH.
Qed.

Lemma length_outcomes promoted ps : ∀ i oks, length (outcomes promoted i ps oks) = length ps.
Proof. induction ps as [|[] ps IH]; intros i oks; simpl; [done|by rewrite IH..|]. destruct oks as [|[] oks]; simpl; by rewrite IH. Qed.

(** One result per key. *)
Lemma fetch_directory_length h w me e keys ptrs sizes results w' :
  wcoh dc host h w → is_Some (w_clients w !! me) → _fetch_directory w me e keys ptrs sizes = (results, w') →
  length results = Nat.min (Nat.min (length keys) (length ptrs)) (length sizes).
Proof.
  intros Hw [c Hc]. unfold _fetch_directory. rewrite Hc.
  destruct (_take_primed w me c (e_now e) keys) as [locs w1] eqn:E1.
  destruct (take_primed_spec dc host h w me c _ keys locs w1 Hw Hc E1) as (W1 & _ & _ & L1 & N1).
  destruct (_resolve_non_resident w1 me keys locs) as [[locs2 promoted] w2] eqn:E2.
  destruct (resolve_spec dc host key_len h w1 me keys locs locs2 promoted w2 W1 L1 E2) as (_ & _ & _ & _ & N2).
  pose proof (length_plan_all me c promoted (zip (zip (zip keys locs2) ptrs) sizes) w2 0) as N3.
  destruct (plan_all w2 me c promoted 0 _) as [plans w3]. destruct (plan_rails plans) as [eps ks].
  destruct (batch_read_multi _ _ _ _ _ _ _) as [oks f']. intros [= <- _].
  rewrite length_fmap, length_outcomes. cbn [fst] in N3. rewrite N3, !length_zip_with. lia.
Qed.

(** The components of a page that was reported. *)
Lemma page_true comps mult i n :
  (0 < mult)%nat → length comps = (n * mult)%nat → _page_results comps mult !! i = Some true →
  (i < n)%nat ∧ ∀ j, (j < mult)%nat → comps !! (i * mult + j)%nat = Some true.
Proof.
  intros Hm Hl Hi. unfold _page_results in Hi. rewrite list_lookup_fmap in Hi.
  assert (i < n)%nat as Hin.
  { rewrite <-(length_page_blocks (length comps) mult n comps) by done. destruct (page_blocks _ _ _ !! i) eqn:E; [|done].
    by eapply lookup_lt_Some. }
  split; [done|]. intros j Hj. rewrite (page_blocks_lookup _ mult n) in Hi by done. simpl in Hi. injection Hi as Hi.
  destruct (lookup_lt_is_Some_2 comps (i * mult + j)) as [b Hb]; [rewrite Hl; nia|]. rewrite Hb. f_equal.
  apply (forallb_lookup id _ j b Hi). rewrite lookup_take_lt by done. by rewrite lookup_drop.
Qed.

Lemma component_keys_length nm keys :
  length (_component_keys nm keys).1 = (length keys * (_component_keys nm keys).2)%nat ∧ (0 < (_component_keys nm keys).2)%nat.
Proof.
  assert (length (_tag_keys nm keys) = length keys) as Hl.
  { unfold _tag_keys. destruct (String.eqb _ _); [done|]. apply length_fmap. }
  unfold _component_keys. destruct (nm_is_mla nm); simpl.
  - rewrite length_fmap, Hl. lia.
  - split; [|lia]. rewrite <-Hl. generalize (_tag_keys nm keys). intros l.
    induction l as [|x l IH]; [done|]. rewrite bind_cons, length_app, IH. done.
Qed.

(** What a reported page of a v1 fetch is made of. *)
Definition page_published (h : history) (m : mem) (comps : list string) (mult : nat) (ptrs sizes : list Z) (i : nat) : Prop :=
  ∀ j, (j < mult)%nat → ∃ k p n, comps !! (i * mult + j)%nat = Some k ∧ ptrs !! (i * mult + j)%nat = Some p ∧
    sizes !! (i * mult + j)%nat = Some n ∧ (k, mem_read m p n) ∈ h.

Lemma get_v1_pages h w me e keys ptrs sizes pages w' c :
  wcoh dc host h w → w_clients w !! me = Some c → is_slotmap (c_cfg c) = false → is_Some (w_tiers w !! me) →
  ptargets w me ptrs sizes → batch_get_v1 w me e keys (Some (ptrs, sizes)) = (Ret pages, w') →
  ∀ i, pages !! i = Some true →
    page_published h (mem_of w' me) (_component_keys (c_naming c) keys).1 (_component_keys (c_naming c) keys).2 ptrs sizes i.
Proof.
  intros Hw Hc Hsm Ht Hb. unfold batch_get_v1, v1_call, naming_of, _fetch. rewrite Hc, Hsm.
  pose proof (component_keys_length (c_naming c) keys) as [Hlen Hm].
  destruct (_component_keys (c_naming c) keys) as [comps mult]. simpl in Hlen, Hm. cbn [fst snd].
  destruct (length comps =? length ptrs)%nat eqn:E1, (length ptrs =? length sizes)%nat eqn:E2; cbn [andb negb];
    try (intros [= <- <-] i [Hi _]%lookup_replicate; done).
  apply Nat.eqb_eq in E1, E2.
  destruct (_fetch_directory w me e comps ptrs sizes) as [res w1] eqn:Ef. intros [= <- <-] i Hi.
  pose proof (fetch_directory_length h w me e comps ptrs sizes res w1 Hw ltac:(by eexists) Ef) as Hl.
  destruct (fetch_directory_spec dc host key_len h w me e comps ptrs sizes res w1 Hw ltac:(by eexists) Ht Hb Ef) as (_ & _ & H).
  destruct (page_true res mult i (length keys) Hm ltac:(lia) Hi) as [_ Hp]. intros j Hj. by apply H, Hp.
Qed.

(** C7: SGLang's sequence of calls has no dirty hits while no pool loses a page.
    The cluster starts empty, has no disk tier (so there is nothing to promote)
    and every directory request reaches its shard; location caches may be on or
    off.  After any publishes, fetches and v1 and v2 probes by any nodes in
    which no pool lost a page, with lost directory replies and failing data
    links: when [batch_get_v1] of a node that is not in slot-map mode reports a
    page, every component buffer of that page holds bytes that were published
    under that component's key. *)
Theorem cached_get_no_dirty_hit (w0 w w' : world) (h : history) (me : string) (e : env) (keys : list string)
  (ptrs sizes : list Z) (pages : list bool) (c : client)
  (Hinit : fresh_cached w0) (Hreach : rtc cached_step ([], w0) (h, w))
  (Hme : w_clients w !! me = Some c) (Hmode : is_slotmap (c_cfg c) = false) (Htier : is_Some (w_tiers w !! me))
  (Hbuf : ptargets w me ptrs sizes)
  (Hget : batch_get_v1 w me e keys (Some (ptrs, sizes)) = (Ret pages, w')) :
  ∀ i, pages !! i = Some true →
    page_published h (mem_of w' me) (_component_keys (c_naming c) keys).1 (_component_keys (c_naming c) keys).2 ptrs sizes i.
Proof. eapply get_v1_pages; [by eapply cached_reachable|done..]. Qed.

(** *** Pages of several buffers *)

Lemma v2_keys_length nm draft_mla name keys :
  length (_v2_component_keys nm draft_mla name keys).1 = (length keys * (_v2_component_keys nm draft_mla name keys).2)%nat ∧
  (0 < (_v2_component_keys nm draft_mla name keys).2)%nat.
Proof.
  unfold _v2_component_keys. destruct (String.eqb name "kv"); [apply component_keys_length|].
  assert (length (_tag_keys nm keys) = length keys) as <-.
  { unfold _tag_keys. destruct (String.eqb _ _); [done|]. apply length_fmap. }
  generalize (_tag_keys nm keys). intros l. case_bool_decide; [destruct draft_mla|]; simpl; rewrite ?length_fmap; [lia| |lia].
  split; [|lia]. induction l as [|x l IH]; [done|]. rewrite bind_cons, length_app, IH. done.
Qed.

(** The buffers of every component of a transfer. *)
Definition transfer_chunks (ptrs sizes : list Z) (n_comps : nat) : list (list (Z * Z)) :=
  page_blocks (length ptrs) (length ptrs / n_comps) (zip ptrs sizes).

(** The application's buffers, and where packed components are put: outside the
    pool and apart from each other. *)
Record v2_target (w : world) (me : string) (e : env) (ptrs sizes : list Z) (n_comps : nat) : Prop := {
  vt_len : length ptrs = length sizes;
  vt_buf : ptargets w me ptrs sizes;
  vt_blob q chunk : transfer_chunks ptrs sizes n_comps !! q = Some chunk →
    pbuffer w me (e_place e q) (chunk_size chunk) ∧ apart (e_place e q) (chunk_size chunk) (zip ptrs sizes);
  vt_blobs q q' chunk chunk' : (q < q')%nat → transfer_chunks ptrs sizes n_comps !! q = Some chunk →
    transfer_chunks ptrs sizes n_comps !! q' = Some chunk' →
    ranges_disjoint (e_place e q) (chunk_size chunk) (e_place e q') (chunk_size chunk')
}.

Lemma ptargets_place w w' me ptrs sizes : place w' me = place w me → ptargets w me ptrs sizes → ptargets w' me ptrs sizes.
Proof.
  intros Hp [H1 H2]. split; [|done]. intros i p n Hi Hn. destruct (H1 i p n Hi Hn) as [H3 H4]. split; [done|].
  intros b c k ks. rewrite Hp. apply H4.
Qed.

(** With one buffer per component nothing is packed. *)
Lemma chunks_single ptrs sizes q p n :
  length ptrs = length sizes → ptrs !! q = Some p → sizes !! q = Some n →
  transfer_chunks ptrs sizes (length ptrs) !! q = Some [(p, n)].
Proof.
  intros Hl Hp Hn. pose proof (lookup_lt_Some _ _ _ Hp) as Hq. unfold transfer_chunks. rewrite Nat.div_same by lia.
  assert (length (zip ptrs sizes) = (length ptrs * 1)%nat) as Hz by (rewrite length_zip_with; lia).
  rewrite (page_blocks_lookup (length ptrs) 1 (length ptrs)) by (try done; lia).
  rewrite Nat.mul_1_r. f_equal. assert (zip ptrs sizes !! q = Some (p, n)) as Hpn by (rewrite lookup_zip_with, Hp, Hn; done).
  rewrite <-(take_drop_middle _ _ _ Hpn) at 1. rewrite drop_app_length'; [done|]. symmetry. apply length_take_le. rewrite Hz. lia.
Qed.

(** The buffers of the components are the application's. *)
Lemma chunks_concat ptrs sizes n : length ptrs = length sizes → (0 < length ptrs / n)%nat →
  concat (transfer_chunks ptrs sizes n) = zip ptrs sizes.
Proof. intros Hl Hn. apply concat_page_blocks; [done|]. rewrite length_zip_with. lia. Qed.

Lemma ptargets_disjoint w me ptrs sizes : ptargets w me ptrs sizes → buffers_disjoint (zip ptrs sizes).
Proof.
  intros [_ Hd]. apply ForallOrdPairs_lookup. intros i j [p n] [p' n'] Hij Hi Hj.
  apply lookup_zip_with_Some in Hi as (? & ? & [= -> ->] & Hp & Hn).
  apply lookup_zip_with_Some in Hj as (? & ? & [= -> ->] & Hp' & Hn'). simpl. by eapply Hd.
Qed.

Lemma chunks_sizes w me ptrs sizes n_comps :
  ptargets w me ptrs sizes → length ptrs = length sizes → (0 < length ptrs / n_comps)%nat →
  Forall (Forall (λ b, 0 ≤ b.2)) (transfer_chunks ptrs sizes n_comps).
Proof.
  intros [Hb _] Hl Hn. apply Forall_forall. intros chunk Hc. apply Forall_forall. intros b Hb'.
  assert (b ∈ zip ptrs sizes) as Hin.
  { rewrite <-(chunks_concat ptrs sizes n_comps Hl Hn). apply list_elem_of_In, in_concat. exists chunk.
    by rewrite <-!list_elem_of_In. }
  apply list_elem_of_lookup_1 in Hin as (i & Hi). destruct b as [p n].
  apply lookup_zip_with_Some in Hi as (? & ? & [= -> ->] & Hp & Hn'). by destruct (Hb i _ _ Hp Hn').
Qed.

(** Packing writes where the packed components go. *)
Lemma pack_wcoh h w me e ptrs sizes n_comps packed m :
  wcoh dc host h w → v2_target w me e ptrs sizes n_comps → (0 < length ptrs / n_comps)%nat →
  pack_pages (mem_of w me) (e_place e) 0 (transfer_chunks ptrs sizes n_comps) = (packed, m) →
  wcoh dc host h (set_mem_of w me m) ∧ steady w (set_mem_of w me m) ∧
  length packed = length (transfer_chunks ptrs sizes n_comps) ∧
  (∀ q chunk, transfer_chunks ptrs sizes n_comps !! q = Some chunk → packed !! q = Some (e_place e q, chunk_size chunk)) ∧
  ptargets w me packed.*1 packed.*2.
Proof.
  intros Hw Hv Hn Hp. pose proof (chunks_sizes w me ptrs sizes n_comps (vt_buf _ _ _ _ _ _ Hv) (vt_len _ _ _ _ _ _ Hv) Hn) as Hsz.
  destruct (pack_pages_spec (e_place e) _ _ _ _ _ Hsz Hp) as (Hlen & Hpk & Hout).
  destruct (set_mem_wcoh dc host h w me m Hw) as [W1 S1].
  { intros x Hx [[[[b c] k] ks] Hpl]. apply Hout. intros q chunk Hq. simpl. destruct (vt_blob _ _ _ _ _ _ Hv q chunk Hq) as [Hb _].
    specialize (Hb b c k ks Hpl). specialize (Hx b c k ks Hpl). unfold ranges_disjoint in Hb. lia. }
  split; [done|]. split; [done|]. split; [done|]. split; [done|].
  assert (∀ q p n, packed.*1 !! q = Some p → packed.*2 !! q = Some n →
    ∃ chunk, transfer_chunks ptrs sizes n_comps !! q = Some chunk ∧ p = e_place e q ∧ n = chunk_size chunk) as Hat.
  { intros q p n. rewrite !list_lookup_fmap. intros H1 H2.
    destruct (lookup_lt_is_Some_2 (transfer_chunks ptrs sizes n_comps) q) as [chunk Hq].
    { rewrite <-Hlen. destruct (packed !! q) eqn:E; [by eapply lookup_lt_Some|done]. }
    rewrite (Hpk q chunk Hq) in H1, H2. injection H1 as <-. injection H2 as <-. by exists chunk. }
  split.
  - intros q p n H1 H2. destruct (Hat q p n H1 H2) as (chunk & Hq & -> & ->).
    split; [|by destruct (vt_blob _ _ _ _ _ _ Hv q chunk Hq)].
    apply chunk_size_nonneg. rewrite Forall_forall in Hsz. by apply Hsz, (list_elem_of_lookup_2 _ q).
  - intros q q' p n p' n' Hqq H1 H2 H3 H4. destruct (Hat q p n H1 H2) as (chunk & Hq & -> & ->).
    destruct (Hat q' p' n' H3 H4) as (chunk' & Hq' & -> & ->). by eapply vt_blobs.
Qed.

(** Fetching the components of a transfer and scattering what came. *)
Lemma transfer_fetch h w me e comps ptrs sizes p_ptrs p_sizes m res w2 :
  wcoh dc host h w → is_Some (w_clients w !! me) → is_Some (w_tiers w !! me) →
  v2_target w me e ptrs sizes (length comps) →
  _pack_multi_buffer (mem_of w me) (e_place e) comps ptrs sizes = (Ret (p_ptrs, p_sizes), m) →
  _fetch_directory (set_mem_of w me m) me e comps p_ptrs p_sizes = (res, w2) →
  let '(m3, res') := _scatter_multi_buffer (mem_of w2 me) comps ptrs sizes p_ptrs res in
  is_Some (f_procs (w_fab w2) !! me) ∧ (length res' = length comps ∨ res' = []) ∧
  ∀ q, res' !! q = Some true → ∃ k chunk, comps !! q = Some k ∧
    transfer_chunks ptrs sizes (length comps) !! q = Some chunk ∧ (k, chunk_bytes m3 chunk) ∈ h.
Proof.
  intros Hw Hc Ht Hv. unfold _pack_multi_buffer, _scatter_multi_buffer. set (w1 := set_mem_of w me m).
  assert (∀ p_ptrs p_sizes res w2, wcoh dc host h w1 → steady w w1 → ptargets w me p_ptrs p_sizes →
    _fetch_directory w1 me e comps p_ptrs p_sizes = (res, w2) →
    is_Some (f_procs (w_fab w2) !! me) ∧ length res = Nat.min (Nat.min (length comps) (length p_ptrs)) (length p_sizes) ∧
    ∀ i, res !! i = Some true → ∃ k p n, comps !! i = Some k ∧ p_ptrs !! i = Some p ∧ p_sizes !! i = Some n ∧
      (k, mem_read (mem_of w2 me) p n) ∈ h) as Hfetch.
  { intros pp ps res0 w0 W1 S1 Hb Hf. apply (ptargets_place w w1) in Hb; [|apply (st_place _ _ S1)].
    apply (st_client _ _ S1) in Hc. apply (st_tier _ _ S1) in Ht.
    destruct (fetch_directory_spec dc host key_len h w1 me e comps pp ps res0 w0 W1 Hc Ht Hb Hf) as (W0 & S0 & Hok).
    split; [by apply (wc_proc _ _ _ _ W0), (st_tier _ _ S0)|]. split; [exact (fetch_directory_length h w1 me e comps pp ps res0 w0 W1 Hc Hf)|exact Hok]. }
  pose proof (vt_len _ _ _ _ _ _ Hv) as Hl.
  destruct (length ptrs =? length comps)%nat eqn:E1.
  { intros [= <- <- Hm] Hf. apply Nat.eqb_eq in E1. destruct (set_mem_wcoh dc host h w me m Hw) as [W1 S1]; [by rewrite Hm|].
    destruct (Hfetch ptrs sizes res w2 W1 S1 (vt_buf _ _ _ _ _ _ Hv) Hf) as (Hpr & Hlen & Hres). split; [done|]. split; [left; lia|].
    intros q Hq. destruct (Hres q Hq) as (k & p & n & Hk & Hp & Hn & Hin). exists k, [(p, n)]. split; [done|]. split.
    - rewrite <-E1. by apply chunks_single.
    - unfold chunk_bytes. rewrite bind_cons. simpl. by rewrite app_nil_r. }
  apply Nat.eqb_neq in E1. destruct (length comps =? 0)%nat eqn:E2; [done|]. apply Nat.eqb_neq in E2.
  destruct (length ptrs mod length comps =? 0)%nat eqn:E3; [|done]. cbn [negb]. apply Nat.eqb_eq in E3.
  fold (transfer_chunks ptrs sizes (length comps)).
  destruct (pack_pages _ _ _ _) as [packed m1] eqn:Ep. intros [= <- <- <-] Hf.
  destruct (decide (length ptrs = 0)%nat) as [E0|E0].
  { assert (transfer_chunks ptrs sizes (length comps) = []) as Hno by (unfold transfer_chunks; by rewrite E0).
    rewrite Hno in Ep |- *. injection Ep as <- Hm. destruct (set_mem_wcoh dc host h w me m1 Hw) as [W1 S1]; [by rewrite Hm|].
    destruct (Hfetch [] [] res w2 W1 S1) as (Hpr & Hlen & _); [by split|done|]. simpl in Hlen. rewrite Nat.min_0_r in Hlen.
    apply nil_length_inv in Hlen as ->. simpl. split; [done|]. split; [by right|]. intros q Hq. by rewrite lookup_nil in Hq. }
  assert (0 < length ptrs / length comps)%nat as Hn.
  { apply Nat.Div0.mod_divides in E3 as [d Hd]. rewrite Hd, Nat.mul_comm, Nat.div_mul by done. destruct d; lia. }
  assert (length (transfer_chunks ptrs sizes (length comps)) = length comps) as Hlc.
  { unfold transfer_chunks. apply length_page_blocks; [done| |]; rewrite length_zip_with; [|lia].
    apply Nat.Div0.div_exact in E3. lia. }
  destruct (pack_wcoh h w me e ptrs sizes (length comps) packed m1 Hw Hv Hn Ep) as (W1 & S1 & Hpl & Hpk & Hpt).
  destruct (Hfetch packed.*1 packed.*2 res w2 W1 S1 Hpt Hf) as (Hpr & Hlen & Hres). rewrite !length_fmap in Hlen.
  destruct (scatter_pages_spec (transfer_chunks ptrs sizes (length comps)) (mem_of w2 me) packed.*1 res) as (R1 & R2 & _).
  - rewrite length_fmap. lia.
  - lia.
  - apply (chunks_sizes w me); [apply Hv|done|done].
  - intros q q' chunk chunk' a Hq Hq' Ha. rewrite list_lookup_fmap, (Hpk q' chunk' Hq') in Ha. injection Ha as <-.
    destruct (vt_blob _ _ _ _ _ _ Hv q' chunk' Hq') as [_ Hap]. intros b Hb. apply Hap.
    rewrite <-(chunks_concat ptrs sizes (length comps) Hl Hn). apply list_elem_of_In, in_concat. exists chunk.
    rewrite <-!list_elem_of_In. split; [by apply (list_elem_of_lookup_2 _ q)|done].
  - rewrite chunks_concat by done. apply (ptargets_disjoint w me), Hv.
  - destruct (scatter_pages _ _ _ _) as [m3 res']. simpl in R1, R2. subst res'. split; [done|]. split; [left; lia|].
    intros q Hq. destruct (Hres q Hq) as (k & p & n & Hk & Hp & Hsz & Hin).
    destruct (lookup_lt_is_Some_2 (transfer_chunks ptrs sizes (length comps)) q) as [chunk Hch];
      [rewrite Hlc; by eapply lookup_lt_Some|].
    exists k, chunk. split; [done|]. split; [done|]. rewrite (R2 q chunk p Hch Hp Hq).
    rewrite list_lookup_fmap, (Hpk q chunk Hch) in Hsz. injection Hsz as <-. exact Hin.
Qed.

(** What a reported page of a v2 fetch is made of. *)
Definition v2_page_published (h : history) (m : mem) (comps : list string) (mult : nat) (chunks : list (list (Z * Z))) (i : nat) : Prop :=
  ∀ j, (j < mult)%nat → ∃ k chunk, comps !! (i * mult + j)%nat = Some k ∧ chunks !! (i * mult + j)%nat = Some chunk ∧
    (k, chunk_bytes m chunk) ∈ h.

(** C8: A v2 fetch delivers published pages.  In the clusters of
    [cached_get_no_dirty_hit] (no disk tier, no page lost by a pool, directory
    requests that reach their shard), for a call with one transfer, of any pool,
    whose pages consist of any number of host buffers (packed into one object
    per component when there are several): when [batch_get_v2] reports a page,
    the buffers of every component of it hold, one after the other, bytes that
    were published under that component's key. *)
Theorem v2_get_no_dirty_hit (w0 w w' : world) (h : history) (me : string) (es : nat → env) (t : PoolTransfer)
  (ptrs sizes : list Z) (pages : list bool) (c : client)
  (Hinit : fresh_cached w0) (Hreach : rtc cached_step ([], w0) (h, w))
  (Hme : w_clients w !! me = Some c) (Hmode : is_slotmap (c_cfg c) = false) (Htier : is_Some (w_tiers w !! me))
  (Hmeta : tr_meta t = Some (ptrs, sizes))
  (Hbuf : v2_target w me (es 0%nat) ptrs sizes (length (transfer_keys w me t).1))
  (Hget : batch_get_v2 w me es [t] = (Ret [(tr_name t, pages)], w')) :
  ∀ i, pages !! i = Some true →
    v2_page_published h (mem_of w' me) (transfer_keys w me t).1 (transfer_keys w me t).2
      (transfer_chunks ptrs sizes (length (transfer_keys w me t).1)) i.
Proof.
  pose proof (cached_reachable w0 h w Hinit Hreach) as Hw. unfold batch_get_v2 in Hget. cbn [each_transfer] in Hget.
  unfold get_transfer, transfer_buffers in Hget. rewrite Hmeta in Hget.
  assert ((length (transfer_keys w me t).1 = length (default [] (tr_keys t)) * (transfer_keys w me t).2)%nat ∧
    (0 < (transfer_keys w me t).2)%nat) as [Hlen Hm] by apply v2_keys_length.
  destruct (transfer_keys w me t) as [comps mult]. cbn [fst snd] in *.
  destruct (_pack_multi_buffer (mem_of w me) (e_place (es 0%nat)) comps ptrs sizes) as [[[pp ps]|x] m] eqn:Ep; [|done].
  unfold _fetch in Hget. destruct (set_mem_of_fields w me m) as (_ & F2 & _). rewrite F2, Hme, Hmode in Hget.
  destruct (_fetch_directory (set_mem_of w me m) me (es 0%nat) comps pp ps) as [res w2] eqn:Ef.
  pose proof (transfer_fetch h w me (es 0%nat) comps ptrs sizes pp ps m res w2 Hw ltac:(by eexists) Htier Hbuf Ep Ef) as Hsc.
  cbn [from_option id] in Hget. destruct (_scatter_multi_buffer (mem_of w2 me) comps ptrs sizes pp res) as [m3 res'].
  destruct Hsc as (Hpr & Hl' & Hres). injection Hget as <- <-. intros i Hi.
  destruct Hl' as [Hl'| ->]; [|done]. destruct (page_true res' mult i _ Hm ltac:(by rewrite Hl', Hlen) Hi) as [_ Hp].
  intros j Hj. rewrite mem_of_set_mem_eq; [by apply Hres, Hp|done].
Qed.
End api.

(** ** A probe, then a fetch *)

Module ApiExamples.
Import ExampleHash RingExamples RuntimeExamples.
Import P2PExamples.

(** Node [a] publishes the component of page [x]; node [b] finds it, and keeps
    its location. *)
Definition pub_x : pyres (list bool) * world := publish_local_pool w1 "a" env0 ["x__k"] [16] [2] true.
Definition probed : pyres (nat * list (string * nat)) * world := batch_exists_v2 pub_x.2 "b" env0 ["x__k"] [].
Definition got_x : pyres (list bool) * world := batch_get_v1 probed.2 "b" env0 ["x"] (Some ([64], [2])).

Example probe_primes : (λ c, size (c_primed c)) <$> w_clients probed.2 !! "b" = Some 1%nat.
Proof. vm_compute. reflexivity. Qed.

Lemma w1_tiers : w_tiers w1 = w_tiers w0.
Proof. exact (proj1 (set_mem_of_fields w0 "a" (mem_write (mem_of w0 "a") 16 [7; 7]))). Qed.

Lemma no_page w n k a len : w_tiers w = w_tiers w0 → page_at w n k a len → False.
Proof.
  intros Hw (t & p & Ht & Hp & b & Hb & _). rewrite Hw in Ht. apply w0_tiers in Ht as [_ ->]. injection Hp as <-. done.
Qed.

Lemma w0_cold : fresh_cached dc0 rails w0.
Proof.
  split; [exact w0_fresh_net|]. intros n c Hc. simpl in Hc. apply lookup_insert_Some in Hc as [[_ <-]|[_ Hc]]; [done|].
  by apply lookup_singleton_Some in Hc as [_ <-].
Qed.

Lemma probed_reach : rtc (cached_step (λ _, 2)) ([], w0) (sources w1 "a" ["x__k"] [16] [2], probed.2).
Proof.
  eapply rtc_l; [|eapply rtc_l; [|eapply rtc_once]].
  - eapply (NodeStep _ ([], w0) ([], w1)).
    + apply (AppStep _ _ _ "a" (mem_write (mem_of w0 "a") 16 [7; 7])).
      intros x b c k ks. rewrite (place_a w0) by by left. intros [= <- <- _ _] Hx. apply mem_write_out.
      change (zlength [7; 7]) with 2. lia.
    + intros n k a len Hp. by destruct (no_page w0 n k a len eq_refl Hp).
  - eapply (NodeStep _ _ (sources w1 "a" ["x__k"] [16] [2], pub_x.2)).
    + apply (PubStep _ [] w1 "a" env0 ["x__k"] [16] [2] true pub_x.1 pub_x.2).
      * intros [|i] p n; [|done]. intros [= <-] [= <-]. split; [lia|exact p2p_source].
      * intros k d Hd. unfold sources in Hd. simpl in Hd. apply list_elem_of_singleton in Hd. injection Hd as _ ->. reflexivity.
      * unfold pub_x. by destruct (publish_local_pool w1 "a" env0 _ _ _ _).
    + intros n k a len Hp. by destruct (no_page w1 n k a len w1_tiers Hp).
  - apply (ProbeStep _ _ pub_x.2 "b" env0 ["x__k"] [] probed.1 probed.2).
    + assert (is_slotmap ∘ c_cfg <$> w_clients pub_x.2 !! "b" = Some false) as H by (vm_compute; reflexivity).
      intros c Hc. rewrite Hc in H. by injection H.
    + unfold probed. by destruct (batch_exists_v2 pub_x.2 "b" env0 _ _).
Qed.

Lemma probed_targets : ptargets probed.2 "b" [64] [2].
Proof.
  split.
  - intros [|i] p n; [|done]. intros [= <-] [= <-]. split; [lia|]. intros b c k ks.
    assert (place probed.2 "b" = Some (1024, 2, 0, [0])) as -> by (vm_compute; reflexivity).
    intros [= <- <- _ _]. right. lia.
  - intros [|i] [|j] p n p' n' Hij H1 H2 H3 H4; [lia|discriminate H3|discriminate H1|discriminate H1].
Qed.

Lemma got_x_eq : batch_get_v1 probed.2 "b" env0 ["x"] (Some ([64], [2])) = (Ret [true], got_x.2).
Proof.
  assert (got_x.1 = Ret [true]) as H by (vm_compute; reflexivity). rewrite <-H. unfold got_x.
  by destruct (batch_get_v1 probed.2 "b" env0 _ _).
Qed.

Lemma cached_get_no_dirty_hit_witness :
  ("x__k", mem_read (mem_of got_x.2 "b") 64 2) ∈ sources w1 "a" ["x__k"] [16] [2].
Proof.
  assert (∃ c, w_clients probed.2 !! "b" = Some c ∧ is_slotmap (c_cfg c) = false ∧
    _component_keys (c_naming c) ["x"] = (["x__k"], 1%nat)) as (c & Hc & Hm & Hk).
  { eexists. split; [vm_compute; reflexivity|]. split; vm_compute; reflexivity. }
  pose proof (cached_get_no_dirty_hit dc0 rails (λ _, 2) w0 probed.2 got_x.2 _ "b" env0 ["x"] [64] [2] [true] c
    w0_cold probed_reach Hc Hm ltac:(vm_compute; eexists; reflexivity) probed_targets got_x_eq 0 eq_refl) as H.
  rewrite Hk in H. destruct (H 0%nat ltac:(simpl; lia)) as (k & p & n & H1 & H2 & H3 & Hin).
  injection H1 as <-. injection H2 as <-. injection H3 as <-. exact Hin.
Defined.

(** Page [x] once more, scattered into two buffers of one byte; it travels as
    one object at address 96. *)
Definition two_buffers : PoolTransfer := mk_transfer "kv" (Some ["x"]) (Some ([64; 80], [1; 1])) false true.
Definition env96 : env := mk_env 100 1 (λ _, AReply) (λ _, AReply) (λ _, 96).
Definition got_v2 : pyres (list (string * list bool)) * world := batch_get_v2 probed.2 "b" (λ _, env96) [two_buffers].

Lemma got_v2_eq : batch_get_v2 probed.2 "b" (λ _, env96) [two_buffers] = (Ret [("kv", [true])], got_v2.2).
Proof.
  assert (got_v2.1 = Ret [("kv", [true])]) as H by (vm_compute; reflexivity). rewrite <-H. unfold got_v2.
  by destruct (batch_get_v2 probed.2 "b" _ _).
Qed.

Lemma two_buffers_target : v2_target probed.2 "b" env96 [64; 80] [1; 1] 1.
Proof.
  assert (place probed.2 "b" = Some (1024, 2, 0, [0])) as Hpl by (vm_compute; reflexivity).
  assert (∀ q chunk, transfer_chunks [64; 80] [1; 1] 1 !! q = Some chunk → q = 0%nat ∧ chunk = [(64, 1); (80, 1)]) as Hch.
  { assert (transfer_chunks [64; 80] [1; 1] 1 = [[(64, 1); (80, 1)]]) as -> by reflexivity. clear.
    intros [|q] chunk; cbn; [intros [= <-]; by split|discriminate]. }
  split.
  - reflexivity.
  - split.
    + intros [|[|i]] p n; [intros [= <-] [= <-]|intros [= <-] [= <-]|done];
        (split; [lia|]; intros b c k ks; rewrite Hpl; intros [= <- <- _ _]; unfold ranges_disjoint; lia).
    + clear. intros [|[|i]] [|[|j]] p n p' n' Hij H1 H2 H3 H4; try lia; try discriminate H1; try discriminate H3.
      injection H1 as <-. injection H2 as <-. injection H3 as <-. injection H4 as <-. unfold ranges_disjoint. lia.
  - intros q chunk [-> ->]%Hch. split.
    + intros b c k ks. rewrite Hpl. intros [= <- <- _ _]. unfold ranges_disjoint, chunk_size. simpl. lia.
    + intros b Hb. unfold ranges_disjoint. change (zip [64; 80] [1; 1]) with [(64, 1); (80, 1)] in Hb.
      set_unfold in Hb. destruct_or! Hb; subst b; simpl; lia.
  - intros q q' chunk chunk' Hq [-> _]%Hch [-> _]%Hch. lia.
Qed.

Lemma v2_get_no_dirty_hit_witness :
  ("x__k", chunk_bytes (mem_of got_v2.2 "b") [(64, 1); (80, 1)]) ∈ sources w1 "a" ["x__k"] [16] [2].
Proof.
  assert (∃ c, w_clients probed.2 !! "b" = Some c ∧ is_slotmap (c_cfg c) = false) as (c & Hc & Hm)
    by (eexists; split; vm_compute; reflexivity).
  assert (transfer_keys probed.2 "b" two_buffers = (["x__k"], 1%nat)) as Hk by (vm_compute; reflexivity).
  pose proof (v2_get_no_dirty_hit dc0 rails (λ _, 2) w0 probed.2 got_v2.2 _ "b" (λ _, env96) two_buffers [64; 80] [1; 1] [true] c
    w0_cold probed_reach Hc Hm ltac:(vm_compute; eexists; reflexivity) eq_refl
    ltac:(rewrite Hk; exact two_buffers_target) got_v2_eq 0 eq_refl) as H.
  rewrite Hk in H. destruct (H 0%nat ltac:(simpl; lia)) as (k & chunk & H1 & H2 & Hin).
  injection H1 as <-. vm_compute in H2. injection H2 as <-. exact Hin.
Defined.
End ApiExamples.
