(* ===== verification/Stats.v ===== *)
(** [PeerCacheStore.get_stats]: the four samples the serving engine polls.

    The bandwidths are kept as [(bytes, nanoseconds)]; the clock is an
    argument. *)
From S2P Require Import Prelude Bytes Hashlib HashRing Types Rpc Directory Runtime Pool DiskStore Transport Config Metrics Keys Tier Coherence StorageServer World SlotStore SlotSafety Store StoreV2 P2P P2PSteps P2PVisible Incoherence.

Record StorageMetrics := mk_stats {
  sm_prefetch_pgs : list Z;
  sm_backup_pgs : list Z;
  sm_prefetch_bandwidth : list (Z * Z);
  sm_backup_bandwidth : list (Z * Z)
}.

(** [max(1e-9, time.time() - self._metrics._start)], in nanoseconds. *)
Definition get_stats (m : Metrics) (uptime_ns : Z) : StorageMetrics :=
  let counters := sn_counters (snapshot m) in
  let get name := default 0 (counters !! name) in
  let elapsed := Z.max 1 uptime_ns in
  mk_stats [get "read_requests"] [get "write_requests"] [(get "bytes_read", elapsed)] [(get "bytes_written", elapsed)].

Section stats.
Context {RH : RingHash} {SI : SetIter} {HL : Hashlib}.

Definition writes (s : local) : Z := counter (t_metrics (l_tier s)) "write_requests".

Lemma count_writes s name n : name ≠ "write_requests" → writes (count s name n) = writes s.
Proof. intros Hn. unfold writes, count. simpl. rewrite counter_inc, decide_False by done. lia. Qed.

Lemma on_pool_evict_writes s ks : writes (_on_pool_evict s ks) = writes s.
Proof.
  unfold _on_pool_evict. set (s1 := count s "evictions" (zlength ks)).
  assert (writes s1 = writes s) as <- by by apply count_writes.
  destruct (t_disk (l_tier s1)); [|done]. by destruct (evicted_entries _ _).
Qed.

Lemma pool_publish_writes s key ptr n : writes (pool_publish s key ptr n).2 = writes s.
Proof.
  unfold pool_publish. destruct (t_pool (l_tier s)) as [p|]; [|done].
  destruct (Pool.publish p (l_mem s) key ptr n) as [[[addr p'] m] ev]. cbn [snd]. destruct ev; [done|].
  by rewrite on_pool_evict_writes.
Qed.

Lemma disk_put_writes s key data : writes (disk_put s key data) = writes s.
Proof. unfold disk_put. destruct (t_disk (l_tier s)) as [d|]; [|done]. by rewrite !count_writes. Qed.

Lemma publish_pages_writes items : ∀ s es rs bytes, writes (publish_pages s items es rs bytes).2 = writes s.
Proof.
  induction items as [|[[[key ptr] size] ex] items IH]; intros s es rs bytes; [done|]. cbn [publish_pages].
  destruct ex; [apply IH|]. pose proof (pool_publish_writes s key ptr size) as Hp.
  destruct (pool_publish s key ptr size) as [[[addr|]|e] s1]; cbn [snd] in Hp; [|by rewrite IH|done].
  set (s2 := disk_put s1 _ _).
  assert (writes (set_key_len s2 (od_set (t_key_len (l_tier s2)) key size)) = writes s) as H2.
  { change (writes (set_key_len s2 ?kl)) with (writes s2). unfold s2. by rewrite disk_put_writes. }
  destruct (t_pool (l_tier (set_key_len s2 _))); [by rewrite IH|done].
Qed.

Lemma reconcile_writes s entries : writes (reconcile s entries).2 = writes s.
Proof.
  unfold reconcile. generalize (od_keys entries). intros ks. revert s entries.
  induction ks as [|k ks IH]; intros s entries; [done|]. cbn [foldl].
  assert (writes (reconcile_one (entries, s) k).2 = writes s) as H1.
  { unfold reconcile_one. destruct (od_get entries k) as [loc|]; [|done]. unfold pool_address.
    destruct (t_pool (l_tier s)) as [p|]; [|done]. by destruct (Pool.address_of p k) as [[[addr n]|] p']. }
  destruct (reconcile_one (entries, s) k) as [es s1]. by rewrite IH.
Qed.

(** A publish counts once, however many pages it has. *)
Lemma publish_counts_once s keys ptrs sizes upd seconds r s' :
  _publish_p2p s keys ptrs sizes upd seconds = (Ret r, s') → writes s' = writes s + 1.
Proof.
  unfold _publish_p2p. destruct (Directory.dir_exists _ _ _) as [existing dir].
  pose proof (publish_pages_writes (zip (zip (zip keys ptrs) sizes) existing) (set_dir s dir) [] [] 0) as Hp.
  destruct (publish_pages _ _ _ _ _) as [[[[entries results] bytes]|e] s1]; [|done]. cbn [snd] in Hp.
  pose proof (reconcile_writes s1 entries) as Hr. destruct (reconcile s1 entries) as [entries2 s2]. cbn [snd] in Hr.
  intros [= _ <-]. set (s3 := match entries2 with [] => s2 | _ => _ end).
  assert (writes s3 = writes s2) as H3 by (unfold s3; by destruct entries2, upd).
  change (writes (set_dir s dir)) with (writes s) in Hp. rewrite <-Hp, <-Hr, <-H3.
  unfold writes. simpl. unfold record_write. rewrite counter_observe, !counter_inc.
  repeat case_decide; done || lia.
Qed.

(** The backup page count counts calls.  Whatever the number of pages of a
    publish, the [backup_pgs] sample of [get_stats] grows by one; and a poll
    that nothing preceded returns the running totals again, not the pages
    since the last poll. *)
Theorem stats_count_calls (s s' : local) (keys : list string) (ptrs sizes : list Z) (upd : bool) (seconds t1 t2 : Z)
  (r : list bool) (Hpub : _publish_p2p s keys ptrs sizes upd seconds = (Ret r, s')) :
  sm_backup_pgs (get_stats (t_metrics (l_tier s')) t1) = [writes s + 1] ∧
  sm_backup_pgs (get_stats (t_metrics (l_tier s')) t2) = [writes s + 1].
Proof.
  assert (∀ t, sm_backup_pgs (get_stats (t_metrics (l_tier s')) t) = [writes s']) as Hg by done.
  rewrite !Hg, (publish_counts_once _ _ _ _ _ _ _ _ Hpub). by split.
Qed.
End stats.

Module StatsExamples.
Import ExampleHash RingExamples RuntimeExamples P2PExamples.

(** Node [a] with room for two pages stores both in one call. *)
Definition two_pages : local :=
  mk_local (tier_of ["a"; "b"] "a" (Some (new_pool 1024 4 0 None)) None) (w_dir w0) (mem_write (λ _, 0) 16 [7; 7; 8; 8]).
Definition after_batch : pyres (list bool) * local := _publish_p2p two_pages ["k1"; "k2"] [16; 18] [2; 2] true 1.

Lemma stats_count_calls_witness :
  after_batch.1 = Ret [true; true] ∧ sm_backup_pgs (get_stats (t_metrics (l_tier after_batch.2)) 5) = [1].
Proof.
  split; [vm_compute; reflexivity|].
  refine (proj1 (stats_count_calls two_pages after_batch.2 ["k1"; "k2"] [16; 18] [2; 2] true 1 5 6 [true; true] _)).
  assert (after_batch.1 = Ret [true; true]) as H by (vm_compute; reflexivity).
  rewrite <-H. unfold after_batch. by destruct (_publish_p2p _ _ _ _ _ _).
Defined.
End StatsExamples.
