(* ===== verification/BenchSweep.v ===== *)
(** The sweeps of the HiCache benchmark ([bench/hicache.py]): how a sweep is
    sized and kept within the memory budget, the loops of the get, set and
    exists workers, the rows it reports, and the modes of the command.

    A sweep's sizes make its numbers mean something: the published working set
    must stay resident and the threads must not share buffers.  Those are the
    theorems here.  Clock readings and the store's answers are inputs, as in
    [Bench.v]; times are in nanoseconds. *)
From S2P Require Import Prelude Bytes Hashlib HashRing Types Rpc Directory Runtime Pool DiskStore Transport Config Metrics Keys Tier Coherence StorageServer World SlotStore SlotSafety Store StoreV2 P2P P2PSteps P2PVisible Incoherence Central Bench Hybrid Api.

(** ** Results of a command *)

(** A benchmark function returns, raises, or leaves with [SystemExit]. *)
Inductive outcome (A : Type) :=
  | Done (a : A)
  | Failed (e : exn)
  | Exit.
Arguments Done {A} _.
Arguments Failed {A} _.
Arguments Exit {A}.

#[export] Instance outcome_bind : MBind outcome := λ A B f m,
  match m with Done a => f a | Failed e => Failed e | Exit => Exit end.
#[export] Instance outcome_ret : MRet outcome := @Done.

Definition of_pyres {A} (r : pyres A) : outcome A := match r with Ret a => Done a | Raise e => Failed e end.

(** ** Sizes *)

(** The double nearest to a non-negative integer. *)
Definition round53 (m : Z) : Z :=
  if m <? 2 ^ 53 then m
  else let e := Z.log2 m - 52 in round_half_even m (2 ^ e) * 2 ^ e.

(** [int(x * 1.3)]: the double nearest to [1.3] is [5854679515581645 / 2^52]. *)
Definition int_times_1_3 (x : Z) : Z := round53 (round53 x * 5854679515581645) / 2 ^ 52.

(** [max(xs)] *)
Definition py_max (xs : list Z) : pyres Z :=
  match xs with [] => Raise ValueError | x :: xs' => Ret (foldl Z.max x xs') end.

(** [a // b] *)
Definition py_floordiv (a b : Z) : pyres Z := if b =? 0 then Raise ZeroDivisionError else Ret (a / b).

(** The options a sweep looks at; [ba_mla] is [args.layout == "mla"]. *)
Record bench_args := mk_args {
  ba_mla : bool;
  ba_page_size : Z;
  ba_batch_size : Z;
  ba_working_set : Z;
  ba_max_bytes : Z;
  ba_tokens_per_page : Z;
  ba_protocol : string;
  ba_warmup : Z;
  ba_duration : Z
}.

Definition _page_total (page_size : Z) (mla : bool) : Z := page_size * (if mla then 1 else 2).

(** [_budget_ok] *)
Definition _budget_ok (total_bytes max_bytes : Z) : outcome unit := if total_bytes >? max_bytes then Exit else Done ().

(** What a sweep allocates: read or source slots, pages published, the pool of
    each node, and the bytes all of it takes. *)
Record sweep_sizes := mk_sizes {
  sz_slots : Z;
  sz_pages : Z;
  sz_seg : Z;
  sz_total : Z
}.

(** The sizing of [run_get]. *)
Definition get_size (slots pt working_set : Z) : sweep_sizes :=
  let seg := int_times_1_3 (working_set * pt) in
  mk_sizes slots working_set seg (2 * seg + slots * pt + working_set * pt).

Definition get_sizes (a : bench_args) (concurrencies : list Z) : outcome sweep_sizes :=
  let pt := _page_total (ba_page_size a) (ba_mla a) in
  let bs := ba_batch_size a in
  max_conc ← of_pyres (py_max concurrencies);
  let slots := max_conc * bs in
  let z := get_size slots pt (Z.max (ba_working_set a) (bs * max_conc * 2)) in
  z ← (if sz_total z >? ba_max_bytes a then
         q ← of_pyres (py_floordiv (ba_max_bytes a) (4 * pt));
         mret (get_size slots pt (Z.max (bs * max_conc) q))
       else mret z);
  _ ← _budget_ok (sz_total z) (ba_max_bytes a); mret z.

(** The sizing of [run_set]. *)
Definition set_size (slots pt resident_pages : Z) : sweep_sizes :=
  let seg := int_times_1_3 (resident_pages * pt) in
  mk_sizes slots resident_pages seg (2 * seg + slots * pt).

Definition set_sizes (a : bench_args) (concurrencies : list Z) : outcome sweep_sizes :=
  let pt := _page_total (ba_page_size a) (ba_mla a) in
  max_conc ← of_pyres (py_max concurrencies);
  let slots := max_conc * ba_batch_size a in
  let z := set_size slots pt (Z.max (slots * 8) 2048) in
  z ← (if sz_total z >? ba_max_bytes a then
         q ← of_pyres (py_floordiv (ba_max_bytes a) (3 * pt));
         mret (set_size slots pt (Z.max slots q))
       else mret z);
  _ ← _budget_ok (sz_total z) (ba_max_bytes a); mret z.

(** The sizing of [run_exists]. *)
Definition exists_sizes (a : bench_args) (concurrencies : list Z) : outcome sweep_sizes :=
  let pt := _page_total (ba_page_size a) (ba_mla a) in
  _ ← of_pyres (py_max concurrencies);
  let working_set := Z.max (ba_working_set a) (ba_batch_size a * 4) in
  let seg := int_times_1_3 (working_set * pt) in
  let z := mk_sizes (ba_batch_size a) working_set seg (2 * seg + working_set * pt) in
  _ ← _budget_ok (sz_total z) (ba_max_bytes a); mret z.

(** *** The factor 1.3 *)

(** Rounding to a double loses at most one part in [2 ^ 53]. *)
Lemma round53_low m : 0 ≤ m → (2 ^ 53 - 1) * m ≤ 2 ^ 53 * round53 m ∧ 0 ≤ round53 m.
Proof.
  intros Hm. unfold round53. destruct (Z.ltb_spec m (2 ^ 53)) as [|Hbig]; [lia|].
  pose proof (Z.log2_spec m ltac:(lia)) as [Hl _].
  assert (53 ≤ Z.log2 m) as Hlg by (apply Z.log2_le_pow2; lia).
  set (e := Z.log2 m - 52) in *. assert (2 ^ Z.log2 m = 2 ^ 52 * 2 ^ e) as He.
  { rewrite <-Z.pow_add_r by lia. f_equal. lia. }
  assert (0 < 2 ^ e) as Hpos by (apply Z.pow_pos_nonneg; lia).
  assert (2 * m - 2 ^ e ≤ 2 * (round_half_even m (2 ^ e) * 2 ^ e)) as Hr.
  { unfold round_half_even. pose proof (Z.div_mod m (2 ^ e) ltac:(lia)) as Hd.
    pose proof (Z.mod_pos_bound m (2 ^ e) ltac:(lia)) as Hb.
    destruct (Z.ltb_spec (2 * (m mod 2 ^ e)) (2 ^ e)); [nia|].
    destruct (2 * (m mod 2 ^ e) >? 2 ^ e) eqn:E; [nia|]. rewrite Z.gtb_ltb, Z.ltb_ge in E.
    destruct (Z.even _); nia. }
  split; nia.
Qed.

(** The product never falls short of its argument. *)
Lemma int_times_1_3_ge x : 0 ≤ x → x ≤ int_times_1_3 x.
Proof.
  intros Hx. destruct (round53_low x Hx) as [H1 H1'].
  destruct (round53_low (round53 x * 5854679515581645) ltac:(lia)) as [H2 _].
  unfold int_times_1_3. apply Z.div_le_lower_bound; [done|]. lia.
Qed.

Lemma py_max_spec xs m : py_max xs = Ret m → (∀ x, x ∈ xs → x ≤ m) ∧ m ∈ xs.
Proof.
  destruct xs as [|x xs]; [done|]. intros [= <-]. revert x.
  induction xs as [|y xs IH]; intros x; simpl; [split; [|left]; intros z ?%list_elem_of_singleton; lia|].
  destruct (IH (Z.max x y)) as [H1 H2]. split.
  - intros z [->|[->|Hz]%elem_of_cons]%elem_of_cons; [..|apply H1; by right]; pose proof (H1 (Z.max x y) ltac:(left)); lia.
  - apply elem_of_cons in H2 as [->|H2]; [|by right; right]. destruct (Z.max_spec x y) as [[_ ->]|[_ ->]]; [right; left|left].
Qed.

(** ** Buffers and keys of a worker *)

(** [list(range(base, base + bs))] *)
Definition worker_slots (tid bs : Z) : list Z := seqZ (tid * bs) bs.

Definition get_keys (working_set : Z) : list string := (λ i, "pcbench/get/" +:+ pretty i) <$> seqZ 0 working_set.
Definition set_keys (tid r bs : Z) : list string :=
  (λ j, "pcbench/set/" +:+ pretty tid +:+ "/" +:+ pretty r +:+ "/" +:+ pretty j) <$> seqZ 0 bs.

Lemma get_keys_nodup ws : NoDup (get_keys ws).
Proof.
  apply NoDup_fmap_2_strong; [|apply NoDup_seqZ]. intros i j _ _ H. apply str_app_inj_l in H. by apply (inj pretty) in H.
Qed.

Lemma length_get_keys ws : 0 ≤ ws → zlength (get_keys ws) = ws.
Proof. intros. unfold zlength, get_keys. rewrite length_fmap, length_seqZ. lia. Qed.

Lemma nodup_omap {A B} (f : A → option B) (l : list A) :
  (∀ x y z, x ∈ l → y ∈ l → f x = Some z → f y = Some z → x = y) → NoDup l → NoDup (omap f l).
Proof.
  intros Hinj. induction 1 as [|x l Hx Hnd IH]; [constructor|]. csimpl.
  assert (NoDup (omap f l)) as Hl by (apply IH; intros; eapply Hinj; [by right|by right|done|done]).
  destruct (f x) as [z|] eqn:Ez; [|done]. constructor; [|done].
  intros (y & Hy & Hfy)%list_elem_of_omap. apply Hx. by rewrite (Hinj x y z ltac:(left) ltac:(by right) Ez Hfy).
Qed.

(** The keys of one turn are distinct when the batch is no larger than the
    working set. *)
Lemma turn_keys_nodup keys tid r bs : NoDup keys → bs ≤ zlength keys → NoDup (turn_keys keys tid r bs).
Proof.
  intros Hnd Hbs. unfold turn_keys. set (ws := zlength keys) in *. set (k := (tid * 7919 + r * bs) mod ws).
  apply nodup_omap; [|apply NoDup_seqZ]. intros i j x Hi%elem_of_seqZ Hj%elem_of_seqZ Ei Ej.
  pose proof (NoDup_lookup _ _ _ _ Hnd Ei Ej) as He.
  pose proof (Z.mod_pos_bound (k + i) ws ltac:(lia)). pose proof (Z.mod_pos_bound (k + j) ws ltac:(lia)).
  assert ((k + i) mod ws = (k + j) mod ws) as Hm by lia.
  pose proof (Z.div_mod (k + i) ws ltac:(lia)). pose proof (Z.div_mod (k + j) ws ltac:(lia)).
  assert ((k + i) / ws = (k + j) / ws); nia.
Qed.

(** ** Publishing the working set *)

(** The pool operations behind the chunked [batch_set_v1] calls of a producer:
    one [publish] per object, all of [len] bytes; the keys evicted on the way. *)
Fixpoint publish_all (p : PublishedPool) (m : mem) (len : Z) (items : list (string * Z)) :
    list (option Z) * PublishedPool * mem * list string :=
  match items with
  | [] => ([], p, m, [])
  | (key, ptr) :: items' =>
      let '(addr, p, m, ev) := Pool.publish p m key ptr len in
      let '(addrs, p, m, evs) := publish_all p m len items' in (addr :: addrs, p, m, ev ++ evs)
  end.

(** While the bump pointer has room and nothing was freed, pages go one after
    the other and nothing is evicted. *)
Lemma publish_all_fits len items : ∀ p m,
  0 ≤ len → p_free p = ∅ → NoDup (od_keys (p_entries p) ++ items.*1) → 0 ≤ p_next_offset p →
  p_next_offset p + zlength items * len ≤ p_capacity p →
  ∃ addrs p' m', publish_all p m len items = (addrs, p', m', []) ∧
    od_keys (p_entries p') = od_keys (p_entries p) ++ items.*1 ∧ Forall is_Some addrs.
Proof.
  induction items as [|[key ptr] items IH]; intros p m Hlen Hfree Hnd Hpos Hcap.
  { exists [], p, m. split; [done|]. split; [by rewrite app_nil_r|constructor]. }
  cbn [publish_all fmap list_fmap fst] in *. unfold zlength in Hcap. cbn [length] in Hcap.
  assert (od_get (p_entries p) key = None) as Hk.
  { apply od_get_None. intros Hin. apply NoDup_app in Hnd as (_ & Hd & _). apply (Hd key Hin). left. }
  assert (Pool.publish p m key ptr len =
    (Some (p_base p + p_next_offset p),
     add_entry (mk_pool (p_base p) (p_capacity p) (p_rkey p) (p_rkeys p) (p_next_offset p + len) (p_free p) (p_entries p) (p_used p))
       key (p_next_offset p) len, memmove m (p_base p + p_next_offset p) ptr len, [])) as ->.
  { unfold Pool.publish, _allocate. rewrite Hk, Hfree, lookup_empty. cbn [default pop_last].
    rewrite Z.gtb_ltb, (proj2 (Z.ltb_ge _ _)) by nia. cbn. rewrite (proj2 (Z.leb_le _ _)) by nia. done. }
  set (p1 := add_entry _ _ _ _).
  assert (od_keys (p_entries p1) = od_keys (p_entries p) ++ [key]) as Hkeys.
  { unfold p1, add_entry. simpl. rewrite od_move_set_fresh by done. unfold od_keys. by rewrite fmap_app. }
  destruct (IH p1 (memmove m (p_base p + p_next_offset p) ptr len)) as (addrs & p' & m' & Hp & Hes & Hall).
  - done.
  - done.
  - rewrite Hkeys, <-app_assoc. done.
  - simpl. lia.
  - simpl. unfold zlength. lia.
  - rewrite Hp. eexists _, p', m'. split; [done|]. split; [|by constructor; [eexists|]].
    by rewrite Hes, Hkeys, <-app_assoc.
Qed.

(** The sizes [get_sizes] accepts. *)
Lemma get_sizes_spec a concs z :
  get_sizes a concs = Done z →
  let pt := _page_total (ba_page_size a) (ba_mla a) in
  ∃ max_conc, py_max concs = Ret max_conc ∧ sz_slots z = max_conc * ba_batch_size a ∧
    sz_seg z = int_times_1_3 (sz_pages z * pt) ∧ sz_total z = 2 * sz_seg z + sz_slots z * pt + sz_pages z * pt ∧
    sz_total z ≤ ba_max_bytes a ∧ (0 ≤ ba_batch_size a * max_conc → ba_batch_size a * max_conc ≤ sz_pages z).
Proof.
  cbv zeta. unfold get_sizes. destruct (py_max concs) as [mc|e] eqn:Em; [|done]. cbn [of_pyres mbind outcome_bind].
  set (z1 := get_size _ _ (Z.max (ba_working_set a) _)).
  assert (∀ z2 ws, z2 = get_size (mc * ba_batch_size a) (_page_total (ba_page_size a) (ba_mla a)) ws →
    (0 ≤ ba_batch_size a * mc → ba_batch_size a * mc ≤ ws) →
    (_ ← _budget_ok (sz_total z2) (ba_max_bytes a); mret z2) = Done z → ∃ max_conc, Ret mc = Ret max_conc ∧
      sz_slots z = max_conc * ba_batch_size a ∧ sz_seg z = int_times_1_3 (sz_pages z * _page_total (ba_page_size a) (ba_mla a)) ∧
      sz_total z = 2 * sz_seg z + sz_slots z * _page_total (ba_page_size a) (ba_mla a) +
        sz_pages z * _page_total (ba_page_size a) (ba_mla a) ∧
      sz_total z ≤ ba_max_bytes a ∧ (0 ≤ ba_batch_size a * max_conc → ba_batch_size a * max_conc ≤ sz_pages z)) as Hok.
  { intros z2 ws Hz2 Hws. unfold _budget_ok. destruct (sz_total z2 >? ba_max_bytes a) eqn:E; [done|].
    rewrite Z.gtb_ltb, Z.ltb_ge in E. intros [= <-]. subst z2. exists mc. by repeat (split; [done|]). }
  destruct (sz_total z1 >? ba_max_bytes a).
  - unfold py_floordiv. destruct (4 * _ =? 0); [done|]. cbn [of_pyres mbind outcome_bind mret outcome_ret].
    eapply Hok; [reflexivity|lia].
  - eapply Hok; [reflexivity|lia].
Qed.

Lemma worker_slots_range tid bs i : i ∈ worker_slots tid bs ↔ tid * bs ≤ i < tid * bs + bs.
Proof. unfold worker_slots. by rewrite elem_of_seqZ. Qed.

(** C40: a get sweep that starts measures what it says.  When the sizing is
    accepted: everything fits in the budget; every thread of every point reads
    into slots of the consumer's buffer that no other thread of the point
    uses; the keys of a turn are distinct; and the producer's pool holds the
    whole published working set, so that no page is evicted before it is
    read. *)
Theorem get_sweep_sound (a : bench_args) (concs : list Z) (z : sweep_sizes)
  (Hz : get_sizes a concs = Done z) (Hbs : 0 < ba_batch_size a) (Hpage : 0 < ba_page_size a)
  (Hconc : Forall (λ c, 1 ≤ c) concs) :
  let pt := _page_total (ba_page_size a) (ba_mla a) in
  2 * sz_seg z + sz_slots z * pt + sz_pages z * pt ≤ ba_max_bytes a ∧
  (∀ conc tid tid', conc ∈ concs → 0 ≤ tid < conc → 0 ≤ tid' < conc →
    (∀ i, i ∈ worker_slots tid (ba_batch_size a) → 0 ≤ i < sz_slots z) ∧
    (tid ≠ tid' → worker_slots tid (ba_batch_size a) ## worker_slots tid' (ba_batch_size a))) ∧
  (∀ tid r, NoDup (turn_keys (get_keys (sz_pages z)) tid r (ba_batch_size a))) ∧
  (∀ base m items, NoDup items.*1 → zlength items * ba_page_size a = sz_pages z * pt →
    ∃ addrs p m', publish_all (new_pool base (sz_seg z) 0 None) m (ba_page_size a) items = (addrs, p, m', []) ∧
      od_keys (p_entries p) = items.*1).
Proof.
  intros pt. destruct (get_sizes_spec a concs z Hz) as (mc & Hm & Hs & Hseg & Ht & Hb & Hws). fold pt in Hseg, Ht.
  apply py_max_spec in Hm as [Hmax Hin]. rewrite Forall_forall in Hconc. pose proof (Hconc mc Hin) as Hmc. simpl in Hmc.
  specialize (Hws ltac:(nia)). assert (0 ≤ pt) as Hpt by (unfold pt, _page_total; destruct (ba_mla a); lia).
  split; [lia|]. split.
  { intros conc tid tid' Hc H1 H2. pose proof (Hmax conc Hc). split.
    - intros i Hi%worker_slots_range. rewrite Hs. nia.
    - intros Hne i Hi%worker_slots_range Hi'%worker_slots_range. nia. }
  split.
  { intros tid r. apply turn_keys_nodup; [apply get_keys_nodup|]. rewrite length_get_keys by nia. nia. }
  intros base m items Hnd Hlen.
  destruct (publish_all_fits (ba_page_size a) items (new_pool base (sz_seg z) 0 None) m) as (addrs & p & m' & Hp & He & _).
  - lia.
  - done.
  - done.
  - done.
  - cbn [new_pool p_next_offset p_capacity]. rewrite Hseg, Hlen. pose proof (int_times_1_3_ge (sz_pages z * pt) ltac:(nia)). lia.
  - by exists addrs, p, m'.
Qed.

(** ** The set worker *)

Section set_worker.
Context {LG : Log10}.

(** One turn of the worker of [run_set], on the batch of keys it makes up. *)
Definition set_turn (tid bs component_count page_total warm_end : Z) (t : tally) (x : turn) : tally :=
  let measuring := ta_measuring t || (warm_end <=? tn_now x) in
  let n := zlength (List.filter id (tn_answer x (set_keys tid (ta_r t) bs))) in
  if measuring then
    mk_tally (ta_ops t + n * component_count) (ta_by t + n * page_total) (ta_pages t + n) (ta_hits t + n)
      (ta_calls t + 1) (record (ta_hist t) (tn_ns x)) (ta_r t + 1) true
  else mk_tally (ta_ops t) (ta_by t) (ta_pages t) (ta_hits t) (ta_calls t) (ta_hist t) (ta_r t + 1) false.

Fixpoint set_worker (tid bs component_count page_total warm_end end_ : Z) (t : tally) (turns : list turn) : tally :=
  match turns with
  | [] => t
  | x :: turns' =>
      if end_ <=? tn_now x then t
      else set_worker tid bs component_count page_total warm_end end_
             (set_turn tid bs component_count page_total warm_end t x) turns'
  end.

(** The worker of [run_exists]: [tn_answer] flags the pages of the contiguous
    prefix the store reports, so that their number is what [batch_exists]
    returns. *)
Definition exists_turn (keys : list string) (tid bs warm_end : Z) (t : tally) (x : turn) : tally :=
  let measuring := ta_measuring t || (warm_end <=? tn_now x) in
  let n := zlength (List.filter id (tn_answer x (turn_keys keys tid (ta_r t) bs))) in
  if measuring then
    mk_tally 0 0 (ta_pages t + bs) (ta_hits t + n) (ta_calls t + 1) (record (ta_hist t) (tn_ns x)) (ta_r t + 1) true
  else mk_tally 0 0 (ta_pages t) (ta_hits t) (ta_calls t) (ta_hist t) (ta_r t + 1) false.

Fixpoint exists_worker (keys : list string) (tid bs warm_end end_ : Z) (t : tally) (turns : list turn) : tally :=
  match turns with
  | [] => t
  | x :: turns' =>
      if end_ <=? tn_now x then t
      else exists_worker keys tid bs warm_end end_ (exists_turn keys tid bs warm_end t x) turns'
  end.

(** The key lists a set worker passes to the store, turn by turn. *)
Fixpoint set_calls (tid bs end_ : Z) (r : Z) (turns : list turn) : list (list string) :=
  match turns with
  | [] => []
  | x :: turns' => if end_ <=? tn_now x then [] else set_keys tid r bs :: set_calls tid bs end_ (r + 1) turns'
  end.

Lemma set_calls_lookup tid bs end_ turns r i ks :
  set_calls tid bs end_ r turns !! i = Some ks → ks = set_keys tid (r + Z.of_nat i) bs.
Proof.
  revert r i. induction turns as [|x turns IH]; intros r i; [done|]. simpl. destruct (end_ <=? tn_now x); [done|].
  destruct i as [|i]; simpl; [intros [= <-]; by rewrite Z.add_0_r|]. intros ->%IH. f_equal. lia.
Qed.
End set_worker.

(** *** Fresh keys *)

Definition slash : Ascii.ascii := Ascii.ascii_of_N 47.
Definition digit (c : Ascii.ascii) : Prop := is_Some (digit_val c).

Lemma split1_app c a b : str_all (λ x, x ≠ c) a → split1 c (a +:+ String c b) = Some (a, b).
Proof.
  induction a as [|x a IH]; simpl; [by rewrite bool_decide_eq_true_2|]. intros [Hx Ha].
  rewrite bool_decide_eq_false_2 by done. by rewrite IH.
Qed.

Lemma pretty_N_go_digit n s : str_all digit s → str_all digit (pretty_N_go n s).
Proof.
  revert s. induction (N.lt_wf_0 n) as [n _ IH]. intros s Hs.
  destruct (decide (n = 0%N)) as [->|Hn]; [by rewrite pretty_N_go_0|]. rewrite pretty_N_go_step by lia.
  apply IH; [apply N.div_lt; lia|]. split; [|done]. unfold digit.
  rewrite pretty_N_char_digit by (apply N.mod_lt; lia). by eexists.
Qed.

Lemma pretty_no_slash z : 0 ≤ z → str_all (λ x, x ≠ slash) (pretty z).
Proof.
  intros Hz. apply (str_all_mono digit); [by intros c [d Hd] ->|].
  destruct z as [|p|p]; [by split; [eexists|]| |lia]. apply (pretty_N_go_digit (N.pos p) ""). done.
Qed.

(** The position of a key in the sweep can be read off it. *)
Lemma set_key_inj (t r j t' r' j' : Z) :
  0 ≤ t → 0 ≤ r → 0 ≤ t' → 0 ≤ r' →
  pretty t +:+ "/" +:+ pretty r +:+ "/" +:+ pretty j = pretty t' +:+ "/" +:+ pretty r' +:+ "/" +:+ pretty j' →
  t = t' ∧ r = r' ∧ j = j'.
Proof.
  intros Ht Hr Ht' Hr' H.
  assert (∀ a, "/" +:+ a = String slash a) as Hs by done.
  apply (f_equal (split1 slash)) in H.
  rewrite !Hs, !split1_app in H by by apply pretty_no_slash. injection H as H1 H2.
  apply (f_equal (split1 slash)) in H2. rewrite !split1_app in H2 by by apply pretty_no_slash. injection H2 as H2 H3.
  split; [by apply (inj pretty)|]. split; by apply (inj pretty).
Qed.

Lemma set_keys_elem k tid r bs :
  k ∈ set_keys tid r bs ↔
  ∃ j, k = ("pcbench/set/" +:+ (pretty tid +:+ "/" +:+ pretty r +:+ "/" +:+ pretty j))%string ∧ 0 ≤ j < bs.
Proof. unfold set_keys. rewrite list_elem_of_fmap. setoid_rewrite elem_of_seqZ. done. Qed.

(** The keys of different turns or threads of one point have nothing in
    common. *)
Lemma set_keys_disjoint tid r tid' r' bs :
  0 ≤ tid → 0 ≤ r → 0 ≤ tid' → 0 ≤ r' → (tid, r) ≠ (tid', r') → set_keys tid r bs ## set_keys tid' r' bs.
Proof.
  intros H1 H2 H3 H4 Hne k (j & Hk & _)%set_keys_elem (j' & Hk' & _)%set_keys_elem.
  rewrite Hk in Hk'. apply str_app_inj_l in Hk'. apply set_key_inj in Hk' as (-> & -> & _); done.
Qed.

Lemma set_keys_nodup tid r bs : 0 ≤ tid → 0 ≤ r → NoDup (set_keys tid r bs).
Proof.
  intros H1 H2. apply NoDup_fmap_2_strong; [|apply NoDup_seqZ]. intros i j _ _ H.
  apply str_app_inj_l in H. by apply set_key_inj in H as (_ & _ & ->).
Qed.

Lemma page_results_all_true n mult :
  (0 < mult)%nat → _page_results (replicate (n * mult) true) mult = replicate n true.
Proof.
  intros Hm. unfold _page_results. rewrite length_replicate.
  assert (length (replicate (n * mult) true) = n * mult)%nat as Hl by apply length_replicate.
  apply list_eq. intros i. rewrite list_lookup_fmap.
  destruct (decide (i < n)%nat) as [Hi|Hi].
  - rewrite (page_blocks_lookup _ mult n) by (done || lia). rewrite lookup_replicate_2 by done. simpl. f_equal.
    apply forallb_forall. intros b Hb%list_elem_of_In. apply elem_of_take in Hb as (j & Hb & _).
    rewrite lookup_drop in Hb. by apply lookup_replicate in Hb as [-> _].
  - rewrite !lookup_ge_None_2; [done|rewrite length_replicate; lia|]. rewrite (length_page_blocks _ mult n) by (done || lia). lia.
Qed.

Section set_sweep.
Context {LG : Log10} {RH : RingHash} {SI : SetIter} {HL : Hashlib}.

(** Storing pages whose objects the directory lists: a node in the
    peer-to-peer mode reports success and copies nothing. *)
Lemma set_listed w me e keys ptrs sizes c t pr :
  w_clients w !! me = Some c → field (c_cfg c) "mode" = VStr "p2p" → w_tiers w !! me = Some t → f_procs (w_fab w) !! me = Some pr →
  let comp := _component_keys (c_naming c) keys in
  length ptrs = length comp.1 → length sizes = length comp.1 →
  Forall (λ k, exists_answer (t_dc t) (w_dir w) k = true) comp.1 →
  batch_set_v1 w me e keys (Some (ptrs, sizes)) =
    (Ret (replicate (length keys) true), meter w me (λ mt, record_write mt 0 (e_seconds e))).
Proof.
  intros Hc Hmode Ht Hp comp H1 H2 Hex. unfold batch_set_v1, v1_call, naming_of. rewrite Hc.
  destruct (component_keys_length (c_naming c) keys) as [Hl Hm]. fold comp in Hl, Hm. fold comp.
  destruct comp as [ks mult] eqn:Ecomp. cbn [fst snd] in *. rewrite H1, H2, Nat.eqb_refl. cbn [andb negb].
  unfold _publish. rewrite Hc, Ht, Hmode. change (one_of (VStr "p2p") ["slotmap"]) with false.
  change (one_of (VStr "p2p") ["p2p"]) with true. cbv iota. unfold publish_local_pool, meter, run_local.
  assert (local_of w me = Some (mk_local t (w_dir w) (pr_mem pr))) as -> by (unfold local_of; rewrite Ht; simpl; by rewrite Hp).
  rewrite publish_listed by done. rewrite Hl, page_results_all_true by done. done.
Qed.

(** The set sweep writes its keys again.  Within one point of a set sweep
    the keys of every call are new: no two turns or threads share one, and the
    keys of a call are distinct.  The [i]-th call of a thread in the next point
    has the keys of its [i]-th call in this one; where the directory still
    lists their objects the store copies nothing and reports success for all
    of them, and a measured call adds a full batch to the pages and bytes
    written. *)
Theorem set_sweep_repeats_keys (tid bs warm end1 end2 cc pt : Z) (turns1 turns2 : list turn) (i : nat) (ks : list string)
  (w : world) (me : string) (e : env) (c : client) (tr : tier) (pr : process) (ptrs sizes : list Z) (t : tally) (x : turn)
  (Htid : 0 ≤ tid) (Hbs : 0 ≤ bs)
  (Hfirst : set_calls tid bs end1 0 turns1 !! i = Some ks)
  (Hc : w_clients w !! me = Some c) (Hmode : field (c_cfg c) "mode" = VStr "p2p")
  (Ht : w_tiers w !! me = Some tr) (Hp : f_procs (w_fab w) !! me = Some pr)
  (Hptrs : length ptrs = length (_component_keys (c_naming c) ks).1)
  (Hsizes : length sizes = length (_component_keys (c_naming c) ks).1)
  (Hlisted : Forall (λ k, exists_answer (t_dc tr) (w_dir w) k = true) (_component_keys (c_naming c) ks).1)
  (Hturn : ta_r t = Z.of_nat i) (Hmeasured : ta_measuring t = true)
  (Hanswer : (batch_set_v1 w me e ks (Some (ptrs, sizes))).1 = Ret (tn_answer x ks)) :
  (∀ i' tid' ks', 0 ≤ tid' → (tid', i') ≠ (tid, i) → set_calls tid' bs end1 0 turns1 !! i' = Some ks' → ks ## ks') ∧
  NoDup ks ∧
  (∀ ks', set_calls tid bs end2 0 turns2 !! i = Some ks' → ks' = ks) ∧
  (∀ n, mem_of (batch_set_v1 w me e ks (Some (ptrs, sizes))).2 n = mem_of w n) ∧
  ta_pages (set_turn tid bs cc pt warm t x) = ta_pages t + bs ∧
  ta_by (set_turn tid bs cc pt warm t x) = ta_by t + bs * pt.
Proof.
  pose proof (set_calls_lookup _ _ _ _ _ _ _ Hfirst) as Hks. rewrite Z.add_0_l in Hks.
  rewrite (set_listed w me e ks ptrs sizes c tr pr) in * by done. cbn [fst snd] in *. injection Hanswer as Hans.
  split; [|split; [|split; [|split; [intros n; apply meter_mem|]]]].
  - intros i' tid' ks' Ht' Hne ->%set_calls_lookup. rewrite Hks, Z.add_0_l.
    apply set_keys_disjoint; [lia..|]. intros [= -> ?]. apply Hne. f_equal. lia.
  - rewrite Hks. apply set_keys_nodup; lia.
  - intros ks' ->%set_calls_lookup. by rewrite Hks.
  - unfold set_turn. rewrite Hmeasured, Hturn, <-Hks, <-Hans. cbn [orb ta_pages ta_by].
    assert (zlength (List.filter id (replicate (length ks) true)) = bs) as ->; [|by split].
    assert (length ks = Z.to_nat bs) as -> by (rewrite Hks; unfold set_keys; by rewrite length_fmap, length_seqZ).
    assert (∀ n, length (List.filter id (replicate n true)) = n) as Hlen by (induction n; simpl; congruence).
    unfold zlength. rewrite Hlen. lia.
Qed.
End set_sweep.

(** ** Concrete sweeps *)

Module SweepExamples.
Import ExampleHash RingExamples RuntimeExamples P2PExamples BenchExamples.

Definition args0 : bench_args := mk_args true 4096 2 16 (2 ^ 30) 64 "rdma" 0 1000.
Definition sizes0 : sweep_sizes := mk_sizes 8 16 85196 (2 * 85196 + 8 * 4096 + 16 * 4096).

Lemma get_sweep_sound_witness :
  2 * sz_seg sizes0 + sz_slots sizes0 * 4096 + sz_pages sizes0 * 4096 ≤ 2 ^ 30 ∧ NoDup (turn_keys (get_keys 16) 3 7 2).
Proof.
  pose proof (get_sweep_sound args0 [1; 4] sizes0) as H. cbv zeta in H.
  destruct H as (H1 & _ & H3 & _).
  - vm_compute. reflexivity.
  - reflexivity.
  - reflexivity.
  - repeat constructor; discriminate.
  - split; [exact H1|exact (H3 3 7)].
Defined.

(** Node [a] stores the one page of the first call of a set sweep; the first
    call of the next point stores it again. *)
Definition set_page : list string := set_keys 0 0 1.
Definition stored_once : world := (batch_set_v1 w0 "a" env0 set_page (Some ([16], [2]))).2.
Definition good_turn : turn := mk_turn 0 (λ ks, replicate (length ks) true) 5.
Definition tally0 : tally := mk_tally 0 0 0 0 0 (new_hist 3) 0 true.

Lemma some_default {A} (d : A) (o : option A) : bool_decide (is_Some o) = true → o = Some (default d o).
Proof. destruct o; [done|]. by intros H%bool_decide_eq_true%is_Some_None. Qed.

Lemma forallb_Forall {A} (f : A → bool) l : forallb f l = true → Forall (λ x, f x = true) l.
Proof. rewrite forallb_forall. intros H. apply Forall_forall. intros x Hx. by apply H, list_elem_of_In. Qed.

Lemma set_sweep_repeats_keys_witness :
  mem_of (batch_set_v1 stored_once "a" env0 set_page (Some ([16], [2]))).2 "a" 1024 = mem_of stored_once "a" 1024 ∧
  ta_by (set_turn 0 1 1 2 0 tally0 good_turn) = 2.
Proof.
  destruct (set_sweep_repeats_keys 0 1 0 10 10 1 2 [good_turn] [good_turn] 0 set_page stored_once "a" env0 client0
    (default (tier_of [] "a" None None) (w_tiers stored_once !! "a")) (default (proc0 []) (f_procs (w_fab stored_once) !! "a"))
    [16] [2] tally0 good_turn) as (_ & _ & _ & Hm & _ & Hb).
  - lia.
  - lia.
  - vm_compute. reflexivity.
  - vm_compute. reflexivity.
  - vm_compute. reflexivity.
  - apply some_default. vm_compute. reflexivity.
  - apply some_default. vm_compute. reflexivity.
  - vm_compute. reflexivity.
  - vm_compute. reflexivity.
  - apply forallb_Forall. vm_compute. reflexivity.
  - reflexivity.
  - reflexivity.
  - vm_compute. reflexivity.
  - split; [exact (f_equal (λ m, m 1024) (Hm "a"))|exact Hb].
Defined.
End SweepExamples.
