(* ===== verification/BenchReport.v ===== *)
(** What a benchmark run reports: the result rows ([bench/common.py]), the
    sweeps that fill them and the modes of the command ([bench/hicache.py]),
    and the waiting loops of the harness.

    Rates are computed exactly and rounded once, half to even, where the source
    divides doubles and rounds the quotient.  A field [round(x, nd)] is held as
    the integer [x * 10 ^ nd]; latencies are in hundredths of a microsecond. *)
From S2P Require Import Prelude Bytes Types Config Keys Bench BenchSweep.

(** ** Waiting *)

(** [while time.time() < deadline: if ok: return; sleep]: [Some true] when the
    condition was seen to hold in time, [Some false] when the deadline passed,
    [None] when the observations end before either. *)
Fixpoint wait_until {A} (deadline : Z) (ok : A → bool) (obs : list (Z * A)) : option bool :=
  match obs with
  | [] => None
  | (now, x) :: obs' =>
      if now <? deadline then if ok x then Some true else wait_until deadline ok obs' else Some false
  end.

(** [_wait_ring]: the sizes of the ring seen over time. *)
Definition _wait_ring (n deadline : Z) (obs : list (Z * Z)) : option (outcome unit) :=
  (λ b : bool, if b then Done () else Exit) <$> wait_until deadline (λ size, n <=? size) obs.

(** The ring wait of [Cluster.__init__]; [TimeoutError] is an [OSError]. *)
Definition cluster_wait (n_nodes deadline : Z) (obs : list (Z * list Z)) : option (outcome unit) :=
  (λ b : bool, if b then Done () else Failed OSError) <$> wait_until deadline (λ sizes, forallb (Z.leb n_nodes) sizes) obs.

(** ** Result rows *)

Definition round_dec (nd p q : Z) : Z := round_half_even (p * 10 ^ nd) q.

(** Hundredths of a microsecond: mean, p50, p90, p95, p99, p999, max. *)
Record latencies := mk_lat {
  lat_mean : Z; lat_p50 : Z; lat_p90 : Z; lat_p95 : Z; lat_p99 : Z; lat_p999 : Z; lat_max : Z
}.

Record BenchResult := mk_result {
  r_system : string;
  r_path : string;
  r_protocol : string;
  r_block_size : Z;
  r_batch_size : Z;
  r_threads : Z;
  r_duration_ms : Z;
  r_ops : Z;
  r_bytes_total : Z;
  r_throughput_gbps : Z;
  r_ops_per_s : Z;
  r_lat : option latencies;
  r_op : string;
  r_pages : Z;
  r_pages_per_s : Z;
  r_tokens_per_s : Z;
  r_hit_rate : option (Z * Z);
  r_note : string;
  r_ok : bool
}.

(** [Workload], as far as results carry it. *)
Record Workload := mk_workload { wl_block_size : Z; wl_batch_size : Z; wl_threads : Z }.

Section results.
Context {LG : Log10}.

(** The percentiles of the row: 50, 90, 95, 99 and the double nearest 99.9. *)
Definition p999 : Z * Z := (7029837543348634, -46).
Definition lat_of (h : Histogram) : option latencies :=
  mn ← mean h; mx ← max_ns h;
  p50 ← percentile h (50, 0); p90 ← percentile h (90, 0); p95 ← percentile h (95, 0);
  p99 ← percentile h (99, 0); p999 ← percentile h p999;
  let us ns := round_half_even ns 10 in
  Some (mk_lat (round_half_even mn.1 (mn.2 * 10)) (us p50) (us p90) (us p95) (us p99) (us p999) (us mx)).

(** [make_result]; [elapsed] in nanoseconds.  [bytes / elapsed] is GB/s. *)
Definition make_result (system path protocol : string) (wl : Workload) (ops bytes_total elapsed : Z)
    (hist : option Histogram) (note : string) (ok : bool) (op : string) (pages tokens_per_page : Z)
    (hit_rate : option (Z * Z)) : BenchResult :=
  let per_s nd n := if 0 <? elapsed then round_dec nd (n * 10 ^ 9) elapsed else 0 in
  mk_result system path protocol (wl_block_size wl) (wl_batch_size wl) (wl_threads wl) (round_dec 3 elapsed (10 ^ 9))
    ops bytes_total (if 0 <? elapsed then round_dec 4 bytes_total elapsed else 0) (per_s 1 ops)
    (h ← hist; lat_of h) op pages (per_s 1 pages) (per_s 1 (pages * tokens_per_page)) hit_rate note ok.

(** ** Sweeps *)

(** What one point of a sweep meets: for every thread the clock when it passes
    the barrier and its turns, and the wall time of the point. *)
Record point_env := mk_point_env { pe_threads : list (Z * list turn); pe_wall : Z }.

Definition elapsed_of (a : bench_args) (x : point_env) : Z :=
  if 0 <? pe_wall x then Z.min (ba_duration a) (pe_wall x) else ba_duration a.

(** [_drive]: every thread runs its worker from its own start. *)
Definition drive_point (a : bench_args) (worker : Z → Z → Z → list turn → tally) (x : point_env) :
    Z * Z * Z * Z * Z * Histogram :=
  drive (imap (λ tid st, let warm_end := st.1 + ba_warmup a in
                         worker (Z.of_nat tid) warm_end (warm_end + ba_duration a) st.2) (pe_threads x)).

Definition layout_name (mla : bool) : string := if mla then "mla" else "mha".
Definition comps_of (a : bench_args) : Z := if ba_mla a then 1 else 2.
Definition page_total_of (a : bench_args) : Z := _page_total (ba_page_size a) (ba_mla a).

(** The body of the loop of [run_get] over the concurrencies. *)
Definition get_row (a : bench_args) (z : sweep_sizes) (conc : Z) (x : point_env) : BenchResult :=
  let bs := ba_batch_size a in
  let '(ops, by_, pages, hits, calls, hist) :=
    drive_point a (λ tid warm_end end_ ts,
      get_worker (get_keys (sz_pages z)) tid bs (comps_of a) (page_total_of a) warm_end end_ new_tally ts) x in
  let expected := calls * bs in
  make_result "peercache" "hicache-get" (ba_protocol a) (mk_workload (ba_page_size a) bs conc) ops by_ (elapsed_of a x)
    (Some hist) ("batch_get_v1 " +:+ layout_name (ba_mla a) +:+ " ws=" +:+ pretty (sz_pages z)) true "get" pages
    (ba_tokens_per_page a) (if expected =? 0 then None else Some (hits, expected)).

Definition run_get (a : bench_args) (concs : list Z) (up : outcome unit) (xs : list point_env) : outcome (list BenchResult) :=
  z ← get_sizes a concs; _ ← up; mret (zip_with (get_row a z) concs xs).

(** [run_set] *)
Definition set_row (a : bench_args) (conc : Z) (x : point_env) : BenchResult :=
  let bs := ba_batch_size a in
  let '(ops, by_, pages, hits, calls, hist) :=
    drive_point a (λ tid warm_end end_ ts,
      set_worker tid bs (comps_of a) (page_total_of a) warm_end end_ new_tally ts) x in
  make_result "peercache" "hicache-set" (ba_protocol a) (mk_workload (ba_page_size a) bs conc) ops by_ (elapsed_of a x)
    (Some hist) ("batch_set_v1 " +:+ layout_name (ba_mla a)) true "set" pages (ba_tokens_per_page a) None.

Definition run_set (a : bench_args) (concs : list Z) (up : outcome unit) (xs : list point_env) : outcome (list BenchResult) :=
  _ ← set_sizes a concs; _ ← up; mret (zip_with (set_row a) concs xs).

(** [run_exists] *)
Definition exists_keys (working_set : Z) : list string := (λ i, "pcbench/ex/" +:+ pretty i) <$> seqZ 0 working_set.

Definition exists_row (a : bench_args) (z : sweep_sizes) (conc : Z) (x : point_env) : BenchResult :=
  let bs := ba_batch_size a in
  let '(_, _, pages, hits, calls, hist) :=
    drive_point a (λ tid warm_end end_ ts, exists_worker (exists_keys (sz_pages z)) tid bs warm_end end_ new_tally ts) x in
  make_result "peercache" "hicache-exists" (ba_protocol a) (mk_workload (ba_page_size a) bs conc) pages 0 (elapsed_of a x)
    (Some hist) "batch_exists (directory only)" true "exists" pages (ba_tokens_per_page a) None.

Definition run_exists (a : bench_args) (concs : list Z) (up : outcome unit) (xs : list point_env) : outcome (list BenchResult) :=
  z ← exists_sizes a concs; _ ← up; mret (zip_with (exists_row a z) concs xs).

(** ** The report *)

(** [(note + tag).strip()] of a note without blanks around it. *)
Definition add_note (tag : string) (r : BenchResult) : BenchResult :=
  mk_result (r_system r) (r_path r) (r_protocol r) (r_block_size r) (r_batch_size r) (r_threads r) (r_duration_ms r)
    (r_ops r) (r_bytes_total r) (r_throughput_gbps r) (r_ops_per_s r) (r_lat r) (r_op r) (r_pages r) (r_pages_per_s r)
    (r_tokens_per_s r) (r_hit_rate r) (py_strip (r_note r +:+ tag)) (r_ok r).

(** The index of [max(ok, key=...)]: the first row with the largest rate among
    those that are ok and have one. *)
Fixpoint peak_from (i : nat) (best : option (nat * Z)) (rows : list BenchResult) : option (nat * Z) :=
  match rows with
  | [] => best
  | r :: rows' =>
      let best := if r_ok r && (0 <? r_pages_per_s r) then
                    match best with
                    | Some (_, v) => if v <? r_pages_per_s r then Some (i, r_pages_per_s r) else best
                    | None => Some (i, r_pages_per_s r)
                    end
                  else best in
      peak_from (S i) best rows'
  end.

Definition _peak_note (rows : list BenchResult) : list BenchResult :=
  match peak_from 0 None rows with
  | None => rows
  | Some (i, _) => alter (add_note " [PEAK]") i rows
  end.

(** [_csv_ints]: the parts of [s.split(",")] that are not blank. *)
Definition _csv_ints (s : string) : pyres (list Z) :=
  py_mapM (λ x, py_int (VStr x)) (filter (λ x, py_strip x ≠ ""%string) (py_split comma s)).

(** ** The modes of the command *)

Inductive bench_op := OpGet | OpSet | OpExists.

Inductive bench_mode :=
  | MLatency
  | MThroughput (op : bench_op) (concurrency : Z)
  | MSaturation (op : bench_op) (concurrencies : string)
  | MSuite (concurrencies : string).

(** What the [n]-th sweep of the command meets. *)
Definition sweeps_env := nat → outcome unit * list point_env.

Definition op_fn (op : bench_op) (a : bench_args) (concs : list Z) (x : outcome unit * list point_env) :
    outcome (list BenchResult) :=
  match op with
  | OpGet => run_get a concs x.1 x.2
  | OpSet => run_set a concs x.1 x.2
  | OpExists => run_exists a concs x.1 x.2
  end.

(** [args.batch_size = 1] *)
Definition with_batch_1 (a : bench_args) : bench_args :=
  mk_args (ba_mla a) (ba_page_size a) 1 (ba_working_set a) (ba_max_bytes a) (ba_tokens_per_page a) (ba_protocol a)
    (ba_warmup a) (ba_duration a).

(** The rows of [run], in the order they are added to the report. *)
Definition run (mode : bench_mode) (a : bench_args) (env : sweeps_env) : outcome (list BenchResult) :=
  match mode with
  | MLatency =>
      let a := with_batch_1 a in
      g ← op_fn OpGet a [1] (env 0%nat); s ← op_fn OpSet a [1] (env 1%nat); e ← op_fn OpExists a [1] (env 2%nat);
      mret (g ++ s ++ e)
  | MThroughput op conc => op_fn op a [conc] (env 0%nat)
  | MSaturation op concs =>
      concs ← of_pyres (_csv_ints concs); rows ← op_fn op a concs (env 0%nat); mret (_peak_note rows)
  | MSuite concs =>
      concs ← of_pyres (_csv_ints concs);
      let lat := with_batch_1 a in
      lg ← op_fn OpGet lat [1] (env 0%nat); ls ← op_fn OpSet lat [1] (env 1%nat); le ← op_fn OpExists lat [1] (env 2%nat);
      g ← op_fn OpGet a concs (env 3%nat); s ← op_fn OpSet a concs (env 4%nat); e ← op_fn OpExists a concs (env 5%nat);
      mret ((add_note " [latency-baseline]" <$> (lg ++ ls ++ le)) ++ _peak_note g ++ _peak_note s ++ _peak_note e)
  end.

(** ** Properties *)

(** *** Waiting *)

Lemma wait_until_spec {A} deadline (ok : A → bool) (obs : list (Z * A)) (b : bool) :
  wait_until deadline ok obs = Some b →
  ∃ pre now x post, obs = pre ++ (now, x) :: post ∧ Forall (λ o, o.1 < deadline ∧ ok o.2 = false) pre ∧
    if b then now < deadline ∧ ok x = true else deadline ≤ now.
Proof.
  induction obs as [|[now x] obs IH]; [done|]. simpl. destruct (Z.ltb_spec now deadline).
  - destruct (ok x) eqn:E.
    + intros [= <-]. exists [], now, x, obs. split; [done|]. split; [constructor|done].
    + intros (pre & now' & x' & post & -> & Hpre & Hb)%IH. exists ((now, x) :: pre), now', x', post.
      split; [done|]. split; [by constructor|done].
  - intros [= <-]. exists [], now, x, obs. split; [done|]. split; [constructor|done].
Qed.

(** Observations that go on past the deadline decide the wait. *)
Lemma wait_until_total {A} deadline (ok : A → bool) (obs : list (Z * A)) :
  Exists (λ o, deadline ≤ o.1) obs → is_Some (wait_until deadline ok obs).
Proof.
  induction 1 as [[now x] obs H|[now x] obs _ IH]; simpl in *.
  - rewrite (proj2 (Z.ltb_ge _ _)) by done. by eexists.
  - destruct (now <? deadline); [|by eexists]. destruct (ok x); [by eexists|done].
Qed.

(** *** Rows *)

Lemma tallies_of {B} (f : nat → B → tally) bs cc pt (xs : list B) :
  (∀ i x, x ∈ xs → ∃ samples, tally_ok bs cc pt (f i x) samples) →
  ∃ parts, Forall2 (tally_ok bs cc pt) (imap f xs) parts.
Proof.
  revert f. induction xs as [|x xs IH]; intros f Hf; [by exists []|].
  destruct (Hf 0%nat x ltac:(left)) as [s Hs]. destruct (IH (f ∘ S)) as [parts Hp]; [intros i y Hy; apply Hf; by right|].
  exists (s :: parts). rewrite imap_cons. by constructor.
Qed.

Lemma get_point_sound a keys (x : point_env) :
  0 ≤ ba_batch_size a → Forall (λ th, Forall answers th.2) (pe_threads x) →
  let '(ops, by_, pages, hits, calls, hist) :=
    drive_point a (λ tid warm_end end_ ts,
      get_worker keys tid (ba_batch_size a) (comps_of a) (page_total_of a) warm_end end_ new_tally ts) x in
  ops = hits * comps_of a ∧ by_ = hits * page_total_of a ∧ pages = hits ∧ 0 ≤ hits ≤ calls * ba_batch_size a ∧ h_n hist = calls.
Proof.
  intros Hbs Hx. unfold drive_point, drive.
  destruct (tallies_of (λ tid (st : Z * list turn), get_worker keys (Z.of_nat tid) (ba_batch_size a) (comps_of a) (page_total_of a)
    (st.1 + ba_warmup a) (st.1 + ba_warmup a + ba_duration a) new_tally st.2)
    (ba_batch_size a) (comps_of a) (page_total_of a) (pe_threads x)) as [parts Hp].
  { intros i st Hst. rewrite Forall_forall in Hx.
    apply (get_worker_ok _ _ _ _ _ _ _ _ Hbs (Hx st Hst) new_tally []). split; simpl; lia || done. }
  destruct (tallies_sum _ _ _ _ _ Hp) as (H1 & H2 & H3 & H4 & H5 & H6). cbv zeta.
  rewrite H6, merged_parts, (hi_n _ _ _ (hist_of_is 3 (concat parts))). eauto 10.
Qed.

(** A get sweep reports one sound row per point.  When a get sweep of a
    store that answers one flag per key returns, it has one row per requested
    concurrency, in that order; each row counts whole pages (bytes are pages
    times the page size, operations pages times the objects of a page) and its
    hit rate, when it has one, is between 0 and 1. *)
Theorem get_rows_sound (a : bench_args) (concs : list Z) (up : outcome unit) (xs : list point_env) (rows : list BenchResult)
  (Hrun : run_get a concs up xs = Done rows) (Hbs : 0 ≤ ba_batch_size a) (Hxs : length xs = length concs)
  (Hans : Forall (λ x, Forall (λ th, Forall answers th.2) (pe_threads x)) xs) :
  r_threads <$> rows = concs ∧
  Forall (λ r, r_op r = "get" ∧ r_ok r = true ∧ r_bytes_total r = r_pages r * page_total_of a ∧
    r_ops r = r_pages r * comps_of a ∧ ∀ h n, r_hit_rate r = Some (h, n) → 0 ≤ h ≤ n ∧ 0 < n ∧ h = r_pages r) rows.
Proof.
  unfold run_get in Hrun. destruct (get_sizes a concs) as [z|e|]; [|done..]. destruct up as [[]|e|]; [|done..].
  cbn in Hrun. injection Hrun as <-.
  assert (∀ conc x, r_threads (get_row a z conc x) = conc) as Hth.
  { intros conc x. unfold get_row. by destruct (drive_point _ _ _) as [[[[[? ?] ?] ?] ?] ?]. }
  revert xs Hxs Hans. induction concs as [|conc concs IH]; intros [|x xs] Hxs Hans; try done.
  apply Forall_cons in Hans as [Hx Hans]. destruct (IH xs ltac:(simpl in *; lia) Hans) as [IH1 IH2].
  cbn [zip_with fmap list_fmap]. rewrite Hth. split; [by f_equal|]. constructor; [|done].
  pose proof (get_point_sound a (get_keys (sz_pages z)) x Hbs Hx) as Hp. unfold get_row.
  destruct (drive_point _ _ _) as [[[[[ops by_] pages] hits] calls] hist]. destruct Hp as (-> & -> & -> & Hh & _).
  split; [done|]. split; [done|]. split; [done|]. split; [done|]. cbn. intros h n.
  destruct (Z.eqb_spec (calls * ba_batch_size a) 0); [done|]. intros [= <- <-]. lia.
Qed.

(** *** The peak *)

Definition rated (r : BenchResult) : Prop := r_ok r = true ∧ 0 < r_pages_per_s r.

Lemma rated_spec r : (r_ok r && (0 <? r_pages_per_s r)) = true ↔ rated r.
Proof. unfold rated. rewrite andb_true_iff, Z.ltb_lt. done. Qed.

(** What the scan knows after the rows [pre]. *)
Definition peak_is (pre : list BenchResult) (best : option (nat * Z)) : Prop :=
  match best with
  | None => Forall (λ r, ¬ rated r) pre
  | Some (i, v) => (∃ r, pre !! i = Some r ∧ rated r ∧ r_pages_per_s r = v) ∧
      (∀ j r, pre !! j = Some r → rated r → r_pages_per_s r ≤ v ∧ (r_pages_per_s r = v → (i ≤ j)%nat))
  end.

Lemma peak_is_snoc pre best r :
  peak_is pre best →
  peak_is (pre ++ [r]) (if r_ok r && (0 <? r_pages_per_s r) then
      match best with
      | Some (_, v) => if v <? r_pages_per_s r then Some (length pre, r_pages_per_s r) else best
      | None => Some (length pre, r_pages_per_s r)
      end else best).
Proof.
  intros Hb.
  assert ((pre ++ [r]) !! length pre = Some r) as Hlast by (by rewrite list_lookup_middle).
  assert (∀ j x, (pre ++ [r]) !! j = Some x → pre !! j = Some x ∨ j = length pre ∧ x = r) as Hcase.
  { intros j x [H|[Hj H]]%lookup_app_Some; [by left|]. apply list_lookup_singleton_Some in H as [? ->]. right. split; [lia|done]. }
  destruct (r_ok r && (0 <? r_pages_per_s r)) eqn:E.
  - apply rated_spec in E. destruct best as [[i v]|]; [destruct (Z.ltb_spec v (r_pages_per_s r)) as [Hv|Hv]|].
    + split; [by exists r|]. intros j x [Hj|[-> ->]]%Hcase Hx; [|split; [lia|done]].
      destruct Hb as [_ Hb]. destruct (Hb j x Hj Hx). split; lia.
    + destruct Hb as [(x & Hx & Hrx & Hvx) Hb]. split; [exists x; split; [by apply lookup_app_l_Some|done]|].
      intros j y [Hj|[-> ->]]%Hcase Hy; [by apply Hb|]. split; [lia|]. intros _. apply lookup_lt_Some in Hx. lia.
    + split; [by exists r|]. simpl in Hb. intros j x [Hj|[-> ->]]%Hcase Hx; [|split; [lia|done]].
      exfalso. by apply (proj1 (Forall_lookup _ _) Hb j x Hj).
  - assert (¬ rated r) as Hr by (rewrite <-rated_spec; by rewrite E). destruct best as [[i v]|].
    + destruct Hb as [(x & Hx & Hrx & Hvx) Hb]. split; [exists x; split; [by apply lookup_app_l_Some|done]|].
      intros j y [Hj|[-> ->]]%Hcase Hy; [by apply Hb|done].
    + simpl in *. apply Forall_app. split; [done|by apply Forall_singleton].
Qed.

Lemma peak_from_spec post : ∀ pre best, peak_is pre best → peak_is (pre ++ post) (peak_from (length pre) best post).
Proof.
  induction post as [|r post IH]; intros pre best Hb; simpl; [by rewrite app_nil_r|].
  specialize (IH (pre ++ [r]) _ (peak_is_snoc pre best r Hb)). rewrite <-app_assoc, length_app in IH. simpl in IH.
  by rewrite Nat.add_1_r in IH.
Qed.

(** The peak is the peak.  [_peak_note] changes at most the note of one
    row.  When some row is ok and has a rate, the row it marks is such a row
    with the largest rate, the first one if there are several; otherwise the
    rows stay as they are. *)
Theorem peak_note_marks_max (rows : list BenchResult) :
  (Forall (λ r, ¬ rated r) rows ∧ _peak_note rows = rows) ∨
  ∃ i r, rows !! i = Some r ∧ rated r ∧ _peak_note rows = <[i := add_note " [PEAK]" r]> rows ∧
    ∀ j r', rows !! j = Some r' → rated r' → r_pages_per_s r' ≤ r_pages_per_s r ∧
      (r_pages_per_s r' = r_pages_per_s r → (i ≤ j)%nat).
Proof.
  pose proof (peak_from_spec rows [] None ltac:(constructor)) as Hp. simpl in Hp. unfold _peak_note.
  destruct (peak_from 0 None rows) as [[i v]|]; [right|left; by split].
  destruct Hp as [(r & Hr & Hrated & <-) Hmax]. exists i, r. split; [done|]. split; [done|]. split; [|done].
  apply list_eq. intros j. destruct (decide (i = j)) as [->|Hne].
  - rewrite list_lookup_insert_eq by by eapply lookup_lt_Some. rewrite list_lookup_alter_eq, Hr. done.
  - by rewrite list_lookup_alter_ne, list_lookup_insert_ne.
Qed.

(** *** The suite *)

Lemma row_ops a z conc x :
  r_op (get_row a z conc x) = "get" ∧ r_op (set_row a conc x) = "set" ∧ r_op (exists_row a z conc x) = "exists".
Proof.
  unfold get_row, set_row, exists_row.
  split; [|split]; by destruct (drive_point _ _ _) as [[[[[? ?] ?] ?] ?] ?].
Qed.

Definition op_name (op : bench_op) : string := match op with OpGet => "get" | OpSet => "set" | OpExists => "exists" end.

Lemma op_fn_ops op a concs x rows :
  op_fn op a concs x = Done rows → length x.2 = length concs → r_op <$> rows = replicate (length concs) (op_name op).
Proof.
  assert (∀ (f : Z → point_env → BenchResult) n, (∀ c x, r_op (f c x) = n) →
    ∀ cs xs, length xs = length cs → r_op <$> zip_with f cs xs = replicate (length cs) n) as Hz.
  { intros f n Hf. induction cs as [|c cs IH]; intros [|y ys] Hl; try done. cbn [zip_with fmap list_fmap]. rewrite Hf.
    simpl. f_equal. apply IH. simpl in Hl. lia. }
  destruct x as [up xs]. unfold op_fn, run_get, run_set, run_exists. cbn [fst snd].
  destruct op; [destruct (get_sizes a concs) as [z| |]|destruct (set_sizes a concs) as [z| |]|destruct (exists_sizes a concs) as [z| |]];
    try done; destruct up as [[]| |]; try done; intros [= <-]; apply Hz; intros c y; destruct (row_ops a z c y) as (H1 & H2 & H3); done.
Qed.

Lemma peak_note_ops rows : r_op <$> _peak_note rows = r_op <$> rows.
Proof.
  unfold _peak_note. destruct (peak_from 0 None rows) as [[i v]|]; [|done]. apply list_eq. intros j.
  rewrite !list_lookup_fmap, list_lookup_alter. case_decide as Hij; [subst j|done]. by destruct (rows !! i).
Qed.

(** The rows of a suite: three latency baselines, then a full sweep of each
    operation. *)
Theorem suite_rows (s : string) (concs : list Z) (a : bench_args) (env : sweeps_env) (rows : list BenchResult)
  (Hs : _csv_ints s = Ret concs) (Hrun : run (MSuite s) a env = Done rows)
  (Henv : ∀ n, length (env n).2 = if (n <? 3)%nat then 1%nat else length concs) :
  r_op <$> rows = ["get"; "set"; "exists"] ++ replicate (length concs) "get" ++ replicate (length concs) "set" ++
    replicate (length concs) "exists".
Proof.
  unfold run in Hrun. rewrite Hs in Hrun. cbn [of_pyres mbind outcome_bind] in Hrun.
  destruct (op_fn OpGet (with_batch_1 a) [1] (env 0%nat)) as [lg| |] eqn:E0; [|done..]. cbn [mbind outcome_bind] in Hrun.
  destruct (op_fn OpSet (with_batch_1 a) [1] (env 1%nat)) as [ls| |] eqn:E1; [|done..]. cbn [mbind outcome_bind] in Hrun.
  destruct (op_fn OpExists (with_batch_1 a) [1] (env 2%nat)) as [le| |] eqn:E2; [|done..]. cbn [mbind outcome_bind] in Hrun.
  destruct (op_fn OpGet a concs (env 3%nat)) as [g| |] eqn:E3; [|done..]. cbn [mbind outcome_bind] in Hrun.
  destruct (op_fn OpSet a concs (env 4%nat)) as [st| |] eqn:E4; [|done..]. cbn [mbind outcome_bind] in Hrun.
  destruct (op_fn OpExists a concs (env 5%nat)) as [ex| |] eqn:E5; [|done..]. cbn [mbind outcome_bind] in Hrun. injection Hrun as <-.
  pose proof (op_fn_ops _ _ _ _ _ E0 (Henv 0%nat)) as F0. pose proof (op_fn_ops _ _ _ _ _ E1 (Henv 1%nat)) as F1.
  pose proof (op_fn_ops _ _ _ _ _ E2 (Henv 2%nat)) as F2. pose proof (op_fn_ops _ _ _ _ _ E3 (Henv 3%nat)) as F3.
  pose proof (op_fn_ops _ _ _ _ _ E4 (Henv 4%nat)) as F4. pose proof (op_fn_ops _ _ _ _ _ E5 (Henv 5%nat)) as F5.
  rewrite (fmap_app r_op), !(fmap_app r_op (_peak_note _)), !peak_note_ops, F3, F4, F5. f_equal.
  assert (∀ l, r_op <$> (add_note " [latency-baseline]" <$> l) = r_op <$> l) as -> by (intros l; by rewrite <-list_fmap_compose).
  by rewrite !fmap_app, F0, F1, F2.
Qed.

(** *** Lists of numbers *)

(** The text of an option like [--concurrencies]. *)
Fixpoint csv (ns : list Z) : string :=
  match ns with
  | [] => ""
  | [n] => pretty n
  | n :: ns' => pretty n +:+ "," +:+ csv ns'
  end.

Lemma parse_digits_pretty n b s : (0 < n)%N → parse_digits 0 b (pretty_N_go n s) = parse_digits (Z.of_N n) true s.
Proof.
  revert s. induction (N.lt_wf_0 n) as [n _ IH]. intros s Hn. rewrite pretty_N_go_step by lia.
  pose proof (N.mod_lt n 10 ltac:(lia)) as Hm. pose proof (N.div_mod n 10 ltac:(lia)) as Hd.
  destruct (decide (n / 10 = 0)%N) as [Hz|Hz].
  - rewrite Hz, pretty_N_go_0. cbn [parse_digits]. rewrite pretty_N_char_digit by done. f_equal. lia.
  - rewrite IH by (try apply N.div_lt; lia). cbn [parse_digits]. rewrite pretty_N_char_digit by done. f_equal. lia.
Qed.

Lemma pretty_digits_all z : 0 ≤ z → str_all digit (pretty z) ∧ pretty z ≠ ""%string.
Proof.
  intros Hz. destruct z as [|p|p]; [by split; [split; [eexists|]|]| |lia].
  split; [apply (pretty_N_go_digit (N.pos p) ""); done|].
  intros H. pose proof (parse_digits_pretty (N.pos p) false "" ltac:(lia)) as Hp.
  change (pretty_N_go (N.pos p) "") with (pretty (Z.pos p)) in Hp. by rewrite H in Hp.
Qed.

Lemma parse_int_pretty z : 0 ≤ z → parse_int (pretty z) = Some z.
Proof.
  intros Hz. destruct (pretty_digits_all z Hz) as [Hd Hne].
  assert (∃ c s, pretty z = String c s ∧ digit c) as (c & s & Hs & [d Hc]).
  { destruct (pretty z) as [|c s]; [done|]. destruct Hd as [Hc _]. by exists c, s. }
  assert (parse_digits 0 false (pretty z) = Some z) as Hp.
  { destruct z as [|p|p]; [done| |lia]. by apply (parse_digits_pretty (N.pos p) false ""). }
  assert (∀ n, digit_val (Ascii.ascii_of_N n) = None → (n < 256)%N → Ascii.N_of_ascii c ≠ n) as Hc'.
  { intros n Hn Hlt <-. rewrite Ascii.ascii_N_embedding in Hn. congruence. }
  unfold parse_int. rewrite Hs. cbn [lstrip].
  assert (is_space c = false) as ->.
  { unfold is_space. apply bool_decide_eq_false. intros H. unfold digit_val in Hc.
    destruct (Z.leb_spec 48 (Z.of_N (Ascii.N_of_ascii c))); [|done]. lia. }
  rewrite !bool_decide_eq_false_2 by by apply Hc'. by rewrite <-Hs.
Qed.

Lemma csv_split n ns : 0 ≤ n → py_split comma (pretty n +:+ "," +:+ csv ns) = pretty n :: py_split comma (csv ns).
Proof.
  intros Hn. assert (str_all (λ x, x ≠ comma) (pretty n)) as Ha.
  { apply (str_all_mono digit); [by intros c [d Hd] ->|]. by apply pretty_digits_all. }
  revert Ha. generalize (pretty n). induction s as [|c s IH]; intros Ha; simpl.
  - done.
  - destruct Ha as [Hc Ha]. rewrite bool_decide_eq_false_2 by done. by rewrite (IH Ha).
Qed.

Lemma py_split_none c s : str_all (λ x, x ≠ c) s → py_split c s = [s].
Proof. induction s as [|x s IH]; [done|]. intros [Hx Hs]. simpl. rewrite bool_decide_eq_false_2 by done. by rewrite IH. Qed.

(** The concurrencies of a sweep are the ones asked for.  A comma-separated
    list of non-negative integers is parsed to those integers, in order; with
    none at all the list is empty and the sweep fails on [max]. *)
Theorem csv_ints_roundtrip (ns : list Z) (Hns : Forall (λ n, 0 ≤ n) ns) : _csv_ints (csv ns) = Ret ns.
Proof.
  assert (∀ n, 0 ≤ n → py_strip (pretty n) ≠ ""%string ∧ py_int (VStr (pretty n)) = Ret n) as Hone.
  { intros n Hn. destruct (pretty_digits_all n Hn) as [Hd Hne]. split; [|simpl; by rewrite parse_int_pretty].
    assert (str_all plain (pretty n)) as Hpl by (rewrite <-(str_app_empty_r (pretty n)); by apply pretty_Z_digits).
    by rewrite (proj2 (str_plain_id _ Hpl)). }
  unfold _csv_ints. induction Hns as [|n ns Hn Hns IH]; [done|]. destruct (Hone n Hn) as [H1 H2]. destruct ns as [|n' ns].
  - cbn [csv]. rewrite py_split_none.
    2:{ apply (str_all_mono digit); [by intros c [d Hd] ->|]. by apply pretty_digits_all. }
    rewrite filter_cons, decide_True, filter_nil by done. cbn [py_mapM]. by rewrite H2.
  - change (csv (n :: n' :: ns)) with (pretty n +:+ "," +:+ csv (n' :: ns)). rewrite csv_split by done.
    rewrite filter_cons, decide_True by done. cbn [py_mapM]. rewrite H2. by rewrite IH.
Qed.
End results.

(** ** Concrete runs *)

Module ReportExamples.
Import BenchExamples SweepExamples.

(** Two threads of one turn each, every page found. *)
Definition hit_turn (now : Z) : turn := mk_turn now (λ ks, replicate (length ks) true) 1500.
Definition point0 : point_env := mk_point_env [(0, [hit_turn 5]); (1, [hit_turn 6])] 1000.
Definition rows0 : list BenchResult := match run_get args0 [2] (Done ()) [point0] with Done rows => rows | _ => [] end.

Lemma get_rows_sound_witness :
  r_threads <$> rows0 = [2] ∧ r_pages <$> rows0 = [4] ∧ r_bytes_total <$> rows0 = [4 * 4096].
Proof.
  destruct (get_rows_sound args0 [2] (Done ()) [point0] rows0) as [H1 _].
  - vm_compute. reflexivity.
  - discriminate.
  - reflexivity.
  - repeat constructor; intros ks; apply length_replicate.
  - split; [exact H1|]. split; vm_compute; reflexivity.
Defined.

Lemma csv_ints_roundtrip_witness : _csv_ints (csv [1; 2; 32]) = Ret [1; 2; 32] ∧ _csv_ints "1, 2,,32," = Ret [1; 2; 32].
Proof. split; [apply (csv_ints_roundtrip [1; 2; 32]); repeat constructor; discriminate|vm_compute; reflexivity]. Defined.

(** No concurrency at all: the sweep fails on [max([])]. *)
Example empty_sweep : run (MSaturation OpGet ",") args0 (λ _, (Done (), [])) = Failed ValueError.
Proof. reflexivity. Qed.
End ReportExamples.
