(* ===== verification/BenchDist.v ===== *)
(** The two-host benchmark ([bench/dist.py]): [serve] publishes a working set
    and publishes it again when the membership changes; [drive] waits for it,
    runs the sweep in one or several processes and merges what they measured.

    Processes, the queue between them and the membership are inputs: the order
    in which results arrive, and what each look at the membership shows. *)
From S2P Require Import Prelude Bytes Types Config Keys Bench BenchSweep BenchReport.

(** ** The driver's set-up *)

Definition KEY_PREFIX : string := "pcbench/dist/get".
Definition dist_keys (ws : Z) : list string := (λ i, KEY_PREFIX +:+ "/" +:+ pretty i) <$> seqZ 0 ws.

(** [args.global_segment_size or int(n * pt * 1.3)] *)
Definition segment_or (global_segment_size n pt : Z) : Z :=
  if global_segment_size =? 0 then int_times_1_3 (n * pt) else global_segment_size.

(** [consumer_slots] and [seg_bytes] of [_setup_consumer]. *)
Definition consumer_sizes (a : bench_args) (global_segment_size : Z) (concs : list Z) : pyres (Z * Z) :=
  m ← py_max concs;
  let slots := m * ba_batch_size a in
  Ret (slots, segment_or global_segment_size (Z.max slots 64) (_page_total (ba_page_size a) (ba_mla a))).

(** [_wait_published] looks at the first key, the middle one and the last one;
    an observation is the store's answer to [batch_exists]. *)
Definition probe_keys (keys : list string) : pyres (list string) :=
  match keys !! 0%nat, keys !! (length keys / 2)%nat, last keys with
  | Some a, Some b, Some c => Ret [a; b; c]
  | _, _, _ => Raise IndexError
  end.

Definition _wait_published (keys : list string) (deadline : Z) (obs : list (Z * (list string → nat))) :
    option (outcome unit) :=
  match probe_keys keys with
  | Raise e => Some (Failed e)
  | Ret probe => (λ b : bool, if b then Done () else Exit) <$> wait_until deadline (λ f, (f probe =? length probe)%nat) obs
  end.

(** Return [x] once the wait has come to its end. *)
Definition then_ret {A} (x : A) (r : outcome unit) : outcome A := _ ← r; mret x.

(** [_setup_consumer]: the sizes, then the two waits, in that order; [None]
    while one of them goes on. *)
Definition _setup_consumer (a : bench_args) (global_segment_size : Z) (concs : list Z) (ws expect_nodes : Z)
    (ring_deadline : Z) (ring : list (Z * Z)) (pub_deadline : Z) (pub : list (Z * (list string → nat))) :
    option (outcome (Z * Z)) :=
  match consumer_sizes a global_segment_size concs with
  | Raise e => Some (Failed e)
  | Ret sizes =>
      match _wait_ring expect_nodes ring_deadline ring with
      | Some (Done _) => then_ret sizes <$> _wait_published (dist_keys ws) pub_deadline pub
      | r => then_ret sizes <$> r
      end
  end.

(** ** Serving *)

(** [_publish_all]: chunks of 256 pages. *)
Fixpoint chunk_ranges (fuel : nat) (lo ws : Z) : list (list Z) :=
  match fuel with
  | O => []
  | S fuel' => if lo <? ws then seqZ lo (Z.min (lo + 256) ws - lo) :: chunk_ranges fuel' (lo + 256) ws else []
  end.
Definition publish_chunks (ws : Z) : list (list Z) := chunk_ranges (Z.to_nat ws) 0 ws.

(** A membership: node identifiers with their control endpoints. *)
Definition members := gset (string * string).

(** The loop of [run_serve]: one look at the membership per turn until the
    stop flag is set; the memberships for which the set was published again. *)
Fixpoint serve_loop (last_members : members) (obs : list (bool * members)) : list members :=
  match obs with
  | [] => []
  | (stopped, cur) :: obs' =>
      if (stopped : bool) then []
      else if bool_decide (cur = last_members) then serve_loop last_members obs'
      else cur :: serve_loop cur obs'
  end.

(** [run_serve]: the pool's size and the memberships for which the working set
    was published, the first one being whatever the ring was when the wait
    ended; [None] while it waits for its readers. *)
Definition run_serve (a : bench_args) (global_segment_size ws readers deadline : Z) (ring : list (Z * Z))
    (m0 m1 : members) (obs : list (bool * members)) : option (outcome (Z * list members)) :=
  then_ret (segment_or global_segment_size ws (_page_total (ba_page_size a) (ba_mla a)), m0 :: serve_loop m1 obs)
    <$> _wait_ring (1 + Z.max 1 readers) deadline ring.

(** ** Driving *)

Section drive.
Context {LG : Log10}.

(** [_sweep]: one point per concurrency. *)
Definition dist_point (a : bench_args) (op : bench_op) (ws conc : Z) (x : point_env) : sweep_point :=
  let keys := dist_keys ws in
  let bs := ba_batch_size a in
  let '(ops, by_, pages, hits, calls, hist) :=
    drive_point a (λ tid warm_end end_ ts,
      match op with
      | OpGet => get_worker keys tid bs (comps_of a) (page_total_of a) warm_end end_ new_tally ts
      | _ => exists_worker keys tid bs warm_end end_ new_tally ts
      end) x in
  mk_point conc ops by_ pages hits calls hist (elapsed_of a x).

Definition _sweep (a : bench_args) (op : bench_op) (ws : Z) (concs : list Z) (xs : list point_env) : list sweep_point :=
  zip_with (dist_point a op ws) concs xs.

(** [_rows_from_points] *)
Definition point_row (a : bench_args) (op : bench_op) (ws procs : Z) (discovery_addr : string) (p : sweep_point) : BenchResult :=
  let bs := ba_batch_size a in
  let expected := sp_calls p * bs in
  let is_get := match op with OpGet => true | _ => false end in
  make_result "peercache" ("hicache-" +:+ op_name op) (ba_protocol a) (mk_workload (ba_page_size a) bs (sp_conc p))
    (if is_get then sp_ops p else sp_pages p) (sp_bytes p) (sp_elapsed p) (Some (sp_hist p))
    ("dist batch_" +:+ op_name op +:+ " " +:+ layout_name (ba_mla a) +:+ " ws=" +:+ pretty ws +:+ " remote=" +:+ discovery_addr +:+
     (if 1 <? procs then " x" +:+ pretty procs +:+ "proc" else ""))
    true (op_name op) (sp_pages p) (ba_tokens_per_page a)
    (if is_get then if expected =? 0 then None else Some (sp_hits p, expected) else None).

Definition _rows_from_points (a : bench_args) (op : bench_op) (ws procs : Z) (addr : string) (points : list sweep_point) :
    list BenchResult := _peak_note (point_row a op ws procs addr <$> points).

(** What a child puts on the queue: its points with the histograms flattened,
    or the text of what went wrong. *)
Inductive payload :=
  | PPoints (wire : list (Z * Z * Z * Z * Z * Z * (gmap Z Z * Z * Z * Z * Z) * Z))
  | PError.

Definition point_to_wire (p : sweep_point) : Z * Z * Z * Z * Z * Z * (gmap Z Z * Z * Z * Z * Z) * Z :=
  (sp_conc p, sp_ops p, sp_bytes p, sp_pages p, sp_hits p, sp_calls p, _hist_to_wire (sp_hist p), sp_elapsed p).
Definition point_from_wire (w : Z * Z * Z * Z * Z * Z * (gmap Z Z * Z * Z * Z * Z) * Z) : sweep_point :=
  let '(c, o, b, pg, h, cl, hw, el) := w in mk_point c o b pg h cl (_hist_from_wire hw) el.

(** [_drive_child], after [_setup_consumer] with the outcome [setup]: whatever goes wrong is reported. *)
Definition _drive_child (a : bench_args) (op : bench_op) (ws : Z) (concs : list Z) (setup : outcome (Z * Z)) (xs : list point_env) :
    payload :=
  match setup with
  | Done _ => PPoints (point_to_wire <$> _sweep a op ws concs xs)
  | _ => PError
  end.

(** The collecting loop of [run_drive]: [None] while it waits for a child that
    has not reported. *)
Fixpoint collect (n : nat) (arrivals : list (nat * payload)) (collected : gmap nat (list sweep_point)) :
    option (outcome (gmap nat (list sweep_point))) :=
  match n, arrivals with
  | O, _ => Some (Done collected)
  | S _, [] => None
  | S _, (_, PError) :: _ => Some Exit
  | S n', (idx, PPoints wire) :: arrivals' => collect n' arrivals' (<[idx := point_from_wire <$> wire]> collected)
  end.

(** [[collected[i] for i in sorted(collected)]] *)
Definition per_proc (collected : gmap nat (list sweep_point)) : list (list sweep_point) :=
  omap (λ i, collected !! i) (merge_sort le (elements (dom collected))).

(** [run_drive] with one process: the sweep runs in the process itself. *)
Definition run_drive_single (a : bench_args) (op : bench_op) (ws : Z) (addr : string) (concs : list Z) (setup : outcome (Z * Z))
    (xs : list point_env) : outcome (list BenchResult) :=
  match setup with
  | Done _ => Done (_rows_from_points a op ws 1 addr (_sweep a op ws concs xs))
  | Failed e => Failed e
  | Exit => Exit
  end.

(** [run_drive] with several processes. *)
Definition run_drive (a : bench_args) (op : bench_op) (ws : Z) (addr : string) (procs : nat) (arrivals : list (nat * payload)) :
    option (outcome (list BenchResult)) :=
  (λ r, collected ← r; points ← of_pyres (_merge_points (per_proc collected));
        mret (_rows_from_points a op ws (Z.of_nat procs) addr points)) <$> collect procs arrivals ∅.

(** ** Properties *)

(** *** Collecting *)

Definition points_of (x : nat * payload) : option (nat * list sweep_point) :=
  match x.2 with PPoints wire => Some (x.1, point_from_wire <$> wire) | PError => None end.

Lemma collect_done arrivals : ∀ collected n,
  length arrivals = n → Forall (λ x, is_Some (points_of x)) arrivals →
  collect n arrivals collected = Some (Done (foldl (λ m e, <[e.1 := e.2]> m) collected (omap points_of arrivals))).
Proof.
  induction arrivals as [|[idx [wire|]] arrivals IH]; intros collected n <- Hall; [done| |].
  - apply Forall_cons in Hall as [_ Hall]. cbn [length collect]. rewrite IH by done. done.
  - apply Forall_cons in Hall as [[? H] _]. done.
Qed.

Lemma collect_error arrivals : ∀ collected n,
  length arrivals = n → Exists (λ x, points_of x = None) arrivals → collect n arrivals collected = Some Exit.
Proof.
  induction arrivals as [|[idx [wire|]] arrivals IH]; intros collected n <- Hex; [by apply Exists_nil in Hex| |done].
  apply Exists_cons in Hex as [H|Hex]; [done|]. cbn [length collect]. by apply IH.
Qed.

Lemma foldl_insert_list (l : list (nat * list sweep_point)) : ∀ m : gmap nat (list sweep_point),
  NoDup l.*1 → (∀ i, i ∈ l.*1 → m !! i = None) →
  ∀ i, foldl (λ (m : gmap nat (list sweep_point)) e, <[e.1 := e.2]> m) m l !! i =
    match (list_to_map l : gmap nat (list sweep_point)) !! i with Some v => Some v | None => m !! i end.
Proof.
  induction l as [|[k v] l IH]; intros m Hnd Hfresh i; [done|]. apply NoDup_cons in Hnd as [Hk Hnd]. cbn [foldl fst snd].
  rewrite IH; [|done|].
  - destruct (decide (i = k)) as [->|Hne].
    + cbn. rewrite lookup_insert_eq, lookup_insert_eq. rewrite (proj1 (not_elem_of_list_to_map _ _)) by done. done.
    + cbn. rewrite (lookup_insert_ne _ k i), lookup_insert_ne by done. done.
  - intros j Hj. rewrite lookup_insert_ne by (intros ->; done). apply Hfresh. by right.
Qed.

Lemma collected_perm l1 l2 :
  l1 ≡ₚ l2 → NoDup l1.*1 →
  foldl (λ (m : gmap nat (list sweep_point)) e, <[e.1 := e.2]> m) ∅ l1 = foldl (λ m e, <[e.1 := e.2]> m) ∅ l2.
Proof.
  intros Hp Hnd. apply map_eq. intros i.
  rewrite !foldl_insert_list; [|by rewrite <-Hp|done|done|done].
  by rewrite (list_to_map_proper l1 l2).
Qed.

(** A multi-process run does not depend on the order of arrival.  When
    every reader process reports once, in whatever order, the outcome of the
    run is the same: its rows when all of them measured, and [SystemExit] when
    one of them failed. *)
Theorem drive_order_independent (a : bench_args) (op : bench_op) (ws : Z) (addr : string) (procs : nat)
  (arr1 arr2 : list (nat * payload)) (Hperm : arr1 ≡ₚ arr2) (Hnd : NoDup arr1.*1) (Hall : length arr1 = procs) :
  run_drive a op ws addr procs arr1 = run_drive a op ws addr procs arr2 ∧
  (Exists (λ x, x.2 = PError) arr1 → run_drive a op ws addr procs arr1 = Some Exit) ∧
  is_Some (run_drive a op ws addr procs arr1).
Proof.
  assert (length arr2 = procs) as Hall2 by by rewrite <-Hperm.
  assert (∀ x : nat * payload, points_of x = None ↔ x.2 = PError) as Hpe by (intros [i [w|]]; by split).
  unfold run_drive. destruct (decide (Forall (λ x, is_Some (points_of x)) arr1)) as [Hok|Hbad].
  - assert (Forall (λ x, is_Some (points_of x)) arr2) as Hok2 by by rewrite <-Hperm.
    rewrite (collect_done arr1), (collect_done arr2) by done.
    assert (NoDup (omap points_of arr1).*1) as Hnd1.
    { clear -Hnd Hok. induction Hok as [|[i [w|]] l [y Hy] _ IH]; [constructor| |done].
      cbn in *. apply NoDup_cons in Hnd as [Hi Hnd]. constructor; [|by apply IH].
      intros (e & -> & He)%list_elem_of_fmap. apply Hi. apply list_elem_of_omap in He as ([j [w'|]] & Hin & [= <-]).
      apply list_elem_of_fmap. by exists (j, PPoints w'). }
    split; [|split; [|by eexists]].
    + do 3 f_equal. rewrite (collected_perm _ (omap points_of arr2)); [done| |done]. by rewrite Hperm.
    + intros (x & Hx & He)%Exists_exists. rewrite Forall_forall in Hok. destruct (Hok x Hx) as [y Hy].
      apply Hpe in He. congruence.
  - assert (Exists (λ x, points_of x = None) arr1) as Hex1.
    { apply not_Forall_Exists in Hbad; [|intros x; apply _]. eapply Exists_impl; [exact Hbad|].
      intros x Hx. simpl in Hx. by apply eq_None_not_Some. }
    assert (Exists (λ x, points_of x = None) arr2) as Hex2 by by rewrite <-Hperm.
    rewrite (collect_error arr1), (collect_error arr2) by done. split; [done|]. split; [done|by eexists].
Qed.

(** What a child measured is what the parent gets. *)
Lemma point_wire_roundtrip p : h_sig (sp_hist p) = 3 → point_from_wire (point_to_wire p) = p.
Proof. destruct p as [c o b pg h cl [sg cn n sm mx mn] el]. simpl. by intros ->. Qed.
End drive.

(** *** Serving *)

Lemma chunk_ranges_spec fuel : ∀ lo ws,
  (Z.to_nat (ws - lo) ≤ fuel)%nat → concat (chunk_ranges fuel lo ws) = seqZ lo (ws - lo) ∧
  Forall (λ c, 1 ≤ zlength c ≤ 256) (chunk_ranges fuel lo ws).
Proof.
  induction fuel as [|fuel IH]; intros lo ws Hf; simpl.
  { rewrite seqZ_nil by lia. split; [done|constructor]. }
  destruct (Z.ltb_spec lo ws) as [Hlt|Hge]; [|rewrite seqZ_nil by lia; split; [done|constructor]].
  destruct (IH (lo + 256) ws ltac:(lia)) as [H1 H2]. split.
  - simpl. rewrite H1. destruct (decide (lo + 256 ≤ ws)).
    + rewrite Z.min_l by lia. replace (ws - lo) with (256 + (ws - (lo + 256))) by lia.
      rewrite seqZ_app by lia. by replace (lo + 256 - lo) with 256 by lia.
    + rewrite Z.min_r by lia. rewrite (seqZ_nil (lo + 256)) by lia. by rewrite app_nil_r.
  - constructor; [|done]. unfold zlength. rewrite length_seqZ. lia.
Qed.

(** The looks at the membership before the stop flag is seen. *)
Fixpoint seen (obs : list (bool * members)) : list members :=
  match obs with
  | [] => []
  | (stopped, cur) :: obs' => if (stopped : bool) then [] else cur :: seen obs'
  end.

(** [l] without repetitions next to each other, given what comes before. *)
Fixpoint changes (prev : members) (l : list members) : list members :=
  match l with
  | [] => []
  | x :: l' => if bool_decide (x = prev) then changes prev l' else x :: changes x l'
  end.

Lemma serve_loop_changes prev obs : serve_loop prev obs = changes prev (seen obs).
Proof.
  revert prev. induction obs as [|[[] cur] obs IH]; intros prev; [done|done|]. simpl.
  case_bool_decide; [apply IH|]. f_equal. apply IH.
Qed.

Lemma changes_last prev l : last (prev :: changes prev l) = last (prev :: l).
Proof.
  revert prev. induction l as [|x l IH]; intros prev; [done|]. cbn [changes]. case_bool_decide as Hx.
  - subst x. rewrite IH. by destruct l.
  - change (last (prev :: x :: changes x l)) with (last (x :: changes x l)). by rewrite IH.
Qed.

(** The server follows the membership.  [serve] publishes in chunks of at
    most 256 pages that are exactly the working set, in order; from then on it
    publishes again once per change of the membership it sees and not
    otherwise, so the last time it did was for the membership it saw last.
    The first look comes after the first publish: a reader that joins in
    between is taken for an old one and causes no publish. *)
Theorem serve_follows_membership (a : bench_args) (gss ws readers deadline : Z) (ring : list (Z * Z)) (m0 m1 : members)
  (obs : list (bool * members)) (seg : Z) (pubs : list members) (Hws : 0 ≤ ws)
  (Hrun : run_serve a gss ws readers deadline ring m0 m1 obs = Some (Done (seg, pubs))) :
  concat (publish_chunks ws) = seqZ 0 ws ∧ Forall (λ c, 1 ≤ zlength c ≤ 256) (publish_chunks ws) ∧
  (∃ now size, (now, size) ∈ ring ∧ now < deadline ∧ 1 + Z.max 1 readers ≤ size) ∧
  pubs = m0 :: changes m1 (seen obs) ∧
  last (m1 :: tail pubs) = last (m1 :: seen obs) ∧
  (m1 ≠ m0 → Forall (λ m, m = m1) (seen obs) → pubs = [m0]).
Proof.
  unfold run_serve, _wait_ring in Hrun. destruct (wait_until _ _ _) as [[]|] eqn:Ew; [|done..]. cbn in Hrun.
  injection Hrun as _ <-. apply wait_until_spec in Ew as (pre & now & size & post & -> & _ & Hnow & Hsize).
  apply Z.leb_le in Hsize.
  destruct (chunk_ranges_spec (Z.to_nat ws) 0 ws ltac:(lia)) as [H1 H2]. rewrite Z.sub_0_r in H1.
  split; [done|]. split; [done|]. split; [exists now, size; split; [apply elem_of_app; right; left|done]|].
  rewrite serve_loop_changes. split; [done|]. split; [apply changes_last|].
  intros _ Hall. f_equal. induction Hall as [|m l -> _ IH]; [done|]. simpl. by rewrite bool_decide_eq_true_2.
Qed.

(** *** Waiting for the producer *)

(** The driver has seen its probes when it starts. *)
Lemma wait_published_done keys deadline obs :
  _wait_published keys deadline obs = Some (Done ()) →
  ∃ probe now f, probe_keys keys = Ret probe ∧ (now, f) ∈ obs ∧ now < deadline ∧ f probe = length probe.
Proof.
  unfold _wait_published. destruct (probe_keys keys) as [probe|e]; [|done].
  destruct (wait_until _ _ _) as [[]|] eqn:E; [|done..]. intros _.
  apply wait_until_spec in E as (pre & now & f & post & -> & _ & Hnow & Hf). apply Nat.eqb_eq in Hf.
  exists probe, now, f. split; [done|]. split; [apply elem_of_app; right; left|done].
Qed.

(** ** Concrete runs *)

Module DistExamples.
Import BenchExamples.

(** A producer that has published three of five pages: the first, the middle
    and the last one. *)
Definition five : list string := dist_keys 5.
Definition published : list string := omap (λ i : nat, five !! i) [0; 2; 4]%nat.
Fixpoint prefix_found (ks : list string) : nat :=
  match ks with
  | k :: ks' => if bool_decide (k ∈ published) then S (prefix_found ks') else O
  | [] => O
  end.

(** The driver starts although two pages of the working set are missing: only
    three keys are looked at. *)
Theorem wait_published_three_probes :
  _wait_published five 10 [(0, prefix_found)] = Some (Done ()) ∧ prefix_found five = 1%nat ∧ length five = 5%nat.
Proof. split; [vm_compute; reflexivity|]. split; vm_compute; reflexivity. Qed.

Definition reader (i : nat) (hits : Z) : nat * payload :=
  (i, PPoints [point_to_wire (mk_point 1 hits (hits * 4096) hits hits 1 (new_hist 3) 1000)]).

Lemma drive_order_independent_witness :
  run_drive SweepExamples.args0 OpGet 16 "h:1" 2 [reader 0 3; reader 1 4] =
  run_drive SweepExamples.args0 OpGet 16 "h:1" 2 [reader 1 4; reader 0 3].
Proof.
  refine (proj1 (drive_order_independent SweepExamples.args0 OpGet 16 "h:1" 2 [reader 0 3; reader 1 4] [reader 1 4; reader 0 3] _ _ _)).
  - apply Permutation_swap.
  - apply (bool_decide_unpack _). vm_compute. exact I.
  - reflexivity.
Defined.

(** A reader that is killed reports nothing: the parent waits for it without
    end. *)
Example killed_reader : run_drive SweepExamples.args0 OpGet 16 "h:1" 2 [reader 0 3] = None.
Proof. reflexivity. Qed.

Definition two : members := {[("a", "h:1"); ("b", "h:2")]}.
Definition three : members := {[("a", "h:1"); ("b", "h:2"); ("c", "h:3")]}.

Lemma serve_follows_membership_witness :
  last (two :: serve_loop two [(false, two); (false, three); (false, three)]) = Some three.
Proof.
  destruct (serve_follows_membership SweepExamples.args0 0 600 1 10 [(0, 1); (1, 2)] two two
    [(false, two); (false, three); (false, three)] (int_times_1_3 (600 * 4096))
    (two :: serve_loop two [(false, two); (false, three); (false, three)])) as (_ & _ & _ & _ & H & _).
  - discriminate.
  - reflexivity.
  - exact H.
Defined.
End DistExamples.
