(* ===== verification/BenchTools.v ===== *)
(** The small benchmark tools: the data-plane microbenchmark
    ([bench/microbench.py]), the Mooncake adapter ([bench/mooncake_bench.py])
    with its child processes, the comparison sweep ([bench/compare.py]), and
    the text tables of [bench/common.py].

    Child processes, their output and the readiness of the metadata server are
    inputs; what the adapter does with the processes is a trace of starts and
    kills. *)
From S2P Require Import Prelude Bytes Types Rpc Config Transport Bench BenchSweep BenchReport.

(** ** The microbenchmark *)

Module Micro.
Record micro := mk_micro { mb_block_size : Z; mb_batch_size : Z }.

Definition buf_pages (wl : micro) : Z := Z.max (mb_batch_size wl * 4) 256.
Definition buf_bytes (wl : micro) : Z := mb_block_size wl * buf_pages wl.

(** [build_batch] of [bench_transport_read]. *)
Definition slot (wl : micro) (round_idx j : Z) : Z := (round_idx * mb_batch_size wl + j) mod buf_pages wl.
Definition build_batch (wl : micro) (remote : string) (dst_addr src_addr rkey round_idx : Z) : list ReadOp :=
  (λ j, let s := slot wl round_idx j in
        mk_readop remote (dst_addr + s * mb_block_size wl) (src_addr + s * mb_block_size wl) rkey (mb_block_size wl))
    <$> seqZ 0 (mb_batch_size wl).

(** The tallies of the two measuring loops: a turn is the clock when it
    starts, the reads that succeeded and how long the batch took. *)
Record micro_tally := mk_mt { mt_ops : Z; mt_bytes : Z; mt_hist : Histogram; mt_r : Z }.

Fixpoint measure {LG : Log10} (block_size end_ : Z) (t : micro_tally) (turns : list (Z * Z * Z)) : micro_tally :=
  match turns with
  | [] => t
  | (now, n_ok, ns) :: turns' =>
      if now <? end_ then
        measure block_size end_
          (mk_mt (mt_ops t + n_ok) (mt_bytes t + n_ok * block_size)
             (if n_ok =? 0 then mt_hist t else record (mt_hist t) (ns / n_ok)) (mt_r t + 1)) turns'
      else t
  end.

(** [_FakeMemPoolHost.get_page_buffer_meta] and the indices of [get_round]. *)
Definition fake_meta (base page_bytes : Z) (host_indices : list Z) : list Z * list Z :=
  ((λ i, base + i * page_bytes) <$> host_indices, replicate (length host_indices) page_bytes).

Definition npages (wl : micro) : Z := Z.max (mb_batch_size wl * 8) 512.
Definition store_seg_bytes (wl : micro) : Z := Z.max (mb_block_size wl * npages wl * 2) (2 ^ 20).
Definition round_idxs (wl : micro) (round_idx : Z) : list Z :=
  let lo := (round_idx * mb_batch_size wl) mod npages wl in (λ j, (lo + j) mod npages wl) <$> seqZ 0 (mb_batch_size wl).

(** Positions of a window modulo the buffer are in range and distinct. *)
Lemma window_nodup base n m : 0 < m → n ≤ m →
  NoDup ((λ j, (base + j) mod m) <$> seqZ 0 n) ∧ Forall (λ s, 0 ≤ s < m) ((λ j, (base + j) mod m) <$> seqZ 0 n).
Proof.
  intros Hm Hn. split.
  - apply NoDup_fmap_2_strong; [|apply NoDup_seqZ]. intros i j Hi%elem_of_seqZ Hj%elem_of_seqZ He.
    pose proof (Z.div_mod (base + i) m ltac:(lia)). pose proof (Z.div_mod (base + j) m ltac:(lia)).
    assert ((base + i) / m = (base + j) / m); nia.
  - apply Forall_fmap, Forall_forall. intros j _. apply Z.mod_pos_bound. done.
Qed.

Lemma slots_ok wl r : 0 ≤ mb_batch_size wl →
  NoDup (slot wl r <$> seqZ 0 (mb_batch_size wl)) ∧ Forall (λ s, 0 ≤ s < buf_pages wl) (slot wl r <$> seqZ 0 (mb_batch_size wl)).
Proof. intros Hb. apply window_nodup; unfold buf_pages; lia. Qed.

Lemma ops_disjoint wl remote dst src rkey (ss : list Z) :
  0 ≤ mb_block_size wl → NoDup ss →
  ForallOrdPairs local_disjoint
    ((λ s, mk_readop remote (dst + s * mb_block_size wl) (src + s * mb_block_size wl) rkey (mb_block_size wl)) <$> ss).
Proof.
  intros Hb. induction 1 as [|s ss Hs _ IH]; [constructor|]. cbn [fmap list_fmap]. constructor; [|done].
  apply Forall_fmap, Forall_forall. intros s' Hs'. unfold local_disjoint, ranges_disjoint. simpl.
  assert (s ≠ s') by (intros ->; done). nia.
Qed.

Lemma build_batch_slots wl remote dst src rkey r :
  build_batch wl remote dst src rkey r =
    (λ s, mk_readop remote (dst + s * mb_block_size wl) (src + s * mb_block_size wl) rkey (mb_block_size wl)) <$>
      (slot wl r <$> seqZ 0 (mb_batch_size wl)).
Proof. unfold build_batch. by rewrite <-list_fmap_compose. Qed.

(** Every read of the microbenchmark is one the peer serves.  Whatever the
    round, the operations of a batch read whole blocks inside the registered
    source buffer and land in different blocks of the destination; so over
    links that hold a batch succeeds in full, and every destination block gets
    the bytes of the source block with its number. *)
Theorem micro_batch_delivers (wl : micro) (f f' : fabric) (me peer remote : string) (dst src rkey r : Z)
  (p0 pr : process) (link : nat → attempt) (oks : list bool)
  (Hblock : 0 ≤ mb_block_size wl) (Hbatch : 0 ≤ mb_batch_size wl)
  (Hme : f_procs f !! me = Some p0) (Hpeer : f_procs f !! peer = Some pr) (Hhost : f_host f remote = Some peer)
  (Hne : peer ≠ me) (Hreg : (src, buf_bytes wl) ∈ pr_regions pr) (Hsrc : 0 ≤ src) (H64 : src + buf_bytes wl < 2 ^ 64)
  (Hlink : ∀ i, link i = AReply)
  (Hrun : batch_read f me (build_batch wl remote dst src rkey r) link = (oks, f')) :
  oks = replicate (Z.to_nat (mb_batch_size wl)) true ∧
  ∀ j, 0 ≤ j < mb_batch_size wl → let s := slot wl r j in 0 ≤ s < buf_pages wl ∧
    ∃ p', f_procs f' !! me = Some p' ∧
      mem_read (pr_mem p') (dst + s * mb_block_size wl) (mb_block_size wl) =
      mem_read (pr_mem pr) (src + s * mb_block_size wl) (mb_block_size wl).
Proof.
  destruct (slots_ok wl r Hbatch) as [Hnd Hrange]. set (ss := slot wl r <$> seqZ 0 (mb_batch_size wl)) in *.
  set (op := λ s, mk_readop remote (dst + s * mb_block_size wl) (src + s * mb_block_size wl) rkey (mb_block_size wl)).
  assert (∀ s, 0 ≤ s < buf_pages wl →
    remote_bytes f (op s) = Some (mem_read (pr_mem pr) (src + s * mb_block_size wl) (mb_block_size wl))) as Hbytes.
  { intros s Hs. unfold remote_bytes, target, remote_process. simpl. rewrite Hhost. simpl. rewrite Hpeer. simpl.
    unfold buf_bytes in *. rewrite bool_decide_eq_true_2 by nia.
    replace (_covered pr _ _) with true; [done|]. symmetry. unfold _covered. apply existsb_exists.
    eexists. split; [by apply list_elem_of_In|]. cbv beta iota. apply andb_true_iff. rewrite !Z.leb_le. nia. }
  unfold batch_read in Hrun. rewrite build_batch_slots in Hrun. fold ss in Hrun. fold op in Hrun.
  pose proof (batch_read_from_spec 0 f me (op <$> ss) link p0 Hme) as Hspec. rewrite Hrun in Hspec.
  destruct Hspec as (_ & -> & p' & Hp' & Hdata & _).
  { apply Forall_fmap, Forall_forall. intros s _. simpl. rewrite Hhost. congruence. }
  { by apply ops_disjoint. }
  assert (∀ j, 0 ≤ j < mb_batch_size wl → ss !! Z.to_nat j = Some (slot wl r j)) as Hl.
  { intros j Hj. unfold ss. rewrite list_lookup_fmap, lookup_seqZ_lt by lia. simpl. do 2 f_equal. lia. }
  split.
  - apply list_eq. intros i. rewrite list_lookup_imap, list_lookup_fmap.
    destruct (decide (i < Z.to_nat (mb_batch_size wl))%nat) as [Hi|Hi].
    + rewrite lookup_replicate_2 by done. specialize (Hl (Z.of_nat i) ltac:(lia)). rewrite Nat2Z.id in Hl. rewrite Hl. simpl. f_equal.
      rewrite Hlink. eapply read_ok_reply, Hbytes.
      apply (proj1 (Forall_lookup _ _) Hrange i). done.
    + rewrite !lookup_ge_None_2; [done|rewrite length_replicate; lia|]. unfold ss. rewrite length_fmap, length_seqZ. lia.
  - intros j Hj s. specialize (Hl j Hj). fold s in Hl. pose proof (proj1 (Forall_lookup _ _) Hrange _ _ Hl) as Hs. simpl in Hs.
    split; [done|]. exists p'. split; [done|].
    apply (Hdata (Z.to_nat j) (op s)); [by rewrite list_lookup_fmap, Hl|]. simpl. rewrite Hlink. by apply read_data_reply, Hbytes.
Qed.

(** Two blocks of four bytes per batch between processes [i] and [t]. *)
Definition small : micro := mk_micro 4 2.
Definition source : mem := λ x, x mod 251.
Definition pair_fabric : fabric :=
  mk_fabric {[ "i" := mk_proc (λ _, 0) [(8192, 1024)]; "t" := mk_proc source [(4096, 1024)] ]}
    (λ ep, if String.eqb ep "t:1" then Some "t" else None).
Definition one_batch : list bool * fabric := batch_read pair_fabric "i" (build_batch small "t:1" 8192 4096 0 5) (λ _, AReply).

Lemma micro_batch_delivers_witness :
  one_batch.1 = [true; true] ∧ ∃ p, f_procs one_batch.2 !! "i" = Some p ∧
    mem_read (pr_mem p) (8192 + slot small 5 1 * 4) 4 = mem_read source (4096 + slot small 5 1 * 4) 4.
Proof.
  destruct (micro_batch_delivers small pair_fabric one_batch.2 "i" "t" "t:1" 8192 4096 0 5 (mk_proc (λ _, 0) [(8192, 1024)])
    (mk_proc source [(4096, 1024)]) (λ _, AReply) one_batch.1) as [H1 H2].
  - discriminate.
  - discriminate.
  - reflexivity.
  - reflexivity.
  - reflexivity.
  - discriminate.
  - left.
  - discriminate.
  - reflexivity.
  - reflexivity.
  - unfold one_batch. by destruct (batch_read _ _ _ _).
  - split; [exact H1|]. destruct (H2 1 ltac:(by split)) as [_ H]. exact H.
Defined.
End Micro.

(** ** The Mooncake adapter *)

Module Mooncake.

(** *** [THROUGHPUT_RE.search(line)] *)

(** A literal, ignoring case: the rest of the text. *)
Fixpoint match_lit (lit s : string) : option string :=
  match lit, s with
  | EmptyString, _ => Some s
  | String a lit', String c s' => if bool_decide (lower_char a = lower_char c) then match_lit lit' s' else None
  | String _ _, EmptyString => None
  end.

(** [[0-9.]+], as much as there is. *)
Definition num_char (c : Ascii.ascii) : bool := bool_decide (is_Some (digit_val c)) || chr_is 46 c.
Fixpoint take_num (s : string) : string * string :=
  match s with
  | String c s' => if num_char c then let '(a, r) := take_num s' in (String c a, r) else (EmptyString, s)
  | EmptyString => (EmptyString, EmptyString)
  end.

(** The pattern at the front of [s]: the digits of the group.  Neither the
    blanks nor the digits can be given back: what follows them is another kind
    of character. *)
Definition match_here (s : string) : option string :=
  r ← match_lit "throughput" s;
  match r with
  | String c _ =>
      if is_space c then
        let '(num, r) := take_num (lstrip r) in
        match num with
        | EmptyString => None
        | _ => (λ _, num) <$> match_lit "GB/s" (lstrip r)
        end
      else None
  | EmptyString => None
  end.

Fixpoint re_search (s : string) : option string :=
  match match_here s with
  | Some g => Some g
  | None => match s with String _ s' => re_search s' | EmptyString => None end
  end.

(** The last line that matches. *)
Definition throughput_of (lines : list string) : option string :=
  foldl (λ m line, match re_search line with Some g => Some g | None => m end) None lines.

(** *** Processes *)

Inductive proc_id := PMeta | PTarget.

#[export] Instance proc_id_eq_dec : EqDecision proc_id.
Proof. solve_decision. Defined.

Inductive proc_event := EvStart (p : proc_id) | EvKill (p : proc_id).

(** What a run meets: whether the binary is installed, whether the metadata
    server can be started and answers, whether the target can be started and
    survives its first seconds, and what the initiator prints or raises. *)
Record mooncake_env := mk_menv {
  me_binary : bool;
  me_meta_spawn : bool;
  me_meta_ready : bool;
  me_target_spawn : bool;
  me_target_alive : bool;
  me_initiator : pyres (list string)
}.

(** [start_metadata_server] *)
Definition start_metadata_server (e : mooncake_env) : pyres unit * list proc_event :=
  if negb (me_meta_spawn e) then (Raise OSError, [])
  else if negb (me_meta_ready e) then (Raise RuntimeError, [EvStart PMeta; EvKill PMeta])
  else (Ret (), [EvStart PMeta]).

(** [_kill(p)]: nothing for a process that was never started. *)
Definition _kill (started : bool) (p : proc_id) : list proc_event := if started then [EvKill p] else [].

(** Why a run has no result: the notes of the rows that are not ok. *)
Inductive row_kind := RowOk (gbps : string) | RowNoBinary | RowTargetExited | RowNoThroughput | RowError.

(** [bench_transfer_engine]: the body of the [try], with whether it started
    the metadata server and the target; then the [finally]. *)
Definition engine_body (owns_meta : bool) (e : mooncake_env) : row_kind * bool * bool * list proc_event :=
  let '(meta, tr) := if owns_meta then start_metadata_server e else (Ret (), []) in
  match meta with
  | Raise _ => (RowError, false, false, tr)
  | Ret _ =>
      if negb (me_target_spawn e) then (RowError, owns_meta, false, tr)
      else
        let tr := tr ++ [EvStart PTarget] in
        let kind :=
          if negb (me_target_alive e) then RowTargetExited
          else match me_initiator e with
               | Raise _ => RowError
               | Ret lines =>
                   match throughput_of lines with
                   | None => RowNoThroughput
                   | Some g => match py_float g with Some _ => RowOk g | None => RowError end
                   end
               end in
        (kind, owns_meta, true, tr)
  end.

Definition bench_transfer_engine (owns_meta : bool) (e : mooncake_env) : row_kind * list proc_event :=
  if negb (me_binary e) then (RowNoBinary, [])
  else
    let '(kind, has_meta, has_target, tr) := engine_body owns_meta e in
    (kind, tr ++ _kill has_target PTarget ++ (if owns_meta then _kill has_meta PMeta else [])).

(** The processes still running after a trace. *)
Fixpoint alive (ps : list proc_id) (tr : list proc_event) : list proc_id :=
  match tr with
  | [] => ps
  | EvStart p :: tr' => alive (p :: ps) tr'
  | EvKill PMeta :: tr' => alive (filter (λ p, p = PTarget) ps) tr'
  | EvKill PTarget :: tr' => alive (filter (λ p, p = PMeta) ps) tr'
  end.

(** ** The comparison sweep *)

(** [parse_sizes]: one token. *)
Definition size_units : list (string * Z) := [("kb", 10); ("mb", 20); ("k", 10); ("m", 20)].

Fixpoint size_token (us : list (string * Z)) (tok : string) : pyres Z :=
  let scaled body j := match py_float body with Some f => int_of_float (scale_float f j) | None => Raise ValueError end in
  match us with
  | [] => scaled tok 0
  | (suffix, j) :: us' => match strip_suffix suffix tok with Some body => scaled body j | None => size_token us' tok end
  end.

Definition parse_sizes (s : string) : pyres (list Z) :=
  py_mapM (size_token size_units) (filter (λ t, t ≠ ""%string) ((λ t, py_lower (py_strip t)) <$> py_split comma s)).

(** What one block size of the sweep meets: the two PeerCache benchmarks (a
    row or an exception) and the Mooncake one. *)
Record compare_env := mk_cenv {
  ce_transport : pyres BenchResult;
  ce_store : pyres BenchResult;
  ce_mooncake : mooncake_env;
  ce_mooncake_row : BenchResult
}.

(** The loop of [compare.run]: rows, the events, and the exception that ended
    it, if any. *)
Fixpoint compare_loop (skip_store mooncake : bool) (points : list compare_env) : list BenchResult * list proc_event * option exn :=
  match points with
  | [] => ([], [], None)
  | x :: points' =>
      match ce_transport x with
      | Raise e => ([], [], Some e)
      | Ret r1 =>
          match (if skip_store then Ret [] else r ← ce_store x; Ret [r]) with
          | Raise e => ([r1], [], Some e)
          | Ret r2 =>
              let '(r3, tr) := if mooncake then ([ce_mooncake_row x], (bench_transfer_engine false (ce_mooncake x)).2) else ([], []) in
              let '(rows, tr', e) := compare_loop skip_store mooncake points' in (r1 :: r2 ++ r3 ++ rows, tr ++ tr', e)
          end
      end
  end.

(** [compare.run]: one metadata server for the whole sweep, killed whatever
    happens, also when the block sizes do not parse; without one the Mooncake
    rows are left out.  [points] is what each block size meets. *)
Definition compare_run (block_sizes : string) (skip_store skip_mooncake : bool) (meta : mooncake_env) (points : Z → compare_env) :
    pyres (list BenchResult) * list proc_event :=
  let '(up, tr0) := if skip_mooncake then (false, [])
                    else match start_metadata_server meta with (Ret _, tr) => (true, tr) | (Raise _, tr) => (false, tr) end in
  let '(rows, tr, e) := match parse_sizes block_sizes with
                        | Ret sizes => compare_loop skip_store up (points <$> sizes)
                        | Raise e => ([], [], Some e)
                        end in
  (match e with Some e => Raise e | None => Ret rows end, tr0 ++ tr ++ _kill up PMeta).

(** ** Properties *)

Lemma alive_app tr1 tr2 ps : alive ps (tr1 ++ tr2) = alive (alive ps tr1) tr2.
Proof. revert ps. induction tr1 as [|[p|[]] tr1 IH]; intros ps; simpl; [done|apply IH..]. Qed.

(** One point leaves behind what it found. *)
Lemma engine_clean e : alive [] (bench_transfer_engine true e).2 = [] ∧ alive [PMeta] (bench_transfer_engine false e).2 = [PMeta].
Proof.
  unfold bench_transfer_engine, engine_body, start_metadata_server.
  destruct e as [[] [] [] [] [] init]; by split.
Qed.

Lemma compare_loop_clean (skip_store mooncake : bool) (points : list compare_env) : ∀ ps, ps = (if mooncake then [PMeta] else []) →
  alive ps (compare_loop skip_store mooncake points).1.2 = ps.
Proof.
  induction points as [|x points IH]; intros ps Hps; [done|]. cbn [compare_loop].
  destruct (ce_transport x) as [r1|e]; [|done].
  destruct (if skip_store then Ret [] else (r ← ce_store x; Ret [r])) as [r2|e]; [|done].
  specialize (IH ps Hps). destruct (compare_loop skip_store mooncake points) as [[rows tr'] e]. cbn [fst snd] in *.
  destruct mooncake; [|exact IH]. cbn [fst snd]. rewrite alive_app. subst ps. by rewrite (proj2 (engine_clean (ce_mooncake x))).
Qed.

(** No process is left behind.  A single Mooncake point that starts its own
    metadata server kills everything it started, whichever step fails; with a
    shared server it leaves that one alone and kills the rest; and a comparison
    sweep has no child process at its end, also when a benchmark raises in the
    middle, the block sizes do not parse or the metadata server never answers.  A row is reported as good
    only when the initiator printed a throughput that is a number. *)
Theorem mooncake_no_orphans (e meta : mooncake_env) (block_sizes : string) (skip_store skip_mooncake : bool)
  (points : Z → compare_env) :
  alive [] (bench_transfer_engine true e).2 = [] ∧
  alive [PMeta] (bench_transfer_engine false e).2 = [PMeta] ∧
  alive [] (compare_run block_sizes skip_store skip_mooncake meta points).2 = [] ∧
  ∀ owns g, (bench_transfer_engine owns e).1 = RowOk g →
    ∃ lines, me_initiator e = Ret lines ∧ throughput_of lines = Some g ∧ is_Some (py_float g).
Proof.
  split; [apply engine_clean|]. split; [apply engine_clean|]. split.
  - unfold compare_run, start_metadata_server.
    assert (∀ up l, alive (if (up : bool) then [PMeta] else []) ((compare_loop skip_store up l).1.2 ++ _kill up PMeta) = []) as Hl.
    { intros up l. rewrite alive_app, compare_loop_clean by done. by destruct up. }
    destruct (parse_sizes block_sizes) as [sizes|x].
    + pose proof (Hl true (points <$> sizes)) as Ht. pose proof (Hl false (points <$> sizes)) as Hf. clear Hl.
      destruct skip_mooncake, (me_meta_spawn meta), (me_meta_ready meta); cbn [negb];
        match goal with |- context [compare_loop ?a ?u ?l] => destruct (compare_loop a u l) as [[rows tr] x] end;
        first [exact Ht|exact Hf].
    + destruct skip_mooncake, (me_meta_spawn meta), (me_meta_ready meta); reflexivity.
  - intros owns g. unfold bench_transfer_engine, engine_body, start_metadata_server.
    destruct e as [[] ms mr ts ta init]; [|done]. cbn [negb me_binary me_meta_spawn me_meta_ready me_target_spawn me_target_alive me_initiator].
    destruct owns, ms, mr, ts, ta; cbn [negb fst]; try done; destruct init as [lines|x]; try done;
      destruct (throughput_of lines) as [g'|] eqn:Et; try done; destruct (py_float g') as [v|] eqn:Ef; try done;
      intros [= <-]; exists lines; (split; [done|]; split; [done|by exists v]).
Qed.

(** The adapter reads the last throughput line. *)
Example throughput_example :
  throughput_of ["warm up"; "Throughput  3.5 GB/s"; "Test completed: throughput 41.25GB/s, 0 errors"] = Some "41.25" ∧
  throughput_of ["throughput: 3 GB/s"] = None.
Proof. split; reflexivity. Qed.
End Mooncake.

(** ** Tables *)

Module Tables.

(** A number with one decimal, from its tenths. *)
Definition tenths (t : Z) : string := pretty (t / 10) +:+ "." +:+ pretty (t mod 10).

(** One unit of [human_bytes]: whole numbers without decimals.  A size below
    [2 ^ 53] bytes divided by a power of two is exact. *)
Definition in_unit (n d : Z) (unit_ : string) : string :=
  (if n mod d =? 0 then pretty (n / d) else tenths (round_half_even (n * 10) d)) +:+ unit_.

Definition human_bytes (n : Z) : string :=
  if n <? 1024 then pretty n +:+ "B"
  else if n <? 1024 ^ 2 then in_unit n 1024 "KB"
  else if n <? 1024 ^ 3 then in_unit n (1024 ^ 2) "MB"
  else in_unit n (1024 ^ 3) "GB".

(** A rate held as [k / 10 ^ nd] is the double nearest to it; [f"{v:.{d}f}"]
    rounds that double. *)
Definition fixed (nd d k : Z) : Z :=
  let '(m, e) := round_double k (10 ^ nd) in round_half_even (m * 2 ^ Z.max 0 e * 10 ^ d) (2 ^ Z.max 0 (- e)).

(** Three digits with leading zeros, and [f"{v:,.0f}"]. *)
Definition pad3 (z : Z) : string := (if z <? 10 then "00" else if z <? 100 then "0" else "") +:+ pretty z.
Fixpoint grouped (fuel : nat) (z : Z) : string :=
  match fuel with
  | O => pretty z
  | S fuel' => if z <? 1000 then pretty z else grouped fuel' (z / 1000) +:+ "," +:+ pad3 (z mod 1000)
  end.

(** [_fmt] of a latency in hundredths. *)
Definition _fmt (v : option Z) : string := match v with None => "-" | Some k => tenths (fixed 2 1 k) end.
Definition three_decimals (t : Z) : string := pretty (t / 1000) +:+ "." +:+ pad3 (t mod 1000).

Fixpoint join (sep : string) (cells : list string) : string :=
  match cells with
  | [] => ""
  | [c] => c
  | c :: cells' => c +:+ sep +:+ join sep cells'
  end.

(** The cells of one row of [render_markdown]. *)
Definition row_cells (r : BenchResult) : list string :=
  [r_system r; r_path r; r_protocol r; human_bytes (r_block_size r); pretty (r_batch_size r); pretty (r_threads r);
   if r_ok r then "**" +:+ three_decimals (fixed 4 3 (r_throughput_gbps r)) +:+ "**" else "n/a";
   if r_ok r then grouped 12 (fixed 1 0 (r_ops_per_s r)) else "n/a";
   _fmt (lat_p50 <$> r_lat r); _fmt (lat_p99 <$> r_lat r); r_note r].

Definition row_line (r : BenchResult) : string := "| " +:+ join " | " (row_cells r) +:+ " |".

Definition header_line : string :=
  "| system | path | proto | block | batch | threads | throughput (GB/s) | ops/s | p50 (us) | p99 (us) | note |".
Definition rule_line : string := "|---|---|---|---|---|---|---|---|---|---|---|".

Definition newline : Ascii.ascii := Ascii.ascii_of_N 10.
Definition nl : string := String newline "".

Definition render_markdown (rows : list BenchResult) : string := join nl ([header_line; rule_line] ++ (row_line <$> rows)).

(** *** Lines of a table *)

Fixpoint newlines (s : string) : nat :=
  match s with String c s' => ((if bool_decide (c = newline) then 1 else 0) + newlines s')%nat | EmptyString => O end.

Lemma newlines_app a b : newlines (a +:+ b) = (newlines a + newlines b)%nat.
Proof. induction a as [|c a IH]; [done|]. simpl. rewrite IH. lia. Qed.

Lemma newlines_join sep cells : newlines (join sep cells) = (sum_list (newlines <$> cells) + pred (length cells) * newlines sep)%nat.
Proof.
  induction cells as [|c cells IH]; [done|]. destruct cells as [|c' cells]; [cbn; lia|].
  change (join sep (c :: c' :: cells)) with (c +:+ sep +:+ join sep (c' :: cells)). rewrite !newlines_app, IH. cbn. lia.
Qed.

Lemma newlines_pretty (z : Z) : newlines (pretty z) = O.
Proof.
  assert (∀ s, str_all digit s → newlines s = O) as Hd.
  { induction s as [|c s IH]; [done|]. intros [[d Hc] Hs]. simpl. rewrite IH by done.
    rewrite bool_decide_eq_false_2; [done|]. by intros ->. }
  destruct z as [|p|p].
  - apply Hd. by split; [eexists|].
  - apply Hd. by apply (pretty_N_go_digit (N.pos p) "").
  - change (pretty (Z.neg p)) with ("-" +:+ pretty_N_go (N.pos p) ""). rewrite newlines_app.
    rewrite (Hd (pretty_N_go _ _)); [done|]. by apply pretty_N_go_digit.
Qed.

Lemma newlines_tenths t : newlines (tenths t) = O.
Proof. unfold tenths. by rewrite !newlines_app, !newlines_pretty. Qed.

Lemma newlines_pad3 z : newlines (pad3 z) = O.
Proof. unfold pad3. rewrite newlines_app, newlines_pretty. by destruct (z <? 10), (z <? 100). Qed.

Lemma newlines_grouped fuel z : newlines (grouped fuel z) = O.
Proof.
  revert z. induction fuel as [|fuel IH]; intros z; simpl; [apply newlines_pretty|].
  destruct (z <? 1000); [apply newlines_pretty|]. by rewrite !newlines_app, IH, newlines_pad3.
Qed.

Lemma newlines_human_bytes n : newlines (human_bytes n) = O.
Proof.
  unfold human_bytes, in_unit.
  destruct (n <? 1024), (n <? 1024 ^ 2), (n <? 1024 ^ 3), (n mod 1024 =? 0), (n mod 1024 ^ 2 =? 0), (n mod 1024 ^ 3 =? 0);
    by rewrite ?newlines_app, ?newlines_tenths, ?newlines_pretty.
Qed.

Lemma newlines_fmt v : newlines (_fmt v) = O.
Proof. destruct v; [apply newlines_tenths|done]. Qed.

(** The free text of a row. *)
Definition row_text (r : BenchResult) : nat := (newlines (r_system r) + newlines (r_path r) + newlines (r_protocol r) + newlines (r_note r))%nat.

Lemma newlines_row r : newlines (row_line r) = row_text r.
Proof.
  unfold row_line. rewrite !newlines_app, newlines_join. unfold row_cells, row_text. cbn [fmap list_fmap sum_list sum_list_with length pred].
  rewrite newlines_human_bytes, !newlines_pretty, !newlines_fmt.
  assert (newlines (if r_ok r then "**" +:+ three_decimals (fixed 4 3 (r_throughput_gbps r)) +:+ "**" else "n/a") = O) as ->.
  { destruct (r_ok r); [|done]. unfold three_decimals. by rewrite !newlines_app, newlines_pretty, newlines_pad3. }
  assert (newlines (if r_ok r then grouped 12 (fixed 1 0 (r_ops_per_s r)) else "n/a") = O) as ->.
  { destruct (r_ok r); [apply newlines_grouped|done]. }
  unfold id. change (newlines "| ") with 0%nat. change (newlines " | ") with 0%nat. change (newlines " |") with 0%nat. lia.
Qed.

(** A table has one line per row exactly when no text in it breaks the
    line.  The table of a report with [n] results has [n + 2] lines plus the
    line breaks inside the names and notes of the rows; every other cell is on
    one line. *)
Theorem markdown_lines (rows : list BenchResult) :
  newlines (render_markdown rows) = (length rows + 1 + sum_list (row_text <$> rows))%nat.
Proof.
  unfold render_markdown. rewrite newlines_join. rewrite fmap_app, length_app, length_fmap.
  assert (∀ rs, sum_list (newlines <$> (row_line <$> rs)) = sum_list (row_text <$> rs)) as Hs.
  { induction rs as [|r rs IH]; [done|]. cbn. cbn in IH. rewrite newlines_row. unfold row_text in *. lia. }
  assert (∀ l1 l2, sum_list (l1 ++ l2) = (sum_list l1 + sum_list l2)%nat) as Happ.
  { induction l1 as [|x l1 IH]; intros l2; [done|]. cbn. cbn in IH. rewrite IH. lia. }
  rewrite Happ, Hs. change (newlines nl) with 1%nat. cbn [length]. cbn [fmap list_fmap]. 
  change (sum_list [newlines header_line; newlines rule_line]) with O. lia.
Qed.

(** The note of a Mooncake point without a throughput line: the last six lines
    of the output, cut to 160 characters. *)
Definition no_throughput_note (lines : list string) : string :=
  "no throughput parsed; tail: " +:+ String.substring 0 160 (join nl (drop (length lines - 6) lines)).

Definition failed_row (lines : list string) : BenchResult :=
  mk_result "mooncake" "transfer-engine" "tcp" 65536 64 4 0 0 0 0 0 None "" 0 0 0 None (no_throughput_note lines) false.

(** A failed Mooncake point breaks the table: its row takes as many lines as
    the output it quotes. *)
Theorem failed_row_breaks_table :
  newlines (render_markdown [failed_row ["error: no device"; "aborting"; "exit 1"]]) = 4%nat ∧
  newlines (render_markdown [failed_row ["error: no device"]]) = 2%nat.
Proof. split; vm_compute; reflexivity. Qed.

(** *** Sizes *)

Lemma lower_app a b : py_lower (a +:+ b) = py_lower a +:+ py_lower b.
Proof. induction a as [|c a IH]; [done|]. simpl. by rewrite IH. Qed.

(** Block sizes are read the way they are shown.  A whole number of
    kilobytes or megabytes below 1024 of them, written by [human_bytes], is
    parsed back to the same number of bytes by [parse_sizes]. *)
Theorem sizes_roundtrip (k u : Z) (Hk : 1 ≤ k < 1024) (Hu : u = 1 ∨ u = 2) :
  human_bytes (k * 1024 ^ u) = pretty k +:+ (if u =? 1 then "KB" else "MB") ∧
  Mooncake.parse_sizes (human_bytes (k * 1024 ^ u)) = Ret [k * 1024 ^ u].
Proof.
  assert (human_bytes (k * 1024 ^ u) = pretty k +:+ (if u =? 1 then "KB" else "MB")) as Hh.
  { unfold human_bytes, in_unit. change (1024 ^ 2) with 1048576. change (1024 ^ 3) with 1073741824.
    destruct Hu as [-> | ->]; cbn [Z.eqb Pos.eqb]; [change (1024 ^ 1) with 1024|change (1024 ^ 2) with 1048576].
    - rewrite (proj2 (Z.ltb_ge _ _)), (proj2 (Z.ltb_lt _ _)) by lia. rewrite Z.mod_mul, Z.div_mul by lia. done.
    - rewrite (proj2 (Z.ltb_ge _ 1024)), (proj2 (Z.ltb_ge _ 1048576)), (proj2 (Z.ltb_lt _ _)) by lia.
      rewrite Z.mod_mul, Z.div_mul by lia. done. }
  split; [done|]. rewrite Hh. set (unit_ := if u =? 1 then "KB" else "MB").
  destruct (pretty_digits_all k ltac:(lia)) as [Hd Hne].
  assert (str_all plain (pretty k)) as Hpl by (rewrite <-(str_app_empty_r (pretty k)); apply pretty_Z_digits; [lia|done]).
  assert (str_all (λ c, is_space c = false) unit_ ∧ str_all (λ c, c ≠ comma) unit_) as [Hu1 Hu2].
  { unfold unit_. destruct Hu as [-> | ->]; by repeat split. }
  unfold Mooncake.parse_sizes. rewrite py_split_none.
  2:{ apply str_all_app. split; [|done]. apply (str_all_mono digit); [by intros c [d Hc] ->|done]. }
  cbn [fmap list_fmap]. rewrite py_strip_id.
  2:{ apply str_all_app. split; [|done]. eapply str_all_mono; [|exact Hpl]. by intros c [? _]. }
  rewrite lower_app, py_lower_id by (eapply str_all_mono; [|exact Hpl]; by intros c [_ ?]).
  set (low := if u =? 1 then "kb" else "mb"). assert (py_lower unit_ = low) as -> by (destruct Hu as [-> | ->]; done).
  rewrite filter_cons, decide_True, filter_nil by (by destruct (pretty k)). cbn [py_mapM].
  assert (Mooncake.size_token Mooncake.size_units (pretty k +:+ low) =
    match py_float (pretty k) with Some f => int_of_float (scale_float f (10 * u)) | None => Raise ValueError end) as ->.
  { unfold low. destruct Hu as [-> | ->]; cbn [Z.eqb Pos.eqb Mooncake.size_token Mooncake.size_units].
    - by rewrite strip_suffix_app.
    - rewrite strip_suffix_app. unfold strip_suffix at 1. rewrite str_rev_concat. reflexivity. }
  rewrite py_float_nat by lia. pose proof (int_of_scaled_nat k (10 * u) ltac:(lia) ltac:(lia)) as Hs.
  destruct (round_double k 1) as [m e]. rewrite Hs. do 3 f_equal. by destruct Hu as [-> | ->].
Qed.

Lemma sizes_roundtrip_witness : human_bytes (64 * 1024) = "64KB" ∧ Mooncake.parse_sizes (human_bytes (64 * 1024 ^ 1)) = Ret [65536].
Proof.
  split; [vm_compute; reflexivity|].
  refine (proj2 (sizes_roundtrip 64 1 _ _)); [lia|by left].
Defined.
End Tables.
